(** * The sharded Parquet reader library (parquet_reader_lib.cpp)

    A shallow embedding of the read-only, time-partitioned columnar access
    layer: the batched leaf cursor ([Int64Cursor]), the list assemblers, the
    three row-group streamers, the three batch readers and file discovery.

    Conventions of the embedding.
    - [int64_t] timestamps and values are [Z]; [uint32_t] counters and offsets
      are [Z] reduced with [u32]; indices into vectors are [nat].
    - A C++ exception is the [Throw] outcome of [Res].  The loops of the
      source that are not structurally bounded carry a step bound computed
      from the state; [Hang] is the outcome of a bound that ran out, and is
      shown not to occur.
    - The process-wide toggles [g_debug] and [g_prefetch] are at their
      default [false]: only the [WARN] lines reach [cerr].
    - The Parquet library itself is outside the repository; [Parquet] below
      is the model of the few primitives the reader calls. *)

From Stdlib Require Import String Ascii ZArith Bool Lia Arith List.
From Stdlib Require Import DecimalString.
Import ListNotations.
Open Scope string_scope.
Open Scope list_scope.
Open Scope Z_scope.

Set Implicit Arguments.

(** ** Outcomes of a call *)

Inductive Res (A : Type) : Type :=
| Ok (a : A)
| Throw (what : string)
| Hang.

Arguments Ok {A} a.
Arguments Throw {A} what.
Arguments Hang {A}.

Definition bind {A B : Type} (m : Res A) (k : A -> Res B) : Res B :=
  match m with
  | Ok a => k a
  | Throw w => Throw w
  | Hang => Hang
  end.

Declare Scope res_scope.
Delimit Scope res_scope with res.
Notation "x <- m ;; k" := (bind m (fun x => k))
  (at level 100, m at next level, right associativity) : res_scope.
Notation "' p <- m ;; k" := (bind m (fun x => match x with p => k end))
  (at level 100, p pattern, m at next level, right associativity) : res_scope.
Open Scope res_scope.

Definition returns {A : Type} (m : Res A) : Prop := exists a, m = Ok a.

(** ** Fixed-width arithmetic *)

Definition u32 (z : Z) : Z := z mod 2 ^ 32.

(** ** The Parquet primitives the reader relies on *)

Module Parquet.

(** [schema->Column(i)]: the descriptor of a leaf. *)
Record ColumnDescriptor := {
  path : string;                 (* [path()->ToDotString()] *)
  physical_int64 : bool;
  max_definition_level : Z;
  max_repetition_level : Z
}.

(** One column chunk of a row group: the level stream, one (def, rep) pair
    per slot, and the value stream, one value per slot whose definition
    level is the maximum.  A [damaged] chunk stands for truncated or
    corrupted pages: reading past what is stored throws. *)
Record ColumnChunk := {
  slots : list (Z * Z);
  stored : list Z;
  damaged : bool
}.

Record RowGroup := {
  num_rows : nat;
  chunks : list ColumnChunk      (* in schema order *)
}.

Record File := {
  schema : list ColumnDescriptor;
  row_groups : list RowGroup
}.

(** A [ColumnReader] positioned inside a chunk. *)
Record ColumnReader := {
  rd_descr : ColumnDescriptor;
  rd_slots : list (Z * Z);
  rd_stored : list Z;
  rd_damaged : bool
}.

Definition slot_def (max_def : Z) (s : Z * Z) : Z :=
  if max_def =? 0 then 0 else fst s.
Definition slot_rep (max_rep : Z) (s : Z * Z) : Z :=
  if max_rep =? 0 then 0 else snd s.

Definition present (max_def : Z) (s : Z * Z) : bool :=
  slot_def max_def s =? max_def.

Definition count_present (max_def : Z) (l : list (Z * Z)) : nat :=
  length (filter (present max_def) l).

(** [RowGroupReader::Column(i)] *)
Definition Column (f : File) (rg : RowGroup) (i : nat) : Res ColumnReader :=
  match nth_error (schema f) i, nth_error (chunks rg) i with
  | Some d, Some c =>
      Ok {| rd_descr := d; rd_slots := slots c; rd_stored := stored c;
            rd_damaged := damaged c |}
  | _, _ => Throw "Invalid column index"
  end.

(** [ReadBatch(batch, def_levels, rep_levels, values, &values_read)] with
    level buffers: up to [batch] slots are read, together with the values
    of the slots among them that carry one (fewer when the value stream is
    short).  The result is the levels read, the values read and the
    reader after the call. *)
Definition ReadBatch (batch : nat) (rd : ColumnReader)
  : Res (list (Z * Z) * list Z * ColumnReader) :=
  match rd_slots rd with
  | [] =>
      if rd_damaged rd then Throw "Unexpected end of stream"
      else Ok ([], [], rd)
  | _ =>
      let lv := firstn batch (rd_slots rd) in
      let need := count_present (max_definition_level (rd_descr rd)) lv in
      Ok (lv, firstn need (rd_stored rd),
          {| rd_descr := rd_descr rd;
             rd_slots := skipn batch (rd_slots rd);
             rd_stored := skipn need (rd_stored rd);
             rd_damaged := rd_damaged rd |})
  end.

(** [ReadBatch(batch, nullptr, nullptr, values, &values_read)]: without
    level buffers every slot is read as a value. *)
Definition ReadBatchFlat (batch : nat) (rd : ColumnReader)
  : Res (list Z * ColumnReader) :=
  match rd_stored rd with
  | [] =>
      if rd_damaged rd then Throw "Unexpected end of stream"
      else Ok ([], rd)
  | _ =>
      Ok (firstn batch (rd_stored rd),
          {| rd_descr := rd_descr rd;
             rd_slots := skipn batch (rd_slots rd);
             rd_stored := skipn batch (rd_stored rd);
             rd_damaged := rd_damaged rd |})
  end.

End Parquet.

(** ** Internal low-level batched cursor *)

Record Entry := {
  def : Z;
  rep : Z;
  has_value : bool;
  value : Z;
  valid : bool
}.

(** [Entry{}] *)
Definition Entry0 : Entry :=
  {| def := 0; rep := 0; has_value := false; value := 0; valid := false |}.

Definition BATCH : nat := Z.to_nat 65536.

Record Int64Cursor := {
  r : Parquet.ColumnReader;
  max_def : Z;
  max_rep : Z;
  eof : bool;
  has_pending : bool;
  pending : Entry;
  defbuf : list Z;
  repbuf : list Z;
  valbuf : list Z;
  levels_in_buf : nat;
  level_idx : nat;
  values_in_buf : nat;
  value_idx : nat
}.

(** A read into a buffer overwrites its first cells and leaves the others. *)
Definition overwrite {A : Type} (buf new : list A) : list A :=
  new ++ skipn (length new) buf.

(** The members of a cursor right after construction. *)
Definition Int64Cursor_init (col : Parquet.ColumnReader) : Int64Cursor :=
  let descr := Parquet.rd_descr col in
  let md := Parquet.max_definition_level descr in
  let mr := Parquet.max_repetition_level descr in
  {| r := col; max_def := md; max_rep := mr;
     eof := false; has_pending := false; pending := Entry0;
     defbuf := if md =? 0 then [] else repeat 0 BATCH;
     repbuf := if mr =? 0 then [] else repeat 0 BATCH;
     valbuf := repeat 0 BATCH;
     levels_in_buf := 0; level_idx := 0;
     values_in_buf := 0; value_idx := 0 |}.

(** [Int64Cursor(col, descr)] *)
Definition Int64Cursor_new (col : Parquet.ColumnReader) : Res Int64Cursor :=
  if negb (Parquet.physical_int64 (Parquet.rd_descr col))
  then Throw "Column is not INT64"
  else Ok (Int64Cursor_init col).

Definition refill (c : Int64Cursor) : Res (bool * Int64Cursor) :=
  if eof c then Ok (false, c)
  else
    '(lv, vs, r') <- Parquet.ReadBatch BATCH (r c) ;;
    let c1 :=
      {| r := r'; max_def := max_def c; max_rep := max_rep c;
         eof := eof c; has_pending := has_pending c; pending := pending c;
         defbuf := if max_def c =? 0 then defbuf c
                   else overwrite (defbuf c) (map fst lv);
         repbuf := if max_rep c =? 0 then repbuf c
                   else overwrite (repbuf c) (map snd lv);
         valbuf := overwrite (valbuf c) vs;
         levels_in_buf := length lv; level_idx := level_idx c;
         values_in_buf := values_in_buf c; value_idx := value_idx c |} in
    if (levels_in_buf c1 =? 0)%nat then
      Ok (false,
          {| r := r c1; max_def := max_def c1; max_rep := max_rep c1;
             eof := true; has_pending := has_pending c1;
             pending := pending c1;
             defbuf := defbuf c1; repbuf := repbuf c1; valbuf := valbuf c1;
             levels_in_buf := levels_in_buf c1; level_idx := level_idx c1;
             values_in_buf := values_in_buf c1; value_idx := value_idx c1 |})
    else
      Ok (true,
          {| r := r c1; max_def := max_def c1; max_rep := max_rep c1;
             eof := eof c1; has_pending := has_pending c1;
             pending := pending c1;
             defbuf := defbuf c1; repbuf := repbuf c1; valbuf := valbuf c1;
             levels_in_buf := levels_in_buf c1; level_idx := 0;
             values_in_buf := length vs; value_idx := 0 |}).

(** The entry at [level_idx], read from the buffers. *)
Definition buffered_def (c : Int64Cursor) (i : nat) : Z :=
  if max_def c =? 0 then 0 else nth i (defbuf c) 0.
Definition buffered_rep (c : Int64Cursor) (i : nat) : Z :=
  if max_rep c =? 0 then 0 else nth i (repbuf c) 0.

Definition set_pending (c : Int64Cursor) (e : Entry) (vi : nat) : Int64Cursor :=
  {| r := r c; max_def := max_def c; max_rep := max_rep c;
     eof := eof c; has_pending := true; pending := e;
     defbuf := defbuf c; repbuf := repbuf c; valbuf := valbuf c;
     levels_in_buf := levels_in_buf c; level_idx := S (level_idx c);
     values_in_buf := values_in_buf c; value_idx := vi |}.

Definition ensure_pending (c : Int64Cursor) : Res (bool * Int64Cursor) :=
  if eof c && negb (has_pending c) then Ok (false, c)
  else if has_pending c then Ok (true, c)
  else
    '(more, c) <- (if (levels_in_buf c <=? level_idx c)%nat
                   then refill c else Ok (true, c)) ;;
    if negb more then Ok (false, c)
    else
      let d := buffered_def c (level_idx c) in
      let rp := buffered_rep c (level_idx c) in
      if d =? max_def c then
        if (values_in_buf c <=? value_idx c)%nat
        then Throw "value_idx overflow"
        else
          Ok (true,
              set_pending c
                {| def := d; rep := rp; has_value := true;
                   value := nth (value_idx c) (valbuf c) 0; valid := true |}
                (S (value_idx c)))
      else
        Ok (true,
            set_pending c
              {| def := d; rep := rp; has_value := false;
                 value := 0; valid := true |}
              (value_idx c)).

Definition clear_pending (c : Int64Cursor) : Int64Cursor :=
  {| r := r c; max_def := max_def c; max_rep := max_rep c;
     eof := eof c; has_pending := false; pending := pending c;
     defbuf := defbuf c; repbuf := repbuf c; valbuf := valbuf c;
     levels_in_buf := levels_in_buf c; level_idx := level_idx c;
     values_in_buf := values_in_buf c; value_idx := value_idx c |}.

Definition take (c : Int64Cursor) : Res (Entry * Int64Cursor) :=
  '(more, c) <- ensure_pending c ;;
  if negb more then Ok (Entry0, c)
  else Ok (pending c, clear_pending c).

(** [peek] returns a pointer to [pending], or [nullptr]. *)
Definition peek (c : Int64Cursor) : Res (option Entry * Int64Cursor) :=
  '(more, c) <- ensure_pending c ;;
  if negb more then Ok (None, c)
  else Ok (Some (pending c), c).

(** The number of slots the cursor still holds or can still read: the bound
    of the assembler loops, each turn of which takes one entry. *)
Definition slots_left (c : Int64Cursor) : nat :=
  ((if has_pending c then 1 else 0)
   + (levels_in_buf c - level_idx c)
   + length (Parquet.rd_slots (r c)))%nat.

(** [find_col_idx]; the result is [-1] when no leaf has that dotted path. *)
Fixpoint find_col_idx_from (cols : list Parquet.ColumnDescriptor)
    (name : string) (i : Z) : Z :=
  match cols with
  | [] => -1
  | d :: cols' =>
      if String.eqb (Parquet.path d) name then i
      else find_col_idx_from cols' name (i + 1)
  end.

Definition find_col_idx (schema : list Parquet.ColumnDescriptor)
    (name : string) : Z :=
  find_col_idx_from schema name 0.

(** ** List assemblers *)

(** [if (out) out->push_back(v)] *)
Definition push_back_opt (out : option (list Z)) (v : Z) : option (list Z) :=
  match out with
  | Some l => Some (l ++ [v])
  | None => None
  end.

Fixpoint leaf_loop (bound : nat) (leaf : Int64Cursor)
    (out_vals : option (list Z)) (count : Z)
  : Res (Z * Int64Cursor * option (list Z)) :=
  match bound with
  | O => Hang
  | S bound' =>
      '(e, leaf) <- take leaf ;;
      let out_vals := push_back_opt out_vals (value e) in
      let count := u32 (count + 1) in
      '(n, leaf) <- peek leaf ;;
      match n with
      | None => Ok (count, leaf, out_vals)
      | Some n =>
          if rep n =? 0 then Ok (count, leaf, out_vals)
          else leaf_loop bound' leaf out_vals count
      end
  end.

(** Read LIST from a single leaf.  Returns count appended. *)
Definition append_list_from_leaf_for_row (leaf : Int64Cursor)
    (out_vals : option (list Z))
  : Res (Z * Int64Cursor * option (list Z)) :=
  '(p, leaf) <- peek leaf ;;
  match p with
  | None => Ok (0, leaf, out_vals)
  | Some p =>
      let empty_start := negb (has_value p) && (rep p =? 0) in
      if empty_start then
        '(_, leaf) <- take leaf ;;
        Ok (0, leaf, out_vals)
      else leaf_loop (slots_left leaf) leaf out_vals 0
  end.

Fixpoint pairs_loop (bound : nat) (px qty : Int64Cursor)
    (out_px out_qty : option (list Z)) (count : Z)
  : Res (Z * (Int64Cursor * Int64Cursor)
         * (option (list Z) * option (list Z))) :=
  match bound with
  | O => Hang
  | S bound' =>
      '(epx, px) <- take px ;;
      '(eqy, qty) <- take qty ;;
      let out_px := push_back_opt out_px (value epx) in
      let out_qty := push_back_opt out_qty (value eqy) in
      let count := u32 (count + 1) in
      '(npx, px) <- peek px ;;
      '(nqy, qty) <- peek qty ;;
      match npx, nqy with
      | Some npx, Some nqy =>
          if rep npx =? 0 then Ok (count, (px, qty), (out_px, out_qty))
          else if negb (rep npx =? rep nqy)
               then Ok (count, (px, qty), (out_px, out_qty))
               else pairs_loop bound' px qty out_px out_qty count
      | _, _ => Ok (count, (px, qty), (out_px, out_qty))
      end
  end.

(** Read LIST pairs (px, qty) per row; returns number of pairs appended. *)
Definition append_list_pairs_for_row_typed (px qty : Int64Cursor)
    (out_px out_qty : option (list Z))
  : Res (Z * (Int64Cursor * Int64Cursor)
         * (option (list Z) * option (list Z))) :=
  '(p_peek, px) <- peek px ;;
  '(q_peek, qty) <- peek qty ;;
  match p_peek, q_peek with
  | Some p, Some q =>
      let empty_start :=
        (negb (has_value p) && (rep p =? 0))
        && (negb (has_value q) && (rep q =? 0)) in
      if empty_start then
        '(_, px) <- take px ;;
        '(_, qty) <- take qty ;;
        Ok (0, (px, qty), (out_px, out_qty))
      else pairs_loop (slots_left px) px qty out_px out_qty 0
  | _, _ => Ok (0, (px, qty), (out_px, out_qty))
  end.

(** ** Date helpers and file mapping *)

(** Two's-complement reduction of a signed 64-bit result. *)
Definition wrap64 (z : Z) : Z := (z + 2 ^ 63) mod 2 ^ 64 - 2 ^ 63.

(** The two libc calls of the date helpers, on the proleptic Gregorian
    calendar, by the usual era arithmetic over days since 1970-01-01. *)
Module Libc.

Definition civil_from_days (z : Z) : Z * Z * Z :=
  let z := z + 719468 in
  let era := z / 146097 in
  let doe := z - era * 146097 in
  let yoe := (doe - doe / 1460 + doe / 36524 - doe / 146096) / 365 in
  let y := yoe + era * 400 in
  let doy := doe - (365 * yoe + yoe / 4 - yoe / 100) in
  let mp := (5 * doy + 2) / 153 in
  let d := doy - (153 * mp + 2) / 5 + 1 in
  let m := if mp <? 10 then mp + 3 else mp - 9 in
  (if m <=? 2 then y + 1 else y, m, d).

Definition days_from_civil (y m d : Z) : Z :=
  let y := if m <=? 2 then y - 1 else y in
  let era := y / 400 in
  let yoe := y - era * 400 in
  let doy := (153 * (if 2 <? m then m - 3 else m + 9) + 2) / 5 + d - 1 in
  let doe := yoe * 365 + yoe / 4 - yoe / 100 + doy in
  era * 146097 + doe - 719468.

(** [gmtime_r(&s, &tm)]: the fields [tm_year + 1900], [tm_mon + 1],
    [tm_mday] of the broken-down UTC time. *)
Definition gmtime_r (s : Z) : Z * Z * Z := civil_from_days (s / 86400).

(** [timegm(&tm)] for midnight of the given civil date. *)
Definition timegm (y m d : Z) : Z := days_from_civil y m d * 86400.

End Libc.

Record YMD := { year : Z; month : Z; day : Z }.

Definition ymd_utc_from_ns (ns : Z) : YMD :=
  let s := Z.quot ns 1000000000 in
  let '(y, m, d) := Libc.gmtime_r s in
  {| year := y; month := m; day := d |}.

Definition floor_day_ns (ns : Z) : Z :=
  let sec := Z.quot ns 1000000000 in
  let day_sec := sec - Z.rem sec 86400 in
  wrap64 (day_sec * 1000000000).

Definition ymd_utc_start_ns (Y M D : Z) : Z :=
  let s := Libc.timegm Y M D in
  if s =? -1 then 0 else wrap64 (s * 1000000000).

Record Candidate := {
  path : string;
  file_start_ns : Z;
  file_end_ns : Z
}.

(** [tolower] in the C locale. *)
Definition tolower (c : ascii) : ascii :=
  let n := nat_of_ascii c in
  if ((65 <=? n) && (n <=? 90))%nat then ascii_of_nat (n + 32) else c.

Fixpoint to_lower (s : string) : string :=
  match s with
  | EmptyString => EmptyString
  | String c s' => String (tolower c) (to_lower s')
  end.

(** Normalize/accept market input *)
Definition norm_market (m : option string) : option string :=
  match m with
  | None => None
  | Some m =>
      let s := to_lower m in
      let s := if String.eqb s "futures" then "fut" else s in
      let s := if String.eqb s "future" then "fut" else s in
      if String.eqb s "spot" || String.eqb s "fut" then Some s else None
  end.

(** [ostream << int] *)
Definition dec (z : Z) : string := NilZero.string_of_int (Z.to_int z).

Definition day_ns : Z := 86400000000000.

(** The path of the strict layout for one market and one day. *)
Definition strict_path (root symb base_type mkt : string) (ymd : YMD) : string :=
  let dir := (root ++ "/" ++ base_type ++ "_" ++ mkt ++ "/" ++ symb ++ "/"
              ++ dec (year ymd) ++ "/" ++ dec (month ymd) ++ "/")%string in
  let file := ("bn_" ++ base_type ++ "_" ++ mkt ++ "_" ++ symb ++ "_"
               ++ dec (year ymd) ++ "_" ++ dec (month ymd) ++ "_"
               ++ dec (day ymd) ++ ".parquet")%string in
  (dir ++ file)%string.

(** What is on disk: [None] when the path does not exist; otherwise the
    Parquet file stored there, or [None] for a file that cannot be opened
    as one. *)
Definition Disk := string -> option (option Parquet.File).

Definition fs_exists (disk : Disk) (p : string) : bool :=
  match disk p with Some _ => true | None => false end.

(** [ParquetFileReader::OpenFile(path)] *)
Definition OpenFile (disk : Disk) (p : string) : Res Parquet.File :=
  match disk p with
  | Some (Some f) => Ok f
  | Some None => Throw "Parquet magic bytes not found in footer"
  | None => Throw "Failed to open local file"
  end.

(** [candidate_files_strict] and its two nested loops.  The [sampling]
    argument only feeds a debug note and is left out. *)
Section Discovery.

Variable disk : Disk.
Variables root symb base_type : string.

(** The [while (cur <= end_floor)] loop for one market. *)
Fixpoint day_loop (bound : nat) (mkt : string) (cur end_floor : Z)
    (out : list Candidate) : Res (list Candidate) :=
  if cur <=? end_floor then
    match bound with
    | O => Hang
    | S bound' =>
        let ymd := ymd_utc_from_ns cur in
        let file_start :=
          ymd_utc_start_ns (year ymd) (month ymd) (day ymd) in
        let file_end := wrap64 (file_start + day_ns) in
        let path := strict_path root symb base_type mkt ymd in
        let out :=
          if fs_exists disk path
          then out ++ [{| path := path; file_start_ns := file_start;
                          file_end_ns := file_end |}]
          else out in
        day_loop bound' mkt (wrap64 (cur + day_ns)) end_floor out
    end
  else Ok out.

Fixpoint market_loop (markets : list string) (start_ns end_floor : Z)
    (out : list Candidate) : Res (list Candidate) :=
  match markets with
  | [] => Ok out
  | mkt :: markets' =>
      let cur := floor_day_ns start_ns in
      out <- day_loop (Z.to_nat ((end_floor - cur) / day_ns + 1))
               mkt cur end_floor out ;;
      market_loop markets' start_ns end_floor out
  end.

Definition candidate_files_strict (market : option string)
    (start_ns end_ns : Z) : Res (list Candidate) :=
  if end_ns <=? start_ns then Ok []
  else
    markets <-
      match market with
      | Some _ =>
          match norm_market market with
          | None => Throw "market must be 'fut' or 'spot'"
          | Some nm => Ok [nm]
          end
      | None => Ok ["fut"; "spot"]
      end ;;
    let end_floor := floor_day_ns (wrap64 (end_ns - 1)) in
    market_loop markets start_ns end_floor [].

End Discovery.

(** ** Row group -> column vectors *)

(** The state of a [FileStreamerTopCols], [FileStreamerTradeCols] or
    [FileStreamerDeltaCols]: the three structs have the same fields, the
    open file ([reader], [md], [schema]) and [rg_idx]. *)
Record FileStreamer := {
  file : Parquet.File;
  rg_idx : nat
}.

(** The constructor: [ParquetFileReader::OpenFile(path)]. *)
Definition FileStreamer_new (disk : Disk) (p : string) : Res FileStreamer :=
  f <- OpenFile disk p ;;
  Ok {| file := f; rg_idx := 0 |}.

Definition in_window (start_ns end_ns t : Z) : bool :=
  (start_ns <=? t) && (t <? end_ns).

Fixpoint read_loop (bound rows : nat) (rd : Parquet.ColumnReader)
    (out : list Z) (short : string) : Res (list Z) :=
  let finish (out : list Z) :=
    if (length out =? rows)%nat then Ok out else Throw short in
  if (length out <? rows)%nat then
    match bound with
    | O => Hang
    | S bound' =>
        '(vs, rd) <- Parquet.ReadBatchFlat (rows - length out) rd ;;
        if (length vs =? 0)%nat then finish out
        else read_loop bound' rows rd (out ++ vs) short
    end
  else finish out.

(** [read_required_i64_column] and [read_required_bool_column]; [out] holds
    the [done] cells written so far, all [rows] of them on return. *)
Definition read_required_column (f : Parquet.File) (rg : Parquet.RowGroup)
    (col_idx : Z) (short : string) : Res (list Z) :=
  let rows := Parquet.num_rows rg in
  col <- Parquet.Column f rg (Z.to_nat col_idx) ;;
  read_loop (S rows) rows col [] short.

Definition read_required_i64_column f rg col_idx :=
  read_required_column f rg col_idx "Short read in required column".
Definition read_required_bool_column f rg col_idx :=
  read_required_column f rg col_idx "Short read in required bool column".

(** [for i: if (ts_all[i] in window) out_vec[w++] = tmp[i]] *)
Fixpoint scatter (start_ns end_ns : Z) (ts_all tmp : list Z) : list Z :=
  match ts_all, tmp with
  | t :: ts_all', x :: tmp' =>
      if in_window start_ns end_ns t
      then x :: scatter start_ns end_ns ts_all' tmp'
      else scatter start_ns end_ns ts_all' tmp'
  | _, _ => []
  end.

(** The lambda [read_and_scatter] of the top and trade streamers, guarded by
    the column's flag: an unselected vector is cleared. *)
Definition read_and_scatter (kind : string) (is_bool : bool)
    (f : Parquet.File) (rg : Parquet.RowGroup) (start_ns end_ns : Z)
    (ts_all : list Z) (selected : bool) (name : string) : Res (list Z) :=
  if selected then
    let idx := find_col_idx (Parquet.schema f) name in
    if idx <? 0 then Throw (kind ++ ": missing " ++ name)%string
    else
      tmp <- (if is_bool then read_required_bool_column f rg idx
              else read_required_i64_column f rg idx) ;;
      Ok (scatter start_ns end_ns ts_all tmp)
  else Ok [].

(** [sel.x ? v.data() : nullptr] *)
Definition ptr (selected : bool) (v : list Z) : option (list Z) :=
  if selected then Some v else None.

Module Top.

Record Select := {
  ts : bool; ask_px : bool; ask_qty : bool; bid_px : bool; bid_qty : bool;
  valu : bool;
  min_bid_px : bool; max_bid_px : bool; min_ask_px : bool;
  max_ask_px : bool; min_bid_ts : bool; max_bid_ts : bool;
  min_ask_ts : bool; max_ask_ts : bool
}.

(** [TopSelect{}] *)
Definition Select_default : Select :=
  {| ts := true; ask_px := true; ask_qty := true; bid_px := true;
     bid_qty := true; valu := true;
     min_bid_px := false; max_bid_px := false; min_ask_px := false;
     max_ask_px := false; min_bid_ts := false; max_bid_ts := false;
     min_ask_ts := false; max_ask_ts := false |}.

(** The batch buffers of [TopBatchReader::Impl]. *)
Record Bufs := {
  ts_ : list Z; apx_ : list Z; aq_ : list Z; bpx_ : list Z; bq_ : list Z;
  val_ : list Z;
  min_bpx_ : list Z; max_bpx_ : list Z; min_apx_ : list Z;
  max_apx_ : list Z; min_bts_ : list Z; max_bts_ : list Z;
  min_ats_ : list Z; max_ats_ : list Z
}.

Definition Bufs_empty : Bufs :=
  {| ts_ := []; apx_ := []; aq_ := []; bpx_ := []; bq_ := []; val_ := [];
     min_bpx_ := []; max_bpx_ := []; min_apx_ := []; max_apx_ := [];
     min_bts_ := []; max_bts_ := []; min_ats_ := []; max_ats_ := [] |}.

(** The [while (true)] of [next_rg], by recursion on the row groups from
    [rg_idx] on: [rgs] is empty when [rg_idx >= md->num_row_groups()]. *)
Fixpoint next_rg_from (f : Parquet.File) (rgs : list Parquet.RowGroup)
    (rg_idx : nat) (start_ns end_ns : Z) (sel : Select) (b : Bufs)
  : Res (bool * nat * Bufs) :=
  match rgs with
  | [] => Ok (false, rg_idx, b)
  | rg :: rgs' =>
      let rg_idx := S rg_idx in
      let ts_i := find_col_idx (Parquet.schema f) "ts" in
      if ts_i <? 0 then Throw "top: missing ts"
      else
        ts_all <- read_required_i64_column f rg ts_i ;;
        let cnt := length (filter (in_window start_ns end_ns) ts_all) in
        if (cnt =? 0)%nat
        then next_rg_from f rgs' rg_idx start_ns end_ns sel b
        else
          let v_ts := filter (in_window start_ns end_ns) ts_all in
          let col := read_and_scatter "top" false f rg start_ns end_ns
                       ts_all in
          v_apx <- col (ask_px sel) "ask_px" ;;
          v_aq <- col (ask_qty sel) "ask_qty" ;;
          v_bpx <- col (bid_px sel) "bid_px" ;;
          v_bq <- col (bid_qty sel) "bid_qty" ;;
          v_val <- col (valu sel) "valu" ;;
          v_min_bpx <- col (min_bid_px sel) "min_bid_px" ;;
          v_max_bpx <- col (max_bid_px sel) "max_bid_px" ;;
          v_min_apx <- col (min_ask_px sel) "min_ask_px" ;;
          v_max_apx <- col (max_ask_px sel) "max_ask_px" ;;
          v_min_bts <- col (min_bid_ts sel) "min_bid_ts" ;;
          v_max_bts <- col (max_bid_ts sel) "max_bid_ts" ;;
          v_min_ats <- col (min_ask_ts sel) "min_ask_ts" ;;
          v_max_ats <- col (max_ask_ts sel) "max_ask_ts" ;;
          Ok (true, rg_idx,
              {| ts_ := v_ts; apx_ := v_apx; aq_ := v_aq; bpx_ := v_bpx;
                 bq_ := v_bq; val_ := v_val;
                 min_bpx_ := v_min_bpx; max_bpx_ := v_max_bpx;
                 min_apx_ := v_min_apx; max_apx_ := v_max_apx;
                 min_bts_ := v_min_bts; max_bts_ := v_max_bts;
                 min_ats_ := v_min_ats; max_ats_ := v_max_ats |})
  end.

(** [FileStreamerTopCols::next_rg] *)
Definition next_rg (start_ns end_ns : Z) (sel : Select)
    (fs : FileStreamer) (b : Bufs) : Res (bool * FileStreamer * Bufs) :=
  '(ok, i, b) <- next_rg_from (file fs)
                   (skipn (rg_idx fs) (Parquet.row_groups (file fs)))
                   (rg_idx fs) start_ns end_ns sel b ;;
  Ok (ok, {| file := file fs; rg_idx := i |}, b).

(** [TopColsView]; a pointer is the vector it points into, or [None]. *)
Record ColsView := {
  view_ts : option (list Z);
  view_ask_px : option (list Z); view_ask_qty : option (list Z);
  view_bid_px : option (list Z); view_bid_qty : option (list Z);
  view_valu : option (list Z);
  view_min_bid_px : option (list Z); view_max_bid_px : option (list Z);
  view_min_ask_px : option (list Z); view_max_ask_px : option (list Z);
  view_min_bid_ts : option (list Z); view_max_bid_ts : option (list Z);
  view_min_ask_ts : option (list Z); view_max_ask_ts : option (list Z);
  view_file : string;
  n : nat
}.

Definition fill_view (sel : Select) (b : Bufs) (base : string) : ColsView :=
  {| view_ts := ptr (ts sel) (ts_ b);
     view_ask_px := ptr (ask_px sel) (apx_ b);
     view_ask_qty := ptr (ask_qty sel) (aq_ b);
     view_bid_px := ptr (bid_px sel) (bpx_ b);
     view_bid_qty := ptr (bid_qty sel) (bq_ b);
     view_valu := ptr (valu sel) (val_ b);
     view_min_bid_px := ptr (min_bid_px sel) (min_bpx_ b);
     view_max_bid_px := ptr (max_bid_px sel) (max_bpx_ b);
     view_min_ask_px := ptr (min_ask_px sel) (min_apx_ b);
     view_max_ask_px := ptr (max_ask_px sel) (max_apx_ b);
     view_min_bid_ts := ptr (min_bid_ts sel) (min_bts_ b);
     view_max_bid_ts := ptr (max_bid_ts sel) (max_bts_ b);
     view_min_ask_ts := ptr (min_ask_ts sel) (min_ats_ b);
     view_max_ask_ts := ptr (max_ask_ts sel) (max_ats_ b);
     view_file := base;
     n := length (ts_ b) |}.

End Top.

Module Trade.

Record Select := {
  ts : bool; px : bool; qty : bool; tradeId : bool; buyerOrderId : bool;
  sellerOrderId : bool; tradeTime : bool; isMarket : bool; eventTime : bool
}.

(** [TradeSelect{}] *)
Definition Select_default : Select :=
  {| ts := true; px := true; qty := true; tradeId := true;
     buyerOrderId := true; sellerOrderId := true; tradeTime := true;
     isMarket := true; eventTime := true |}.

Record Bufs := {
  ts_ : list Z; px_ : list Z; qty_ : list Z; tid_ : list Z; boid_ : list Z;
  soid_ : list Z; ttime_ : list Z; isMkt_ : list Z; evt_ : list Z
}.

Definition Bufs_empty : Bufs :=
  {| ts_ := []; px_ := []; qty_ := []; tid_ := []; boid_ := [];
     soid_ := []; ttime_ := []; isMkt_ := []; evt_ := [] |}.

(** The [while (true)] of [next_rg], as for the top streamer. *)
Fixpoint next_rg_from (f : Parquet.File) (rgs : list Parquet.RowGroup)
    (rg_idx : nat) (start_ns end_ns : Z) (sel : Select) (b : Bufs)
  : Res (bool * nat * Bufs) :=
  match rgs with
  | [] => Ok (false, rg_idx, b)
  | rg :: rgs' =>
      let rg_idx := S rg_idx in
      let ts_i := find_col_idx (Parquet.schema f) "ts" in
      if ts_i <? 0 then Throw "trade: missing ts"
      else
        ts_all <- read_required_i64_column f rg ts_i ;;
        let cnt := length (filter (in_window start_ns end_ns) ts_all) in
        if (cnt =? 0)%nat
        then next_rg_from f rgs' rg_idx start_ns end_ns sel b
        else
          let v_ts := filter (in_window start_ns end_ns) ts_all in
          let i64 := read_and_scatter "trade" false f rg start_ns end_ns
                       ts_all in
          let bool_ := read_and_scatter "trade" true f rg start_ns end_ns
                         ts_all in
          v_px <- i64 (px sel) "px" ;;
          v_qty <- i64 (qty sel) "qty" ;;
          v_tid <- i64 (tradeId sel) "tradeId" ;;
          v_boid <- i64 (buyerOrderId sel) "buyerOrderId" ;;
          v_soid <- i64 (sellerOrderId sel) "sellerOrderId" ;;
          v_ttime <- i64 (tradeTime sel) "tradeTime" ;;
          v_isMkt <- bool_ (isMarket sel) "isMarket" ;;
          v_evt <- i64 (eventTime sel) "eventTime" ;;
          Ok (true, rg_idx,
              {| ts_ := v_ts; px_ := v_px; qty_ := v_qty; tid_ := v_tid;
                 boid_ := v_boid; soid_ := v_soid; ttime_ := v_ttime;
                 isMkt_ := v_isMkt; evt_ := v_evt |})
  end.

(** [FileStreamerTradeCols::next_rg] *)
Definition next_rg (start_ns end_ns : Z) (sel : Select)
    (fs : FileStreamer) (b : Bufs) : Res (bool * FileStreamer * Bufs) :=
  '(ok, i, b) <- next_rg_from (file fs)
                   (skipn (rg_idx fs) (Parquet.row_groups (file fs)))
                   (rg_idx fs) start_ns end_ns sel b ;;
  Ok (ok, {| file := file fs; rg_idx := i |}, b).

(** [TradeColsView] *)
Record ColsView := {
  view_ts : option (list Z); view_px : option (list Z);
  view_qty : option (list Z); view_tradeId : option (list Z);
  view_buyerOrderId : option (list Z);
  view_sellerOrderId : option (list Z);
  view_tradeTime : option (list Z); view_isMarket : option (list Z);
  view_eventTime : option (list Z);
  view_file : string;
  n : nat
}.

Definition fill_view (sel : Select) (b : Bufs) (base : string) : ColsView :=
  {| view_ts := ptr (ts sel) (ts_ b);
     view_px := ptr (px sel) (px_ b);
     view_qty := ptr (qty sel) (qty_ b);
     view_tradeId := ptr (tradeId sel) (tid_ b);
     view_buyerOrderId := ptr (buyerOrderId sel) (boid_ b);
     view_sellerOrderId := ptr (sellerOrderId sel) (soid_ b);
     view_tradeTime := ptr (tradeTime sel) (ttime_ b);
     view_isMarket := ptr (isMarket sel) (isMkt_ b);
     view_eventTime := ptr (eventTime sel) (evt_ b);
     view_file := base;
     n := length (ts_ b) |}.

End Trade.

Module Delta.

Record Select := {
  ts : bool; firstId : bool; lastId : bool; eventTime : bool;
  ask_px : bool; ask_qty : bool; bid_px : bool; bid_qty : bool
}.

(** [DeltaSelect{}] *)
Definition Select_default : Select :=
  {| ts := true; firstId := true; lastId := true; eventTime := true;
     ask_px := true; ask_qty := true; bid_px := true; bid_qty := true |}.

Record Bufs := {
  ts_ : list Z; fid_ : list Z; lid_ : list Z; evt_ : list Z;
  ask_off_ : list Z; bid_off_ : list Z;
  ask_px_ : list Z; ask_qty_ : list Z; bid_px_ : list Z; bid_qty_ : list Z
}.

Definition Bufs_empty : Bufs :=
  {| ts_ := []; fid_ := []; lid_ := []; evt_ := [];
     ask_off_ := []; bid_off_ := [];
     ask_px_ := []; ask_qty_ := []; bid_px_ := []; bid_qty_ := [] |}.

(** The cursors of one row group.  An [optional<Int64Cursor>] is engaged
    exactly when its column is selected, so the tests on the flags that
    guard a dereference are tests on the option. *)
Record Cursors := {
  c_ts : Int64Cursor;
  c_fid : option Int64Cursor; c_lid : option Int64Cursor;
  c_evt : option Int64Cursor;
  c_apx : option Int64Cursor; c_aqty : option Int64Cursor;
  c_bpx : option Int64Cursor; c_bqty : option Int64Cursor
}.

Definition open_cursor (f : Parquet.File) (rg : Parquet.RowGroup)
    (name missing : string) : Res Int64Cursor :=
  let i := find_col_idx (Parquet.schema f) name in
  if i <? 0 then Throw missing
  else
    col <- Parquet.Column f rg (Z.to_nat i) ;;
    Int64Cursor_new col.

Definition open_if (selected : bool) (f : Parquet.File)
    (rg : Parquet.RowGroup) (name missing : string)
  : Res (option Int64Cursor) :=
  if selected then
    c <- open_cursor f rg name missing ;; Ok (Some c)
  else Ok None.

Definition open_cursors (f : Parquet.File) (rg : Parquet.RowGroup)
    (sel : Select) : Res Cursors :=
  ts <- open_cursor f rg "ts" "depth: missing ts" ;;
  fid <- open_if (firstId sel) f rg "firstId" "depth: missing firstId" ;;
  lid <- open_if (lastId sel) f rg "lastId" "depth: missing lastId" ;;
  evt <- open_if (eventTime sel) f rg "eventTime"
           "depth: missing eventTime" ;;
  apx <- open_if (ask_px sel) f rg "ask.list.element.px"
           "depth: missing ask px" ;;
  aqty <- open_if (ask_qty sel) f rg "ask.list.element.qty"
            "depth: missing ask qty" ;;
  bpx <- open_if (bid_px sel) f rg "bid.list.element.px"
           "depth: missing bid px" ;;
  bqty <- open_if (bid_qty sel) f rg "bid.list.element.qty"
            "depth: missing bid qty" ;;
  Ok {| c_ts := ts; c_fid := fid; c_lid := lid; c_evt := evt;
        c_apx := apx; c_aqty := aqty; c_bpx := bpx; c_bqty := bqty |}.

(** [if (sel.x) e = x->take();] *)
Definition take_opt (c : option Int64Cursor)
  : Res (Entry * option Int64Cursor) :=
  match c with
  | Some c => '(e, c) <- take c ;; Ok (e, Some c)
  | None => Ok (Entry0, None)
  end.

Definition or_keep (out : option (list Z)) (v : list Z) : list Z :=
  match out with Some l => l | None => v end.

(** One side of the book for one row: the [if (need_asks)] and
    [if (need_bids)] blocks, which differ only in the names. *)
Definition side_step (px qty : option Int64Cursor) (in_range : bool)
    (out_px out_qty : list Z)
  : Res (Z * (option Int64Cursor * option Int64Cursor)
         * (list Z * list Z)) :=
  match px, qty with
  | Some p, Some q =>
      '(added, (p, q), (opx, oqty)) <-
        append_list_pairs_for_row_typed p q
          (if in_range then Some out_px else None)
          (if in_range then Some out_qty else None) ;;
      Ok (added, (Some p, Some q),
          (or_keep opx out_px, or_keep oqty out_qty))
  | Some p, None =>
      '(added, p, opx) <-
        append_list_from_leaf_for_row p
          (if in_range then Some out_px else None) ;;
      Ok (added, (Some p, None), (or_keep opx out_px, out_qty))
  | None, Some q =>
      '(added, q, oqty) <-
        append_list_from_leaf_for_row q
          (if in_range then Some out_qty else None) ;;
      Ok (added, (None, Some q), (out_px, or_keep oqty out_qty))
  | None, None => Ok (0, (None, None), (out_px, out_qty))
  end.

Definition push_if (selected : bool) (v : list Z) (x : Z) : list Z :=
  if selected then v ++ [x] else v.

(** The body of [for (r = 0; r < rows; ++r)]. *)
Definition row_step (start_ns end_ns : Z) (sel : Select)
    (cs : Cursors) (b : Bufs) : Res (Cursors * Bufs) :=
  '(e_ts, ts) <- take (c_ts cs) ;;
  '(e_fid, fid) <- take_opt (c_fid cs) ;;
  '(e_lid, lid) <- take_opt (c_lid cs) ;;
  '(e_evt, evt) <- take_opt (c_evt cs) ;;
  let in_range := in_window start_ns end_ns (value e_ts) in
  let need_asks := Delta.ask_px sel || Delta.ask_qty sel in
  let need_bids := Delta.bid_px sel || Delta.bid_qty sel in
  '(asks_added, (apx, aqty), (v_apx, v_aqty)) <-
    side_step (c_apx cs) (c_aqty cs) in_range (ask_px_ b) (ask_qty_ b) ;;
  '(bids_added, (bpx, bqty), (v_bpx, v_bqty)) <-
    side_step (c_bpx cs) (c_bqty cs) in_range (bid_px_ b) (bid_qty_ b) ;;
  let cs := {| c_ts := ts; c_fid := fid; c_lid := lid; c_evt := evt;
               c_apx := apx; c_aqty := aqty; c_bpx := bpx;
               c_bqty := bqty |} in
  if in_range then
    Ok (cs,
        {| ts_ := ts_ b ++ [value e_ts];
           fid_ := push_if (firstId sel) (fid_ b) (value e_fid);
           lid_ := push_if (lastId sel) (lid_ b) (value e_lid);
           evt_ := push_if (eventTime sel) (evt_ b) (value e_evt);
           ask_off_ := push_if need_asks (ask_off_ b)
                         (u32 (last (ask_off_ b) 0 + asks_added));
           bid_off_ := push_if need_bids (bid_off_ b)
                         (u32 (last (bid_off_ b) 0 + bids_added));
           ask_px_ := v_apx; ask_qty_ := v_aqty;
           bid_px_ := v_bpx; bid_qty_ := v_bqty |})
  else
    Ok (cs,
        {| ts_ := ts_ b; fid_ := fid_ b; lid_ := lid_ b; evt_ := evt_ b;
           ask_off_ := ask_off_ b; bid_off_ := bid_off_ b;
           ask_px_ := v_apx; ask_qty_ := v_aqty;
           bid_px_ := v_bpx; bid_qty_ := v_bqty |}).

Fixpoint rows_loop (rows : nat) (start_ns end_ns : Z) (sel : Select)
    (cs : Cursors) (b : Bufs) : Res (Cursors * Bufs) :=
  match rows with
  | O => Ok (cs, b)
  | S rows' =>
      '(cs, b) <- row_step start_ns end_ns sel cs b ;;
      rows_loop rows' start_ns end_ns sel cs b
  end.

(** The vectors after the [clear()] calls and the two seeding
    [push_back(0)]. *)
Definition Bufs_cleared (sel : Select) : Bufs :=
  {| ts_ := []; fid_ := []; lid_ := []; evt_ := [];
     ask_off_ := if ask_px sel || ask_qty sel then [0] else [];
     bid_off_ := if bid_px sel || bid_qty sel then [0] else [];
     ask_px_ := []; ask_qty_ := []; bid_px_ := []; bid_qty_ := [] |}.

(** The [while (true)] of [next_rg], by recursion on the row groups from
    [rg_idx] on. *)
Fixpoint next_rg_from (f : Parquet.File) (rgs : list Parquet.RowGroup)
    (rg_idx : nat) (start_ns end_ns : Z) (sel : Select) (b : Bufs)
  : Res (bool * nat * Bufs) :=
  match rgs with
  | [] => Ok (false, rg_idx, b)
  | rg :: rgs' =>
      let rg_idx := S rg_idx in
      let rows := Parquet.num_rows rg in
      cs <- open_cursors f rg sel ;;
      '(_, b) <- rows_loop rows start_ns end_ns sel cs (Bufs_cleared sel) ;;
      match ts_ b with
      | [] => next_rg_from f rgs' rg_idx start_ns end_ns sel b
      | _ => Ok (true, rg_idx, b)
      end
  end.

(** [FileStreamerDeltaCols::next_rg] *)
Definition next_rg (start_ns end_ns : Z) (sel : Select)
    (fs : FileStreamer) (b : Bufs) : Res (bool * FileStreamer * Bufs) :=
  '(ok, i, b) <- next_rg_from (file fs)
                   (skipn (rg_idx fs) (Parquet.row_groups (file fs)))
                   (rg_idx fs) start_ns end_ns sel b ;;
  Ok (ok, {| file := file fs; rg_idx := i |}, b).

(** [DeltaColsView] *)
Record ColsView := {
  view_ts : option (list Z); view_firstId : option (list Z);
  view_lastId : option (list Z); view_eventTime : option (list Z);
  view_ask_off : option (list Z);
  view_ask_px : option (list Z); view_ask_qty : option (list Z);
  view_bid_off : option (list Z);
  view_bid_px : option (list Z); view_bid_qty : option (list Z);
  view_file : string;
  n : nat
}.

Definition fill_view (sel : Select) (b : Bufs) (base : string) : ColsView :=
  let have_asks := ask_px sel || ask_qty sel in
  let have_bids := bid_px sel || bid_qty sel in
  {| view_ts := ptr (ts sel) (ts_ b);
     view_firstId := ptr (firstId sel) (fid_ b);
     view_lastId := ptr (lastId sel) (lid_ b);
     view_eventTime := ptr (eventTime sel) (evt_ b);
     view_ask_off := ptr have_asks (ask_off_ b);
     view_ask_px := ptr (ask_px sel) (ask_px_ b);
     view_ask_qty := ptr (ask_qty sel) (ask_qty_ b);
     view_bid_off := ptr have_bids (bid_off_ b);
     view_bid_px := ptr (bid_px sel) (bid_px_ b);
     view_bid_qty := ptr (bid_qty sel) (bid_qty_ b);
     view_file := base;
     n := length (ts_ b) |}.

End Delta.

(** ** Batch readers *)

Fixpoint has_slash (s : string) : bool :=
  match s with
  | EmptyString => false
  | String c s' => Ascii.eqb c "/" || has_slash s'
  end.

(** [fs::path(p).filename().string()] *)
Fixpoint filename (p : string) : string :=
  match p with
  | EmptyString => EmptyString
  | String c p' =>
      if has_slash p' then filename p'
      else if Ascii.eqb c "/" then p' else p
  end.

Definition newline : string := String (ascii_of_nat 10) EmptyString.

Definition warn (what_failed p what : string) : string :=
  ("WARN: " ++ what_failed ++ ": " ++ p ++ " : " ++ what ++ newline)%string.

(** The bodies of [TopBatchReader::Impl::next], [TradeBatchReader::Impl::next]
    and [DeltaBatchReader::Impl::next] are the same text up to the streamer
    they drive, the vectors they own and the view they fill; the section
    holds that text once.

    When [next_rg] throws, the streamer is destroyed and the vectors are not
    read again before a later [next_rg] has rewritten them, so the reader
    goes on with the vectors it had before the call. *)
Section BatchReader.

Variables Select Bufs ColsView : Type.
Variable next_rg :
  Z -> Z -> Select -> FileStreamer -> Bufs ->
  Res (bool * FileStreamer * Bufs).
Variable ts_of : Bufs -> list Z.
Variable fill_view : Select -> Bufs -> string -> ColsView.

Record Impl := {
  files_ : list Candidate;
  file_idx_ : nat;
  fs_ : option FileStreamer;
  start_ns_ : Z;
  end_ns_ : Z;
  sel_ : Select;
  bufs_ : Bufs;
  cur_file_base_ : string
}.

Definition Impl_new (files : list Candidate) (s e : Z) (sel : Select)
    (empty : Bufs) : Impl :=
  {| files_ := files; file_idx_ := 0; fs_ := None;
     start_ns_ := s; end_ns_ := e; sel_ := sel; bufs_ := empty;
     cur_file_base_ := "" |}.

Definition with_fs (st : Impl) (fs : option FileStreamer) (b : Bufs) : Impl :=
  {| files_ := files_ st; file_idx_ := file_idx_ st; fs_ := fs;
     start_ns_ := start_ns_ st; end_ns_ := end_ns_ st; sel_ := sel_ st;
     bufs_ := b; cur_file_base_ := cur_file_base_ st |}.

Definition opened (st : Impl) (fs : FileStreamer) (base : string) : Impl :=
  {| files_ := files_ st; file_idx_ := file_idx_ st; fs_ := Some fs;
     start_ns_ := start_ns_ st; end_ns_ := end_ns_ st; sel_ := sel_ st;
     bufs_ := bufs_ st; cur_file_base_ := base |}.

(** [fs_.reset(); ++file_idx_;] *)
Definition skip_file (st : Impl) (b : Bufs) : Impl :=
  {| files_ := files_ st; file_idx_ := S (file_idx_ st); fs_ := None;
     start_ns_ := start_ns_ st; end_ns_ := end_ns_ st; sel_ := sel_ st;
     bufs_ := b; cur_file_base_ := cur_file_base_ st |}.

Definition cur_path (st : Impl) : string :=
  match nth_error (files_ st) (file_idx_ st) with
  | Some c => path c
  | None => ""
  end.

(** The part of one turn of [while (true)] after a streamer is at hand. *)
Definition pull (st : Impl) (fs : FileStreamer) (cerr : list string)
  : Res (option (option ColsView) * Impl * list string) :=
  match next_rg (start_ns_ st) (end_ns_ st) (sel_ st) fs (bufs_ st) with
  | Ok (true, fs, b) =>
      match ts_of b with
      | [] => Ok (None, with_fs st (Some fs) b, cerr)
      | _ =>
          Ok (Some (Some (fill_view (sel_ st) b (cur_file_base_ st))),
              with_fs st (Some fs) b, cerr)
      end
  | Ok (false, _, b) => Ok (None, skip_file st b, cerr)
  | Throw w =>
      Ok (None, skip_file st (bufs_ st),
          cerr ++ [warn "read failed" (cur_path st) w])
  | Hang => Hang
  end.

(** One turn of [while (true)]: [Some r] when the turn returns [r]
    ([Some view] for [true], [None] for [false]), [None] on [continue].
    [prefetch_path] does nothing while [g_prefetch] is [false]. *)
Definition turn (disk : Disk) (st : Impl) (cerr : list string)
  : Res (option (option ColsView) * Impl * list string) :=
  match fs_ st with
  | Some fs => pull st fs cerr
  | None =>
      match nth_error (files_ st) (file_idx_ st) with
      | None => Ok (Some None, st, cerr)
      | Some c =>
          match FileStreamer_new disk (path c) with
          | Ok fs => pull (opened st fs (filename (path c))) fs cerr
          | Throw w =>
              Ok (None, skip_file st (bufs_ st),
                  cerr ++ [warn "open failed" (path c) w])
          | Hang => Hang
          end
      end
  end.

Fixpoint next_loop (bound : nat) (disk : Disk) (st : Impl)
    (cerr : list string) : Res (option ColsView * Impl * list string) :=
  match bound with
  | O => Hang
  | S bound' =>
      '(r, st, cerr) <- turn disk st cerr ;;
      match r with
      | Some r => Ok (r, st, cerr)
      | None => next_loop bound' disk st cerr
      end
  end.

(** [next(out)]: [Some view] stands for [true] with [out] filled, [None]
    for [false] with [out] untouched.  A turn that does not return leaves
    one candidate behind, and a last turn finds the list exhausted, whence
    the bound. *)
Definition next (disk : Disk) (st : Impl) (cerr : list string)
  : Res (option ColsView * Impl * list string) :=
  next_loop (2 + (length (files_ st) - file_idx_ st)) disk st cerr.

End BatchReader.

Definition TopBatchReader := Impl Top.Select Top.Bufs.
Definition TradeBatchReader := Impl Trade.Select Trade.Bufs.
Definition DeltaBatchReader := Impl Delta.Select Delta.Bufs.

Definition TopBatchReader_next :=
  next Top.next_rg Top.ts_ Top.fill_view.
Definition TradeBatchReader_next :=
  next Trade.next_rg Trade.ts_ Trade.fill_view.
Definition DeltaBatchReader_next :=
  next Delta.next_rg Delta.ts_ Delta.fill_view.

(** ** ShardedDB *)

Record ShardedDB := {
  root_ : string;
  sampling_ : option string
}.

Definition get_top_cols (disk : Disk) (db : ShardedDB) (s e : Z)
    (symb : string) (market : option string) (sel : Top.Select)
  : Res TopBatchReader :=
  files <- candidate_files_strict disk (root_ db) symb "top" market s e ;;
  Ok (Impl_new files s e sel Top.Bufs_empty).

Definition get_trade_cols (disk : Disk) (db : ShardedDB) (s e : Z)
    (symb : string) (market : option string) (sel : Trade.Select)
  : Res TradeBatchReader :=
  files <- candidate_files_strict disk (root_ db) symb "trade" market s e ;;
  Ok (Impl_new files s e sel Trade.Bufs_empty).

Definition get_depth_cols (disk : Disk) (db : ShardedDB) (s e : Z)
    (symb : string) (market : option string) (sel : Delta.Select)
  : Res DeltaBatchReader :=
  files <- candidate_files_strict disk (root_ db) symb "depth" market s e ;;
  Ok (Impl_new files s e sel Delta.Bufs_empty).

(** ** The command-line reader (parquet_reader.cpp)

    The helpers of the thin CLI over the library that read its arguments,
    and the cells its depth printer reads from a batch.  What the CLI
    prints through [ostream] formatting of floating-point numbers is not
    modelled. *)

Module Cli.

Definition is_lower (c : ascii) : bool :=
  ((97 <=? nat_of_ascii c) && (nat_of_ascii c <=? 122))%nat.

Definition isdigit (c : ascii) : bool :=
  ((48 <=? nat_of_ascii c) && (nat_of_ascii c <=? 57))%nat.

(** The second loop of [norm_token]: the characters in [a-z0-9] are
    kept. *)
Fixpoint keep_alnum (s : string) : string :=
  match s with
  | EmptyString => EmptyString
  | String c s' =>
      if is_lower c || isdigit c then String c (keep_alnum s')
      else keep_alnum s'
  end.

Definition norm_token (s : string) : string := keep_alnum (to_lower s).

Definition is_empty (s : string) : bool :=
  match s with EmptyString => true | String _ _ => false end.

(** The loop of [split_csv]: [cur] is the token being read, [v] the tokens
    read so far. *)
Fixpoint split_csv_loop (s cur : string) (v : list string) : list string :=
  match s with
  | EmptyString => if is_empty cur then v else v ++ [cur]
  | String c s' =>
      if Ascii.eqb c "," then
        if is_empty cur then split_csv_loop s' cur v
        else split_csv_loop s' EmptyString (v ++ [cur])
      else split_csv_loop s' (cur ++ String c EmptyString) v
  end.

Definition split_csv (s : string) : list string :=
  split_csv_loop s EmptyString [].

(** The loop of [is_number_like] from index [i] on; the local [sign] is
    written and never read. *)
Fixpoint is_number_like_loop (s : string) (i : nat) (dot digit exp : bool)
  : bool :=
  match s with
  | EmptyString => digit
  | String c s' =>
      if Ascii.eqb c "+" || Ascii.eqb c "-" then
        if negb (i =? 0)%nat then false
        else is_number_like_loop s' (S i) dot digit exp
      else if isdigit c then is_number_like_loop s' (S i) dot true exp
      else if Ascii.eqb c "." then
        if dot then false
        else is_number_like_loop s' (S i) true digit exp
      else if Ascii.eqb c "e" || Ascii.eqb c "E" then
        if exp || negb digit then false
        else is_number_like_loop s' (S i) true false true
      else false
  end.

Definition is_number_like (s : string) : bool :=
  is_number_like_loop s 0 false false false.

(** [ParsedType]: the base kind and the market, when the type names one. *)
Definition parse_type (t : string) : Res (string * option string) :=
  let t := to_lower t in
  if (t =? "top")%string || (t =? "trade")%string || (t =? "depth")%string
  then Ok (t, None)
  else if (t =? "top_fut")%string then Ok ("top", Some "fut")
  else if (t =? "top_spot")%string then Ok ("top", Some "spot")
  else if (t =? "trade_fut")%string then Ok ("trade", Some "fut")
  else if (t =? "trade_spot")%string then Ok ("trade", Some "spot")
  else if (t =? "depth_fut")%string then Ok ("depth", Some "fut")
  else if (t =? "depth_spot")%string then Ok ("depth", Some "spot")
  else Throw ("Unsupported TYPE: " ++ t
              ++ " (use top|trade|depth or *_fut|*_spot)")%string.

(** The selection with every flag cleared, as [make_top_select_from_csv]
    starts from. *)
Definition top_none : Top.Select :=
  {| Top.ts := false; Top.ask_px := false; Top.ask_qty := false;
     Top.bid_px := false; Top.bid_qty := false; Top.valu := false;
     Top.min_bid_px := false; Top.max_bid_px := false;
     Top.min_ask_px := false; Top.max_ask_px := false;
     Top.min_bid_ts := false; Top.max_bid_ts := false;
     Top.min_ask_ts := false; Top.max_ask_ts := false |}.

Definition top_set_ts (sel : Top.Select) : Top.Select :=
  {| Top.ts := true; Top.ask_px := Top.ask_px sel;
     Top.ask_qty := Top.ask_qty sel; Top.bid_px := Top.bid_px sel;
     Top.bid_qty := Top.bid_qty sel; Top.valu := Top.valu sel;
     Top.min_bid_px := Top.min_bid_px sel;
     Top.max_bid_px := Top.max_bid_px sel;
     Top.min_ask_px := Top.min_ask_px sel;
     Top.max_ask_px := Top.max_ask_px sel;
     Top.min_bid_ts := Top.min_bid_ts sel;
     Top.max_bid_ts := Top.max_bid_ts sel;
     Top.min_ask_ts := Top.min_ask_ts sel;
     Top.max_ask_ts := Top.max_ask_ts sel |}.

Definition top_set_ask_px (sel : Top.Select) : Top.Select :=
  {| Top.ts := Top.ts sel; Top.ask_px := true; Top.ask_qty := Top.ask_qty sel;
     Top.bid_px := Top.bid_px sel; Top.bid_qty := Top.bid_qty sel;
     Top.valu := Top.valu sel; Top.min_bid_px := Top.min_bid_px sel;
     Top.max_bid_px := Top.max_bid_px sel;
     Top.min_ask_px := Top.min_ask_px sel;
     Top.max_ask_px := Top.max_ask_px sel;
     Top.min_bid_ts := Top.min_bid_ts sel;
     Top.max_bid_ts := Top.max_bid_ts sel;
     Top.min_ask_ts := Top.min_ask_ts sel;
     Top.max_ask_ts := Top.max_ask_ts sel |}.

Definition top_set_ask_qty (sel : Top.Select) : Top.Select :=
  {| Top.ts := Top.ts sel; Top.ask_px := Top.ask_px sel; Top.ask_qty := true;
     Top.bid_px := Top.bid_px sel; Top.bid_qty := Top.bid_qty sel;
     Top.valu := Top.valu sel; Top.min_bid_px := Top.min_bid_px sel;
     Top.max_bid_px := Top.max_bid_px sel;
     Top.min_ask_px := Top.min_ask_px sel;
     Top.max_ask_px := Top.max_ask_px sel;
     Top.min_bid_ts := Top.min_bid_ts sel;
     Top.max_bid_ts := Top.max_bid_ts sel;
     Top.min_ask_ts := Top.min_ask_ts sel;
     Top.max_ask_ts := Top.max_ask_ts sel |}.

Definition top_set_bid_px (sel : Top.Select) : Top.Select :=
  {| Top.ts := Top.ts sel; Top.ask_px := Top.ask_px sel;
     Top.ask_qty := Top.ask_qty sel; Top.bid_px := true;
     Top.bid_qty := Top.bid_qty sel; Top.valu := Top.valu sel;
     Top.min_bid_px := Top.min_bid_px sel;
     Top.max_bid_px := Top.max_bid_px sel;
     Top.min_ask_px := Top.min_ask_px sel;
     Top.max_ask_px := Top.max_ask_px sel;
     Top.min_bid_ts := Top.min_bid_ts sel;
     Top.max_bid_ts := Top.max_bid_ts sel;
     Top.min_ask_ts := Top.min_ask_ts sel;
     Top.max_ask_ts := Top.max_ask_ts sel |}.

Definition top_set_bid_qty (sel : Top.Select) : Top.Select :=
  {| Top.ts := Top.ts sel; Top.ask_px := Top.ask_px sel;
     Top.ask_qty := Top.ask_qty sel; Top.bid_px := Top.bid_px sel;
     Top.bid_qty := true; Top.valu := Top.valu sel;
     Top.min_bid_px := Top.min_bid_px sel;
     Top.max_bid_px := Top.max_bid_px sel;
     Top.min_ask_px := Top.min_ask_px sel;
     Top.max_ask_px := Top.max_ask_px sel;
     Top.min_bid_ts := Top.min_bid_ts sel;
     Top.max_bid_ts := Top.max_bid_ts sel;
     Top.min_ask_ts := Top.min_ask_ts sel;
     Top.max_ask_ts := Top.max_ask_ts sel |}.

Definition top_set_valu (sel : Top.Select) : Top.Select :=
  {| Top.ts := Top.ts sel; Top.ask_px := Top.ask_px sel;
     Top.ask_qty := Top.ask_qty sel; Top.bid_px := Top.bid_px sel;
     Top.bid_qty := Top.bid_qty sel; Top.valu := true;
     Top.min_bid_px := Top.min_bid_px sel;
     Top.max_bid_px := Top.max_bid_px sel;
     Top.min_ask_px := Top.min_ask_px sel;
     Top.max_ask_px := Top.max_ask_px sel;
     Top.min_bid_ts := Top.min_bid_ts sel;
     Top.max_bid_ts := Top.max_bid_ts sel;
     Top.min_ask_ts := Top.min_ask_ts sel;
     Top.max_ask_ts := Top.max_ask_ts sel |}.

Definition top_set_min_bid_px (sel : Top.Select) : Top.Select :=
  {| Top.ts := Top.ts sel; Top.ask_px := Top.ask_px sel;
     Top.ask_qty := Top.ask_qty sel; Top.bid_px := Top.bid_px sel;
     Top.bid_qty := Top.bid_qty sel; Top.valu := Top.valu sel;
     Top.min_bid_px := true; Top.max_bid_px := Top.max_bid_px sel;
     Top.min_ask_px := Top.min_ask_px sel;
     Top.max_ask_px := Top.max_ask_px sel;
     Top.min_bid_ts := Top.min_bid_ts sel;
     Top.max_bid_ts := Top.max_bid_ts sel;
     Top.min_ask_ts := Top.min_ask_ts sel;
     Top.max_ask_ts := Top.max_ask_ts sel |}.

Definition top_set_max_bid_px (sel : Top.Select) : Top.Select :=
  {| Top.ts := Top.ts sel; Top.ask_px := Top.ask_px sel;
     Top.ask_qty := Top.ask_qty sel; Top.bid_px := Top.bid_px sel;
     Top.bid_qty := Top.bid_qty sel; Top.valu := Top.valu sel;
     Top.min_bid_px := Top.min_bid_px sel; Top.max_bid_px := true;
     Top.min_ask_px := Top.min_ask_px sel;
     Top.max_ask_px := Top.max_ask_px sel;
     Top.min_bid_ts := Top.min_bid_ts sel;
     Top.max_bid_ts := Top.max_bid_ts sel;
     Top.min_ask_ts := Top.min_ask_ts sel;
     Top.max_ask_ts := Top.max_ask_ts sel |}.

Definition top_set_min_ask_px (sel : Top.Select) : Top.Select :=
  {| Top.ts := Top.ts sel; Top.ask_px := Top.ask_px sel;
     Top.ask_qty := Top.ask_qty sel; Top.bid_px := Top.bid_px sel;
     Top.bid_qty := Top.bid_qty sel; Top.valu := Top.valu sel;
     Top.min_bid_px := Top.min_bid_px sel;
     Top.max_bid_px := Top.max_bid_px sel; Top.min_ask_px := true;
     Top.max_ask_px := Top.max_ask_px sel;
     Top.min_bid_ts := Top.min_bid_ts sel;
     Top.max_bid_ts := Top.max_bid_ts sel;
     Top.min_ask_ts := Top.min_ask_ts sel;
     Top.max_ask_ts := Top.max_ask_ts sel |}.

Definition top_set_max_ask_px (sel : Top.Select) : Top.Select :=
  {| Top.ts := Top.ts sel; Top.ask_px := Top.ask_px sel;
     Top.ask_qty := Top.ask_qty sel; Top.bid_px := Top.bid_px sel;
     Top.bid_qty := Top.bid_qty sel; Top.valu := Top.valu sel;
     Top.min_bid_px := Top.min_bid_px sel;
     Top.max_bid_px := Top.max_bid_px sel;
     Top.min_ask_px := Top.min_ask_px sel; Top.max_ask_px := true;
     Top.min_bid_ts := Top.min_bid_ts sel;
     Top.max_bid_ts := Top.max_bid_ts sel;
     Top.min_ask_ts := Top.min_ask_ts sel;
     Top.max_ask_ts := Top.max_ask_ts sel |}.

Definition top_set_min_bid_ts (sel : Top.Select) : Top.Select :=
  {| Top.ts := Top.ts sel; Top.ask_px := Top.ask_px sel;
     Top.ask_qty := Top.ask_qty sel; Top.bid_px := Top.bid_px sel;
     Top.bid_qty := Top.bid_qty sel; Top.valu := Top.valu sel;
     Top.min_bid_px := Top.min_bid_px sel;
     Top.max_bid_px := Top.max_bid_px sel;
     Top.min_ask_px := Top.min_ask_px sel;
     Top.max_ask_px := Top.max_ask_px sel; Top.min_bid_ts := true;
     Top.max_bid_ts := Top.max_bid_ts sel;
     Top.min_ask_ts := Top.min_ask_ts sel;
     Top.max_ask_ts := Top.max_ask_ts sel |}.

Definition top_set_max_bid_ts (sel : Top.Select) : Top.Select :=
  {| Top.ts := Top.ts sel; Top.ask_px := Top.ask_px sel;
     Top.ask_qty := Top.ask_qty sel; Top.bid_px := Top.bid_px sel;
     Top.bid_qty := Top.bid_qty sel; Top.valu := Top.valu sel;
     Top.min_bid_px := Top.min_bid_px sel;
     Top.max_bid_px := Top.max_bid_px sel;
     Top.min_ask_px := Top.min_ask_px sel;
     Top.max_ask_px := Top.max_ask_px sel;
     Top.min_bid_ts := Top.min_bid_ts sel; Top.max_bid_ts := true;
     Top.min_ask_ts := Top.min_ask_ts sel;
     Top.max_ask_ts := Top.max_ask_ts sel |}.

Definition top_set_min_ask_ts (sel : Top.Select) : Top.Select :=
  {| Top.ts := Top.ts sel; Top.ask_px := Top.ask_px sel;
     Top.ask_qty := Top.ask_qty sel; Top.bid_px := Top.bid_px sel;
     Top.bid_qty := Top.bid_qty sel; Top.valu := Top.valu sel;
     Top.min_bid_px := Top.min_bid_px sel;
     Top.max_bid_px := Top.max_bid_px sel;
     Top.min_ask_px := Top.min_ask_px sel;
     Top.max_ask_px := Top.max_ask_px sel;
     Top.min_bid_ts := Top.min_bid_ts sel;
     Top.max_bid_ts := Top.max_bid_ts sel; Top.min_ask_ts := true;
     Top.max_ask_ts := Top.max_ask_ts sel |}.

Definition top_set_max_ask_ts (sel : Top.Select) : Top.Select :=
  {| Top.ts := Top.ts sel; Top.ask_px := Top.ask_px sel;
     Top.ask_qty := Top.ask_qty sel; Top.bid_px := Top.bid_px sel;
     Top.bid_qty := Top.bid_qty sel; Top.valu := Top.valu sel;
     Top.min_bid_px := Top.min_bid_px sel;
     Top.max_bid_px := Top.max_bid_px sel;
     Top.min_ask_px := Top.min_ask_px sel;
     Top.max_ask_px := Top.max_ask_px sel;
     Top.min_bid_ts := Top.min_bid_ts sel;
     Top.max_bid_ts := Top.max_bid_ts sel;
     Top.min_ask_ts := Top.min_ask_ts sel; Top.max_ask_ts := true |}.

(** The body of [for (const string& t : split_csv(csv))]. *)
Definition top_select_token (sel : Top.Select) (t : string)
  : Top.Select :=
  let k := norm_token t in
  if (k =? "ts")%string || (k =? "time")%string
  then top_set_ts sel
  else if (k =? "askpx")%string || (k =? "px")%string ||
          (k =? "ask")%string || (k =? "askprice")%string
  then top_set_ask_px sel
  else if (k =? "askqty")%string || (k =? "qty")%string ||
          (k =? "asksize")%string
  then top_set_ask_qty sel
  else if (k =? "bidpx")%string || (k =? "bid")%string ||
          (k =? "bidprice")%string
  then top_set_bid_px sel
  else if (k =? "bidqty")%string || (k =? "bidsize")%string
  then top_set_bid_qty sel
  else if (k =? "valu")%string || (k =? "value")%string ||
          (k =? "vol")%string || (k =? "volume")%string
  then top_set_valu sel
  else if (k =? "minbidpx")%string
  then top_set_min_bid_px sel
  else if (k =? "maxbidpx")%string
  then top_set_max_bid_px sel
  else if (k =? "minaskpx")%string
  then top_set_min_ask_px sel
  else if (k =? "maxaskpx")%string
  then top_set_max_ask_px sel
  else if (k =? "minbidts")%string
  then top_set_min_bid_ts sel
  else if (k =? "maxbidts")%string
  then top_set_max_bid_ts sel
  else if (k =? "minaskts")%string
  then top_set_min_ask_ts sel
  else if (k =? "maxaskts")%string
  then top_set_max_ask_ts sel
  else sel.

Definition make_top_select_from_csv (csv : string) : Top.Select :=
  fold_left top_select_token (split_csv csv) top_none.

(** The selection with every flag cleared, as [make_depth_select_from_csv]
    starts from. *)
Definition depth_none : Delta.Select :=
  {| Delta.ts := false; Delta.firstId := false; Delta.lastId := false;
     Delta.eventTime := false; Delta.ask_px := false; Delta.ask_qty := false;
     Delta.bid_px := false; Delta.bid_qty := false |}.

Definition depth_set_ts (sel : Delta.Select) : Delta.Select :=
  {| Delta.ts := true; Delta.firstId := Delta.firstId sel;
     Delta.lastId := Delta.lastId sel; Delta.eventTime := Delta.eventTime sel;
     Delta.ask_px := Delta.ask_px sel; Delta.ask_qty := Delta.ask_qty sel;
     Delta.bid_px := Delta.bid_px sel; Delta.bid_qty := Delta.bid_qty sel |}.

Definition depth_set_firstId (sel : Delta.Select) : Delta.Select :=
  {| Delta.ts := Delta.ts sel; Delta.firstId := true;
     Delta.lastId := Delta.lastId sel; Delta.eventTime := Delta.eventTime sel;
     Delta.ask_px := Delta.ask_px sel; Delta.ask_qty := Delta.ask_qty sel;
     Delta.bid_px := Delta.bid_px sel; Delta.bid_qty := Delta.bid_qty sel |}.

Definition depth_set_lastId (sel : Delta.Select) : Delta.Select :=
  {| Delta.ts := Delta.ts sel; Delta.firstId := Delta.firstId sel;
     Delta.lastId := true; Delta.eventTime := Delta.eventTime sel;
     Delta.ask_px := Delta.ask_px sel; Delta.ask_qty := Delta.ask_qty sel;
     Delta.bid_px := Delta.bid_px sel; Delta.bid_qty := Delta.bid_qty sel |}.

Definition depth_set_eventTime (sel : Delta.Select) : Delta.Select :=
  {| Delta.ts := Delta.ts sel; Delta.firstId := Delta.firstId sel;
     Delta.lastId := Delta.lastId sel; Delta.eventTime := true;
     Delta.ask_px := Delta.ask_px sel; Delta.ask_qty := Delta.ask_qty sel;
     Delta.bid_px := Delta.bid_px sel; Delta.bid_qty := Delta.bid_qty sel |}.

Definition depth_set_ask_px (sel : Delta.Select) : Delta.Select :=
  {| Delta.ts := Delta.ts sel; Delta.firstId := Delta.firstId sel;
     Delta.lastId := Delta.lastId sel; Delta.eventTime := Delta.eventTime sel;
     Delta.ask_px := true; Delta.ask_qty := Delta.ask_qty sel;
     Delta.bid_px := Delta.bid_px sel; Delta.bid_qty := Delta.bid_qty sel |}.

Definition depth_set_ask_qty (sel : Delta.Select) : Delta.Select :=
  {| Delta.ts := Delta.ts sel; Delta.firstId := Delta.firstId sel;
     Delta.lastId := Delta.lastId sel; Delta.eventTime := Delta.eventTime sel;
     Delta.ask_px := Delta.ask_px sel; Delta.ask_qty := true;
     Delta.bid_px := Delta.bid_px sel; Delta.bid_qty := Delta.bid_qty sel |}.

Definition depth_set_bid_px (sel : Delta.Select) : Delta.Select :=
  {| Delta.ts := Delta.ts sel; Delta.firstId := Delta.firstId sel;
     Delta.lastId := Delta.lastId sel; Delta.eventTime := Delta.eventTime sel;
     Delta.ask_px := Delta.ask_px sel; Delta.ask_qty := Delta.ask_qty sel;
     Delta.bid_px := true; Delta.bid_qty := Delta.bid_qty sel |}.

Definition depth_set_bid_qty (sel : Delta.Select) : Delta.Select :=
  {| Delta.ts := Delta.ts sel; Delta.firstId := Delta.firstId sel;
     Delta.lastId := Delta.lastId sel; Delta.eventTime := Delta.eventTime sel;
     Delta.ask_px := Delta.ask_px sel; Delta.ask_qty := Delta.ask_qty sel;
     Delta.bid_px := Delta.bid_px sel; Delta.bid_qty := true |}.

(** The body of [for (const string& t : split_csv(csv))]. *)
Definition depth_select_token (sel : Delta.Select) (t : string)
  : Delta.Select :=
  let k := norm_token t in
  if (k =? "ts")%string || (k =? "time")%string
  then depth_set_ts sel
  else if (k =? "firstid")%string || (k =? "fid")%string
  then depth_set_firstId sel
  else if (k =? "lastid")%string || (k =? "lid")%string
  then depth_set_lastId sel
  else if (k =? "eventtime")%string || (k =? "evt")%string ||
          (k =? "event")%string
  then depth_set_eventTime sel
  else if (k =? "askpx")%string || (k =? "px")%string ||
          (k =? "ask")%string || (k =? "askprice")%string
  then depth_set_ask_px sel
  else if (k =? "askqty")%string || (k =? "qty")%string ||
          (k =? "asksize")%string
  then depth_set_ask_qty sel
  else if (k =? "bidpx")%string || (k =? "bid")%string ||
          (k =? "bidprice")%string
  then depth_set_bid_px sel
  else if (k =? "bidqty")%string || (k =? "bidsize")%string
  then depth_set_bid_qty sel
  else sel.

Definition make_depth_select_from_csv (csv : string) : Delta.Select :=
  fold_left depth_select_token (split_csv csv) depth_none.

(** The selection with every flag cleared, as [make_trade_select_from_csv]
    starts from. *)
Definition trade_none : Trade.Select :=
  {| Trade.ts := false; Trade.px := false; Trade.qty := false;
     Trade.tradeId := false; Trade.buyerOrderId := false;
     Trade.sellerOrderId := false; Trade.tradeTime := false;
     Trade.isMarket := false; Trade.eventTime := false |}.

Definition trade_set_ts (sel : Trade.Select) : Trade.Select :=
  {| Trade.ts := true; Trade.px := Trade.px sel; Trade.qty := Trade.qty sel;
     Trade.tradeId := Trade.tradeId sel;
     Trade.buyerOrderId := Trade.buyerOrderId sel;
     Trade.sellerOrderId := Trade.sellerOrderId sel;
     Trade.tradeTime := Trade.tradeTime sel;
     Trade.isMarket := Trade.isMarket sel;
     Trade.eventTime := Trade.eventTime sel |}.

Definition trade_set_px (sel : Trade.Select) : Trade.Select :=
  {| Trade.ts := Trade.ts sel; Trade.px := true; Trade.qty := Trade.qty sel;
     Trade.tradeId := Trade.tradeId sel;
     Trade.buyerOrderId := Trade.buyerOrderId sel;
     Trade.sellerOrderId := Trade.sellerOrderId sel;
     Trade.tradeTime := Trade.tradeTime sel;
     Trade.isMarket := Trade.isMarket sel;
     Trade.eventTime := Trade.eventTime sel |}.

Definition trade_set_qty (sel : Trade.Select) : Trade.Select :=
  {| Trade.ts := Trade.ts sel; Trade.px := Trade.px sel; Trade.qty := true;
     Trade.tradeId := Trade.tradeId sel;
     Trade.buyerOrderId := Trade.buyerOrderId sel;
     Trade.sellerOrderId := Trade.sellerOrderId sel;
     Trade.tradeTime := Trade.tradeTime sel;
     Trade.isMarket := Trade.isMarket sel;
     Trade.eventTime := Trade.eventTime sel |}.

Definition trade_set_tradeId (sel : Trade.Select) : Trade.Select :=
  {| Trade.ts := Trade.ts sel; Trade.px := Trade.px sel;
     Trade.qty := Trade.qty sel; Trade.tradeId := true;
     Trade.buyerOrderId := Trade.buyerOrderId sel;
     Trade.sellerOrderId := Trade.sellerOrderId sel;
     Trade.tradeTime := Trade.tradeTime sel;
     Trade.isMarket := Trade.isMarket sel;
     Trade.eventTime := Trade.eventTime sel |}.

Definition trade_set_buyerOrderId (sel : Trade.Select) : Trade.Select :=
  {| Trade.ts := Trade.ts sel; Trade.px := Trade.px sel;
     Trade.qty := Trade.qty sel; Trade.tradeId := Trade.tradeId sel;
     Trade.buyerOrderId := true;
     Trade.sellerOrderId := Trade.sellerOrderId sel;
     Trade.tradeTime := Trade.tradeTime sel;
     Trade.isMarket := Trade.isMarket sel;
     Trade.eventTime := Trade.eventTime sel |}.

Definition trade_set_sellerOrderId (sel : Trade.Select) : Trade.Select :=
  {| Trade.ts := Trade.ts sel; Trade.px := Trade.px sel;
     Trade.qty := Trade.qty sel; Trade.tradeId := Trade.tradeId sel;
     Trade.buyerOrderId := Trade.buyerOrderId sel;
     Trade.sellerOrderId := true; Trade.tradeTime := Trade.tradeTime sel;
     Trade.isMarket := Trade.isMarket sel;
     Trade.eventTime := Trade.eventTime sel |}.

Definition trade_set_tradeTime (sel : Trade.Select) : Trade.Select :=
  {| Trade.ts := Trade.ts sel; Trade.px := Trade.px sel;
     Trade.qty := Trade.qty sel; Trade.tradeId := Trade.tradeId sel;
     Trade.buyerOrderId := Trade.buyerOrderId sel;
     Trade.sellerOrderId := Trade.sellerOrderId sel; Trade.tradeTime := true;
     Trade.isMarket := Trade.isMarket sel;
     Trade.eventTime := Trade.eventTime sel |}.

Definition trade_set_isMarket (sel : Trade.Select) : Trade.Select :=
  {| Trade.ts := Trade.ts sel; Trade.px := Trade.px sel;
     Trade.qty := Trade.qty sel; Trade.tradeId := Trade.tradeId sel;
     Trade.buyerOrderId := Trade.buyerOrderId sel;
     Trade.sellerOrderId := Trade.sellerOrderId sel;
     Trade.tradeTime := Trade.tradeTime sel; Trade.isMarket := true;
     Trade.eventTime := Trade.eventTime sel |}.

Definition trade_set_eventTime (sel : Trade.Select) : Trade.Select :=
  {| Trade.ts := Trade.ts sel; Trade.px := Trade.px sel;
     Trade.qty := Trade.qty sel; Trade.tradeId := Trade.tradeId sel;
     Trade.buyerOrderId := Trade.buyerOrderId sel;
     Trade.sellerOrderId := Trade.sellerOrderId sel;
     Trade.tradeTime := Trade.tradeTime sel;
     Trade.isMarket := Trade.isMarket sel; Trade.eventTime := true |}.

(** The body of [for (const string& t : split_csv(csv))]. *)
Definition trade_select_token (sel : Trade.Select) (t : string)
  : Trade.Select :=
  let k := norm_token t in
  if (k =? "ts")%string || (k =? "time")%string
  then trade_set_ts sel
  else if (k =? "px")%string || (k =? "price")%string
  then trade_set_px sel
  else if (k =? "qty")%string || (k =? "size")%string ||
          (k =? "quantity")%string
  then trade_set_qty sel
  else if (k =? "tradeid")%string || (k =? "tid")%string
  then trade_set_tradeId sel
  else if (k =? "buyerorderid")%string || (k =? "boid")%string
  then trade_set_buyerOrderId sel
  else if (k =? "sellerorderid")%string || (k =? "soid")%string
  then trade_set_sellerOrderId sel
  else if (k =? "tradetime")%string || (k =? "ttime")%string
  then trade_set_tradeTime sel
  else if (k =? "ismarket")%string || (k =? "market")%string
  then trade_set_isMarket sel
  else if (k =? "eventtime")%string || (k =? "evt")%string ||
          (k =? "event")%string
  then trade_set_eventTime sel
  else sel.

Definition make_trade_select_from_csv (csv : string) : Trade.Select :=
  fold_left trade_select_token (split_csv csv) trade_none.

(** What [render_line] of the depth printer reads for one side of row [i]:
    the cells [k] of the price and quantity vectors for [k] from [off[i]]
    up to [off[i+1]].  A cell of a null pointer is not read ([None]); the
    result is [None] when a read would fall outside a vector. *)
Definition cell (p : option (list Z)) (k : nat) : option (option Z) :=
  match p with
  | None => Some None
  | Some v =>
      match nth_error v k with
      | Some x => Some (Some x)
      | None => None
      end
  end.

Fixpoint cells_from (px qty : option (list Z)) (k len : nat)
  : option (list (option Z * option Z)) :=
  match len with
  | O => Some []
  | S len' =>
      match cell px k, cell qty k, cells_from px qty (S k) len' with
      | Some p, Some q, Some rest => Some ((p, q) :: rest)
      | _, _, _ => None
      end
  end.

Definition side_cells (off px qty : option (list Z)) (i : nat)
  : option (list (option Z * option Z)) :=
  match off, px, qty with
  | None, _, _ => Some []
  | Some _, None, None => Some []
  | Some off, _, _ =>
      match nth_error off i, nth_error off (S i) with
      | Some a0, Some a1 =>
          cells_from px qty (Z.to_nat a0) (Z.to_nat a1 - Z.to_nat a0)
      | _, _ => None
      end
  end.

End Cli.

(** * Properties *)

(** ** The entries a cursor stands for

    A cursor is an explicit state machine over buffers; what it stands for
    is the sequence of entries its [take] will hand out, and how that
    sequence ends: at the end of the column, or with an exception. *)

Inductive Tail : Type :=
| Eos
| Fault (what : string).

Definition Stream : Type := (list Entry * Tail)%type.

Definition scons (e : Entry) (s : Stream) : Stream := (e :: fst s, snd s).

Definition entry_of (d rp : Z) (v : option Z) : Entry :=
  match v with
  | Some v =>
      {| def := d; rep := rp; has_value := true; value := v; valid := true |}
  | None =>
      {| def := d; rep := rp; has_value := false; value := 0; valid := true |}
  end.

(** Decoding a run of slots against the values that go with it. *)
Fixpoint seg_stream (md mr : Z) (lv : list (Z * Z)) (vs : list Z)
    (k : Stream) : Stream :=
  match lv with
  | [] => k
  | s :: lv' =>
      let d := Parquet.slot_def md s in
      let rp := Parquet.slot_rep mr s in
      if d =? md then
        match vs with
        | [] => ([], Fault "value_idx overflow")
        | v :: vs' =>
            scons (entry_of d rp (Some v)) (seg_stream md mr lv' vs' k)
        end
      else scons (entry_of d rp None) (seg_stream md mr lv' vs k)
  end.

Definition reader_end (rd : Parquet.ColumnReader) : Stream :=
  ([], if Parquet.rd_damaged rd then Fault "Unexpected end of stream"
       else Eos).

Definition reader_stream (rd : Parquet.ColumnReader) : Stream :=
  seg_stream (Parquet.max_definition_level (Parquet.rd_descr rd))
    (Parquet.max_repetition_level (Parquet.rd_descr rd))
    (Parquet.rd_slots rd) (Parquet.rd_stored rd) (reader_end rd).

(** The [n] entries of the buffers from level [li] and value [vi] on. *)
Fixpoint buf_stream (n : nat) (c : Int64Cursor) (li vi : nat) (k : Stream)
  : Stream :=
  match n with
  | O => k
  | S n' =>
      let d := buffered_def c li in
      let rp := buffered_rep c li in
      if d =? max_def c then
        if (values_in_buf c <=? vi)%nat
        then ([], Fault "value_idx overflow")
        else scons (entry_of d rp (Some (nth vi (valbuf c) 0)))
                   (buf_stream n' c (S li) (S vi) k)
      else scons (entry_of d rp None) (buf_stream n' c (S li) vi k)
  end.

Definition stream (c : Int64Cursor) : Stream :=
  if eof c then ((if has_pending c then [pending c] else []), Eos)
  else
    let rest := buf_stream (levels_in_buf c - level_idx c) c
                  (level_idx c) (value_idx c) (reader_stream (r c)) in
    if has_pending c then scons (pending c) rest else rest.

(** The cursor decodes with the levels of the column it reads. *)
Definition cursor_wf (c : Int64Cursor) : Prop :=
  max_def c = Parquet.max_definition_level (Parquet.rd_descr (r c))
  /\ max_rep c = Parquet.max_repetition_level (Parquet.rd_descr (r c)).

Definition same_bufs (c c' : Int64Cursor) : Prop :=
  max_def c = max_def c' /\ max_rep c = max_rep c'
  /\ defbuf c = defbuf c' /\ repbuf c = repbuf c' /\ valbuf c = valbuf c'
  /\ values_in_buf c = values_in_buf c'.

Lemma BATCH_pos : BATCH = S (pred BATCH).
Proof. reflexivity. Qed.

#[global] Opaque BATCH.

Lemma buf_stream_same c c' n li vi k :
  same_bufs c c' -> buf_stream n c li vi k = buf_stream n c' li vi k.
Proof.
  intros (Hd & Hr & Hdb & Hrb & Hvb & Hvin).
  revert li vi. induction n as [|n IH]; intros li vi; cbn [buf_stream].
  - reflexivity.
  - unfold buffered_def, buffered_rep.
    rewrite <- Hd, <- Hr, <- Hdb, <- Hrb, <- Hvb, <- Hvin.
    rewrite !IH. reflexivity.
Qed.

Lemma seg_stream_split md mr K : forall L n V,
  seg_stream md mr (firstn n L)
    (firstn (Parquet.count_present md (firstn n L)) V)
    (seg_stream md mr (skipn n L)
       (skipn (Parquet.count_present md (firstn n L)) V) K)
  = seg_stream md mr L V K.
Proof.
  unfold Parquet.count_present.
  induction L as [|s L IH]; intros n V.
  - destruct n; reflexivity.
  - destruct n as [|n]; [reflexivity|].
    cbn [firstn skipn filter seg_stream]. unfold Parquet.present.
    destruct (Parquet.slot_def md s =? md) eqn:Hp.
    + cbn [length]. destruct V as [|v V]; [reflexivity|].
      cbn [firstn skipn]. rewrite IH. reflexivity.
    + rewrite IH. reflexivity.
Qed.

Lemma nth_overwrite_mid {A : Type} (l1 l2 junk : list A) (x d : A) :
  nth (length l1) ((l1 ++ x :: l2) ++ junk) d = x.
Proof.
  rewrite <- app_assoc. rewrite app_nth2 by lia.
  rewrite Nat.sub_diag. reflexivity.
Qed.

(** Right after a read, the buffers hold the batch. *)
Lemma buf_stream_batch c k : forall lv2 lv1 vs1 vs2 jd jr jv,
  (max_def c <> 0 -> defbuf c = map fst (lv1 ++ lv2) ++ jd) ->
  (max_rep c <> 0 -> repbuf c = map snd (lv1 ++ lv2) ++ jr) ->
  valbuf c = (vs1 ++ vs2) ++ jv ->
  values_in_buf c = length (vs1 ++ vs2) ->
  buf_stream (length lv2) c (length lv1) (length vs1) k
  = seg_stream (max_def c) (max_rep c) lv2 vs2 k.
Proof.
  induction lv2 as [|s lv2 IH]; intros lv1 vs1 vs2 jd jr jv Hd Hr Hv Hn.
  - reflexivity.
  - cbn [length buf_stream seg_stream].
    assert (Ed : buffered_def c (length lv1) = Parquet.slot_def (max_def c) s).
    { unfold buffered_def, Parquet.slot_def.
      destruct (max_def c =? 0) eqn:E; [reflexivity|].
      rewrite Hd by (apply Z.eqb_neq; exact E).
      rewrite map_app. cbn [map].
      rewrite <- (length_map fst lv1). apply nth_overwrite_mid. }
    assert (Er : buffered_rep c (length lv1) = Parquet.slot_rep (max_rep c) s).
    { unfold buffered_rep, Parquet.slot_rep.
      destruct (max_rep c =? 0) eqn:E; [reflexivity|].
      rewrite Hr by (apply Z.eqb_neq; exact E).
      rewrite map_app. cbn [map].
      rewrite <- (length_map snd lv1). apply nth_overwrite_mid. }
    rewrite Ed, Er.
    assert (Hstep : forall vs1' vs2',
               vs1 ++ vs2 = vs1' ++ vs2' ->
               buf_stream (length lv2) c (S (length lv1)) (length vs1') k
               = seg_stream (max_def c) (max_rep c) lv2 vs2' k).
    { intros vs1' vs2' E.
      replace (S (length lv1)) with (length (lv1 ++ [s]))
        by (rewrite length_app; cbn; lia).
      apply IH with (jd := jd) (jr := jr) (jv := jv).
      - intros H. rewrite <- app_assoc. cbn. auto.
      - intros H. rewrite <- app_assoc. cbn. auto.
      - rewrite <- E. exact Hv.
      - rewrite <- E. exact Hn. }
    destruct (Parquet.slot_def (max_def c) s =? max_def c).
    + destruct vs2 as [|v vs2].
      * rewrite Hn, app_nil_r.
        rewrite (proj2 (Nat.leb_le _ _)) by lia. reflexivity.
      * rewrite Hn, length_app. cbn [length].
        rewrite (proj2 (Nat.leb_gt _ _)) by lia.
        rewrite Hv. rewrite nth_overwrite_mid.
        rewrite <- (Hstep (vs1 ++ [v]) vs2)
          by (rewrite <- app_assoc; reflexivity).
        rewrite length_app. cbn [length].
        rewrite Nat.add_1_r. reflexivity.
    + rewrite (Hstep vs1 vs2 eq_refl). reflexivity.
Qed.

Lemma length_buf_stream c k : forall n li vi,
  (length (fst (buf_stream n c li vi k)) <= n + length (fst k))%nat.
Proof.
  induction n as [|n IH]; intros li vi; cbn [buf_stream].
  - lia.
  - destruct (buffered_def c li =? max_def c).
    + destruct (values_in_buf c <=? vi)%nat; cbn; [lia|].
      specialize (IH (S li) (S vi)). lia.
    + cbn. specialize (IH (S li) vi). lia.
Qed.

Lemma length_seg_stream md mr k : forall lv vs,
  (length (fst (seg_stream md mr lv vs k)) <= length lv + length (fst k))%nat.
Proof.
  induction lv as [|s lv IH]; intros vs; cbn [seg_stream length].
  - lia.
  - destruct (Parquet.slot_def md s =? md).
    + destruct vs as [|v vs]; cbn; [lia|]. specialize (IH vs). lia.
    + cbn. specialize (IH vs). lia.
Qed.

(** The loop bound of the assemblers covers every entry still to come. *)
Lemma stream_within_slots_left c :
  (length (fst (stream c)) <= slots_left c)%nat.
Proof.
  unfold stream, slots_left.
  destruct (eof c).
  - destruct (has_pending c); cbn; lia.
  - pose proof (length_buf_stream c (reader_stream (r c))
                  (levels_in_buf c - level_idx c) (level_idx c) (value_idx c))
      as Hb.
    pose proof (length_seg_stream
                  (Parquet.max_definition_level (Parquet.rd_descr (r c)))
                  (Parquet.max_repetition_level (Parquet.rd_descr (r c)))
                  (reader_end (r c))
                  (Parquet.rd_slots (r c)) (Parquet.rd_stored (r c))) as Hs.
    fold (reader_stream (r c)) in Hs. cbn [reader_end fst length] in Hs.
    destruct (has_pending c); cbn [scons fst length]; lia.
Qed.

(** A refill on an exhausted buffer does not change what the cursor stands
    for; it moves a batch from the column into the buffers, or finds the end
    of the column. *)
Lemma refill_spec c :
  cursor_wf c -> eof c = false -> has_pending c = false ->
  (levels_in_buf c <= level_idx c)%nat ->
  match Parquet.rd_slots (r c) with
  | [] =>
      stream c = reader_end (r c)
      /\ if Parquet.rd_damaged (r c)
         then refill c = Throw "Unexpected end of stream"
         else exists c', refill c = Ok (false, c') /\ cursor_wf c'
                         /\ eof c' = true /\ has_pending c' = false
  | _ :: _ =>
      exists c', refill c = Ok (true, c') /\ cursor_wf c'
                 /\ eof c' = false /\ has_pending c' = false
                 /\ (level_idx c' < levels_in_buf c')%nat
                 /\ stream c' = stream c
  end.
Proof.
  intros [Wd Wr] He Hp Hl.
  assert (Hs : stream c = reader_stream (r c)).
  { unfold stream. rewrite He, Hp.
    replace (levels_in_buf c - level_idx c)%nat with 0%nat by lia.
    reflexivity. }
  rewrite Hs. unfold refill, Parquet.ReadBatch. rewrite He.
  unfold reader_stream at 1.
  destruct (Parquet.rd_slots (r c)) as [|s lv] eqn:Hsl.
  - cbn [seg_stream]. split; [reflexivity|].
    destruct (Parquet.rd_damaged (r c)).
    + reflexivity.
    + cbn. eexists. split; [reflexivity|]. cbn. repeat split; assumption.
  - set (L := s :: lv) in *.
    set (md := Parquet.max_definition_level (Parquet.rd_descr (r c))) in *.
    set (mr := Parquet.max_repetition_level (Parquet.rd_descr (r c))) in *.
    cbn [bind].
    assert (Hlen : length (firstn BATCH L) <> 0%nat).
    { rewrite BATCH_pos. subst L. cbn. discriminate. }
    cbn [levels_in_buf].
    rewrite (proj2 (Nat.eqb_neq _ _) Hlen).
    match goal with
    | |- context [Ok (true, ?c1)] => set (c' := c1)
    end.
    exists c'. split; [reflexivity|].
    split; [split; [exact Wd | exact Wr]|].
    split; [reflexivity|]. split; [exact Hp|].
    split; [cbn; lia|].
    unfold stream at 1.
    change (eof c') with false.
    replace (has_pending c') with false by (symmetry; exact Hp).
    cbv iota.
    replace (levels_in_buf c' - level_idx c')%nat
      with (length (firstn BATCH L)) by (cbn; lia).
    change (level_idx c') with (@length (Z * Z) []).
    change (value_idx c') with (@length Z []).
    rewrite (buf_stream_batch c' (reader_stream (r c')) (firstn BATCH L) [] []
               (firstn (Parquet.count_present md (firstn BATCH L))
                  (Parquet.rd_stored (r c)))
               (skipn (length (map fst (firstn BATCH L))) (defbuf c))
               (skipn (length (map snd (firstn BATCH L))) (repbuf c))
               (skipn (length (firstn (Parquet.count_present md
                                         (firstn BATCH L))
                                 (Parquet.rd_stored (r c)))) (valbuf c))).
    + change (max_def c') with (max_def c).
      change (max_rep c') with (max_rep c).
      rewrite Wd, Wr. fold md mr.
      unfold reader_stream at 1.
      change (Parquet.rd_descr (r c')) with (Parquet.rd_descr (r c)).
      change (reader_end (r c')) with (reader_end (r c)).
      fold md mr.
      change (Parquet.rd_slots (r c')) with (skipn BATCH L).
      change (Parquet.rd_stored (r c'))
        with (skipn (Parquet.count_present md (firstn BATCH L))
                (Parquet.rd_stored (r c))).
      rewrite seg_stream_split. unfold reader_stream.
      rewrite Hsl. reflexivity.
    + change (max_def c') with (max_def c). intros H.
      change (defbuf c')
        with (if max_def c =? 0 then defbuf c
              else overwrite (defbuf c) (map fst (firstn BATCH L))).
      rewrite (proj2 (Z.eqb_neq _ _) H). reflexivity.
    + change (max_rep c') with (max_rep c). intros H.
      change (repbuf c')
        with (if max_rep c =? 0 then repbuf c
              else overwrite (repbuf c) (map snd (firstn BATCH L))).
      rewrite (proj2 (Z.eqb_neq _ _) H). reflexivity.
    + reflexivity.
    + reflexivity.
Qed.

(** What [ensure_pending] does, read off the stream of the cursor. *)
Definition ensures (c : Int64Cursor) (res : Res (bool * Int64Cursor)) : Prop :=
  match stream c with
  | (e :: _, _) =>
      exists c', res = Ok (true, c') /\ cursor_wf c'
                 /\ has_pending c' = true /\ pending c' = e
                 /\ stream c' = stream c
  | ([], Eos) =>
      exists c', res = Ok (false, c') /\ cursor_wf c'
                 /\ stream c' = ([], Eos)
  | ([], Fault w) => res = Throw w
  end.

(** The tail of [ensure_pending]: building the entry at [level_idx]. *)
Definition decode_slot (c : Int64Cursor) : Res (bool * Int64Cursor) :=
  let d := buffered_def c (level_idx c) in
  let rp := buffered_rep c (level_idx c) in
  if d =? max_def c then
    if (values_in_buf c <=? value_idx c)%nat
    then Throw "value_idx overflow"
    else
      Ok (true,
          set_pending c
            {| def := d; rep := rp; has_value := true;
               value := nth (value_idx c) (valbuf c) 0; valid := true |}
            (S (value_idx c)))
  else
    Ok (true,
        set_pending c
          {| def := d; rep := rp; has_value := false;
             value := 0; valid := true |}
          (value_idx c)).

Lemma ensure_pending_unfold c :
  ensure_pending c =
  if eof c && negb (has_pending c) then Ok (false, c)
  else if has_pending c then Ok (true, c)
  else
    '(more, c) <- (if (levels_in_buf c <=? level_idx c)%nat
                   then refill c else Ok (true, c)) ;;
    if negb more then Ok (false, c) else decode_slot c.
Proof. reflexivity. Qed.

Lemma decode_slot_spec c :
  cursor_wf c -> eof c = false -> has_pending c = false ->
  (level_idx c < levels_in_buf c)%nat ->
  ensures c (decode_slot c).
Proof.
  intros W He Hp Hl. unfold ensures, decode_slot, stream.
  rewrite He, Hp.
  destruct (levels_in_buf c - level_idx c)%nat as [|n] eqn:Hn; [lia|].
  cbn [buf_stream].
  assert (Hsame : forall e vi, same_bufs c (set_pending c e vi)).
  { intros e vi. repeat split. }
  destruct (buffered_def c (level_idx c) =? max_def c).
  - destruct (values_in_buf c <=? value_idx c)%nat; [reflexivity|].
    cbn [scons fst snd]. eexists. split; [reflexivity|].
    split; [exact W|]. split; [reflexivity|]. split; [reflexivity|].
    unfold stream. cbn [eof has_pending set_pending levels_in_buf level_idx
                         value_idx r pending].
    rewrite He. replace (levels_in_buf c - S (level_idx c))%nat with n by lia.
    rewrite <- (buf_stream_same _ _ _ _ (Hsame _ _)). reflexivity.
  - cbn [scons fst snd]. eexists. split; [reflexivity|].
    split; [exact W|]. split; [reflexivity|]. split; [reflexivity|].
    unfold stream. cbn [eof has_pending set_pending levels_in_buf level_idx
                         value_idx r pending].
    rewrite He. replace (levels_in_buf c - S (level_idx c))%nat with n by lia.
    rewrite <- (buf_stream_same _ _ _ _ (Hsame _ _)). reflexivity.
Qed.

Lemma ensure_pending_spec c : cursor_wf c -> ensures c (ensure_pending c).
Proof.
  intros W. rewrite ensure_pending_unfold.
  destruct (eof c) eqn:He.
  - unfold ensures, stream. rewrite He.
    destruct (has_pending c) eqn:Hp; cbn [andb negb].
    + exists c. unfold stream. rewrite He, Hp. repeat split; apply W.
    + exists c. unfold stream. rewrite He, Hp. repeat split; apply W.
  - cbn [andb]. destruct (has_pending c) eqn:Hp.
    + unfold ensures, stream. rewrite He, Hp. cbn [scons].
      exists c. unfold stream. rewrite He, Hp. repeat split; apply W.
    + destruct (levels_in_buf c <=? level_idx c)%nat eqn:Hl.
      * apply Nat.leb_le in Hl.
        pose proof (refill_spec W He Hp Hl) as Hr.
        destruct (Parquet.rd_slots (r c)).
        -- destruct Hr as [Hs Hr]. unfold ensures. rewrite Hs.
           unfold reader_end.
           destruct (Parquet.rd_damaged (r c)).
           ++ rewrite Hr. reflexivity.
           ++ destruct Hr as (c' & -> & W' & He' & Hp'). cbn.
              exists c'. repeat split; try apply W'.
              unfold stream. rewrite He', Hp'. reflexivity.
        -- destruct Hr as (c' & -> & W' & He' & Hp' & Hl' & Hs').
           cbn [bind negb].
           pose proof (decode_slot_spec W' He' Hp' Hl') as Hd.
           unfold ensures in *. rewrite Hs' in Hd. exact Hd.
      * apply Nat.leb_gt in Hl. cbn [bind negb].
        apply decode_slot_spec; assumption.
Qed.

Lemma stream_clear_pending c e es t :
  has_pending c = true -> stream c = (e :: es, t) ->
  stream (clear_pending c) = (es, t).
Proof.
  unfold stream. cbn [clear_pending eof has_pending levels_in_buf level_idx
                      value_idx r].
  intros Hp. rewrite Hp.
  assert (Hsame : same_bufs c (clear_pending c)) by (repeat split).
  destruct (eof c).
  - intros H. injection H as _ <- <-. reflexivity.
  - rewrite <- (buf_stream_same _ _ _ _ Hsame).
    intros H. unfold scons in H. injection H as _ <- <-.
    apply surjective_pairing.
Qed.

(** [take] and [peek] on the stream. *)
Lemma take_cons c e es t :
  cursor_wf c -> stream c = (e :: es, t) ->
  exists c', take c = Ok (e, c') /\ cursor_wf c' /\ stream c' = (es, t).
Proof.
  intros W Hs. pose proof (ensure_pending_spec W) as H.
  unfold ensures in H. rewrite Hs in H.
  destruct H as (c' & E & W' & Hp & He & Hs').
  unfold take. rewrite E. cbn [bind negb].
  exists (clear_pending c'). rewrite He. split; [reflexivity|].
  split; [exact W'|]. apply stream_clear_pending with (e := e); congruence.
Qed.

Lemma take_eos c :
  cursor_wf c -> stream c = ([], Eos) ->
  exists c', take c = Ok (Entry0, c') /\ cursor_wf c'
             /\ stream c' = ([], Eos).
Proof.
  intros W Hs. pose proof (ensure_pending_spec W) as H.
  unfold ensures in H. rewrite Hs in H.
  destruct H as (c' & E & W' & Hs').
  unfold take. rewrite E. cbn [bind negb]. exists c'. auto.
Qed.

Lemma take_fault c w :
  cursor_wf c -> stream c = ([], Fault w) -> take c = Throw w.
Proof.
  intros W Hs. pose proof (ensure_pending_spec W) as H.
  unfold ensures in H. rewrite Hs in H.
  unfold take. rewrite H. reflexivity.
Qed.

Lemma peek_cons c e es t :
  cursor_wf c -> stream c = (e :: es, t) ->
  exists c', peek c = Ok (Some e, c') /\ cursor_wf c'
             /\ stream c' = (e :: es, t).
Proof.
  intros W Hs. pose proof (ensure_pending_spec W) as H.
  unfold ensures in H. rewrite Hs in H.
  destruct H as (c' & E & W' & Hp & He & Hs').
  unfold peek. rewrite E. cbn [bind negb].
  exists c'. rewrite He. auto.
Qed.

Lemma peek_eos c :
  cursor_wf c -> stream c = ([], Eos) ->
  exists c', peek c = Ok (None, c') /\ cursor_wf c'
             /\ stream c' = ([], Eos).
Proof.
  intros W Hs. pose proof (ensure_pending_spec W) as H.
  unfold ensures in H. rewrite Hs in H.
  destruct H as (c' & E & W' & Hs').
  unfold peek. rewrite E. cbn [bind negb]. exists c'. auto.
Qed.

Lemma peek_fault c w :
  cursor_wf c -> stream c = ([], Fault w) -> peek c = Throw w.
Proof.
  intros W Hs. pose proof (ensure_pending_spec W) as H.
  unfold ensures in H. rewrite Hs in H.
  unfold peek. rewrite H. reflexivity.
Qed.

(** ** The single-leaf list assembler *)

Definition append_opt (out : option (list Z)) (vs : list Z)
  : option (list Z) :=
  match out with
  | Some l => Some (l ++ vs)
  | None => None
  end.

Definition continues (e : Entry) : Prop := rep e <> 0.

(** The entry a row stops in front of begins the next row. *)
Definition row_boundary (rest : list Entry) : Prop :=
  match rest with
  | x :: _ => rep x = 0
  | [] => True
  end.

Lemma u32_succ count k :
  u32 (u32 (count + 1) + Z.of_nat (S k)) = u32 (count + Z.of_nat (S (S k))).
Proof.
  unfold u32. rewrite Z.add_mod_idemp_l by lia.
  f_equal. lia.
Qed.

Lemma append_opt_push out v vs :
  append_opt (push_back_opt out v) vs = append_opt out (v :: vs).
Proof. destruct out; cbn; [rewrite <- app_assoc|]; reflexivity. Qed.

Lemma append_opt_nil out : append_opt out [] = out.
Proof. destruct out; cbn; [rewrite app_nil_r|]; reflexivity. Qed.

Lemma span_rep (es : list Entry) :
  exists run rest,
    es = run ++ rest /\ Forall continues run /\ row_boundary rest.
Proof.
  induction es as [|x es (run & rest & E & F & B)].
  - exists [], []. repeat split. constructor.
  - destruct (Z.eq_dec (rep x) 0) as [H|H].
    + exists [], (x :: es). repeat split; [constructor | exact H].
    + exists (x :: run), rest. rewrite E. repeat split; auto.
Qed.

Lemma leaf_loop_spec : forall run bound leaf out count e rest t,
  cursor_wf leaf ->
  stream leaf = (e :: run ++ rest, t) ->
  Forall continues run -> row_boundary rest ->
  (length run < bound)%nat ->
  match rest, t with
  | [], Fault w => leaf_loop bound leaf out count = Throw w
  | _, _ =>
      exists leaf',
        leaf_loop bound leaf out count
        = Ok (u32 (count + Z.of_nat (S (length run))), leaf',
              append_opt out (map value (e :: run)))
        /\ cursor_wf leaf' /\ stream leaf' = (rest, t)
  end.
Proof.
  induction run as [|x run IH]; intros bound leaf out count e rest t W Hs F B Hb;
    (destruct bound as [|bound]; [cbn in Hb; lia|]); cbn [leaf_loop].
  - cbn [app] in Hs.
    destruct (take_cons W Hs) as (c1 & -> & W1 & Hs1). cbn [bind].
    destruct rest as [|x rest].
    + destruct t as [|w].
      * destruct (peek_eos W1 Hs1) as (c2 & -> & W2 & Hs2). cbn [bind].
        exists c2. cbn [length map]. rewrite <- append_opt_nil at 1.
        rewrite append_opt_push. auto.
      * rewrite (peek_fault W1 Hs1). reflexivity.
    + destruct (peek_cons W1 Hs1) as (c2 & -> & W2 & Hs2). cbn [bind].
      cbn in B. rewrite B. cbn.
      assert (G : exists leaf',
                 Ok (u32 (count + 1), c2, push_back_opt out (value e))
                 = Ok (u32 (count + 1), leaf',
                       append_opt out [value e])
                 /\ cursor_wf leaf' /\ stream leaf' = (x :: rest, t)).
      { exists c2. rewrite <- append_opt_nil at 1.
        rewrite append_opt_push. auto. }
      destruct t; exact G.
  - cbn [app] in Hs.
    destruct (take_cons W Hs) as (c1 & -> & W1 & Hs1). cbn [bind].
    destruct (peek_cons W1 Hs1) as (c2 & -> & W2 & Hs2). cbn [bind].
    inversion F as [|? ? Hx F']; subst.
    unfold continues in Hx. rewrite (proj2 (Z.eqb_neq _ _) Hx).
    cbn [length] in Hb.
    specialize (IH bound c2 (push_back_opt out (value e)) (u32 (count + 1))
                  x rest t W2 Hs2 F' B ltac:(lia)).
    cbn [length]. rewrite <- u32_succ.
    cbn [map] in *. rewrite append_opt_push in IH. exact IH.
Qed.

(** Every call of the single-leaf assembler: it throws, or returns the
    count of the values it appended; the bound does not run out. *)
Lemma leaf_row_total leaf out :
  cursor_wf leaf ->
  (exists w, append_list_from_leaf_for_row leaf out = Throw w)
  \/ (exists vs leaf',
        append_list_from_leaf_for_row leaf out
        = Ok (u32 (Z.of_nat (length vs)), leaf', append_opt out vs)
        /\ cursor_wf leaf').
Proof.
  intros W. unfold append_list_from_leaf_for_row.
  destruct (stream leaf) as [[|p es] t] eqn:Hs.
  - destruct t as [|w].
    + destruct (peek_eos W Hs) as (c1 & -> & W1 & Hs1). cbn [bind].
      right. exists [], c1. rewrite append_opt_nil. auto.
    + rewrite (peek_fault W Hs). left. eexists. reflexivity.
  - destruct (peek_cons W Hs) as (c1 & -> & W1 & Hs1). cbn [bind].
    destruct (negb (has_value p) && (rep p =? 0)).
    + destruct (take_cons W1 Hs1) as (c2 & -> & W2 & Hs2). cbn [bind].
      right. exists [], c2. rewrite append_opt_nil. auto.
    + destruct (span_rep es) as (run & rest & -> & F & B).
      assert (Hb : (length run < slots_left c1)%nat).
      { pose proof (stream_within_slots_left c1) as H.
        rewrite Hs1 in H. cbn [fst length] in H.
        rewrite length_app in H. lia. }
      pose proof (@leaf_loop_spec run (slots_left c1) c1 out 0 p rest t
                    W1 Hs1 F B Hb) as H.
      destruct rest as [|x rest]; [destruct t as [|w]|].
      * destruct H as (l' & -> & W' & _). right.
        exists (map value (p :: run)), l'. rewrite length_map. auto.
      * rewrite H. left. eexists. reflexivity.
      * destruct H as (l' & -> & W' & _). right.
        exists (map value (p :: run)), l'. rewrite length_map. auto.
Qed.

(** The exception a stream is about to raise, if any. *)
Definition fault_of (s : Stream) : option string :=
  match s with
  | ([], Fault w) => Some w
  | _ => None
  end.

Lemma peek_spec c :
  cursor_wf c ->
  match fault_of (stream c) with
  | Some w => peek c = Throw w
  | None =>
      exists c', peek c = Ok (hd_error (fst (stream c)), c')
                 /\ cursor_wf c' /\ stream c' = stream c
  end.
Proof.
  intros W. destruct (stream c) as [[|e es] [|w]] eqn:Hs; cbn [fault_of].
  - destruct (peek_eos W Hs) as (c' & ? & ? & ?). exists c'. auto.
  - apply peek_fault; assumption.
  - destruct (peek_cons W Hs) as (c' & ? & ? & ?). exists c'. auto.
  - destruct (peek_cons W Hs) as (c' & ? & ? & ?). exists c'. auto.
Qed.

(** ** The paired list assembler *)

(** Two entries that continue the current row on both legs. *)
Definition in_step (x y : Entry) : Prop := rep x <> 0 /\ rep x = rep y.

(** Where the pair loop stops: a leg is at its end, the price leg starts a
    new row, or the legs disagree on the repetition level. *)
Definition pair_stop (prest qrest : list Entry) : Prop :=
  match prest, qrest with
  | x :: _, y :: _ => rep x = 0 \/ rep x <> rep y
  | _, _ => True
  end.

Lemma pairs_loop_spec :
  forall prun qrun bound px qty opx oqty count p q prest qrest tp tq,
    cursor_wf px -> cursor_wf qty ->
    stream px = (p :: prun ++ prest, tp) ->
    stream qty = (q :: qrun ++ qrest, tq) ->
    Forall2 in_step prun qrun -> pair_stop prest qrest ->
    (length prun < bound)%nat ->
    match fault_of (prest, tp), fault_of (qrest, tq) with
    | Some w, _ => pairs_loop bound px qty opx oqty count = Throw w
    | None, Some w => pairs_loop bound px qty opx oqty count = Throw w
    | None, None =>
        exists px' qty',
          pairs_loop bound px qty opx oqty count
          = Ok (u32 (count + Z.of_nat (S (length prun))), (px', qty'),
                (append_opt opx (map value (p :: prun)),
                 append_opt oqty (map value (q :: qrun))))
          /\ cursor_wf px' /\ cursor_wf qty'
          /\ stream px' = (prest, tp) /\ stream qty' = (qrest, tq)
    end.
Proof.
  induction prun as [|x prun IH];
    intros qrun bound px qty opx oqty count p q prest qrest tp tq
           Wp Wq Hp Hq F St Hb;
    inversion F as [|? y ? qrun' Hxy F']; subst;
    (destruct bound as [|bound]; [cbn in Hb; lia|]); cbn [pairs_loop].
  - cbn [app] in Hp, Hq.
    destruct (take_cons Wp Hp) as (p1 & -> & Wp1 & Hp1). cbn [bind].
    destruct (take_cons Wq Hq) as (q1 & -> & Wq1 & Hq1). cbn [bind].
    pose proof (peek_spec Wp1) as Pp. rewrite Hp1 in Pp.
    destruct (fault_of (prest, tp)) as [w|] eqn:Fp.
    + rewrite Pp. reflexivity.
    + destruct Pp as (p2 & -> & Wp2 & Hp2). cbn [bind].
      pose proof (peek_spec Wq1) as Pq. rewrite Hq1 in Pq.
      destruct (fault_of (qrest, tq)) as [w|] eqn:Fq.
      * rewrite Pq. reflexivity.
      * destruct Pq as (q2 & -> & Wq2 & Hq2). cbn [bind].
        exists p2, q2. cbn [length map fst].
        rewrite <- (append_opt_nil (push_back_opt opx _)).
        rewrite <- (append_opt_nil (push_back_opt oqty _)).
        rewrite !append_opt_push.
        split; [|auto].
        destruct prest as [|x prest]; [reflexivity|].
        destruct qrest as [|y qrest]; [reflexivity|].
        cbn [hd_error]. cbn in St. destruct St as [St | St].
        -- rewrite St. reflexivity.
        -- destruct (rep x =? 0); [reflexivity|].
           rewrite (proj2 (Z.eqb_neq _ _) St). reflexivity.
  - cbn [app] in Hp, Hq.
    destruct (take_cons Wp Hp) as (p1 & -> & Wp1 & Hp1). cbn [bind].
    destruct (take_cons Wq Hq) as (q1 & -> & Wq1 & Hq1). cbn [bind].
    destruct (peek_cons Wp1 Hp1) as (p2 & -> & Wp2 & Hp2). cbn [bind].
    destruct (peek_cons Wq1 Hq1) as (q2 & -> & Wq2 & Hq2). cbn [bind].
    destruct Hxy as [Hx Hxy].
    rewrite (proj2 (Z.eqb_neq _ _) Hx).
    rewrite (proj2 (Z.eqb_eq _ _) Hxy). cbn [negb].
    cbn [length] in Hb.
    specialize (IH qrun' bound p2 q2 (push_back_opt opx (value p))
                  (push_back_opt oqty (value q)) (u32 (count + 1))
                  x y prest qrest tp tq Wp2 Wq2 Hp2 Hq2 F' St ltac:(lia)).
    cbn [length]. rewrite <- u32_succ.
    cbn [map] in *. rewrite !append_opt_push in IH. exact IH.
Qed.

Lemma span_pairs : forall ps qs,
  exists prun qrun prest qrest,
    ps = prun ++ prest /\ qs = qrun ++ qrest
    /\ Forall2 in_step prun qrun /\ pair_stop prest qrest.
Proof.
  induction ps as [|x ps IH]; intros qs.
  - exists [], [], [], qs. repeat split. constructor.
  - destruct qs as [|y qs].
    + exists [], [], (x :: ps), []. repeat split. constructor.
    + destruct (Z.eq_dec (rep x) 0) as [H0|H0].
      { exists [], [], (x :: ps), (y :: qs). repeat split;
          [constructor | left; exact H0]. }
      destruct (Z.eq_dec (rep x) (rep y)) as [He|He].
      * destruct (IH qs) as (prun & qrun & prest & qrest & -> & -> & F & St).
        exists (x :: prun), (y :: qrun), prest, qrest.
        repeat split; try assumption. constructor; [split|]; assumption.
      * exists [], [], (x :: ps), (y :: qs). repeat split;
          [constructor | right; exact He].
Qed.

(** Every call of the paired assembler: it throws, or returns the count of
    the pairs it appended, the same number of values on each leg. *)
Lemma pairs_row_total px qty opx oqty :
  cursor_wf px -> cursor_wf qty ->
  (exists w, append_list_pairs_for_row_typed px qty opx oqty = Throw w)
  \/ (exists vp vq px' qty',
        append_list_pairs_for_row_typed px qty opx oqty
        = Ok (u32 (Z.of_nat (length vp)), (px', qty'),
              (append_opt opx vp, append_opt oqty vq))
        /\ length vp = length vq
        /\ cursor_wf px' /\ cursor_wf qty').
Proof.
  intros Wp Wq. unfold append_list_pairs_for_row_typed.
  pose proof (peek_spec Wp) as Pp.
  remember (fault_of (stream px)) as fp eqn:Fp.
  destruct fp as [w|]; [rewrite Pp; left; eexists; reflexivity|].
  destruct Pp as (p1 & -> & Wp1 & Hp1). cbn [bind].
  pose proof (peek_spec Wq) as Pq.
  remember (fault_of (stream qty)) as fq eqn:Fq.
  destruct fq as [w|]; [rewrite Pq; left; eexists; reflexivity|].
  destruct Pq as (q1 & -> & Wq1 & Hq1). cbn [bind].
  assert (Hnone : (exists w : string, Ok (0, (p1, q1), (opx, oqty)) = Throw w) \/
            (exists vp vq px' qty',
               Ok (0, (p1, q1), (opx, oqty))
               = Ok (u32 (Z.of_nat (length vp)), (px', qty'),
                     (append_opt opx vp, append_opt oqty vq))
               /\ length vp = length vq
               /\ cursor_wf px' /\ cursor_wf qty')).
  { right. exists [], [], p1, q1. rewrite !append_opt_nil. auto. }
  destruct (stream px) as [[|p ps] tp] eqn:Hp; cbn [fst hd_error];
    [exact Hnone|].
  destruct (stream qty) as [[|q qs] tq] eqn:Hq; cbn [fst hd_error];
    [exact Hnone|].
  destruct ((negb (has_value p) && (rep p =? 0))
            && (negb (has_value q) && (rep q =? 0))).
  - destruct (take_cons Wp1 Hp1) as (p2 & -> & Wp2 & _). cbn [bind].
    destruct (take_cons Wq1 Hq1) as (q2 & -> & Wq2 & _). cbn [bind].
    right. exists [], [], p2, q2. rewrite !append_opt_nil. auto.
  - destruct (span_pairs ps qs)
      as (prun & qrun & prest & qrest & -> & -> & F & St).
    assert (Hb : (length prun < slots_left p1)%nat).
    { pose proof (stream_within_slots_left p1) as H.
      rewrite Hp1 in H. cbn [fst length] in H.
      rewrite length_app in H. lia. }
    pose proof (@pairs_loop_spec prun qrun (slots_left p1) p1 q1 opx oqty 0
                  p q prest qrest tp tq Wp1 Wq1 Hp1 Hq1 F St Hb) as H.
    destruct (fault_of (prest, tp)); [left; eexists; exact H|].
    destruct (fault_of (qrest, tq)); [left; eexists; exact H|].
    destruct H as (px' & qty' & -> & Wp' & Wq' & _).
    right. exists (map value (p :: prun)), (map value (q :: qrun)), px', qty'.
    rewrite !length_map. cbn [length].
    rewrite (Forall2_length F). auto.
Qed.

(** ** Rows through the assemblers *)

(** [!p->has_value && p->rep == 0]: the entry that stands for an explicit
    empty list. *)
Definition empty_start (p : Entry) : bool :=
  negb (has_value p) && (rep p =? 0).

Lemma u32_small z : 0 <= z < 2 ^ 32 -> u32 z = z.
Proof. intros H. unfold u32. apply Z.mod_small. exact H. Qed.

Lemma cursor_wf_init col : cursor_wf (Int64Cursor_init col).
Proof. split; reflexivity. Qed.

Lemma stream_init col : stream (Int64Cursor_init col) = reader_stream col.
Proof. reflexivity. Qed.

(** C6.  A row read through the single-leaf assembler.  When the first
    pending entry [p] has no value and repetition level zero, exactly that
    entry is consumed, the count is zero and the output is untouched.
    Otherwise [p] and the entries [run] that follow it with a nonzero
    repetition level are consumed, up to the first entry with repetition
    level zero or the end of the column; the count returned is the number
    of values appended to a supplied output. *)
Theorem single_leaf_row_assembly :
  forall (leaf : Int64Cursor) (out : option (list Z))
         (p : Entry) (es : list Entry) (t : Tail),
    cursor_wf leaf ->
    stream leaf = (p :: es, t) ->
    (empty_start p = true ->
     exists leaf',
       append_list_from_leaf_for_row leaf out = Ok (0, leaf', out)
       /\ stream leaf' = (es, t))
    /\
    (empty_start p = false ->
     forall run rest : list Entry,
       es = run ++ rest ->
       Forall continues run -> row_boundary rest ->
       (rest = [] -> t = Eos) ->
       Z.of_nat (S (length run)) < 2 ^ 32 ->
       exists leaf',
         append_list_from_leaf_for_row leaf out
         = Ok (Z.of_nat (length (map value (p :: run))), leaf',
               append_opt out (map value (p :: run)))
         /\ stream leaf' = (rest, t)).
Proof.
  intros leaf out p es t W Hs.
  unfold append_list_from_leaf_for_row.
  destruct (peek_cons W Hs) as (c1 & -> & W1 & Hs1). cbn [bind].
  fold (empty_start p).
  split; intros He; rewrite He.
  - destruct (take_cons W1 Hs1) as (c2 & -> & W2 & Hs2). cbn [bind].
    exists c2. auto.
  - intros run rest -> F B Hend Hlt.
    assert (Hb : (length run < slots_left c1)%nat).
    { pose proof (stream_within_slots_left c1) as H.
      rewrite Hs1 in H. cbn [fst length] in H.
      rewrite length_app in H. lia. }
    pose proof (@leaf_loop_spec run (slots_left c1) c1 out 0 p rest t
                  W1 Hs1 F B Hb) as H.
    rewrite length_map. cbn [length].
    assert (G : exists leaf',
               leaf_loop (slots_left c1) c1 out 0
               = Ok (u32 (0 + Z.of_nat (S (length run))), leaf',
                     append_opt out (map value (p :: run)))
               /\ cursor_wf leaf' /\ stream leaf' = (rest, t)).
    { destruct rest as [|x rest]; [|exact H].
      rewrite (Hend eq_refl) in *. exact H. }
    destruct G as (l' & E & _ & S'). exists l'.
    rewrite E, Z.add_0_l, u32_small by lia. auto.
Qed.

(** C7.  A row read through the paired assembler.  The legs advance in
    lock-step: the same number of entries is taken from each and one value
    per pair is appended to each supplied output.  The loop stops where a
    leg ends, where the price leg begins a new row, or where the legs
    disagree on the repetition level; in the last case the list is cut
    there, nothing further is consumed, and the call returns normally. *)
Theorem paired_row_assembly :
  forall (px qty : Int64Cursor) (opx oqty : option (list Z))
         (p q : Entry) (prun qrun prest qrest : list Entry) (tp tq : Tail),
    cursor_wf px -> cursor_wf qty ->
    stream px = (p :: prun ++ prest, tp) ->
    stream qty = (q :: qrun ++ qrest, tq) ->
    empty_start p && empty_start q = false ->
    Forall2 in_step prun qrun ->
    Z.of_nat (S (length prun)) < 2 ^ 32 ->
    let lockstep :=
      exists px' qty',
        append_list_pairs_for_row_typed px qty opx oqty
        = Ok (Z.of_nat (length (map value (p :: prun))), (px', qty'),
              (append_opt opx (map value (p :: prun)),
               append_opt oqty (map value (q :: qrun))))
        /\ length (map value (p :: prun)) = length (map value (q :: qrun))
        /\ stream px' = (prest, tp) /\ stream qty' = (qrest, tq) in
    (pair_stop prest qrest ->
     fault_of (prest, tp) = None -> fault_of (qrest, tq) = None ->
     lockstep)
    /\
    (forall x y prest' qrest',
       prest = x :: prest' -> qrest = y :: qrest' ->
       rep x <> rep y ->
       lockstep).
Proof.
  intros px qty opx oqty p q prun qrun prest qrest tp tq
         Wp Wq Hp Hq He F Hlt lockstep.
  assert (A : pair_stop prest qrest ->
              fault_of (prest, tp) = None -> fault_of (qrest, tq) = None ->
              lockstep).
  { intros St Fp Fq. subst lockstep.
    unfold append_list_pairs_for_row_typed.
    destruct (peek_cons Wp Hp) as (p1 & -> & Wp1 & Hp1). cbn [bind].
    destruct (peek_cons Wq Hq) as (q1 & -> & Wq1 & Hq1). cbn [bind].
    fold (empty_start p). fold (empty_start q). rewrite He.
    assert (Hb : (length prun < slots_left p1)%nat).
    { pose proof (stream_within_slots_left p1) as H.
      rewrite Hp1 in H. cbn [fst length] in H.
      rewrite length_app in H. lia. }
    pose proof (@pairs_loop_spec prun qrun (slots_left p1) p1 q1 opx oqty 0
                  p q prest qrest tp tq Wp1 Wq1 Hp1 Hq1 F St Hb) as H.
    rewrite Fp, Fq in H.
    destruct H as (px' & qty' & -> & _ & _ & Sp & Sq).
    exists px', qty'. rewrite !length_map. cbn [length].
    rewrite Z.add_0_l, u32_small by lia.
    rewrite (Forall2_length F). auto. }
  split; [exact A|].
  intros x y prest' qrest' -> -> Hne.
  apply A; [right; exact Hne | reflexivity | reflexivity].
Qed.

(** ** The output pointer does not steer the assemblers *)

Definition count_and_cursor {A B : Type} (m : Res (Z * A * B)) : Res (Z * A) :=
  match m with
  | Ok (n, a, _) => Ok (n, a)
  | Throw w => Throw w
  | Hang => Hang
  end.

Definition outputs {A B : Type} (m : Res (Z * A * B)) : option B :=
  match m with
  | Ok (_, _, b) => Some b
  | _ => None
  end.

Lemma leaf_loop_any_out : forall bound leaf out out' count,
  count_and_cursor (leaf_loop bound leaf out count)
  = count_and_cursor (leaf_loop bound leaf out' count).
Proof.
  induction bound as [|bound IH]; intros leaf out out' count;
    cbn [leaf_loop]; [reflexivity|].
  destruct (take leaf) as [[e c1]| |]; cbn [bind]; try reflexivity.
  destruct (peek c1) as [[[n|] c2]| |]; cbn [bind]; try reflexivity.
  destruct (rep n =? 0); [reflexivity|]. apply IH.
Qed.

Lemma leaf_loop_null_out : forall bound leaf count o,
  outputs (leaf_loop bound leaf None count) = Some o -> o = None.
Proof.
  induction bound as [|bound IH]; intros leaf count o;
    cbn [leaf_loop]; [discriminate|].
  destruct (take leaf) as [[e c1]| |]; cbn [bind]; try discriminate.
  destruct (peek c1) as [[[n|] c2]| |]; cbn [bind]; try discriminate;
    cbn [push_back_opt outputs].
  - destruct (rep n =? 0); [cbn [outputs]; congruence|]. apply IH.
  - congruence.
Qed.

Lemma leaf_any_out leaf out out' :
  count_and_cursor (append_list_from_leaf_for_row leaf out)
  = count_and_cursor (append_list_from_leaf_for_row leaf out').
Proof.
  unfold append_list_from_leaf_for_row.
  destruct (peek leaf) as [[[p|] c1]| |]; cbn [bind]; try reflexivity.
  destruct (negb (has_value p) && (rep p =? 0)).
  - destruct (take c1) as [[e c2]| |]; reflexivity.
  - apply leaf_loop_any_out.
Qed.

Lemma leaf_null_out leaf o :
  outputs (append_list_from_leaf_for_row leaf None) = Some o -> o = None.
Proof.
  unfold append_list_from_leaf_for_row.
  destruct (peek leaf) as [[[p|] c1]| |]; cbn [bind outputs];
    try congruence.
  destruct (negb (has_value p) && (rep p =? 0)).
  - destruct (take c1) as [[e c2]| |]; cbn [bind outputs]; congruence.
  - apply leaf_loop_null_out.
Qed.

Lemma pairs_loop_any_out : forall bound px qty opx oqty opx' oqty' count,
  count_and_cursor (pairs_loop bound px qty opx oqty count)
  = count_and_cursor (pairs_loop bound px qty opx' oqty' count).
Proof.
  induction bound as [|bound IH];
    intros px qty opx oqty opx' oqty' count; cbn [pairs_loop];
    [reflexivity|].
  destruct (take px) as [[ep p1]| |]; cbn [bind]; try reflexivity.
  destruct (take qty) as [[eq q1]| |]; cbn [bind]; try reflexivity.
  destruct (peek p1) as [[np p2]| |]; cbn [bind]; try reflexivity.
  destruct (peek q1) as [[nq q2]| |]; cbn [bind]; try reflexivity.
  destruct np as [np|]; [|reflexivity].
  destruct nq as [nq|]; [|reflexivity].
  destruct (rep np =? 0); [reflexivity|].
  destruct (negb (rep np =? rep nq)); [reflexivity|]. apply IH.
Qed.

Lemma pairs_loop_null_out : forall bound px qty count o,
  outputs (pairs_loop bound px qty None None count) = Some o ->
  o = (None, None).
Proof.
  induction bound as [|bound IH]; intros px qty count o; cbn [pairs_loop];
    [discriminate|].
  destruct (take px) as [[ep p1]| |]; cbn [bind]; try discriminate.
  destruct (take qty) as [[eq q1]| |]; cbn [bind]; try discriminate.
  destruct (peek p1) as [[np p2]| |]; cbn [bind]; try discriminate.
  destruct (peek q1) as [[nq q2]| |]; cbn [bind]; try discriminate.
  cbn [push_back_opt].
  destruct np as [np|]; [|cbn [outputs]; congruence].
  destruct nq as [nq|]; [|cbn [outputs]; congruence].
  destruct (rep np =? 0); [cbn [outputs]; congruence|].
  destruct (negb (rep np =? rep nq)); [cbn [outputs]; congruence|]. apply IH.
Qed.

Lemma pairs_any_out px qty opx oqty opx' oqty' :
  count_and_cursor (append_list_pairs_for_row_typed px qty opx oqty)
  = count_and_cursor (append_list_pairs_for_row_typed px qty opx' oqty').
Proof.
  unfold append_list_pairs_for_row_typed.
  destruct (peek px) as [[pp p1]| |]; cbn [bind]; try reflexivity.
  destruct (peek qty) as [[qq q1]| |]; cbn [bind]; try reflexivity.
  destruct pp as [p|]; [|reflexivity].
  destruct qq as [q|]; [|reflexivity].
  destruct (negb (has_value p) && (rep p =? 0)
            && (negb (has_value q) && (rep q =? 0))).
  - destruct (take p1) as [[e p2]| |]; cbn [bind]; try reflexivity.
    destruct (take q1) as [[e' q2]| |]; reflexivity.
  - apply pairs_loop_any_out.
Qed.

Lemma pairs_null_out px qty o :
  outputs (append_list_pairs_for_row_typed px qty None None) = Some o ->
  o = (None, None).
Proof.
  unfold append_list_pairs_for_row_typed.
  destruct (peek px) as [[pp p1]| |]; cbn [bind outputs]; try congruence.
  destruct (peek qty) as [[qq q1]| |]; cbn [bind outputs]; try congruence.
  destruct pp as [p|]; [|cbn [outputs]; congruence].
  destruct qq as [q|]; [|cbn [outputs]; congruence].
  destruct (negb (has_value p) && (rep p =? 0)
            && (negb (has_value q) && (rep q =? 0))).
  - destruct (take p1) as [[e p2]| |]; cbn [bind outputs]; try congruence.
    destruct (take q1) as [[e' q2]| |]; cbn [bind outputs]; congruence.
  - apply pairs_loop_null_out.
Qed.

(** ** One row of a depth row group *)

Lemma bind_Ok {A B : Type} (m : Res A) (k : A -> Res B) (b : B) :
  bind m k = Ok b -> exists a, m = Ok a /\ k a = Ok b.
Proof. destruct m; cbn; intros H; try discriminate. eauto. Qed.

Definition opt_wf (c : option Int64Cursor) : Prop :=
  match c with
  | Some c => cursor_wf c
  | None => True
  end.

Definition engaged {A : Type} (c : option A) : bool :=
  match c with Some _ => true | None => false end.

Definition in_range_of (start_ns end_ns : Z) (e_ts : Entry) : bool :=
  in_window start_ns end_ns (value e_ts).

(** The steps of [row_step], one by one. *)
Lemma row_step_inv s e sel cs b cs' b' :
  Delta.row_step s e sel cs b = Ok (cs', b') ->
  exists e_ts ts e_fid fid e_lid lid e_evt evt
         asks_added apx aqty v_apx v_aqty bids_added bpx bqty v_bpx v_bqty,
    take (Delta.c_ts cs) = Ok (e_ts, ts)
    /\ Delta.take_opt (Delta.c_fid cs) = Ok (e_fid, fid)
    /\ Delta.take_opt (Delta.c_lid cs) = Ok (e_lid, lid)
    /\ Delta.take_opt (Delta.c_evt cs) = Ok (e_evt, evt)
    /\ Delta.side_step (Delta.c_apx cs) (Delta.c_aqty cs)
         (in_range_of s e e_ts) (Delta.ask_px_ b) (Delta.ask_qty_ b)
       = Ok (asks_added, (apx, aqty), (v_apx, v_aqty))
    /\ Delta.side_step (Delta.c_bpx cs) (Delta.c_bqty cs)
         (in_range_of s e e_ts) (Delta.bid_px_ b) (Delta.bid_qty_ b)
       = Ok (bids_added, (bpx, bqty), (v_bpx, v_bqty))
    /\ cs' = {| Delta.c_ts := ts; Delta.c_fid := fid; Delta.c_lid := lid;
                Delta.c_evt := evt; Delta.c_apx := apx;
                Delta.c_aqty := aqty; Delta.c_bpx := bpx;
                Delta.c_bqty := bqty |}
    /\ b' =
       if in_range_of s e e_ts then
         {| Delta.ts_ := Delta.ts_ b ++ [value e_ts];
            Delta.fid_ := Delta.push_if (Delta.firstId sel) (Delta.fid_ b)
                            (value e_fid);
            Delta.lid_ := Delta.push_if (Delta.lastId sel) (Delta.lid_ b)
                            (value e_lid);
            Delta.evt_ := Delta.push_if (Delta.eventTime sel) (Delta.evt_ b)
                            (value e_evt);
            Delta.ask_off_ :=
              Delta.push_if (Delta.ask_px sel || Delta.ask_qty sel)
                (Delta.ask_off_ b)
                (u32 (last (Delta.ask_off_ b) 0 + asks_added));
            Delta.bid_off_ :=
              Delta.push_if (Delta.bid_px sel || Delta.bid_qty sel)
                (Delta.bid_off_ b)
                (u32 (last (Delta.bid_off_ b) 0 + bids_added));
            Delta.ask_px_ := v_apx; Delta.ask_qty_ := v_aqty;
            Delta.bid_px_ := v_bpx; Delta.bid_qty_ := v_bqty |}
       else
         {| Delta.ts_ := Delta.ts_ b; Delta.fid_ := Delta.fid_ b;
            Delta.lid_ := Delta.lid_ b; Delta.evt_ := Delta.evt_ b;
            Delta.ask_off_ := Delta.ask_off_ b;
            Delta.bid_off_ := Delta.bid_off_ b;
            Delta.ask_px_ := v_apx; Delta.ask_qty_ := v_aqty;
            Delta.bid_px_ := v_bpx; Delta.bid_qty_ := v_bqty |}.
Proof.
  unfold Delta.row_step. intros H.
  apply bind_Ok in H. destruct H as ([e_ts ts] & E1 & H).
  apply bind_Ok in H. destruct H as ([e_fid fid] & E2 & H).
  apply bind_Ok in H. destruct H as ([e_lid lid] & E3 & H).
  apply bind_Ok in H. destruct H as ([e_evt evt] & E4 & H).
  apply bind_Ok in H.
  destruct H as ([[asks_added [apx aqty]] [v_apx v_aqty]] & E5 & H).
  apply bind_Ok in H.
  destruct H as ([[bids_added [bpx bqty]] [v_bpx v_bqty]] & E6 & H).
  exists e_ts, ts, e_fid, fid, e_lid, lid, e_evt, evt,
    asks_added, apx, aqty, v_apx, v_aqty, bids_added, bpx, bqty, v_bpx, v_bqty.
  unfold in_range_of.
  repeat (split; [assumption|]).
  destruct (in_window s e (value e_ts)); injection H as <- <-; auto.
Qed.

(** A side of the book whose row is outside the window: the vectors handed
    in come back as they were. *)
Lemma side_step_out_of_window px qty v_px v_qty added cs' v_px' v_qty' :
  Delta.side_step px qty false v_px v_qty = Ok (added, cs', (v_px', v_qty')) ->
  v_px' = v_px /\ v_qty' = v_qty.
Proof.
  unfold Delta.side_step. destruct px as [p|], qty as [q|].
  - intros H.
    pose proof (@pairs_null_out p q) as N.
    destruct (append_list_pairs_for_row_typed p q None None)
      as [[[n [p' q']] [o1 o2]]| |]; cbn [bind] in H; try discriminate.
    specialize (N _ eq_refl). injection N as -> ->.
    injection H as _ _ <- <-. auto.
  - intros H.
    pose proof (@leaf_null_out p) as N.
    destruct (append_list_from_leaf_for_row p None)
      as [[[n p'] o1]| |]; cbn [bind] in H; try discriminate.
    specialize (N _ eq_refl). subst o1.
    injection H as _ _ <- <-. auto.
  - intros H.
    pose proof (@leaf_null_out q) as N.
    destruct (append_list_from_leaf_for_row q None)
      as [[[n q'] o1]| |]; cbn [bind] in H; try discriminate.
    specialize (N _ eq_refl). subst o1.
    injection H as _ _ <- <-. auto.
  - intros H. injection H as _ _ <- <-. auto.
Qed.

(** The count and the cursors a side leaves do not depend on the window
    test or on the vectors. *)
Lemma side_step_any_out px qty r1 r2 v1 v2 w1 w2 :
  count_and_cursor (Delta.side_step px qty r1 v1 w1)
  = count_and_cursor (Delta.side_step px qty r2 v2 w2).
Proof.
  unfold Delta.side_step. destruct px as [p|], qty as [q|].
  - pose proof (pairs_any_out p q
                  (if r1 then Some v1 else None) (if r1 then Some w1 else None)
                  (if r2 then Some v2 else None) (if r2 then Some w2 else None))
      as H.
    destruct (append_list_pairs_for_row_typed p q
                (if r1 then Some v1 else None) (if r1 then Some w1 else None))
      as [[[n [p' q']] [o1 o2]]| |];
      destruct (append_list_pairs_for_row_typed p q
                  (if r2 then Some v2 else None)
                  (if r2 then Some w2 else None))
        as [[[n2 [p2 q2]] [o3 o4]]| |];
      cbn [bind count_and_cursor] in *; congruence.
  - pose proof (leaf_any_out p (if r1 then Some v1 else None)
                  (if r2 then Some v2 else None)) as H.
    destruct (append_list_from_leaf_for_row p (if r1 then Some v1 else None))
      as [[[n p'] o1]| |];
      destruct (append_list_from_leaf_for_row p
                  (if r2 then Some v2 else None))
        as [[[n2 p2] o2]| |];
      cbn [bind count_and_cursor] in *; congruence.
  - pose proof (leaf_any_out q (if r1 then Some w1 else None)
                  (if r2 then Some w2 else None)) as H.
    destruct (append_list_from_leaf_for_row q (if r1 then Some w1 else None))
      as [[[n q'] o1]| |];
      destruct (append_list_from_leaf_for_row q
                  (if r2 then Some w2 else None))
        as [[[n2 q2] o2]| |];
      cbn [bind count_and_cursor] in *; congruence.
  - reflexivity.
Qed.

Definition cursors_after (m : Res (Delta.Cursors * Delta.Bufs))
  : Res Delta.Cursors :=
  match m with
  | Ok (cs, _) => Ok cs
  | Throw w => Throw w
  | Hang => Hang
  end.

Lemma row_step_cursors s e sel cs b s2 e2 b2 :
  cursors_after (Delta.row_step s e sel cs b)
  = cursors_after (Delta.row_step s2 e2 sel cs b2).
Proof.
  unfold Delta.row_step.
  destruct (take (Delta.c_ts cs)) as [[e_ts ts]| |]; cbn [bind];
    try reflexivity.
  destruct (Delta.take_opt (Delta.c_fid cs)) as [[e_fid fid]| |];
    cbn [bind]; try reflexivity.
  destruct (Delta.take_opt (Delta.c_lid cs)) as [[e_lid lid]| |];
    cbn [bind]; try reflexivity.
  destruct (Delta.take_opt (Delta.c_evt cs)) as [[e_evt evt]| |];
    cbn [bind]; try reflexivity.
  pose proof (side_step_any_out (Delta.c_apx cs) (Delta.c_aqty cs)
                (in_window s e (value e_ts)) (in_window s2 e2 (value e_ts))
                (Delta.ask_px_ b) (Delta.ask_px_ b2)
                (Delta.ask_qty_ b) (Delta.ask_qty_ b2)) as HA.
  destruct (Delta.side_step (Delta.c_apx cs) (Delta.c_aqty cs)
              (in_window s e (value e_ts)) (Delta.ask_px_ b)
              (Delta.ask_qty_ b)) as [[[na [pa qa]] [oa1 oa2]]| |];
    destruct (Delta.side_step (Delta.c_apx cs) (Delta.c_aqty cs)
                (in_window s2 e2 (value e_ts)) (Delta.ask_px_ b2)
                (Delta.ask_qty_ b2)) as [[[na' [pa' qa']] [oa1' oa2']]| |];
    cbn [bind count_and_cursor] in *; try congruence.
  injection HA as <- <- <-.
  pose proof (side_step_any_out (Delta.c_bpx cs) (Delta.c_bqty cs)
                (in_window s e (value e_ts)) (in_window s2 e2 (value e_ts))
                (Delta.bid_px_ b) (Delta.bid_px_ b2)
                (Delta.bid_qty_ b) (Delta.bid_qty_ b2)) as HB.
  destruct (Delta.side_step (Delta.c_bpx cs) (Delta.c_bqty cs)
              (in_window s e (value e_ts)) (Delta.bid_px_ b)
              (Delta.bid_qty_ b)) as [[[nb [pb qb]] [ob1 ob2]]| |];
    destruct (Delta.side_step (Delta.c_bpx cs) (Delta.c_bqty cs)
                (in_window s2 e2 (value e_ts)) (Delta.bid_px_ b2)
                (Delta.bid_qty_ b2)) as [[[nb' [pb' qb']] [ob1' ob2']]| |];
    cbn [bind count_and_cursor] in *; try congruence.
  injection HB as <- <- <-.
  destruct (in_window s e (value e_ts)), (in_window s2 e2 (value e_ts));
    reflexivity.
Qed.

Lemma row_step_outside s e sel cs cs' b b' e_ts ts' :
  take (Delta.c_ts cs) = Ok (e_ts, ts') ->
  in_window s e (value e_ts) = false ->
  Delta.row_step s e sel cs b = Ok (cs', b') ->
  b' = b.
Proof.
  intros Ht Hout Hstep.
  destruct (row_step_inv _ _ _ _ _ Hstep)
    as (e_ts0 & ts & e_fid & fid & e_lid & lid & e_evt & evt
        & na & apx & aqty & v_apx & v_aqty & nb & bpx & bqty & v_bpx & v_bqty
        & E1 & _ & _ & _ & E5 & E6 & _ & ->).
  rewrite Ht in E1. injection E1 as <- <-.
  unfold in_range_of in *. rewrite Hout in *.
  destruct (side_step_out_of_window _ _ _ _ E5) as [-> ->].
  destruct (side_step_out_of_window _ _ _ _ E6) as [-> ->].
  destruct b; reflexivity.
Qed.

(** ** Counts and offsets *)

Lemma leaf_loop_count : forall bound leaf v count n l' o',
  leaf_loop bound leaf (Some v) count = Ok (n, l', o') ->
  exists vs, o' = Some (v ++ vs)
             /\ n = u32 (count + Z.of_nat (length vs)).
Proof.
  induction bound as [|bound IH]; intros leaf v count n l' o';
    cbn [leaf_loop]; [discriminate|].
  destruct (take leaf) as [[e c1]| |]; cbn [bind]; try discriminate.
  destruct (peek c1) as [[nx c2]| |]; cbn [bind push_back_opt];
    try discriminate.
  assert (Stop : Ok (u32 (count + 1), c2, Some (v ++ [value e]))
                 = Ok (n, l', o') ->
                 exists vs, o' = Some (v ++ vs)
                            /\ n = u32 (count + Z.of_nat (length vs))).
  { intros H. injection H as <- <- <-. exists [value e]. auto. }
  destruct nx as [nx|]; [|exact Stop].
  destruct (rep nx =? 0); [exact Stop|].
  intros H. apply IH in H. destruct H as (vs & -> & ->).
  exists (value e :: vs). rewrite <- app_assoc. split; [reflexivity|].
  cbn [length]. unfold u32. rewrite Z.add_mod_idemp_l by lia.
  f_equal. lia.
Qed.

Lemma leaf_count leaf v n l' o' :
  append_list_from_leaf_for_row leaf (Some v) = Ok (n, l', o') ->
  exists vs, o' = Some (v ++ vs) /\ n = u32 (Z.of_nat (length vs)).
Proof.
  unfold append_list_from_leaf_for_row.
  destruct (peek leaf) as [[[p|] c1]| |]; cbn [bind]; try discriminate.
  - destruct (negb (has_value p) && (rep p =? 0)).
    + destruct (take c1) as [[e c2]| |]; cbn [bind]; try discriminate.
      intros H. injection H as <- <- <-. exists []. rewrite app_nil_r. auto.
    + intros H. apply leaf_loop_count in H. exact H.
  - intros H. injection H as <- <- <-. exists []. rewrite app_nil_r. auto.
Qed.

Lemma pairs_loop_count : forall bound px qty v w count n cs' o',
  pairs_loop bound px qty (Some v) (Some w) count = Ok (n, cs', o') ->
  exists vs ws, o' = (Some (v ++ vs), Some (w ++ ws))
                /\ length vs = length ws
                /\ n = u32 (count + Z.of_nat (length vs)).
Proof.
  induction bound as [|bound IH]; intros px qty v w count n cs' o';
    cbn [pairs_loop]; [discriminate|].
  destruct (take px) as [[ep p1]| |]; cbn [bind]; try discriminate.
  destruct (take qty) as [[eq q1]| |]; cbn [bind]; try discriminate.
  destruct (peek p1) as [[np p2]| |]; cbn [bind]; try discriminate.
  destruct (peek q1) as [[nq q2]| |]; cbn [bind push_back_opt];
    try discriminate.
  assert (Stop : Ok (u32 (count + 1), (p2, q2),
                     (Some (v ++ [value ep]), Some (w ++ [value eq])))
                 = Ok (n, cs', o') ->
                 exists vs ws, o' = (Some (v ++ vs), Some (w ++ ws))
                               /\ length vs = length ws
                               /\ n = u32 (count + Z.of_nat (length vs))).
  { intros H. injection H as <- <- <-.
    exists [value ep], [value eq]. auto. }
  destruct np as [np|]; [|exact Stop].
  destruct nq as [nq|]; [|exact Stop].
  destruct (rep np =? 0); [exact Stop|].
  destruct (negb (rep np =? rep nq)); [exact Stop|].
  intros H. apply IH in H. destruct H as (vs & ws & -> & L & ->).
  exists (value ep :: vs), (value eq :: ws). rewrite <- !app_assoc.
  split; [reflexivity|]. split; [cbn; lia|].
  cbn [length]. unfold u32. rewrite Z.add_mod_idemp_l by lia.
  f_equal. lia.
Qed.

Lemma pairs_count px qty v w n cs' o' :
  append_list_pairs_for_row_typed px qty (Some v) (Some w) = Ok (n, cs', o') ->
  exists vs ws, o' = (Some (v ++ vs), Some (w ++ ws))
                /\ length vs = length ws
                /\ n = u32 (Z.of_nat (length vs)).
Proof.
  unfold append_list_pairs_for_row_typed.
  destruct (peek px) as [[pp p1]| |]; cbn [bind]; try discriminate.
  destruct (peek qty) as [[qq q1]| |]; cbn [bind]; try discriminate.
  assert (Zero : forall a b,
             Ok (0, (a, b), (Some v, Some w)) = Ok (n, cs', o') ->
             exists vs ws, o' = (Some (v ++ vs), Some (w ++ ws))
                           /\ length vs = length ws
                           /\ n = u32 (Z.of_nat (length vs))).
  { intros a b H. injection H as <- <- <-.
    exists [], []. rewrite !app_nil_r. auto. }
  destruct pp as [p|]; [|apply Zero].
  destruct qq as [q|]; [|apply Zero].
  destruct (negb (has_value p) && (rep p =? 0)
            && (negb (has_value q) && (rep q =? 0))).
  - destruct (take p1) as [[e p2]| |]; cbn [bind]; try discriminate.
    destruct (take q1) as [[e' q2]| |]; cbn [bind]; try discriminate.
    apply Zero.
  - intros H. apply pairs_loop_count in H. exact H.
Qed.

(** An in-window row on one side: the count returned is the number of
    values appended to each vector whose leg is read. *)
Lemma side_step_count px qty v w added px' qty' v' w' :
  Delta.side_step px qty true v w = Ok (added, (px', qty'), (v', w')) ->
  exists k : nat,
    added = u32 (Z.of_nat k)
    /\ engaged px' = engaged px /\ engaged qty' = engaged qty
    /\ length v' = (length v + (if engaged px then k else 0))%nat
    /\ length w' = (length w + (if engaged qty then k else 0))%nat.
Proof.
  unfold Delta.side_step. destruct px as [p|], qty as [q|]; intros H.
  - apply bind_Ok in H.
    destruct H as ([[n [p' q']] [o1 o2]] & E & H).
    injection H as <- <- <- <- <-.
    apply pairs_count in E. destruct E as (vs & ws & E & L & ->).
    injection E as -> ->. exists (length vs). cbn [engaged Delta.or_keep].
    rewrite !length_app. repeat split; lia.
  - apply bind_Ok in H. destruct H as ([[n p'] o1] & E & H).
    injection H as <- <- <- <- <-.
    apply leaf_count in E. destruct E as (vs & -> & ->).
    exists (length vs). cbn [engaged Delta.or_keep].
    rewrite !length_app. repeat split; lia.
  - apply bind_Ok in H. destruct H as ([[n q'] o1] & E & H).
    injection H as <- <- <- <- <-.
    apply leaf_count in E. destruct E as (vs & -> & ->).
    exists (length vs). cbn [engaged Delta.or_keep].
    rewrite !length_app. repeat split; lia.
  - injection H as <- <- <- <- <-. exists 0%nat. cbn. repeat split; lia.
Qed.

Lemma side_step_engaged px qty rng v w added px' qty' v' w' :
  Delta.side_step px qty rng v w = Ok (added, (px', qty'), (v', w')) ->
  engaged px' = engaged px /\ engaged qty' = engaged qty.
Proof.
  unfold Delta.side_step. destruct px as [p|], qty as [q|]; intros H.
  - apply bind_Ok in H. destruct H as ([[n [p' q']] [o1 o2]] & _ & H).
    injection H as <- <- <- <- <-. auto.
  - apply bind_Ok in H. destruct H as ([[n p'] o1] & _ & H).
    injection H as <- <- <- <- <-. auto.
  - apply bind_Ok in H. destruct H as ([[n q'] o1] & _ & H).
    injection H as <- <- <- <- <-. auto.
  - injection H as <- <- <- <- <-. auto.
Qed.

(** The offsets vector that the per-row counts produce: seeded with zero,
    then [back() + added] in 32 bits for each row. *)
Fixpoint offsets_from (acc : Z) (counts : list nat) : list Z :=
  match counts with
  | [] => [acc]
  | k :: counts' =>
      acc :: offsets_from (u32 (acc + u32 (Z.of_nat k))) counts'
  end.

Definition offsets_for (counts : list nat) : list Z := offsets_from 0 counts.

Definition total (counts : list nat) : nat := fold_right Nat.add 0%nat counts.

Lemma offsets_from_snoc : forall counts acc k,
  offsets_from acc (counts ++ [k])
  = offsets_from acc counts
    ++ [u32 (last (offsets_from acc counts) 0 + u32 (Z.of_nat k))].
Proof.
  induction counts as [|c counts IH]; intros acc k; cbn [app offsets_from].
  - reflexivity.
  - rewrite IH. cbn [app]. f_equal. f_equal. f_equal. f_equal.
    destruct counts; reflexivity.
Qed.

Lemma length_offsets_from : forall counts acc,
  length (offsets_from acc counts) = S (length counts).
Proof.
  induction counts as [|c counts IH]; intros acc; cbn; [|rewrite IH];
    reflexivity.
Qed.

Lemma nth_offsets_from_exact : forall counts acc i,
  0 <= acc -> acc + Z.of_nat (total counts) < 2 ^ 32 ->
  (i <= length counts)%nat ->
  nth i (offsets_from acc counts) 0
  = acc + Z.of_nat (total (firstn i counts)).
Proof.
  induction counts as [|c counts IH]; intros acc i Hacc Hsum Hi.
  - cbn in Hi. replace i with 0%nat by lia. cbn. lia.
  - cbn [total fold_right] in Hsum. fold (total counts) in Hsum.
    destruct i as [|i].
    + cbn. lia.
    + cbn [offsets_from nth firstn total fold_right].
      fold (total (firstn i counts)).
      rewrite (u32_small (z := Z.of_nat c)) by lia.
      rewrite (u32_small (z := acc + Z.of_nat c)) by lia.
      rewrite IH by (cbn in Hi; lia). lia.
Qed.

(** ** The vectors of a depth row group *)

Definition windowed (start_ns end_ns : Z) (l : list Z) : Prop :=
  Forall (fun t => start_ns <= t < end_ns) l.

Lemma in_window_iff s e t : in_window s e t = true <-> s <= t < e.
Proof. unfold in_window. rewrite andb_true_iff, Z.leb_le, Z.ltb_lt. tauto. Qed.

(** One side of the book after some rows: [counts] lists, for each row put
    in the batch, the number of elements its list contributed. *)
Definition side_inv (need px_sel qty_sel : bool) (off pxs qtys : list Z)
    (counts : list nat) : Prop :=
  off = (if need then offsets_for counts else [])
  /\ (px_sel = true -> length pxs = total counts)
  /\ (qty_sel = true -> length qtys = total counts).

Definition bufs_inv (sel : Delta.Select) (b : Delta.Bufs)
    (asks bids : list nat) : Prop :=
  length asks = length (Delta.ts_ b)
  /\ length bids = length (Delta.ts_ b)
  /\ side_inv (Delta.ask_px sel || Delta.ask_qty sel)
       (Delta.ask_px sel) (Delta.ask_qty sel)
       (Delta.ask_off_ b) (Delta.ask_px_ b) (Delta.ask_qty_ b) asks
  /\ side_inv (Delta.bid_px sel || Delta.bid_qty sel)
       (Delta.bid_px sel) (Delta.bid_qty sel)
       (Delta.bid_off_ b) (Delta.bid_px_ b) (Delta.bid_qty_ b) bids.

Definition cursors_match (sel : Delta.Select) (cs : Delta.Cursors) : Prop :=
  engaged (Delta.c_apx cs) = Delta.ask_px sel
  /\ engaged (Delta.c_aqty cs) = Delta.ask_qty sel
  /\ engaged (Delta.c_bpx cs) = Delta.bid_px sel
  /\ engaged (Delta.c_bqty cs) = Delta.bid_qty sel.

Lemma total_snoc counts k : total (counts ++ [k]) = (total counts + k)%nat.
Proof.
  unfold total. induction counts as [|c counts IH]; cbn; [lia|].
  rewrite IH. lia.
Qed.

Lemma side_inv_push need px_sel qty_sel off pxs qtys counts px qty
      added px' qty' v' w' :
  side_inv need px_sel qty_sel off pxs qtys counts ->
  engaged px = px_sel -> engaged qty = qty_sel ->
  Delta.side_step px qty true pxs qtys = Ok (added, (px', qty'), (v', w')) ->
  exists k,
    side_inv need px_sel qty_sel
      (Delta.push_if need off (u32 (last off 0 + added))) v' w'
      (counts ++ [k]).
Proof.
  intros (Hoff & Hpx & Hqty) Epx Eqty H.
  apply side_step_count in H.
  destruct H as (k & -> & _ & _ & Lv & Lw).
  exists k. unfold side_inv. rewrite total_snoc, Lv, Lw, Epx, Eqty.
  split; [|split].
  - rewrite Hoff. destruct need; cbn [Delta.push_if]; [|reflexivity].
    unfold offsets_for. rewrite offsets_from_snoc. reflexivity.
  - intros E. rewrite E, (Hpx E). reflexivity.
  - intros E. rewrite E, (Hqty E). reflexivity.
Qed.

Lemma row_step_preserves s e sel cs b cs' b' asks bids :
  bufs_inv sel b asks bids -> cursors_match sel cs ->
  windowed s e (Delta.ts_ b) ->
  Delta.row_step s e sel cs b = Ok (cs', b') ->
  cursors_match sel cs' /\ windowed s e (Delta.ts_ b')
  /\ exists asks' bids', bufs_inv sel b' asks' bids'.
Proof.
  intros (La & Lb & Ia & Ib) (Mapx & Maqty & Mbpx & Mbqty) Hw Hstep.
  destruct (row_step_inv _ _ _ _ _ Hstep)
    as (e_ts & ts & e_fid & fid & e_lid & lid & e_evt & evt
        & na & apx & aqty & v_apx & v_aqty & nb & bpx & bqty & v_bpx & v_bqty
        & E1 & _ & _ & _ & E5 & E6 & -> & ->).
  destruct (side_step_engaged _ _ _ _ _ E5) as [Ea1 Ea2].
  destruct (side_step_engaged _ _ _ _ _ E6) as [Eb1 Eb2].
  split; [unfold cursors_match; cbn; repeat split; congruence|].
  unfold in_range_of in *.
  destruct (in_window s e (value e_ts)) eqn:Hin.
  - cbn [Delta.ts_]. split.
    + apply Forall_app. split; [exact Hw|].
      constructor; [|constructor]. apply in_window_iff. exact Hin.
    + destruct (@side_inv_push _ _ _ _ _ _ _ _ _ _ _ _ _ _ Ia Mapx Maqty E5)
        as (ka & Ia').
      destruct (@side_inv_push _ _ _ _ _ _ _ _ _ _ _ _ _ _ Ib Mbpx Mbqty E6)
        as (kb & Ib').
      exists (asks ++ [ka]), (bids ++ [kb]).
      unfold bufs_inv. cbn. rewrite !length_app. cbn.
      repeat split; try lia; try apply Ia'; try apply Ib'.
  - destruct (side_step_out_of_window _ _ _ _ E5) as [-> ->].
    destruct (side_step_out_of_window _ _ _ _ E6) as [-> ->].
    split; [exact Hw|]. exists asks, bids.
    unfold bufs_inv. cbn. auto.
Qed.

Lemma rows_loop_preserves s e sel : forall rows cs b cs' b' asks bids,
  bufs_inv sel b asks bids -> cursors_match sel cs ->
  windowed s e (Delta.ts_ b) ->
  Delta.rows_loop rows s e sel cs b = Ok (cs', b') ->
  windowed s e (Delta.ts_ b')
  /\ exists asks' bids', bufs_inv sel b' asks' bids'.
Proof.
  induction rows as [|rows IH]; intros cs b cs' b' asks bids I M W H;
    cbn [Delta.rows_loop] in H.
  - injection H as <- <-. eauto.
  - apply bind_Ok in H. destruct H as ([cs1 b1] & E & H).
    destruct (row_step_preserves I M W E) as (M1 & W1 & a1 & b1' & I1).
    eapply IH; eassumption.
Qed.

Lemma open_if_engaged selected f rg name missing c :
  Delta.open_if selected f rg name missing = Ok c -> engaged c = selected.
Proof.
  unfold Delta.open_if. destruct selected.
  - intros H. apply bind_Ok in H. destruct H as (c0 & _ & H).
    injection H as <-. reflexivity.
  - intros H. injection H as <-. reflexivity.
Qed.

Lemma open_cursors_match f rg sel cs :
  Delta.open_cursors f rg sel = Ok cs -> cursors_match sel cs.
Proof.
  unfold Delta.open_cursors. intros H.
  apply bind_Ok in H. destruct H as (ts & _ & H).
  apply bind_Ok in H. destruct H as (fid & _ & H).
  apply bind_Ok in H. destruct H as (lid & _ & H).
  apply bind_Ok in H. destruct H as (evt & _ & H).
  apply bind_Ok in H. destruct H as (apx & E1 & H).
  apply bind_Ok in H. destruct H as (aqty & E2 & H).
  apply bind_Ok in H. destruct H as (bpx & E3 & H).
  apply bind_Ok in H. destruct H as (bqty & E4 & H).
  injection H as <-. unfold cursors_match. cbn.
  apply open_if_engaged in E1, E2, E3, E4. auto.
Qed.

Lemma bufs_inv_cleared sel : bufs_inv sel (Delta.Bufs_cleared sel) [] [].
Proof.
  unfold bufs_inv, side_inv, Delta.Bufs_cleared. cbn.
  repeat split; try reflexivity;
    try (destruct (Delta.ask_px sel || Delta.ask_qty sel); reflexivity);
    try (destruct (Delta.bid_px sel || Delta.bid_qty sel); reflexivity).
Qed.

(** What a depth batch is: at least one row, every timestamp in the window,
    and the two sides in step with the rows. *)
Definition depth_batch (s e : Z) (sel : Delta.Select) (b : Delta.Bufs) : Prop :=
  Delta.ts_ b <> [] /\ windowed s e (Delta.ts_ b)
  /\ exists asks bids, bufs_inv sel b asks bids.

Lemma delta_next_rg_from_true f s e sel : forall rgs i b i' b',
  Delta.next_rg_from f rgs i s e sel b = Ok (true, i', b') ->
  depth_batch s e sel b' /\ (i < i')%nat.
Proof.
  induction rgs as [|rg rgs IH]; intros i b i' b' H;
    cbn [Delta.next_rg_from] in H; [discriminate|].
  apply bind_Ok in H. destruct H as (cs & Eo & H).
  apply bind_Ok in H. destruct H as ([cs1 b1] & Er & H).
  destruct (rows_loop_preserves _ (bufs_inv_cleared sel)
              (open_cursors_match _ _ _ Eo) (Forall_nil _) Er)
    as (W & asks & bids & I).
  destruct (Delta.ts_ b1) as [|t l] eqn:Ets.
  - apply IH in H. destruct H as [D L]. split; [exact D | lia].
  - injection H as <- <-. split; [|lia].
    unfold depth_batch. rewrite Ets. split; [discriminate|].
    eauto.
Qed.

(** ** The vectors of a top or trade row group *)

Lemma windowed_filter s e l : windowed s e (filter (in_window s e) l).
Proof.
  unfold windowed. apply Forall_forall. intros t Ht.
  apply filter_In in Ht. apply in_window_iff. apply Ht.
Qed.

Lemma filter_nonempty {A : Type} (f : A -> bool) (l : list A) :
  (length (filter f l) =? 0)%nat = false -> filter f l <> [].
Proof. destruct (filter f l); cbn; congruence. Qed.

Lemma top_next_rg_from_true f s e sel : forall rgs i b i' b',
  Top.next_rg_from f rgs i s e sel b = Ok (true, i', b') ->
  Top.ts_ b' <> [] /\ windowed s e (Top.ts_ b') /\ (i < i')%nat.
Proof.
  induction rgs as [|rg rgs IH]; intros i b i' b' H;
    cbn [Top.next_rg_from] in H; [discriminate|].
  destruct (find_col_idx (Parquet.schema f) "ts" <? 0); [discriminate|].
  apply bind_Ok in H. destruct H as (ts_all & _ & H).
  destruct (length (filter (in_window s e) ts_all) =? 0)%nat eqn:Hc.
  - apply IH in H. destruct H as (? & ? & ?). repeat split; auto; lia.
  - repeat (apply bind_Ok in H; destruct H as (? & _ & H)).
    injection H as <- <-. cbn [Top.ts_].
    split; [apply filter_nonempty; exact Hc|].
    split; [apply windowed_filter | lia].
Qed.

Lemma trade_next_rg_from_true f s e sel : forall rgs i b i' b',
  Trade.next_rg_from f rgs i s e sel b = Ok (true, i', b') ->
  Trade.ts_ b' <> [] /\ windowed s e (Trade.ts_ b') /\ (i < i')%nat.
Proof.
  induction rgs as [|rg rgs IH]; intros i b i' b' H;
    cbn [Trade.next_rg_from] in H; [discriminate|].
  destruct (find_col_idx (Parquet.schema f) "ts" <? 0); [discriminate|].
  apply bind_Ok in H. destruct H as (ts_all & _ & H).
  destruct (length (filter (in_window s e) ts_all) =? 0)%nat eqn:Hc.
  - apply IH in H. destruct H as (? & ? & ?). repeat split; auto; lia.
  - repeat (apply bind_Ok in H; destruct H as (? & _ & H)).
    injection H as <- <-. cbn [Trade.ts_].
    split; [apply filter_nonempty; exact Hc|].
    split; [apply windowed_filter | lia].
Qed.

(** ** No loop bound runs out *)

Definition halts {A : Type} (m : Res A) : Prop := m <> Hang.

Lemma bind_halts {A B : Type} (m : Res A) (k : A -> Res B) :
  halts m -> (forall a, m = Ok a -> halts (k a)) -> halts (bind m k).
Proof.
  unfold halts. destruct m; cbn; intros Hm Hk; auto; discriminate.
Qed.

Lemma length_ReadBatchFlat batch rd vs rd' :
  Parquet.ReadBatchFlat batch rd = Ok (vs, rd') -> (length vs <= batch)%nat.
Proof.
  unfold Parquet.ReadBatchFlat. destruct (Parquet.rd_stored rd) as [|x l].
  - destruct (Parquet.rd_damaged rd); [discriminate|].
    intros H. injection H as <- <-. cbn. lia.
  - intros H. injection H as <- <-. apply firstn_le_length.
Qed.

Lemma ReadBatchFlat_halts batch rd : halts (Parquet.ReadBatchFlat batch rd).
Proof.
  unfold halts, Parquet.ReadBatchFlat.
  destruct (Parquet.rd_stored rd); [destruct (Parquet.rd_damaged rd)|];
    discriminate.
Qed.

Lemma read_loop_halts rows short : forall bound rd out,
  (rows - length out < bound)%nat ->
  halts (read_loop bound rows rd out short).
Proof.
  assert (Fin : forall out : list Z,
             halts (if (length out =? rows)%nat then Ok out
                    else Throw short)).
  { intros out. destruct (length out =? rows)%nat; discriminate. }
  induction bound as [|bound IH]; intros rd out Hb; [lia|].
  cbn [read_loop].
  destruct (length out <? rows)%nat eqn:Hlt; [|apply Fin].
  apply Nat.ltb_lt in Hlt.
  apply bind_halts; [apply ReadBatchFlat_halts|].
  intros [vs rd'] E. apply length_ReadBatchFlat in E.
  destruct (length vs =? 0)%nat eqn:Hz; [apply Fin|].
  apply Nat.eqb_neq in Hz. apply IH. rewrite length_app. lia.
Qed.

Lemma Column_halts f rg i : halts (Parquet.Column f rg i).
Proof.
  unfold halts, Parquet.Column.
  destruct (nth_error (Parquet.schema f) i);
    destruct (nth_error (Parquet.chunks rg) i); discriminate.
Qed.

Lemma read_and_scatter_halts kind is_bool f rg s e ts_all selected name :
  halts (read_and_scatter kind is_bool f rg s e ts_all selected name).
Proof.
  unfold read_and_scatter. destruct selected; [|discriminate].
  destruct (find_col_idx (Parquet.schema f) name <? 0); [discriminate|].
  apply bind_halts; [|discriminate].
  unfold read_required_bool_column, read_required_i64_column,
    read_required_column.
  destruct is_bool;
    (apply bind_halts; [apply Column_halts|];
     intros col _; apply read_loop_halts; cbn; lia).
Qed.

Ltac halts_step :=
  apply bind_halts; [apply read_and_scatter_halts | intros ? _].

Lemma top_next_rg_from_halts f s e sel : forall rgs i b,
  halts (Top.next_rg_from f rgs i s e sel b).
Proof.
  induction rgs as [|rg rgs IH]; intros i b; cbn [Top.next_rg_from];
    [discriminate|].
  destruct (find_col_idx (Parquet.schema f) "ts" <? 0); [discriminate|].
  apply bind_halts.
  { unfold read_required_i64_column, read_required_column.
    apply bind_halts; [apply Column_halts|].
    intros col _. apply read_loop_halts. cbn. lia. }
  intros ts_all _.
  destruct (length (filter (in_window s e) ts_all) =? 0)%nat; [apply IH|].
  repeat halts_step. discriminate.
Qed.

Lemma trade_next_rg_from_halts f s e sel : forall rgs i b,
  halts (Trade.next_rg_from f rgs i s e sel b).
Proof.
  induction rgs as [|rg rgs IH]; intros i b; cbn [Trade.next_rg_from];
    [discriminate|].
  destruct (find_col_idx (Parquet.schema f) "ts" <? 0); [discriminate|].
  apply bind_halts.
  { unfold read_required_i64_column, read_required_column.
    apply bind_halts; [apply Column_halts|].
    intros col _. apply read_loop_halts. cbn. lia. }
  intros ts_all _.
  destruct (length (filter (in_window s e) ts_all) =? 0)%nat; [apply IH|].
  repeat halts_step. discriminate.
Qed.

(** [good P m]: the call halts, and when it returns, its result has [P]. *)
Definition good {A : Type} (P : A -> Prop) (m : Res A) : Prop :=
  match m with
  | Ok a => P a
  | Throw _ => True
  | Hang => False
  end.

Lemma good_bind {A B : Type} (P : A -> Prop) (Q : B -> Prop)
      (m : Res A) (k : A -> Res B) :
  good P m -> (forall a, P a -> good Q (k a)) -> good Q (bind m k).
Proof. destruct m; cbn; auto. Qed.

Lemma good_halts {A : Type} (P : A -> Prop) (m : Res A) :
  good P m -> halts m.
Proof. unfold halts. destruct m; cbn; intros; congruence. Qed.

Lemma take_good c :
  cursor_wf c -> good (fun ec => cursor_wf (snd ec)) (take c).
Proof.
  intros W. destruct (stream c) as [[|e es] [|w]] eqn:Hs.
  - destruct (take_eos W Hs) as (c' & -> & W' & _). exact W'.
  - rewrite (take_fault W Hs). exact I.
  - destruct (take_cons W Hs) as (c' & -> & W' & _). exact W'.
  - destruct (take_cons W Hs) as (c' & -> & W' & _). exact W'.
Qed.

Lemma take_opt_good c :
  opt_wf c -> good (fun ec => opt_wf (snd ec)) (Delta.take_opt c).
Proof.
  destruct c as [c|]; cbn [Delta.take_opt opt_wf]; [|intros _; exact I].
  intros W. eapply good_bind; [apply take_good; exact W|].
  intros [e c'] W'. exact W'.
Qed.

Lemma leaf_good leaf out :
  cursor_wf leaf ->
  good (fun x => cursor_wf (snd (fst x)))
       (append_list_from_leaf_for_row leaf out).
Proof.
  intros W. destruct (leaf_row_total out W) as [(w & ->) | (vs & l' & -> & W')].
  - exact I.
  - exact W'.
Qed.

Lemma pairs_good px qty opx oqty :
  cursor_wf px -> cursor_wf qty ->
  good (fun x => cursor_wf (fst (snd (fst x)))
                 /\ cursor_wf (snd (snd (fst x))))
       (append_list_pairs_for_row_typed px qty opx oqty).
Proof.
  intros Wp Wq.
  destruct (pairs_row_total opx oqty Wp Wq)
    as [(w & ->) | (vp & vq & p' & q' & -> & _ & Wp' & Wq')].
  - exact I.
  - split; assumption.
Qed.

Lemma side_step_good px qty rng v w :
  opt_wf px -> opt_wf qty ->
  good (fun x => opt_wf (fst (snd (fst x))) /\ opt_wf (snd (snd (fst x))))
       (Delta.side_step px qty rng v w).
Proof.
  unfold Delta.side_step.
  destruct px as [p|], qty as [q|]; cbn [opt_wf]; intros Wp Wq.
  - eapply good_bind; [apply pairs_good; eassumption|].
    intros [[n [p' q']] [o1 o2]] H. exact H.
  - eapply good_bind; [apply leaf_good; eassumption|].
    intros [[n p'] o1] H. cbn in *. auto.
  - eapply good_bind; [apply leaf_good; eassumption|].
    intros [[n q'] o1] H. cbn in *. auto.
  - cbn. auto.
Qed.

Definition cursors_wf (cs : Delta.Cursors) : Prop :=
  cursor_wf (Delta.c_ts cs)
  /\ opt_wf (Delta.c_fid cs) /\ opt_wf (Delta.c_lid cs)
  /\ opt_wf (Delta.c_evt cs)
  /\ opt_wf (Delta.c_apx cs) /\ opt_wf (Delta.c_aqty cs)
  /\ opt_wf (Delta.c_bpx cs) /\ opt_wf (Delta.c_bqty cs).

Lemma row_step_good s e sel cs b :
  cursors_wf cs ->
  good (fun x => cursors_wf (fst x)) (Delta.row_step s e sel cs b).
Proof.
  intros (W1 & W2 & W3 & W4 & W5 & W6 & W7 & W8). unfold Delta.row_step.
  eapply good_bind; [apply take_good; exact W1|]. intros [e_ts ts] Wts.
  eapply good_bind; [apply take_opt_good; exact W2|]. intros [e_fid fid] Wf.
  eapply good_bind; [apply take_opt_good; exact W3|]. intros [e_lid lid] Wl.
  eapply good_bind; [apply take_opt_good; exact W4|]. intros [e_evt evt] We.
  eapply good_bind; [apply side_step_good; [exact W5 | exact W6]|].
  intros [[na [apx aqty]] [va wa]] [Wa1 Wa2].
  eapply good_bind; [apply side_step_good; [exact W7 | exact W8]|].
  intros [[nb [bpx bqty]] [vb wb]] [Wb1 Wb2].
  cbn in *.
  destruct (in_window s e (value e_ts)); cbn; unfold cursors_wf; cbn; auto 10.
Qed.

Lemma rows_loop_good s e sel : forall rows cs b,
  cursors_wf cs ->
  good (fun x => cursors_wf (fst x)) (Delta.rows_loop rows s e sel cs b).
Proof.
  induction rows as [|rows IH]; intros cs b W; cbn [Delta.rows_loop].
  - exact W.
  - eapply good_bind; [apply row_step_good; exact W|].
    intros [cs1 b1] W1. apply IH. exact W1.
Qed.

Lemma open_cursor_good f rg name missing :
  good cursor_wf (Delta.open_cursor f rg name missing).
Proof.
  unfold Delta.open_cursor.
  destruct (find_col_idx (Parquet.schema f) name <? 0); [exact I|].
  unfold Parquet.Column.
  destruct (nth_error (Parquet.schema f) _); [|exact I].
  destruct (nth_error (Parquet.chunks rg) _); [|exact I].
  cbn [bind]. unfold Int64Cursor_new.
  destruct (negb _); [exact I|]. apply cursor_wf_init.
Qed.

Lemma open_if_good selected f rg name missing :
  good opt_wf (Delta.open_if selected f rg name missing).
Proof.
  unfold Delta.open_if. destruct selected; [|exact I].
  eapply good_bind; [apply open_cursor_good|]. intros c W. exact W.
Qed.

Lemma open_cursors_good f rg sel :
  good cursors_wf (Delta.open_cursors f rg sel).
Proof.
  unfold Delta.open_cursors.
  eapply good_bind; [apply open_cursor_good|]. intros ts W1.
  eapply good_bind; [apply open_if_good|]. intros fid W2.
  eapply good_bind; [apply open_if_good|]. intros lid W3.
  eapply good_bind; [apply open_if_good|]. intros evt W4.
  eapply good_bind; [apply open_if_good|]. intros apx W5.
  eapply good_bind; [apply open_if_good|]. intros aqty W6.
  eapply good_bind; [apply open_if_good|]. intros bpx W7.
  eapply good_bind; [apply open_if_good|]. intros bqty W8.
  unfold cursors_wf. cbn. auto 10.
Qed.

Lemma delta_next_rg_from_halts f s e sel : forall rgs i b,
  halts (Delta.next_rg_from f rgs i s e sel b).
Proof.
  induction rgs as [|rg rgs IH]; intros i b; cbn [Delta.next_rg_from];
    [discriminate|].
  apply good_halts with (P := fun _ => True).
  eapply good_bind; [apply open_cursors_good|]. intros cs W.
  eapply good_bind; [apply rows_loop_good; exact W|].
  intros [cs1 b1] _.
  destruct (Delta.ts_ b1).
  - specialize (IH (S i) b1). unfold halts in IH.
    destruct (Delta.next_rg_from f rgs (S i) s e sel b1); cbn; auto.
  - exact I.
Qed.

(** ** The batch reader loop *)

Section NextFacts.

Variables Select Bufs ColsView : Type.
Variable next_rg :
  Z -> Z -> Select -> FileStreamer -> Bufs ->
  Res (bool * FileStreamer * Bufs).
Variable ts_of : Bufs -> list Z.
Variable fill_view : Select -> Bufs -> string -> ColsView.

(** What the streamer promises of the vectors it returns with [true]. *)
Variable batch_ok : Z -> Z -> Select -> Bufs -> Prop.

Hypothesis next_rg_halts :
  forall s e sel fs b, halts (next_rg s e sel fs b).
Hypothesis next_rg_true :
  forall s e sel fs b fs' b',
    next_rg s e sel fs b = Ok (true, fs', b') ->
    ts_of b' <> [] /\ batch_ok s e sel b'.

Let Reader := Impl Select Bufs.
Let turn_ := turn next_rg ts_of fill_view.
Let pull_ := pull next_rg ts_of fill_view.
Let next_loop_ := next_loop next_rg ts_of fill_view.
Let next_ := next next_rg ts_of fill_view.

(** The scan parameters never change. *)
Definition same_scan (st st' : Reader) : Prop :=
  files_ st' = files_ st /\ start_ns_ st' = start_ns_ st
  /\ end_ns_ st' = end_ns_ st /\ sel_ st' = sel_ st.

(** A batch handed to the caller. *)
Definition delivered (st : Reader) (v : ColsView) (st' : Reader) : Prop :=
  v = fill_view (sel_ st) (bufs_ st') (cur_file_base_ st')
  /\ ts_of (bufs_ st') <> []
  /\ batch_ok (start_ns_ st) (end_ns_ st) (sel_ st) (bufs_ st').

Definition turn_outcome (st : Reader) (cerr : list string)
    (r : option (option ColsView)) (st' : Reader) (cerr' : list string)
  : Prop :=
  same_scan st st'
  /\ match r with
     | None =>
         file_idx_ st' = S (file_idx_ st) /\ fs_ st' = None
         /\ (fs_ st = None -> (file_idx_ st < length (files_ st))%nat)
     | Some None =>
         st' = st /\ cerr' = cerr /\ fs_ st = None
         /\ (length (files_ st) <= file_idx_ st)%nat
     | Some (Some v) =>
         delivered st v st' /\ file_idx_ st' = file_idx_ st
         /\ fs_ st' <> None
     end.

Lemma pull_spec st fs cerr :
  (fs_ st = None -> (file_idx_ st < length (files_ st))%nat) ->
  exists r st' cerr',
    pull_ st fs cerr = Ok (r, st', cerr')
    /\ r <> Some None /\ turn_outcome st cerr r st' cerr'.
Proof.
  intros Hlt. unfold pull_, pull.
  pose proof (@next_rg_halts (start_ns_ st) (end_ns_ st) (sel_ st) fs
                (bufs_ st)) as Hh.
  pose proof (@next_rg_true (start_ns_ st) (end_ns_ st) (sel_ st) fs
                (bufs_ st)) as Ht.
  destruct (next_rg (start_ns_ st) (end_ns_ st) (sel_ st) fs (bufs_ st))
    as [[[[|] fs'] b']|w|]; [| | |exfalso; apply Hh; reflexivity].
  - destruct (Ht fs' b' eq_refl) as [Hne Hok].
    destruct (ts_of b') as [|t l] eqn:Ets; [congruence|].
    eexists _, _, _. split; [reflexivity|]. split; [discriminate|].
    split; [repeat split|].
    split; [|split; [reflexivity | discriminate]].
    unfold delivered. cbn. rewrite Ets.
    split; [reflexivity|]. split; [discriminate | exact Hok].
  - eexists _, _, _. split; [reflexivity|]. split; [discriminate|].
    split; repeat split. auto.
  - eexists _, _, _. split; [reflexivity|]. split; [discriminate|].
    split; repeat split. auto.
Qed.

Lemma OpenFile_halts disk p : halts (OpenFile disk p).
Proof. unfold halts, OpenFile. destruct (disk p) as [[f|]|]; discriminate. Qed.

Lemma turn_spec disk st cerr :
  exists r st' cerr',
    turn_ disk st cerr = Ok (r, st', cerr')
    /\ turn_outcome st cerr r st' cerr'.
Proof.
  unfold turn_, turn. destruct (fs_ st) as [fs|] eqn:Efs.
  - destruct (@pull_spec st fs cerr ltac:(congruence))
      as (r & st' & cerr' & E & Hr & O).
    exists r, st', cerr'. split; [exact E|].
    destruct r as [[v|]|]; [exact O | congruence | exact O].
  - destruct (nth_error (files_ st) (file_idx_ st)) as [c|] eqn:En.
    + unfold FileStreamer_new.
      pose proof (OpenFile_halts disk (path c)) as Hh.
      destruct (OpenFile disk (path c)) as [f|w|] eqn:Eo; cbn [bind];
        [| |exfalso; apply Hh; reflexivity].
      * assert (Hlt : (file_idx_ st < length (files_ st))%nat)
          by (apply nth_error_Some; congruence).
        destruct (@pull_spec (opened st {| file := f; rg_idx := 0 |}
                                (filename (path c)))
                    {| file := f; rg_idx := 0 |} cerr (fun _ => Hlt))
          as (r & st' & cerr' & E & Hr & (Sc & O)).
        exists r, st', cerr'. split; [exact E|].
        split; [exact Sc|].
        destruct r as [[v|]|]; [exact O | congruence |].
        destruct O as (? & ? & _). auto.
      * eexists _, _, _. split; [reflexivity|]. split; repeat split.
        intros _. apply nth_error_Some. congruence.
    + apply nth_error_None in En.
      eexists _, _, _. split; [reflexivity|]. split; repeat split; auto.
Qed.

Definition pending_turns (st : Reader) : nat :=
  (length (files_ st) - file_idx_ st
   + (match fs_ st with Some _ => 1 | None => 0 end))%nat.

Definition next_outcome (st : Reader) (r : option ColsView) (st' : Reader)
  : Prop :=
  same_scan st st'
  /\ match r with
     | Some v => delivered st v st'
     | None =>
         fs_ st' = None /\ (length (files_ st') <= file_idx_ st')%nat
     end.

Lemma delivered_same_scan st st1 v st' :
  same_scan st st1 -> delivered st1 v st' -> delivered st v st'.
Proof.
  intros (_ & Es & Ee & El). unfold delivered.
  rewrite Es, Ee, El. auto.
Qed.

Lemma same_scan_trans st st1 st2 :
  same_scan st st1 -> same_scan st1 st2 -> same_scan st st2.
Proof. unfold same_scan. intuition congruence. Qed.

Lemma turn_consumes disk st cerr st' cerr' :
  turn_ disk st cerr = Ok (None, st', cerr') ->
  (pending_turns st' < pending_turns st)%nat.
Proof.
  intros E. destruct (turn_spec disk st cerr) as (r & s1 & c1 & E' & Sc & O).
  rewrite E in E'. injection E' as <- <- <-.
  destruct O as (Hi & Hf & Hlt). destruct Sc as (Hfiles & _).
  unfold pending_turns. rewrite Hfiles, Hi, Hf.
  destruct (fs_ st); [lia|]. specialize (Hlt eq_refl). lia.
Qed.

Lemma next_loop_S bound disk st cerr :
  next_loop_ (S bound) disk st cerr
  = ('(r, st, cerr) <- turn_ disk st cerr ;;
     match r with
     | Some r => Ok (r, st, cerr)
     | None => next_loop_ bound disk st cerr
     end).
Proof. reflexivity. Qed.

(** With the bound of [next], the loop returns; it never throws. *)
Lemma next_loop_spec disk : forall bound st cerr,
  (pending_turns st < bound)%nat ->
  exists r st' cerr',
    next_loop_ bound disk st cerr = Ok (r, st', cerr')
    /\ next_outcome st r st'.
Proof.
  induction bound as [|bound IH]; intros st cerr Hb; [lia|].
  rewrite next_loop_S.
  destruct (turn_spec disk st cerr) as (r & st1 & cerr1 & E & Sc & O).
  rewrite E. cbn [bind].
  destruct r as [[v|]|].
  - exists (Some v), st1, cerr1. split; [reflexivity|].
    split; [exact Sc | apply O].
  - destruct O as (-> & -> & Hf & Hl).
    exists None, st, cerr. split; [reflexivity|].
    split; [repeat split | auto].
  - pose proof (turn_consumes _ _ _ E) as Hc.
    destruct (IH st1 cerr1 ltac:(lia)) as (r & st' & cerr' & E' & Sc' & O').
    exists r, st', cerr'. split; [exact E'|].
    split; [eapply same_scan_trans; eassumption|].
    destruct r as [v|]; [|exact O'].
    eapply delivered_same_scan; eassumption.
Qed.

Lemma next_loop_any_bound disk : forall b1 b2 st cerr,
  (pending_turns st < b1)%nat -> (pending_turns st < b2)%nat ->
  next_loop_ b1 disk st cerr = next_loop_ b2 disk st cerr.
Proof.
  induction b1 as [|b1 IH]; intros b2 st cerr H1 H2; [lia|].
  destruct b2 as [|b2]; [lia|].
  rewrite !next_loop_S.
  destruct (turn_ disk st cerr) as [[[r st1] cerr1]|w|] eqn:E;
    cbn [bind]; try reflexivity.
  destruct r as [r|]; [reflexivity|].
  pose proof (turn_consumes _ _ _ E) as Hc.
  apply IH; lia.
Qed.

Lemma next_bound_covers st :
  (pending_turns st < 2 + (length (files_ st) - file_idx_ st))%nat.
Proof. unfold pending_turns. destruct (fs_ st); lia. Qed.

Lemma next_spec disk st cerr :
  exists r st' cerr',
    next_ disk st cerr = Ok (r, st', cerr') /\ next_outcome st r st'.
Proof. apply next_loop_spec. apply next_bound_covers. Qed.

(** After a turn that goes on to the next candidate, [next] is [next] on
    the state that turn left. *)
Lemma next_after_continue disk st cerr st' cerr' :
  turn_ disk st cerr = Ok (None, st', cerr') ->
  next_ disk st cerr = next_ disk st' cerr'.
Proof.
  intros E. pose proof (turn_consumes _ _ _ E) as Hc.
  unfold next_, next. fold next_loop_.
  change (2 + (length (files_ st) - file_idx_ st))%nat
    with (S (S (length (files_ st) - file_idx_ st))).
  rewrite next_loop_S, E. cbn [bind].
  apply next_loop_any_bound.
  - pose proof (next_bound_covers st). lia.
  - apply next_bound_covers.
Qed.

Lemma next_open_failed disk st cerr c w :
  fs_ st = None ->
  nth_error (files_ st) (file_idx_ st) = Some c ->
  OpenFile disk (path c) = Throw w ->
  next_ disk st cerr
  = next_ disk (skip_file st (bufs_ st))
      (cerr ++ [warn "open failed" (path c) w]).
Proof.
  intros Hf Hn Ho. apply next_after_continue.
  unfold turn_, turn, FileStreamer_new. rewrite Hf, Hn, Ho. reflexivity.
Qed.

Lemma next_read_failed disk st cerr fs w :
  fs_ st = Some fs ->
  next_rg (start_ns_ st) (end_ns_ st) (sel_ st) fs (bufs_ st) = Throw w ->
  next_ disk st cerr
  = next_ disk (skip_file st (bufs_ st))
      (cerr ++ [warn "read failed" (cur_path st) w]).
Proof.
  intros Hf Hr. apply next_after_continue.
  unfold turn_, turn, pull. rewrite Hf, Hr. reflexivity.
Qed.

Lemma next_first_read_failed disk st cerr c f w :
  fs_ st = None ->
  nth_error (files_ st) (file_idx_ st) = Some c ->
  OpenFile disk (path c) = Ok f ->
  next_rg (start_ns_ st) (end_ns_ st) (sel_ st)
    {| file := f; rg_idx := 0 |} (bufs_ st) = Throw w ->
  next_ disk st cerr
  = next_ disk
      (skip_file (opened st {| file := f; rg_idx := 0 |}
                    (filename (path c))) (bufs_ st))
      (cerr ++ [warn "read failed" (path c) w]).
Proof.
  intros Hf Hn Ho Hr. apply next_after_continue.
  unfold turn_, turn, FileStreamer_new, pull. rewrite Hf, Hn, Ho.
  cbn [bind start_ns_ end_ns_ sel_ bufs_ opened]. rewrite Hr.
  unfold cur_path. cbn [files_ file_idx_ opened]. rewrite Hn. reflexivity.
Qed.

End NextFacts.

(** ** The three readers *)

Definition top_batch (s e : Z) (sel : Top.Select) (b : Top.Bufs) : Prop :=
  windowed s e (Top.ts_ b).

Definition trade_batch (s e : Z) (sel : Trade.Select) (b : Trade.Bufs) : Prop :=
  windowed s e (Trade.ts_ b).

Lemma top_next_rg_halts s e sel fs b : halts (Top.next_rg s e sel fs b).
Proof.
  unfold Top.next_rg.
  apply bind_halts; [apply top_next_rg_from_halts|].
  intros [[ok i] b'] _. discriminate.
Qed.

Lemma top_next_rg_true s e sel fs b fs' b' :
  Top.next_rg s e sel fs b = Ok (true, fs', b') ->
  Top.ts_ b' <> [] /\ top_batch s e sel b'.
Proof.
  unfold Top.next_rg. intros H.
  apply bind_Ok in H. destruct H as ([[ok i] b1] & E & H).
  injection H as -> <- <-.
  apply top_next_rg_from_true in E. unfold top_batch. tauto.
Qed.

Lemma trade_next_rg_halts s e sel fs b : halts (Trade.next_rg s e sel fs b).
Proof.
  unfold Trade.next_rg.
  apply bind_halts; [apply trade_next_rg_from_halts|].
  intros [[ok i] b'] _. discriminate.
Qed.

Lemma trade_next_rg_true s e sel fs b fs' b' :
  Trade.next_rg s e sel fs b = Ok (true, fs', b') ->
  Trade.ts_ b' <> [] /\ trade_batch s e sel b'.
Proof.
  unfold Trade.next_rg. intros H.
  apply bind_Ok in H. destruct H as ([[ok i] b1] & E & H).
  injection H as -> <- <-.
  apply trade_next_rg_from_true in E. unfold trade_batch. tauto.
Qed.

Lemma delta_next_rg_halts s e sel fs b : halts (Delta.next_rg s e sel fs b).
Proof.
  unfold Delta.next_rg.
  apply bind_halts; [apply delta_next_rg_from_halts|].
  intros [[ok i] b'] _. discriminate.
Qed.

Lemma delta_next_rg_true s e sel fs b fs' b' :
  Delta.next_rg s e sel fs b = Ok (true, fs', b') ->
  Delta.ts_ b' <> [] /\ depth_batch s e sel b'.
Proof.
  unfold Delta.next_rg. intros H.
  apply bind_Ok in H. destruct H as ([[ok i] b1] & E & H).
  injection H as -> <- <-.
  apply delta_next_rg_from_true in E. destruct E as [D _].
  split; [apply D | exact D].
Qed.

Lemma top_next_spec disk (st : TopBatchReader) cerr :
  exists r st' cerr',
    TopBatchReader_next disk st cerr = Ok (r, st', cerr')
    /\ next_outcome Top.ts_ Top.fill_view top_batch st r st'.
Proof.
  apply next_spec; [apply top_next_rg_halts | apply top_next_rg_true].
Qed.

Lemma trade_next_spec disk (st : TradeBatchReader) cerr :
  exists r st' cerr',
    TradeBatchReader_next disk st cerr = Ok (r, st', cerr')
    /\ next_outcome Trade.ts_ Trade.fill_view trade_batch st r st'.
Proof.
  apply next_spec; [apply trade_next_rg_halts | apply trade_next_rg_true].
Qed.

Lemma delta_next_spec disk (st : DeltaBatchReader) cerr :
  exists r st' cerr',
    DeltaBatchReader_next disk st cerr = Ok (r, st', cerr')
    /\ next_outcome Delta.ts_ Delta.fill_view depth_batch st r st'.
Proof.
  apply next_spec; [apply delta_next_rg_halts | apply delta_next_rg_true].
Qed.

(** The rows of a view: the timestamps of the batch, whether or not the
    caller asked for the pointer to them. *)
Definition top_rows (st' : TopBatchReader) : list Z := Top.ts_ (bufs_ st').
Definition trade_rows (st' : TradeBatchReader) : list Z :=
  Trade.ts_ (bufs_ st').
Definition depth_rows (st' : DeltaBatchReader) : list Z :=
  Delta.ts_ (bufs_ st').

(** C2.  Time-window selection is exact and half-open, for the three data
    kinds: when [next] delivers a batch, its row count is the number of
    timestamps in the batch vector, the timestamp pointer (when selected)
    is that vector, and every timestamp [t] in it has
    [start_ns <= t < end_ns]; in particular no delivered row has the
    timestamp [end_ns]. *)
Theorem window_is_half_open :
  (forall disk (st st' : TopBatchReader) cerr cerr' v,
     TopBatchReader_next disk st cerr = Ok (Some v, st', cerr') ->
     Top.n v = length (top_rows st')
     /\ Top.view_ts v = ptr (Top.ts (sel_ st)) (top_rows st')
     /\ (forall t, In t (top_rows st') -> start_ns_ st <= t < end_ns_ st)
     /\ ~ In (end_ns_ st) (top_rows st'))
  /\
  (forall disk (st st' : TradeBatchReader) cerr cerr' v,
     TradeBatchReader_next disk st cerr = Ok (Some v, st', cerr') ->
     Trade.n v = length (trade_rows st')
     /\ Trade.view_ts v = ptr (Trade.ts (sel_ st)) (trade_rows st')
     /\ (forall t, In t (trade_rows st') -> start_ns_ st <= t < end_ns_ st)
     /\ ~ In (end_ns_ st) (trade_rows st'))
  /\
  (forall disk (st st' : DeltaBatchReader) cerr cerr' v,
     DeltaBatchReader_next disk st cerr = Ok (Some v, st', cerr') ->
     Delta.n v = length (depth_rows st')
     /\ Delta.view_ts v = ptr (Delta.ts (sel_ st)) (depth_rows st')
     /\ (forall t, In t (depth_rows st') -> start_ns_ st <= t < end_ns_ st)
     /\ ~ In (end_ns_ st) (depth_rows st')).
Proof.
  split; [|split].
  - intros disk st st' cerr cerr' v E.
    destruct (top_next_spec disk st cerr) as (r & s1 & c1 & E' & _ & D).
    rewrite E in E'. injection E' as <- <- <-.
    destruct D as (-> & _ & W). unfold top_batch, windowed in W.
    rewrite Forall_forall in W. unfold top_rows.
    repeat split; try (apply W; assumption).
    intros Hin. apply W in Hin. lia.
  - intros disk st st' cerr cerr' v E.
    destruct (trade_next_spec disk st cerr) as (r & s1 & c1 & E' & _ & D).
    rewrite E in E'. injection E' as <- <- <-.
    destruct D as (-> & _ & W). unfold trade_batch, windowed in W.
    rewrite Forall_forall in W. unfold trade_rows.
    repeat split; try (apply W; assumption).
    intros Hin. apply W in Hin. lia.
  - intros disk st st' cerr cerr' v E.
    destruct (delta_next_spec disk st cerr) as (r & s1 & c1 & E' & _ & D).
    rewrite E in E'. injection E' as <- <- <-.
    destruct D as (-> & _ & _ & W & _). unfold windowed in W.
    rewrite Forall_forall in W. unfold depth_rows.
    repeat split; try (apply W; assumption).
    intros Hin. apply W in Hin. lia.
Qed.

(** ** Row groups without a row in the window *)

Lemma take_from_stream c e c' :
  cursor_wf c -> take c = Ok (e, c') ->
  cursor_wf c'
  /\ ((exists es t, stream c = (e :: es, t) /\ stream c' = (es, t))
      \/ (e = Entry0 /\ stream c = ([], Eos) /\ stream c' = ([], Eos))).
Proof.
  intros W E. destruct (stream c) as [[|x es] [|w]] eqn:Hs.
  - destruct (take_eos W Hs) as (c1 & E1 & W1 & S1).
    rewrite E in E1. injection E1 as <- <-. auto.
  - rewrite (take_fault W Hs) in E. discriminate.
  - destruct (take_cons W Hs) as (c1 & E1 & W1 & S1).
    rewrite E in E1. injection E1 as <- <-. split; [exact W1|].
    left. eauto.
  - destruct (take_cons W Hs) as (c1 & E1 & W1 & S1).
    rewrite E in E1. injection E1 as <- <-. split; [exact W1|].
    left. eauto.
Qed.

Definition outside (s e : Z) (x : Entry) : Prop :=
  in_window s e (value x) = false.

Lemma rows_loop_all_outside s e sel : forall rows cs b cs' b',
  cursor_wf (Delta.c_ts cs) ->
  (rows <= length (fst (stream (Delta.c_ts cs))))%nat ->
  Forall (outside s e) (fst (stream (Delta.c_ts cs))) ->
  Delta.rows_loop rows s e sel cs b = Ok (cs', b') ->
  b' = b.
Proof.
  induction rows as [|rows IH]; intros cs b cs' b' W Hlen Hout H;
    cbn [Delta.rows_loop] in H.
  - injection H as _ <-. reflexivity.
  - apply bind_Ok in H. destruct H as ([cs1 b1] & E & H).
    destruct (row_step_inv _ _ _ _ _ E)
      as (e_ts & ts & e_fid & fid & e_lid & lid & e_evt & evt
          & na & apx & aqty & v_apx & v_aqty & nb & bpx & bqty & v_bpx & v_bqty
          & E1 & _ & _ & _ & _ & _ & Ecs & _).
    destruct (take_from_stream W E1) as (W1 & [(es & t & S0 & S1) | (_ & S0 & _)]).
    + rewrite S0 in Hlen, Hout. cbn [fst length] in Hlen.
      inversion Hout as [|? ? Hx Hes]; subst x l.
      rewrite (@row_step_outside s e sel cs cs1 b b1 e_ts ts E1 Hx E) in *.
      eapply IH; [| | |exact H]; subst cs1; cbn [Delta.c_ts].
      * exact W1.
      * rewrite S1. cbn. lia.
      * rewrite S1. exact Hes.
    + rewrite S0 in Hlen. cbn in Hlen. lia.
Qed.

(** ** Rows as they were written

    A list column holds, row after row, either one entry without a value
    and with repetition level zero (the explicit empty list), or a first
    entry with repetition level zero followed by entries that continue the
    list.  On such columns the assemblers give back the rows that were
    written. *)

Inductive row_entries : list Z -> list Entry -> Prop :=
| row_entries_empty e :
    empty_start e = true -> row_entries [] [e]
| row_entries_items e es :
    empty_start e = false -> rep e = 0 -> Forall continues es ->
    row_entries (map value (e :: es)) (e :: es).

Inductive encodes : list (list Z) -> list Entry -> Prop :=
| encodes_nil : encodes [] []
| encodes_cons l ls es rest :
    row_entries l es -> encodes ls rest -> encodes (l :: ls) (es ++ rest).

(** The two legs of a row of (price, quantity) pairs. *)
Inductive pair_entries : list (Z * Z) -> list Entry -> list Entry -> Prop :=
| pair_entries_empty p q :
    empty_start p = true -> empty_start q = true ->
    pair_entries [] [p] [q]
| pair_entries_items r p q ps qs :
    empty_start p && empty_start q = false ->
    rep p = 0 -> rep q = 0 -> Forall2 in_step ps qs ->
    map fst r = map value (p :: ps) -> map snd r = map value (q :: qs) ->
    pair_entries r (p :: ps) (q :: qs).

Inductive encodes_pairs
  : list (list (Z * Z)) -> list Entry -> list Entry -> Prop :=
| encodes_pairs_nil : encodes_pairs [] [] []
| encodes_pairs_cons r rows esp esq prest qrest :
    pair_entries r esp esq -> encodes_pairs rows prest qrest ->
    encodes_pairs (r :: rows) (esp ++ prest) (esq ++ qrest).

Lemma empty_start_rep e : empty_start e = true -> rep e = 0.
Proof.
  unfold empty_start. intros H. apply andb_true_iff in H.
  apply Z.eqb_eq. apply H.
Qed.

Lemma row_entries_head l es rest : row_entries l es -> row_boundary (es ++ rest).
Proof.
  intros H. destruct H as [e He | e es He Hr _]; cbn.
  - apply empty_start_rep. exact He.
  - exact Hr.
Qed.

Lemma encodes_boundary ls es : encodes ls es -> row_boundary es.
Proof.
  intros H. destruct H as [|l ls es rest Hr _]; [exact I|].
  eapply row_entries_head. exact Hr.
Qed.

Lemma encodes_pairs_boundary rows esp esq :
  encodes_pairs rows esp esq -> row_boundary esp.
Proof.
  intros H. destruct H as [|r rows esp esq prest qrest Hr _]; [exact I|].
  destruct Hr as [p q Hp _ | r p q ps qs _ Hp _ _ _ _]; cbn.
  - apply empty_start_rep. exact Hp.
  - exact Hp.
Qed.

Lemma leaf_row_of_encoding leaf out l es rest :
  cursor_wf leaf -> stream leaf = (es ++ rest, Eos) ->
  row_entries l es -> row_boundary rest ->
  Z.of_nat (length l) < 2 ^ 32 ->
  exists leaf',
    append_list_from_leaf_for_row leaf out
    = Ok (Z.of_nat (length l), leaf', append_opt out l)
    /\ cursor_wf leaf' /\ stream leaf' = (rest, Eos).
Proof.
  intros W Hs Hr B Hlt. unfold append_list_from_leaf_for_row.
  destruct Hr as [e He | e es He Hrep F].
  - cbn [app] in Hs.
    destruct (peek_cons W Hs) as (c1 & -> & W1 & Hs1). cbn [bind].
    fold (empty_start e). rewrite He.
    destruct (take_cons W1 Hs1) as (c2 & -> & W2 & Hs2). cbn [bind].
    exists c2. rewrite append_opt_nil. auto.
  - cbn [app] in Hs.
    destruct (peek_cons W Hs) as (c1 & -> & W1 & Hs1). cbn [bind].
    fold (empty_start e). rewrite He.
    assert (Hb : (length es < slots_left c1)%nat).
    { pose proof (stream_within_slots_left c1) as H.
      rewrite Hs1 in H. cbn [fst length] in H.
      rewrite length_app in H. lia. }
    pose proof (@leaf_loop_spec es (slots_left c1) c1 out 0 e rest Eos
                  W1 Hs1 F B Hb) as H.
    assert (G : exists leaf',
               leaf_loop (slots_left c1) c1 out 0
               = Ok (u32 (0 + Z.of_nat (S (length es))), leaf',
                     append_opt out (map value (e :: es)))
               /\ cursor_wf leaf' /\ stream leaf' = (rest, Eos)).
    { destruct rest; exact H. }
    destruct G as (l' & E & W' & S'). exists l'.
    rewrite length_map in *. cbn [length] in *.
    rewrite E, Z.add_0_l, u32_small by lia. auto.
Qed.

Lemma pairs_row_of_encoding px qty opx oqty r esp esq prest qrest :
  cursor_wf px -> cursor_wf qty ->
  stream px = (esp ++ prest, Eos) -> stream qty = (esq ++ qrest, Eos) ->
  pair_entries r esp esq -> row_boundary prest ->
  Z.of_nat (length r) < 2 ^ 32 ->
  exists px' qty',
    append_list_pairs_for_row_typed px qty opx oqty
    = Ok (Z.of_nat (length r), (px', qty'),
          (append_opt opx (map fst r), append_opt oqty (map snd r)))
    /\ cursor_wf px' /\ cursor_wf qty'
    /\ stream px' = (prest, Eos) /\ stream qty' = (qrest, Eos).
Proof.
  intros Wp Wq Hp Hq Hr B Hlt. unfold append_list_pairs_for_row_typed.
  destruct Hr as [p q Ep Eq | r p q ps qs He Rp Rq F Mp Mq].
  - cbn [app] in Hp, Hq.
    destruct (peek_cons Wp Hp) as (p1 & -> & Wp1 & Hp1). cbn [bind].
    destruct (peek_cons Wq Hq) as (q1 & -> & Wq1 & Hq1). cbn [bind].
    fold (empty_start p). fold (empty_start q). rewrite Ep, Eq. cbn [andb].
    destruct (take_cons Wp1 Hp1) as (p2 & -> & Wp2 & Hp2). cbn [bind].
    destruct (take_cons Wq1 Hq1) as (q2 & -> & Wq2 & Hq2). cbn [bind].
    exists p2, q2. cbn [map length]. rewrite !append_opt_nil. auto.
  - cbn [app] in Hp, Hq.
    destruct (peek_cons Wp Hp) as (p1 & -> & Wp1 & Hp1). cbn [bind].
    destruct (peek_cons Wq Hq) as (q1 & -> & Wq1 & Hq1). cbn [bind].
    fold (empty_start p). fold (empty_start q). rewrite He.
    assert (Hb : (length ps < slots_left p1)%nat).
    { pose proof (stream_within_slots_left p1) as H.
      rewrite Hp1 in H. cbn [fst length] in H.
      rewrite length_app in H. lia. }
    assert (St : pair_stop prest qrest).
    { destruct prest as [|x prest]; [exact I|].
      destruct qrest as [|y qrest]; [exact I|]. left. exact B. }
    pose proof (@pairs_loop_spec ps qs (slots_left p1) p1 q1 opx oqty 0
                  p q prest qrest Eos Eos Wp1 Wq1 Hp1 Hq1 F St Hb) as H.
    assert (Fp : fault_of (prest, Eos) = None) by (destruct prest; reflexivity).
    assert (Fq : fault_of (qrest, Eos) = None) by (destruct qrest; reflexivity).
    rewrite Fp, Fq in H.
    destruct H as (px' & qty' & -> & Wp' & Wq' & Sp & Sq).
    exists px', qty'. rewrite Mp, Mq.
    assert (Hl : length r = S (length ps)).
    { rewrite <- (length_map fst r), Mp, length_map. reflexivity. }
    rewrite Hl in *. rewrite Z.add_0_l, u32_small by lia. auto.
Qed.

(** The cursors of one side of the book stand before the rows [rows]: a
    row is a list of (price, quantity) pairs, and a leg that is read alone
    holds its half of them. *)
Definition side_encodes (px qty : option Int64Cursor)
    (rows : list (list (Z * Z))) : Prop :=
  match px, qty with
  | Some p, Some q =>
      cursor_wf p /\ cursor_wf q
      /\ exists esp esq,
           stream p = (esp, Eos) /\ stream q = (esq, Eos)
           /\ encodes_pairs rows esp esq
  | Some p, None =>
      cursor_wf p
      /\ exists es, stream p = (es, Eos) /\ encodes (map (map fst) rows) es
  | None, Some q =>
      cursor_wf q
      /\ exists es, stream q = (es, Eos) /\ encodes (map (map snd) rows) es
  | None, None => True
  end.

Definition grown (rng selected : bool) (v : list Z) (add : list Z) : list Z :=
  if rng && selected then v ++ add else v.

Lemma side_step_of_encoding px qty rng v w r rows :
  side_encodes px qty (r :: rows) ->
  Z.of_nat (length r) < 2 ^ 32 ->
  engaged px || engaged qty = true ->
  exists px' qty',
    Delta.side_step px qty rng v w
    = Ok (Z.of_nat (length r), (px', qty'),
          (grown rng (engaged px) v (map fst r),
           grown rng (engaged qty) w (map snd r)))
    /\ side_encodes px' qty' rows
    /\ engaged px' = engaged px /\ engaged qty' = engaged qty.
Proof.
  unfold side_encodes, Delta.side_step, grown.
  destruct px as [p|], qty as [q|]; cbn [engaged orb andb];
    intros H Hlt Hen; try discriminate.
  - destruct H as (Wp & Wq & esp & esq & Sp & Sq & Enc).
    inversion Enc as [|r0 rows0 esp0 esq0 prest qrest Hr Hrest]; subst.
    pose proof (encodes_pairs_boundary Hrest) as B.
    destruct (@pairs_row_of_encoding p q
                (if rng then Some v else None) (if rng then Some w else None)
                r esp0 esq0 prest qrest Wp Wq Sp Sq Hr B Hlt)
      as (p' & q' & -> & Wp' & Wq' & Sp' & Sq').
    cbn [bind]. exists (Some p'), (Some q').
    split; [destruct rng; cbn; rewrite ?andb_true_r; reflexivity|].
    split; [eauto 10 | auto].
  - destruct H as (Wp & es & Sp & Enc). cbn [map] in Enc.
    inversion Enc as [|l ls es0 rest Hr Hrest]; subst.
    pose proof (encodes_boundary Hrest) as B.
    destruct (@leaf_row_of_encoding p (if rng then Some v else None)
                (map fst r) es0 rest Wp Sp Hr B
                ltac:(rewrite length_map; exact Hlt))
      as (p' & E & Wp' & Sp').
    rewrite E. cbn [bind]. rewrite length_map.
    exists (Some p'), None.
    split; [destruct rng; cbn; reflexivity|].
    split; [eauto 10 | auto].
  - destruct H as (Wq & es & Sq & Enc). cbn [map] in Enc.
    inversion Enc as [|l ls es0 rest Hr Hrest]; subst.
    pose proof (encodes_boundary Hrest) as B.
    destruct (@leaf_row_of_encoding q (if rng then Some w else None)
                (map snd r) es0 rest Wq Sq Hr B
                ltac:(rewrite length_map; exact Hlt))
      as (q' & E & Wq' & Sq').
    rewrite E. cbn [bind]. rewrite length_map.
    exists None, (Some q').
    split; [destruct rng; cbn; reflexivity|].
    split; [eauto 10 | auto].
Qed.

(** A side of the book after the rows [acc] were put in the batch: the
    offsets are those of the row lengths, and each selected value vector
    is the concatenation of its half of the rows. *)
Definition side_holds (need px_sel qty_sel : bool) (off pxs qtys : list Z)
    (acc : list (list (Z * Z))) : Prop :=
  off = (if need then offsets_for (map (@length (Z * Z)) acc) else [])
  /\ pxs = (if px_sel then concat (map (map fst) acc) else [])
  /\ qtys = (if qty_sel then concat (map (map snd) acc) else []).

Definition book_holds (sel : Delta.Select) (b : Delta.Bufs)
    (asks bids : list (list (Z * Z))) : Prop :=
  side_holds (Delta.ask_px sel || Delta.ask_qty sel)
    (Delta.ask_px sel) (Delta.ask_qty sel)
    (Delta.ask_off_ b) (Delta.ask_px_ b) (Delta.ask_qty_ b) asks
  /\ side_holds (Delta.bid_px sel || Delta.bid_qty sel)
       (Delta.bid_px sel) (Delta.bid_qty sel)
       (Delta.bid_off_ b) (Delta.bid_px_ b) (Delta.bid_qty_ b) bids.

Definition short_row (r : list (Z * Z)) : Prop :=
  Z.of_nat (length r) < 2 ^ 32.

(** The rows whose timestamp is in the window. *)
Fixpoint kept {A : Type} (start_ns end_ns : Z) (ts : list Z) (rows : list A)
  : list A :=
  match ts, rows with
  | t :: ts', r :: rows' =>
      if in_window start_ns end_ns t
      then r :: kept start_ns end_ns ts' rows'
      else kept start_ns end_ns ts' rows'
  | _, _ => []
  end.

Lemma concat_snoc {A : Type} (ls : list (list A)) (l : list A) :
  concat (ls ++ [l]) = concat ls ++ l.
Proof. rewrite concat_app. cbn. rewrite app_nil_r. reflexivity. Qed.

Lemma side_row need px_sel qty_sel px qty rng off pxs qtys acc r rows
      added px' qty' v' w' :
  need = px_sel || qty_sel ->
  engaged px = px_sel -> engaged qty = qty_sel ->
  side_encodes px qty (r :: rows) -> short_row r ->
  side_holds need px_sel qty_sel off pxs qtys acc ->
  Delta.side_step px qty rng pxs qtys = Ok (added, (px', qty'), (v', w')) ->
  side_encodes px' qty' rows
  /\ side_holds need px_sel qty_sel
       (if rng then Delta.push_if need off (u32 (last off 0 + added)) else off)
       v' w' (if rng then acc ++ [r] else acc).
Proof.
  intros Hneed Epx Eqty Enc Hr (Hoff & Hpx & Hqty) H.
  destruct need.
  - destruct (@side_step_of_encoding px qty rng pxs qtys r rows Enc Hr
                ltac:(rewrite Epx, Eqty; auto))
      as (p1 & q1 & E & Enc' & _ & _).
    rewrite E in H. injection H as <- <- <- <- <-.
    split; [exact Enc'|].
    unfold grown. rewrite Epx, Eqty.
    destruct rng; cbn [andb]; [|unfold side_holds; auto].
    unfold side_holds. rewrite !map_app. cbn [map]. rewrite !concat_snoc.
    split; [|split].
    + rewrite Hoff. cbn [Delta.push_if]. unfold offsets_for.
      rewrite offsets_from_snoc.
      rewrite (u32_small (z := Z.of_nat (length r)))
        by (unfold short_row in Hr; lia).
      reflexivity.
    + rewrite Hpx. destruct px_sel; reflexivity.
    + rewrite Hqty. destruct qty_sel; reflexivity.
  - destruct px_sel; [discriminate|]. destruct qty_sel; [discriminate|].
    destruct px; [discriminate|]. destruct qty; [discriminate|].
    cbn [Delta.side_step] in H. injection H as <- <- <- <- <-.
    split; [exact I|].
    unfold side_holds. cbn [Delta.push_if].
    destruct rng; auto.
Qed.

(** A side whose cursors stand before the rows [r :: rows] stands, after
    the row, before [rows]: in the window or not. *)
Lemma side_step_advances px qty rng v w r rows added px' qty' v' w' :
  side_encodes px qty (r :: rows) -> short_row r ->
  Delta.side_step px qty rng v w = Ok (added, (px', qty'), (v', w')) ->
  side_encodes px' qty' rows.
Proof.
  intros Enc Hr H.
  destruct (engaged px || engaged qty) eqn:En.
  - destruct (@side_step_of_encoding px qty rng v w r rows Enc Hr En)
      as (p1 & q1 & E & Enc' & _ & _).
    rewrite E in H. injection H as <- <- <- <- <-. exact Enc'.
  - destruct px; [discriminate|]. destruct qty; [discriminate|].
    cbn [Delta.side_step] in H. injection H as <- <- <- <- <-. exact I.
Qed.

(** C8.  A row of a depth row group whose timestamp is outside the window
    [start_ns, end_ns): every output vector (timestamps, scalars, offsets,
    list values) is after the row exactly what it was before it, while the
    cursors are left where the same row would leave them for any other
    window and any other vectors, hence where an in-window row leaves
    them.  On list columns that hold the rows [r :: rows] the cursors of
    each side stand after the row before [rows], at the first entry of the
    next row. *)
Theorem out_of_window_row_is_discarded :
  forall (start_ns end_ns : Z) (sel : Delta.Select)
         (cs cs' : Delta.Cursors) (b b' : Delta.Bufs)
         (e_ts : Entry) (ts' : Int64Cursor),
    take (Delta.c_ts cs) = Ok (e_ts, ts') ->
    in_window start_ns end_ns (value e_ts) = false ->
    Delta.row_step start_ns end_ns sel cs b = Ok (cs', b') ->
    b' = b
    /\ (forall (s2 e2 : Z) (b2 : Delta.Bufs),
           cursors_after (Delta.row_step s2 e2 sel cs b2) = Ok cs')
    /\ (forall r rows,
           short_row r ->
           side_encodes (Delta.c_apx cs) (Delta.c_aqty cs) (r :: rows) ->
           side_encodes (Delta.c_apx cs') (Delta.c_aqty cs') rows)
    /\ (forall r rows,
           short_row r ->
           side_encodes (Delta.c_bpx cs) (Delta.c_bqty cs) (r :: rows) ->
           side_encodes (Delta.c_bpx cs') (Delta.c_bqty cs') rows).
Proof.
  intros s e sel cs cs' b b' e_ts ts' Ht Hout Hstep.
  split; [eapply row_step_outside; eassumption|].
  split.
  { intros s2 e2 b2.
    rewrite (row_step_cursors s2 e2 sel cs b2 s e b), Hstep. reflexivity. }
  destruct (row_step_inv _ _ _ _ _ Hstep)
    as (e_ts0 & ts & e_fid & fid & e_lid & lid & e_evt & evt
        & na & apx & aqty & v_apx & v_aqty & nb & bpx & bqty & v_bpx & v_bqty
        & _ & _ & _ & _ & E5 & E6 & -> & _).
  cbn [Delta.c_apx Delta.c_aqty Delta.c_bpx Delta.c_bqty].
  split; intros r rows Hr Enc.
  - eapply side_step_advances; eassumption.
  - eapply side_step_advances; eassumption.
Qed.

Lemma kept_cons {A : Type} s e t ts (r : A) rows :
  kept s e (t :: ts) (r :: rows)
  = (if in_window s e t then [r] else []) ++ kept s e ts rows.
Proof. cbn [kept]. destruct (in_window s e t); reflexivity. Qed.

(** The row loop on a row group whose timestamps are [tsl] and whose two
    sides hold the rows [asks] and [bids]. *)
Lemma rows_loop_written s e sel :
  forall tsl asks bids cs b cs' b' more tl accA accB restA restB,
    cursor_wf (Delta.c_ts cs) ->
    stream (Delta.c_ts cs) = (tsl ++ more, tl) ->
    length asks = length tsl -> length bids = length tsl ->
    side_encodes (Delta.c_apx cs) (Delta.c_aqty cs) (asks ++ restA) ->
    side_encodes (Delta.c_bpx cs) (Delta.c_bqty cs) (bids ++ restB) ->
    Forall short_row asks -> Forall short_row bids ->
    cursors_match sel cs -> book_holds sel b accA accB ->
    Delta.rows_loop (length tsl) s e sel cs b = Ok (cs', b') ->
    Delta.ts_ b' = Delta.ts_ b ++ filter (in_window s e) (map value tsl)
    /\ book_holds sel b'
         (accA ++ kept s e (map value tsl) asks)
         (accB ++ kept s e (map value tsl) bids).
Proof.
  induction tsl as [|t tsl IH];
    intros asks bids cs b cs' b' more tl accA accB restA restB
           W Hs La Lb EncA EncB SA SB M Hb H.
  - cbn [length Delta.rows_loop] in H. injection H as <- <-.
    destruct asks; [|discriminate]. destruct bids; [|discriminate].
    cbn. rewrite !app_nil_r. auto.
  - destruct asks as [|ra asks]; [discriminate|].
    destruct bids as [|rb bids]; [discriminate|].
    cbn [length Delta.rows_loop] in H.
    apply bind_Ok in H. destruct H as ([cs1 b1] & Estep & H).
    destruct (row_step_inv _ _ _ _ _ Estep)
      as (e_ts & ts & e_fid & fid & e_lid & lid & e_evt & evt
          & na & apx & aqty & v_apx & v_aqty & nb & bpx & bqty
          & v_bpx & v_bqty & E1 & _ & _ & _ & E5 & E6 & Ecs & Eb).
    cbn [app] in Hs.
    destruct (take_cons W Hs) as (c2 & Et & W2 & Hs2).
    rewrite Et in E1. injection E1 as <- <-.
    destruct M as (Mapx & Maqty & Mbpx & Mbqty).
    destruct Hb as (HA & HB).
    cbn [app] in EncA, EncB.
    apply Forall_cons_iff in SA. destruct SA as [Sra SA'].
    apply Forall_cons_iff in SB. destruct SB as [Srb SB'].
    destruct (@side_row _ _ _ _ _ _ _ _ _ _ _ _ _ _ _ _ _
                eq_refl Mapx Maqty EncA Sra HA E5) as (EncA' & HA').
    destruct (@side_row _ _ _ _ _ _ _ _ _ _ _ _ _ _ _ _ _
                eq_refl Mbpx Mbqty EncB Srb HB E6) as (EncB' & HB').
    destruct (side_step_engaged _ _ _ _ _ E5) as [Ea1 Ea2].
    destruct (side_step_engaged _ _ _ _ _ E6) as [Eb1 Eb2].
    assert (M1 : cursors_match sel cs1).
    { rewrite Ecs. unfold cursors_match. cbn. repeat split; congruence. }
    assert (W1 : cursor_wf (Delta.c_ts cs1)) by (rewrite Ecs; exact W2).
    assert (Hs1 : stream (Delta.c_ts cs1) = (tsl ++ more, tl))
      by (rewrite Ecs; exact Hs2).
    assert (EncA1 : side_encodes (Delta.c_apx cs1) (Delta.c_aqty cs1)
                      (asks ++ restA)) by (rewrite Ecs; exact EncA').
    assert (EncB1 : side_encodes (Delta.c_bpx cs1) (Delta.c_bqty cs1)
                      (bids ++ restB)) by (rewrite Ecs; exact EncB').
    cbn [length] in La, Lb.
    assert (Hts : Delta.ts_ b1
                  = Delta.ts_ b
                    ++ (if in_window s e (value t) then [value t] else [])).
    { rewrite Eb. unfold in_range_of.
      destruct (in_window s e (value t)); cbn [Delta.ts_];
        [reflexivity | rewrite app_nil_r; reflexivity]. }
    assert (Hb1 : book_holds sel b1
                    (accA ++ (if in_window s e (value t) then [ra] else []))
                    (accB ++ (if in_window s e (value t) then [rb] else []))).
    { rewrite Eb. unfold in_range_of in *. unfold book_holds.
      destruct (in_window s e (value t));
        cbn [Delta.ask_off_ Delta.bid_off_ Delta.ask_px_ Delta.ask_qty_
             Delta.bid_px_ Delta.bid_qty_]; rewrite ?app_nil_r; auto. }
    assert (G := @IH asks bids cs1 b1 cs' b' more tl _ _ restA restB
                   W1 Hs1 ltac:(lia) ltac:(lia) EncA1 EncB1 SA' SB' M1 Hb1 H).
    destruct G as (G1 & G2).
    cbn [map filter]. rewrite !kept_cons.
    rewrite G1, Hts, <- app_assoc.
    split.
    + f_equal. destruct (in_window s e (value t)); reflexivity.
    + rewrite <- !app_assoc in G2. exact G2.
Qed.

Lemma book_holds_cleared sel : book_holds sel (Delta.Bufs_cleared sel) [] [].
Proof.
  unfold book_holds, side_holds, Delta.Bufs_cleared. cbn.
  repeat split;
    try (destruct (Delta.ask_px sel || Delta.ask_qty sel); reflexivity);
    try (destruct (Delta.bid_px sel || Delta.bid_qty sel); reflexivity);
    try (destruct (Delta.ask_px sel); reflexivity);
    try (destruct (Delta.ask_qty sel); reflexivity);
    try (destruct (Delta.bid_px sel); reflexivity);
    destruct (Delta.bid_qty sel); reflexivity.
Qed.

(** A row group that was written with the timestamps [tsl] and the rows
    [asks] and [bids], and that has a timestamp in the window: the batch
    holds the timestamps of the window and, for each side, the rows of
    those timestamps. *)
Lemma delta_rg_written f rg rgs i s e sel b cs tsl more tl asks bids
      restA restB :
  Delta.open_cursors f rg sel = Ok cs ->
  stream (Delta.c_ts cs) = (tsl ++ more, tl) ->
  length tsl = Parquet.num_rows rg ->
  length asks = length tsl -> length bids = length tsl ->
  side_encodes (Delta.c_apx cs) (Delta.c_aqty cs) (asks ++ restA) ->
  side_encodes (Delta.c_bpx cs) (Delta.c_bqty cs) (bids ++ restB) ->
  Forall short_row asks -> Forall short_row bids ->
  filter (in_window s e) (map value tsl) <> [] ->
  returns (Delta.next_rg_from f (rg :: rgs) i s e sel b) ->
  exists b',
    Delta.next_rg_from f (rg :: rgs) i s e sel b = Ok (true, S i, b')
    /\ Delta.ts_ b' = filter (in_window s e) (map value tsl)
    /\ book_holds sel b'
         (kept s e (map value tsl) asks) (kept s e (map value tsl) bids).
Proof.
  intros Ho Hs Hn La Lb EncA EncB SA SB Hne [x Hx].
  pose proof (open_cursors_good f rg sel) as G.
  rewrite Ho in G. destruct G as (W & _).
  cbn [Delta.next_rg_from] in *. rewrite Ho in *. cbn [bind] in *.
  rewrite <- Hn in *.
  destruct (Delta.rows_loop (length tsl) s e sel cs (Delta.Bufs_cleared sel))
    as [[cs1 b1]| |] eqn:Er; cbn [bind] in *; try discriminate.
  destruct (@rows_loop_written s e sel tsl asks bids cs _ cs1 b1 more tl
              [] [] restA restB W Hs La Lb EncA EncB SA SB
              (open_cursors_match _ _ _ Ho) (book_holds_cleared sel) Er)
    as (Hts & Hb).
  cbn [Delta.Bufs_cleared Delta.ts_ app] in Hts, Hb.
  exists b1. rewrite Hts in *.
  destruct (filter (in_window s e) (map value tsl)); [congruence|].
  auto.
Qed.

(** ** A small dataset

    One day, 2025-09-03, under the root [/data] for the symbol [BTCUSDT]:
    a depth file of three rows whose ask lists have 2, 0 and 1 elements, a
    top file and a trade file of three rows whose last timestamp is the
    first instant of the next day. *)
Module Fixture.

Definition day0 : Z := 20334.             (* 2025-09-03 *)
Definition t0 : Z := day0 * day_ns.
Definition t1 : Z := t0 + day_ns.

Definition leaf (p : string) (md mr : Z) : Parquet.ColumnDescriptor :=
  {| Parquet.path := p; Parquet.physical_int64 := true;
     Parquet.max_definition_level := md;
     Parquet.max_repetition_level := mr |}.

(** A required flat column. *)
Definition flat (vs : list Z) : Parquet.ColumnChunk :=
  {| Parquet.slots := map (fun _ => (0, 0)) vs; Parquet.stored := vs;
     Parquet.damaged := false |}.

(** A list leaf: definition level 2 for an element, 1 for an empty
    list. *)
Definition nested (sl : list (Z * Z)) (vs : list Z) : Parquet.ColumnChunk :=
  {| Parquet.slots := sl; Parquet.stored := vs; Parquet.damaged := false |}.

Definition depth_schema : list Parquet.ColumnDescriptor :=
  [leaf "ts" 0 0; leaf "firstId" 0 0; leaf "lastId" 0 0;
   leaf "eventTime" 0 0;
   leaf "ask.list.element.px" 2 1; leaf "ask.list.element.qty" 2 1;
   leaf "bid.list.element.px" 2 1; leaf "bid.list.element.qty" 2 1].

Definition ask_slots : list (Z * Z) := [(2, 0); (2, 1); (1, 0); (2, 0)].
Definition bid_slots : list (Z * Z) := [(2, 0); (2, 0); (1, 0)].

Definition depth_rg : Parquet.RowGroup :=
  {| Parquet.num_rows := 3;
     Parquet.chunks :=
       [flat [t0 + 5; t0 + 6; t0 + 7]; flat [1; 2; 3]; flat [1; 2; 3];
        flat [15; 16; 17];
        nested ask_slots [100; 101; 102]; nested ask_slots [10; 11; 12];
        nested bid_slots [90; 91]; nested bid_slots [9; 8]] |}.

Definition depth_file : Parquet.File :=
  {| Parquet.schema := depth_schema; Parquet.row_groups := [depth_rg] |}.

(** The rows the list columns of [depth_rg] were written from. *)
Definition ask_rows : list (list (Z * Z)) :=
  [[(100, 10); (101, 11)]; []; [(102, 12)]].
Definition bid_rows : list (list (Z * Z)) := [[(90, 9)]; [(91, 8)]; []].

(** The same row group with the last ask price lost: the value stream is
    shorter than the level stream implies. *)
Definition depth_rg_short : Parquet.RowGroup :=
  {| Parquet.num_rows := 3;
     Parquet.chunks :=
       [flat [t1 + 5; t1 + 6; t1 + 7]; flat [4; 5; 6]; flat [4; 5; 6];
        flat [25; 26; 27];
        nested ask_slots [100; 101]; nested ask_slots [10; 11; 12];
        nested bid_slots [90; 91]; nested bid_slots [9; 8]] |}.

Definition depth_file_short : Parquet.File :=
  {| Parquet.schema := depth_schema;
     Parquet.row_groups := [depth_rg_short] |}.

Definition depth_path : string :=
  "/data/depth_spot/BTCUSDT/2025/9/bn_depth_spot_BTCUSDT_2025_9_3.parquet".
Definition depth_path_next : string :=
  "/data/depth_spot/BTCUSDT/2025/9/bn_depth_spot_BTCUSDT_2025_9_4.parquet".

Definition top_schema : list Parquet.ColumnDescriptor :=
  [leaf "ts" 0 0; leaf "ask_px" 0 0; leaf "ask_qty" 0 0;
   leaf "bid_px" 0 0; leaf "bid_qty" 0 0; leaf "valu" 0 0].

Definition top_rg : Parquet.RowGroup :=
  {| Parquet.num_rows := 3;
     Parquet.chunks :=
       [flat [t0 + 5; t0 + 6; t1]; flat [101; 102; 103]; flat [1; 2; 3];
        flat [99; 98; 97]; flat [4; 5; 6]; flat [7; 8; 9]] |}.

Definition top_file : Parquet.File :=
  {| Parquet.schema := top_schema; Parquet.row_groups := [top_rg] |}.


Definition top_path : string :=
  "/data/top_spot/BTCUSDT/2025/9/bn_top_spot_BTCUSDT_2025_9_3.parquet".

Definition trade_schema : list Parquet.ColumnDescriptor :=
  [leaf "ts" 0 0; leaf "px" 0 0; leaf "qty" 0 0; leaf "tradeId" 0 0;
   leaf "buyerOrderId" 0 0; leaf "sellerOrderId" 0 0;
   leaf "tradeTime" 0 0;
   {| Parquet.path := "isMarket"; Parquet.physical_int64 := false;
      Parquet.max_definition_level := 0;
      Parquet.max_repetition_level := 0 |};
   leaf "eventTime" 0 0].

Definition trade_rg : Parquet.RowGroup :=
  {| Parquet.num_rows := 3;
     Parquet.chunks :=
       [flat [t0 + 5; t0 + 6; t1]; flat [101; 102; 103]; flat [1; 2; 3];
        flat [11; 12; 13]; flat [21; 22; 23]; flat [31; 32; 33];
        flat [41; 42; 43]; flat [0; 1; 0]; flat [51; 52; 53]] |}.

Definition trade_file : Parquet.File :=
  {| Parquet.schema := trade_schema; Parquet.row_groups := [trade_rg] |}.

Definition trade_path : string :=
  "/data/trade_spot/BTCUSDT/2025/9/bn_trade_spot_BTCUSDT_2025_9_3.parquet".

Definition disk : Disk :=
  fun p =>
    if String.eqb p depth_path then Some (Some depth_file)
    else if String.eqb p top_path then Some (Some top_file)
    else if String.eqb p trade_path then Some (Some trade_file)
    else None.

(** Two days of depth data, the first of them damaged. *)
Definition disk_short_then_good : Disk :=
  fun p =>
    if String.eqb p depth_path then Some (Some depth_file_short)
    else if String.eqb p depth_path_next then Some (Some depth_file)
    else None.


Definition db : ShardedDB := {| root_ := "/data"; sampling_ := None |}.

Definition candidate (p : string) (s : Z) : Candidate :=
  {| path := p; file_start_ns := s; file_end_ns := s + day_ns |}.

Definition top_reader : TopBatchReader :=
  Impl_new [candidate top_path t0] t0 t1 Top.Select_default Top.Bufs_empty.
Definition trade_reader : TradeBatchReader :=
  Impl_new [candidate trade_path t0] t0 t1 Trade.Select_default
    Trade.Bufs_empty.
Definition depth_reader : DeltaBatchReader :=
  Impl_new [candidate depth_path t0] t0 t1 Delta.Select_default
    Delta.Bufs_empty.

(** The cursor over the ask prices of [depth_rg]. *)
Definition ask_px_reader : Parquet.ColumnReader :=
  {| Parquet.rd_descr := leaf "ask.list.element.px" 2 1;
     Parquet.rd_slots := ask_slots; Parquet.rd_stored := [100; 101; 102];
     Parquet.rd_damaged := false |}.
Definition ask_qty_reader : Parquet.ColumnReader :=
  {| Parquet.rd_descr := leaf "ask.list.element.qty" 2 1;
     Parquet.rd_slots := ask_slots; Parquet.rd_stored := [10; 11; 12];
     Parquet.rd_damaged := false |}.

(** A quantity leg that starts a new row one entry early. *)
Definition ask_qty_reader_off : Parquet.ColumnReader :=
  {| Parquet.rd_descr := leaf "ask.list.element.qty" 2 1;
     Parquet.rd_slots := [(2, 0); (2, 1); (2, 0); (2, 0)];
     Parquet.rd_stored := [10; 11; 12; 13];
     Parquet.rd_damaged := false |}.
Definition ask_px_reader_long : Parquet.ColumnReader :=
  {| Parquet.rd_descr := leaf "ask.list.element.px" 2 1;
     Parquet.rd_slots := [(2, 0); (2, 1); (2, 1); (2, 0)];
     Parquet.rd_stored := [100; 101; 102; 103];
     Parquet.rd_damaged := false |}.

End Fixture.

(** ** What [next] returns *)

Lemma next_exhausted {Select Bufs ColsView : Type}
      (next_rg : Z -> Z -> Select -> FileStreamer -> Bufs ->
                 Res (bool * FileStreamer * Bufs))
      (ts_of : Bufs -> list Z)
      (fill_view : Select -> Bufs -> string -> ColsView)
      disk (st : Impl Select Bufs) cerr :
  fs_ st = None -> (length (files_ st) <= file_idx_ st)%nat ->
  next next_rg ts_of fill_view disk st cerr = Ok (None, st, cerr).
Proof.
  intros Hf Hl. unfold next.
  replace (length (files_ st) - file_idx_ st)%nat with 0%nat by lia.
  cbn [Nat.add next_loop]. unfold turn. rewrite Hf.
  rewrite (proj2 (nth_error_None _ _) Hl). reflexivity.
Qed.

(** [next] on one kind of reader: it returns, with [true] only beside at
    least one row, and with [false] and nothing changed once no candidate
    is left. *)
Definition never_empty {Select Bufs ColsView : Type}
    (next_ : Disk -> Impl Select Bufs -> list string ->
             Res (option ColsView * Impl Select Bufs * list string))
    (n_of : ColsView -> nat) : Prop :=
  (forall disk st cerr,
      exists r st' cerr',
        next_ disk st cerr = Ok (r, st', cerr')
        /\ match r with
           | Some v => (1 <= n_of v)%nat
           | None =>
               fs_ st' = None /\ (length (files_ st') <= file_idx_ st')%nat
           end)
  /\ (forall disk st cerr,
         fs_ st = None -> (length (files_ st) <= file_idx_ st)%nat ->
         next_ disk st cerr = Ok (None, st, cerr)).

Lemma nonempty_length {A : Type} (l : list A) : l <> [] -> (1 <= length l)%nat.
Proof. destruct l; cbn; [congruence | lia]. Qed.

(** C9.  For the three batch readers, [next] returns [true] only with a
    batch of at least one row, and the rows of a batch are rows of the
    window; when the candidates are exhausted it returns
    [false], without an exception and without touching the reader.  A row
    group none of whose timestamps is in the window is passed over: the
    streamer goes on with the row groups after it, as if it started
    there. *)
Theorem batches_are_never_empty :
  never_empty TopBatchReader_next Top.n
  /\ never_empty TradeBatchReader_next Trade.n
  /\ never_empty DeltaBatchReader_next Delta.n
  /\ (forall f rg rgs i s e sel b ts_all,
         0 <= find_col_idx (Parquet.schema f) "ts" ->
         read_required_i64_column f rg (find_col_idx (Parquet.schema f) "ts")
         = Ok ts_all ->
         (forall t, In t ts_all -> ~ s <= t < e) ->
         Top.next_rg_from f (rg :: rgs) i s e sel b
         = Top.next_rg_from f rgs (S i) s e sel b)
  /\ (forall f rg rgs i s e sel b ts_all,
         0 <= find_col_idx (Parquet.schema f) "ts" ->
         read_required_i64_column f rg (find_col_idx (Parquet.schema f) "ts")
         = Ok ts_all ->
         (forall t, In t ts_all -> ~ s <= t < e) ->
         Trade.next_rg_from f (rg :: rgs) i s e sel b
         = Trade.next_rg_from f rgs (S i) s e sel b)
  /\ (forall f rg rgs i s e sel b cs,
         Delta.open_cursors f rg sel = Ok cs ->
         (Parquet.num_rows rg
          <= length (fst (stream (Delta.c_ts cs))))%nat ->
         (forall x, In x (fst (stream (Delta.c_ts cs))) ->
                    ~ s <= value x < e) ->
         returns (Delta.rows_loop (Parquet.num_rows rg) s e sel cs
                    (Delta.Bufs_cleared sel)) ->
         Delta.next_rg_from f (rg :: rgs) i s e sel b
         = Delta.next_rg_from f rgs (S i) s e sel (Delta.Bufs_cleared sel)).
Proof.
  assert (Hfilter : forall s e ts_all,
             (forall t, In t ts_all -> ~ s <= t < e) ->
             filter (in_window s e) ts_all = []).
  { intros s e ts_all H. induction ts_all as [|t l IH]; [reflexivity|].
    cbn [filter]. destruct (in_window s e t) eqn:E.
    - apply in_window_iff in E. exfalso. apply (H t); [left; reflexivity|].
      exact E.
    - apply IH. intros t' Ht'. apply H. right. exact Ht'. }
  repeat split.
  - intros disk st cerr.
    destruct (top_next_spec disk st cerr) as (r & st' & cerr' & E & _ & O).
    exists r, st', cerr'. split; [exact E|].
    destruct r as [v|]; [|exact O].
    destruct O as (-> & Hne & _). apply nonempty_length. exact Hne.
  - intros. apply next_exhausted; assumption.
  - intros disk st cerr.
    destruct (trade_next_spec disk st cerr) as (r & st' & cerr' & E & _ & O).
    exists r, st', cerr'. split; [exact E|].
    destruct r as [v|]; [|exact O].
    destruct O as (-> & Hne & _). apply nonempty_length. exact Hne.
  - intros. apply next_exhausted; assumption.
  - intros disk st cerr.
    destruct (delta_next_spec disk st cerr) as (r & st' & cerr' & E & _ & O).
    exists r, st', cerr'. split; [exact E|].
    destruct r as [v|]; [|exact O].
    destruct O as (-> & Hne & _). apply nonempty_length. exact Hne.
  - intros. apply next_exhausted; assumption.
  - intros f rg rgs i s e sel b ts_all Hi Hr Hout.
    cbn [Top.next_rg_from].
    rewrite (proj2 (Z.ltb_ge _ _) Hi), Hr. cbn [bind].
    rewrite (Hfilter _ _ _ Hout). reflexivity.
  - intros f rg rgs i s e sel b ts_all Hi Hr Hout.
    cbn [Trade.next_rg_from].
    rewrite (proj2 (Z.ltb_ge _ _) Hi), Hr. cbn [bind].
    rewrite (Hfilter _ _ _ Hout). reflexivity.
  - intros f rg rgs i s e sel b cs Ho Hlen Hout [[cs' b'] Hr].
    cbn [Delta.next_rg_from]. rewrite Ho. cbn [bind]. rewrite Hr. cbn [bind].
    assert (W : cursor_wf (Delta.c_ts cs)).
    { pose proof (open_cursors_good f rg sel) as G. rewrite Ho in G.
      apply G. }
    assert (Hb : b' = Delta.Bufs_cleared sel).
    { eapply rows_loop_all_outside; [exact W | exact Hlen | | exact Hr].
      apply Forall_forall. intros x Hx. unfold outside.
      destruct (in_window s e (value x)) eqn:E; [|reflexivity].
      apply in_window_iff in E. exfalso. exact (Hout x Hx E). }
    subst b'. reflexivity.
Qed.

(** ** Offsets of a depth batch *)

(** The offsets of one side of a batch of [n] rows: [counts] gives for each
    row the number of elements its list contributed to the value vectors of
    that side.  The differences are stated where the 32-bit offsets can
    index the whole value vector. *)
Definition side_offsets (off : option (list Z)) (n : nat)
    (px_sel qty_sel : bool) (pxs qtys : list Z) : Prop :=
  exists (offs : list Z) (counts : list nat),
    off = Some offs
    /\ length offs = S n
    /\ length counts = n
    /\ nth 0 offs 0 = 0
    /\ (px_sel = true -> length pxs = total counts)
    /\ (qty_sel = true -> length qtys = total counts)
    /\ (Z.of_nat (total counts) < 2 ^ 32 ->
        forall i, (i < n)%nat ->
          nth i offs 0 <= nth (S i) offs 0
          /\ nth (S i) offs 0 - nth i offs 0 = Z.of_nat (nth i counts 0%nat)).

Lemma total_firstn_le counts i : (total (firstn i counts) <= total counts)%nat.
Proof.
  revert i. induction counts as [|c counts IH]; intros [|i]; cbn; try lia.
  specialize (IH i). unfold total in *. lia.
Qed.

Lemma total_firstn_S counts i :
  (i < length counts)%nat ->
  total (firstn (S i) counts)
  = (total (firstn i counts) + nth i counts 0)%nat.
Proof.
  revert i. induction counts as [|c counts IH]; intros i Hi; cbn in Hi;
    [lia|].
  destruct i as [|i].
  - cbn. lia.
  - change (total (firstn (S (S i)) (c :: counts)))
      with (c + total (firstn (S i) counts))%nat.
    rewrite IH by lia. cbn. unfold total. lia.
Qed.

Lemma side_inv_offsets px_sel qty_sel off pxs qtys counts :
  side_inv true px_sel qty_sel off pxs qtys counts ->
  side_offsets (Some off) (length counts) px_sel qty_sel pxs qtys.
Proof.
  intros (-> & Hpx & Hqty). exists (offsets_for counts), counts.
  unfold offsets_for. rewrite length_offsets_from.
  repeat split; auto.
  - destruct counts; reflexivity.
  - rewrite !nth_offsets_from_exact by lia.
    rewrite total_firstn_S by assumption. lia.
  - rewrite !nth_offsets_from_exact by lia.
    rewrite total_firstn_S by assumption. lia.
Qed.

(** C1.  Every depth batch that [next] delivers with a side of the book
    selected carries for that side an offsets vector of [n + 1] cells that
    starts at 0, does not decrease, and whose consecutive differences are
    the numbers of list elements the rows contributed, which add up to the
    length of the side's value vectors.  On the day file of [Fixture],
    three rows with ask lists of 2, 0 and 1 elements, the full day gives
    one batch of 3 rows with ask offsets [0; 2; 2; 3], and then [false].
    For a row group whose list columns hold the rows [asks] and [bids],
    the batch of its rows in the window has, for each side, the offsets of
    the lengths of the rows kept and, as value vectors, those rows one
    after the other. *)
Theorem depth_offsets :
  (forall disk (st st' : DeltaBatchReader) cerr cerr' v,
      DeltaBatchReader_next disk st cerr = Ok (Some v, st', cerr') ->
      let sel := sel_ st in
      let b := bufs_ st' in
      (Delta.ask_px sel || Delta.ask_qty sel = true ->
       side_offsets (Delta.view_ask_off v) (Delta.n v)
         (Delta.ask_px sel) (Delta.ask_qty sel)
         (Delta.ask_px_ b) (Delta.ask_qty_ b))
      /\ (Delta.bid_px sel || Delta.bid_qty sel = true ->
          side_offsets (Delta.view_bid_off v) (Delta.n v)
            (Delta.bid_px sel) (Delta.bid_qty sel)
            (Delta.bid_px_ b) (Delta.bid_qty_ b)))
  /\ (exists rd v rd' rd'',
         get_depth_cols Fixture.disk Fixture.db Fixture.t0 Fixture.t1
           "BTCUSDT" (Some "spot") Delta.Select_default = Ok rd
         /\ DeltaBatchReader_next Fixture.disk rd [] = Ok (Some v, rd', [])
         /\ Delta.n v = 3%nat
         /\ Delta.view_ask_off v = Some [0; 2; 2; 3]
         /\ DeltaBatchReader_next Fixture.disk rd' [] = Ok (None, rd'', []))
  /\ (forall (fs : FileStreamer) rg rgs s e sel b cs tsl more tl
             asks bids restA restB,
         skipn (rg_idx fs) (Parquet.row_groups (file fs)) = rg :: rgs ->
         Delta.open_cursors (file fs) rg sel = Ok cs ->
         stream (Delta.c_ts cs) = (tsl ++ more, tl) ->
         length tsl = Parquet.num_rows rg ->
         length asks = length tsl -> length bids = length tsl ->
         side_encodes (Delta.c_apx cs) (Delta.c_aqty cs) (asks ++ restA) ->
         side_encodes (Delta.c_bpx cs) (Delta.c_bqty cs) (bids ++ restB) ->
         Forall short_row asks -> Forall short_row bids ->
         filter (in_window s e) (map value tsl) <> [] ->
         returns (Delta.next_rg s e sel fs b) ->
         exists b',
           Delta.next_rg s e sel fs b
           = Ok (true, {| file := file fs; rg_idx := S (rg_idx fs) |}, b')
           /\ Delta.ts_ b' = filter (in_window s e) (map value tsl)
           /\ book_holds sel b'
                (kept s e (map value tsl) asks)
                (kept s e (map value tsl) bids)).
Proof.
  split; [|split].
  - intros disk st st' cerr cerr' v E sel b.
    destruct (delta_next_spec disk st cerr) as (r & s1 & c1 & E' & _ & D).
    rewrite E in E'. injection E' as <- <- <-.
    destruct D as (-> & _ & _ & _ & asks & bids & La & Lb & Ia & Ib).
    fold sel in Ia, Ib. fold b in La, Lb, Ia, Ib.
    cbn [Delta.fill_view Delta.view_ask_off Delta.view_bid_off Delta.n].
    fold b. split; intros Hsel.
    + fold sel. rewrite Hsel in *. cbn [ptr]. rewrite <- La.
      apply side_inv_offsets. exact Ia.
    + fold sel. rewrite Hsel in *. cbn [ptr]. rewrite <- Lb.
      apply side_inv_offsets. exact Ib.
  - eexists _, _, _, _.
    split; [vm_compute; reflexivity|].
    split; [vm_compute; reflexivity|].
    split; [reflexivity|].
    split; [reflexivity|].
    vm_compute. reflexivity.
  - intros fs rg rgs s e sel b cs tsl more tl asks bids restA restB
           Hsk Ho Hs Hn La Lb EncA EncB SA SB Hne [x Hx].
    unfold Delta.next_rg in *. rewrite Hsk in *.
    destruct (@delta_rg_written (file fs) rg rgs (rg_idx fs) s e sel b cs
                tsl more tl asks bids restA restB
                Ho Hs Hn La Lb EncA EncB SA SB Hne)
      as (b' & E & Hts & Hb).
    { destruct (Delta.next_rg_from (file fs) (rg :: rgs) (rg_idx fs)
                  s e sel b) as [y| |]; cbn [bind] in Hx;
        [exists y; reflexivity | discriminate | discriminate]. }
    exists b'. rewrite E. cbn [bind]. auto.
Qed.

(** ** Files that fail *)

Lemma delta_next_returns disk (st : DeltaBatchReader) cerr :
  returns (DeltaBatchReader_next disk st cerr).
Proof.
  destruct (delta_next_spec disk st cerr) as (r & st' & cerr' & E & _).
  rewrite E. eexists. reflexivity.
Qed.

(** ** What a call of [next] leaves behind *)

Section NextLabels.

Variables Select Bufs ColsView : Type.
Variable next_rg :
  Z -> Z -> Select -> FileStreamer -> Bufs ->
  Res (bool * FileStreamer * Bufs).
Variable ts_of : Bufs -> list Z.
Variable fill_view : Select -> Bufs -> string -> ColsView.

Let Reader := Impl Select Bufs.
Let turn_ := turn next_rg ts_of fill_view.
Let pull_ := pull next_rg ts_of fill_view.
Let next_loop_ := next_loop next_rg ts_of fill_view.
Let next_ := next next_rg ts_of fill_view.

(** While a file is open, [cur_file_base_] is the base name of the
    candidate at [file_idx_]. *)
Definition labelled (st : Reader) : Prop :=
  match fs_ st with
  | Some _ =>
      exists c, nth_error (files_ st) (file_idx_ st) = Some c
                /\ cur_file_base_ st = filename (path c)
  | None => True
  end.

(** What one call or one turn of [next] does to the reader and the log:
    the candidates stay, the index does not go back, and the log grows by
    at most one line for each candidate left behind. *)
Definition advances (st : Reader) (cerr : list string)
    (st' : Reader) (cerr' : list string) : Prop :=
  files_ st' = files_ st /\ sel_ st' = sel_ st
  /\ (file_idx_ st <= file_idx_ st')%nat
  /\ exists lines,
       cerr' = cerr ++ lines
       /\ (length lines <= file_idx_ st' - file_idx_ st)%nat.

(** The batch [v] came out of the candidate at the index [st'] stands
    at. *)
Definition from_current_file (st' : Reader) (v : ColsView) : Prop :=
  exists c, nth_error (files_ st') (file_idx_ st') = Some c
            /\ v = fill_view (sel_ st') (bufs_ st') (filename (path c)).

Lemma advances_same st st' cerr :
  files_ st' = files_ st -> sel_ st' = sel_ st ->
  file_idx_ st' = file_idx_ st ->
  advances st cerr st' cerr.
Proof.
  intros F S I. unfold advances. repeat split; try assumption; try lia.
  exists []. rewrite app_nil_r. split; [reflexivity | cbn; lia].
Qed.

Lemma advances_refl st cerr : advances st cerr st cerr.
Proof. apply advances_same; reflexivity. Qed.

Lemma advances_trans st cerr st1 cerr1 st2 cerr2 :
  advances st cerr st1 cerr1 -> advances st1 cerr1 st2 cerr2 ->
  advances st cerr st2 cerr2.
Proof.
  intros (F1 & S1 & I1 & l1 & -> & L1) (F2 & S2 & I2 & l2 & -> & L2).
  unfold advances. repeat split; try congruence; try lia.
  exists (l1 ++ l2). rewrite app_assoc. split; [reflexivity|].
  rewrite length_app. lia.
Qed.

Lemma pull_labelled st fs cerr r st' cerr' :
  fs_ st <> None -> labelled st ->
  pull_ st fs cerr = Ok (r, st', cerr') ->
  labelled st' /\ advances st cerr st' cerr'
  /\ forall v, r = Some (Some v) -> from_current_file st' v.
Proof.
  intros Hfs Hl. unfold pull_, pull.
  assert (Skip : forall b lines,
             (length lines <= 1)%nat ->
             labelled (skip_file st b)
             /\ advances st cerr (skip_file st b) (cerr ++ lines)
             /\ forall v, @None (option ColsView) = Some (Some v) ->
                          from_current_file (skip_file st b) v).
  { intros b lines Hlen. split; [exact I|]. split; [|discriminate].
    unfold advances. cbn [skip_file files_ sel_ file_idx_].
    repeat split; try lia.
    exists lines. split; [reflexivity | lia]. }
  destruct (next_rg (start_ns_ st) (end_ns_ st) (sel_ st) fs (bufs_ st))
    as [[[[|] fs'] b]| |] eqn:E; try discriminate.
  - assert (Keep : labelled (with_fs st (Some fs') b)).
    { unfold labelled in *. cbn [with_fs fs_ files_ file_idx_
                                   cur_file_base_].
      destruct (fs_ st); [exact Hl | contradiction]. }
    destruct (ts_of b) eqn:Ets; intros H; injection H as <- <- <-.
    + split; [exact Keep|].
      split; [apply advances_same; reflexivity | discriminate].
    + split; [exact Keep|]. split; [apply advances_same; reflexivity|].
      intros v Hv. injection Hv as <-.
      unfold labelled in Keep. cbn [with_fs fs_] in Keep.
      destruct Keep as (c & Hn & Hb). exists c.
      cbn [with_fs files_ file_idx_ sel_ bufs_ cur_file_base_] in *.
      rewrite Hb. auto.
  - intros H. injection H as <- <- <-.
    rewrite <- (app_nil_r cerr) at 2. apply Skip. cbn. lia.
  - intros H. injection H as <- <- <-. apply Skip. cbn. lia.
Qed.

Lemma turn_labelled disk st cerr r st' cerr' :
  labelled st ->
  turn_ disk st cerr = Ok (r, st', cerr') ->
  labelled st' /\ advances st cerr st' cerr'
  /\ forall v, r = Some (Some v) -> from_current_file st' v.
Proof.
  intros Hl. unfold turn_, turn.
  destruct (fs_ st) as [fs|] eqn:Hfs.
  { apply pull_labelled; [congruence | exact Hl]. }
  destruct (nth_error (files_ st) (file_idx_ st)) as [c|] eqn:Hn.
  - destruct (FileStreamer_new disk (path c)) as [fs| |] eqn:Eo;
      try discriminate.
    + intros H.
      assert (Ho : labelled (opened st fs (filename (path c)))).
      { unfold labelled. cbn. eauto. }
      destruct (@pull_labelled (opened st fs (filename (path c))) fs cerr
                  r st' cerr' ltac:(discriminate) Ho H) as (L & A & V).
      split; [exact L|]. split; [exact A | exact V].
    + intros H. injection H as <- <- <-.
      split; [exact I|]. split; [|discriminate].
      unfold advances. cbn [skip_file files_ sel_ file_idx_].
      repeat split; try lia.
      eexists. split; [reflexivity | cbn [length]; lia].
  - intros H. injection H as <- <- <-.
    split; [exact Hl|]. split; [apply advances_refl | discriminate].
Qed.

Lemma next_loop_labelled disk : forall bound st cerr r st' cerr',
  labelled st ->
  next_loop_ bound disk st cerr = Ok (r, st', cerr') ->
  labelled st' /\ advances st cerr st' cerr'
  /\ forall v, r = Some v -> from_current_file st' v.
Proof.
  induction bound as [|bound IH]; intros st cerr r st' cerr' Hl H;
    [discriminate|].
  unfold next_loop_ in H. cbn [next_loop] in H.
  apply bind_Ok in H. destruct H as ([[r1 st1] cerr1] & Et & H).
  destruct (@turn_labelled disk st cerr r1 st1 cerr1 Hl Et) as (L1 & A1 & V1).
  destruct r1 as [r1|].
  - injection H as <- <- <-. split; [exact L1|]. split; [exact A1|].
    intros v ->. apply V1. reflexivity.
  - destruct (IH _ _ _ _ _ L1 H) as (L & A & V).
    split; [exact L|]. split; [|exact V].
    eapply advances_trans; eassumption.
Qed.

Lemma next_labelled disk st cerr r st' cerr' :
  labelled st ->
  next_ disk st cerr = Ok (r, st', cerr') ->
  labelled st' /\ advances st cerr st' cerr'
  /\ forall v, r = Some v -> from_current_file st' v.
Proof. apply next_loop_labelled. Qed.

End NextLabels.

(** ** Calls of [next] in a row *)

Section NextMany.

Variables Select Bufs ColsView : Type.
Variable next_rg :
  Z -> Z -> Select -> FileStreamer -> Bufs ->
  Res (bool * FileStreamer * Bufs).
Variable ts_of : Bufs -> list Z.
Variable fill_view : Select -> Bufs -> string -> ColsView.

(** What a caller sees who calls [next] [k] times: the batches delivered,
    in order. *)
Fixpoint next_many (k : nat) (disk : Disk) (st : Impl Select Bufs)
    (cerr : list string)
  : Res (list ColsView * Impl Select Bufs * list string) :=
  match k with
  | O => Ok ([], st, cerr)
  | S k' =>
      '(r, st, cerr) <- next next_rg ts_of fill_view disk st cerr ;;
      '(vs, st, cerr) <- next_many k' disk st cerr ;;
      Ok (match r with Some v => v :: vs | None => vs end, st, cerr)
  end.

(** The batch [v] came out of a candidate at the index [i] or after it. *)
Definition from_index (files : list Candidate) (sel : Select) (i : nat)
    (v : ColsView) : Prop :=
  exists j c b,
    (i <= j)%nat /\ nth_error files j = Some c
    /\ v = fill_view sel b (filename (path c)).

Lemma next_many_labelled disk : forall k st cerr vs st' cerr',
  labelled st ->
  next_many k disk st cerr = Ok (vs, st', cerr') ->
  labelled st' /\ advances st cerr st' cerr'
  /\ Forall (from_index (files_ st) (sel_ st) (file_idx_ st)) vs.
Proof.
  induction k as [|k IH]; intros st cerr vs st' cerr' Hl H.
  - injection H as <- <- <-.
    split; [exact Hl|]. split; [apply advances_refl | constructor].
  - cbn [next_many] in H.
    apply bind_Ok in H. destruct H as ([[r st1] cerr1] & En & H).
    apply bind_Ok in H. destruct H as ([[vs1 st2] cerr2] & Em & H).
    injection H as <- <- <-.
    destruct (@next_labelled _ _ _ next_rg ts_of fill_view disk st cerr
                r st1 cerr1 Hl En) as (L1 & A1 & V1).
    destruct (IH _ _ _ _ _ L1 Em) as (L2 & A2 & V2).
    split; [exact L2|].
    split; [eapply advances_trans; eassumption|].
    assert (V2' : Forall (from_index (files_ st) (sel_ st) (file_idx_ st))
                    vs1).
    { destruct A1 as (F1 & S1 & I1 & _).
      rewrite F1, S1 in V2.
      eapply Forall_impl; [|exact V2].
      intros v (j & c & b & Hj & Hn & Hv). exists j, c, b.
      split; [lia | auto]. }
    destruct r as [v|]; [|exact V2'].
    constructor; [|exact V2'].
    destruct (V1 v eq_refl) as (c & Hn & Hv).
    destruct A1 as (F1 & S1 & I1 & _).
    exists (file_idx_ st1), c, (bufs_ st1).
    rewrite <- F1, <- S1. auto.
Qed.

End NextMany.

Definition DeltaBatchReader_next_many :=
  next_many Delta.next_rg Delta.ts_ Delta.fill_view.

Lemma delta_next_many_returns disk : forall k (st : DeltaBatchReader) cerr,
  returns (DeltaBatchReader_next_many k disk st cerr).
Proof.
  induction k as [|k IH]; intros st cerr.
  - eexists. reflexivity.
  - unfold DeltaBatchReader_next_many. cbn [next_many].
    destruct (delta_next_returns disk st cerr) as ([[r st1] cerr1] & E).
    unfold DeltaBatchReader_next in E. rewrite E. cbn [bind].
    destruct (IH st1 cerr1) as ([[vs st2] cerr2] & E2).
    unfold DeltaBatchReader_next_many in E2. rewrite E2. cbn [bind].
    eexists. reflexivity.
Qed.

(** The current candidate of [st] fails: its open throws, or [next_rg]
    throws on the streamer at hand or on the one just opened.  [line] is
    what [next] then writes to [cerr]. *)
Definition fails_with (disk : Disk) (st : DeltaBatchReader)
    (line : string) : Prop :=
  match fs_ st with
  | Some fs =>
      exists w,
        Delta.next_rg (start_ns_ st) (end_ns_ st) (sel_ st) fs (bufs_ st)
        = Throw w
        /\ line = warn "read failed" (cur_path st) w
  | None =>
      exists c,
        nth_error (files_ st) (file_idx_ st) = Some c
        /\ ((exists w,
               OpenFile disk (path c) = Throw w
               /\ line = warn "open failed" (path c) w)
            \/ (exists f w,
                  OpenFile disk (path c) = Ok f
                  /\ Delta.next_rg (start_ns_ st) (end_ns_ st) (sel_ st)
                       {| file := f; rg_idx := 0 |} (bufs_ st) = Throw w
                  /\ line = warn "read failed" (path c) w))
  end.

(** The call on a reader whose current candidate fails is the call on a
    reader that stands at the next candidate with no file open, after the
    line is logged. *)
Lemma delta_next_skips disk (st : DeltaBatchReader) cerr line :
  fails_with disk st line ->
  exists st1 : DeltaBatchReader,
    DeltaBatchReader_next disk st cerr
    = DeltaBatchReader_next disk st1 (cerr ++ [line])
    /\ fs_ st1 = None /\ files_ st1 = files_ st /\ sel_ st1 = sel_ st
    /\ file_idx_ st1 = S (file_idx_ st).
Proof.
  unfold fails_with. intros H.
  destruct (fs_ st) as [fs|] eqn:Hf.
  - destruct H as (w & Hr & ->).
    exists (skip_file st (bufs_ st)).
    split; [|cbn; auto].
    exact (@next_read_failed _ _ _ Delta.next_rg Delta.ts_ Delta.fill_view
             depth_batch delta_next_rg_halts delta_next_rg_true
             disk st cerr fs w Hf Hr).
  - destruct H as (c & Hn & [(w & Ho & ->) | (f & w & Ho & Hr & ->)]).
    + exists (skip_file st (bufs_ st)).
      split; [|cbn; auto].
      exact (@next_open_failed _ _ _ Delta.next_rg Delta.ts_ Delta.fill_view
               depth_batch delta_next_rg_halts delta_next_rg_true
               disk st cerr c w Hf Hn Ho).
    + exists (skip_file (opened st {| file := f; rg_idx := 0 |}
                         (filename (path c))) (bufs_ st)).
      split; [|cbn; auto].
      exact (@next_first_read_failed _ _ _ Delta.next_rg Delta.ts_
               Delta.fill_view depth_batch delta_next_rg_halts
               delta_next_rg_true disk st cerr c f w Hf Hn Ho Hr).
Qed.

Lemma delta_after_failure disk (st : DeltaBatchReader) cerr line k
    vs st' cerr' :
  fails_with disk st line ->
  DeltaBatchReader_next_many (S k) disk st cerr = Ok (vs, st', cerr') ->
  (file_idx_ st < file_idx_ st')%nat
  /\ files_ st' = files_ st
  /\ (exists more, cerr' = cerr ++ line :: more)
  /\ Forall (fun v =>
               exists j c,
                 (file_idx_ st < j)%nat
                 /\ nth_error (files_ st) j = Some c
                 /\ Delta.view_file v = filename (path c)) vs.
Proof.
  intros Hfail H.
  destruct (@delta_next_skips disk st cerr line Hfail)
    as (st1 & E & Hf & Hfiles & Hsel & Hi).
  unfold DeltaBatchReader_next_many in H. cbn [next_many] in H.
  unfold DeltaBatchReader_next in E. rewrite E in H.
  change (next_many Delta.next_rg Delta.ts_ Delta.fill_view (S k) disk st1
            (cerr ++ [line]) = Ok (vs, st', cerr')) in H.
  assert (L1 : labelled st1) by (unfold labelled; rewrite Hf; exact I).
  destruct (@next_many_labelled _ _ _ Delta.next_rg Delta.ts_
              Delta.fill_view disk (S k) st1 (cerr ++ [line]) vs st' cerr'
              L1 H) as (_ & A & V).
  destruct A as (F & _ & Ile & lines & -> & _).
  split; [lia|]. split; [congruence|].
  split; [exists lines; rewrite <- app_assoc; reflexivity|].
  eapply Forall_impl; [|exact V].
  intros v (j & c & b & Hj & Hn & ->). exists j, c.
  split; [lia|]. split; [congruence | reflexivity].
Qed.

(** A day file of two row groups: the first is sound, the second has lost
    its last ask price. *)
Definition depth_rg_torn : Parquet.RowGroup :=
  {| Parquet.num_rows := 3;
     Parquet.chunks :=
       [Fixture.flat [Fixture.t0 + 8; Fixture.t0 + 9; Fixture.t0 + 10];
        Fixture.flat [4; 5; 6]; Fixture.flat [4; 5; 6];
        Fixture.flat [25; 26; 27];
        Fixture.nested Fixture.ask_slots [100; 101];
        Fixture.nested Fixture.ask_slots [10; 11; 12];
        Fixture.nested Fixture.bid_slots [90; 91];
        Fixture.nested Fixture.bid_slots [9; 8]] |}.

Definition depth_file_torn : Parquet.File :=
  {| Parquet.schema := Fixture.depth_schema;
     Parquet.row_groups := [Fixture.depth_rg; depth_rg_torn] |}.

Definition disk_torn : Disk :=
  fun p =>
    if String.eqb p Fixture.depth_path then Some (Some depth_file_torn)
    else None.

(** C3, as the claim states it: the caller sees the rows of valid files
    only.  [next] hands out one row group for each call, so the row groups
    of a file that precede the one that fails are with the caller by then.
    The one day file of [disk_torn] has two row groups: the first call
    delivers the three rows of the first, the second call finds the second
    short of a value, logs it and returns [false].  No valid file is left,
    and the caller holds three rows. *)
Lemma rows_of_a_failed_file_are_delivered :
  exists rd v rd1 rd2,
    get_depth_cols disk_torn Fixture.db Fixture.t0 Fixture.t1 "BTCUSDT"
      (Some "spot") Delta.Select_default = Ok rd
    /\ files_ rd = [Fixture.candidate Fixture.depth_path Fixture.t0]
    /\ DeltaBatchReader_next disk_torn rd [] = Ok (Some v, rd1, [])
    /\ Delta.view_file v = filename Fixture.depth_path
    /\ Delta.n v = 3%nat
    /\ Delta.view_ts v
       = Some [Fixture.t0 + 5; Fixture.t0 + 6; Fixture.t0 + 7]
    /\ fails_with disk_torn rd1
         (warn "read failed" Fixture.depth_path "value_idx overflow")
    /\ DeltaBatchReader_next disk_torn rd1 []
       = Ok (None, rd2,
             [warn "read failed" Fixture.depth_path "value_idx overflow"])
    /\ file_idx_ rd2 = 1%nat.
Proof.
  eexists _, _, _, _.
  split; [vm_compute; reflexivity|].
  split; [vm_compute; reflexivity|].
  split; [vm_compute; reflexivity|].
  split; [vm_compute; reflexivity|].
  split; [vm_compute; reflexivity|].
  split; [vm_compute; reflexivity|].
  split.
  { unfold fails_with. cbn [fs_]. eexists. split; vm_compute; reflexivity. }
  split; [vm_compute; reflexivity|].
  reflexivity.
Qed.

(** C3, amended.  The depth batch reader and files that fail.  [next]
    always returns: no exception of the open or of the decode reaches the
    caller.  When the open of the current candidate throws, or [next_rg]
    throws on the streamer at hand or on the one just opened (as it does on
    a value stream shorter than the levels imply, which the cursor reports
    as [value_idx overflow]), the call is the call made on the reader with
    the streamer dropped and the next candidate current, with one [WARN]
    line added to [cerr].  On two days of data of which the first file is
    short of a value, the first [next] delivers the three rows of the
    second file and has logged the skip.  From the failure on, however many
    calls follow, the reader stands past the failed candidate, the line of
    the failure is the first one added to [cerr], and every batch
    delivered carries the name of a candidate after the failed one:
    nothing comes from the failed file again.  What was delivered of it
    before the failure stays delivered. *)
Theorem failed_file_is_skipped :
  (forall disk (st : DeltaBatchReader) cerr,
      returns (DeltaBatchReader_next disk st cerr))
  /\ (forall disk (st : DeltaBatchReader) cerr c w,
         fs_ st = None ->
         nth_error (files_ st) (file_idx_ st) = Some c ->
         OpenFile disk (path c) = Throw w ->
         DeltaBatchReader_next disk st cerr
         = DeltaBatchReader_next disk (skip_file st (bufs_ st))
             (cerr ++ [warn "open failed" (path c) w]))
  /\ (forall disk (st : DeltaBatchReader) cerr fs w,
         fs_ st = Some fs ->
         Delta.next_rg (start_ns_ st) (end_ns_ st) (sel_ st) fs (bufs_ st)
         = Throw w ->
         DeltaBatchReader_next disk st cerr
         = DeltaBatchReader_next disk (skip_file st (bufs_ st))
             (cerr ++ [warn "read failed" (cur_path st) w]))
  /\ (forall disk (st : DeltaBatchReader) cerr c f w,
         fs_ st = None ->
         nth_error (files_ st) (file_idx_ st) = Some c ->
         OpenFile disk (path c) = Ok f ->
         Delta.next_rg (start_ns_ st) (end_ns_ st) (sel_ st)
           {| file := f; rg_idx := 0 |} (bufs_ st) = Throw w ->
         DeltaBatchReader_next disk st cerr
         = DeltaBatchReader_next disk
             (skip_file (opened st {| file := f; rg_idx := 0 |}
                           (filename (path c))) (bufs_ st))
             (cerr ++ [warn "read failed" (path c) w]))
  /\ (forall leaf out w,
         cursor_wf leaf -> stream leaf = ([], Fault w) ->
         take leaf = Throw w
         /\ append_list_from_leaf_for_row leaf out = Throw w)
  /\ (exists rd v rd',
         get_depth_cols Fixture.disk_short_then_good Fixture.db
           Fixture.t0 (Fixture.t1 + day_ns) "BTCUSDT" (Some "spot")
           Delta.Select_default = Ok rd
         /\ length (files_ rd) = 2%nat
         /\ DeltaBatchReader_next Fixture.disk_short_then_good rd []
            = Ok (Some v, rd',
                  [warn "read failed" Fixture.depth_path
                     "value_idx overflow"])
         /\ Delta.view_file v = "bn_depth_spot_BTCUSDT_2025_9_4.parquet"
         /\ Delta.n v = 3%nat)
  /\ (forall k disk (st : DeltaBatchReader) cerr,
         returns (DeltaBatchReader_next_many k disk st cerr))
  /\ (forall disk (st st' : DeltaBatchReader) cerr cerr' line k vs,
         fails_with disk st line ->
         DeltaBatchReader_next_many (S k) disk st cerr
         = Ok (vs, st', cerr') ->
         (file_idx_ st < file_idx_ st')%nat
         /\ files_ st' = files_ st
         /\ (exists more, cerr' = cerr ++ line :: more)
         /\ Forall (fun v =>
                      exists j c,
                        (file_idx_ st < j)%nat
                        /\ nth_error (files_ st) j = Some c
                        /\ Delta.view_file v = filename (path c)) vs)
  /\ (forall p w,
         warn "open failed" p w
         = ("WARN: open failed: " ++ p ++ " : " ++ w ++ String "010" "")%string
         /\ warn "read failed" p w
            = ("WARN: read failed: " ++ p ++ " : " ++ w
               ++ String "010" "")%string).
Proof.
  split; [exact delta_next_returns|].
  split.
  { intros disk st cerr c w Hf Hn Ho.
    exact (@next_open_failed _ _ _ Delta.next_rg Delta.ts_ Delta.fill_view
             depth_batch delta_next_rg_halts delta_next_rg_true
             disk st cerr c w Hf Hn Ho). }
  split.
  { intros disk st cerr fs w Hf Hr.
    exact (@next_read_failed _ _ _ Delta.next_rg Delta.ts_ Delta.fill_view
             depth_batch delta_next_rg_halts delta_next_rg_true
             disk st cerr fs w Hf Hr). }
  split.
  { intros disk st cerr c f w Hf Hn Ho Hr.
    exact (@next_first_read_failed _ _ _ Delta.next_rg Delta.ts_
             Delta.fill_view depth_batch delta_next_rg_halts
             delta_next_rg_true disk st cerr c f w Hf Hn Ho Hr). }
  split.
  { intros leaf out w W Hs. split; [apply take_fault; assumption|].
    unfold append_list_from_leaf_for_row.
    rewrite (peek_fault W Hs). reflexivity. }
  split.
  { eexists _, _, _.
    split; [vm_compute; reflexivity|].
    split; [reflexivity|].
    split; [vm_compute; reflexivity|].
    split; reflexivity. }
  split; [intros k disk st cerr; apply delta_next_many_returns|].
  split.
  { intros disk st st' cerr cerr' line k vs Hf H.
    exact (@delta_after_failure disk st cerr line k vs st' cerr' Hf H). }
  intros p w. split; reflexivity.
Qed.

(** ** Files that lack a column *)




(** ** File discovery *)

Ltac edlia := Z.to_euclidean_division_equations; lia.

(** The calendar of [Libc]: [timegm] undoes [gmtime_r] on every day, and a
    civil date has a month from 1 to 12 and a day from 1 to 31. *)
Lemma civil_roundtrip z :
  let '(y, m, d) := Libc.civil_from_days z in
  Libc.days_from_civil y m d = z /\ 1 <= m <= 12 /\ 1 <= d <= 31.
Proof.
  unfold Libc.civil_from_days. cbv zeta.
  set (z' := z + 719468).
  set (era := z' / 146097).
  set (doe := z' - era * 146097).
  set (yoe := (doe - doe / 1460 + doe / 36524 - doe / 146096) / 365).
  set (doy := doe - (365 * yoe + yoe / 4 - yoe / 100)).
  set (mp := (5 * doy + 2) / 153).
  set (d := doy - (153 * mp + 2) / 5 + 1).
  assert (Hdoe : 0 <= doe < 146097) by (subst doe era; edlia).
  assert (Hyoe : 0 <= yoe <= 399) by (subst yoe; edlia).
  assert (Hdoy : 0 <= doy <= 365) by (subst doy yoe; edlia).
  assert (Hmp : 0 <= mp <= 11) by (subst mp; edlia).
  assert (Hd : 1 <= d <= 31) by (subst d mp; edlia).
  assert (Hdoy' : (153 * mp + 2) / 5 + d - 1 = doy) by (subst d; lia).
  assert (Hera : (yoe + era * 400) / 400 = era) by edlia.
  unfold Libc.days_from_civil.
  destruct (mp <? 10) eqn:E; [apply Z.ltb_lt in E | apply Z.ltb_ge in E].
  - replace (mp + 3 <=? 2) with false by (symmetry; apply Z.leb_gt; lia).
    replace (2 <? mp + 3) with true by (symmetry; apply Z.ltb_lt; lia).
    cbv zeta. rewrite Hera.
    replace (mp + 3 - 3) with mp by lia. rewrite Hdoy'.
    replace (yoe + era * 400 - era * 400) with yoe by lia.
    split; [|split; [lia | exact Hd]].
    subst doy doe z'. lia.
  - replace (mp - 9 <=? 2) with true by (symmetry; apply Z.leb_le; lia).
    replace (2 <? mp - 9) with false by (symmetry; apply Z.ltb_ge; lia).
    cbv zeta.
    replace (yoe + era * 400 + 1 - 1) with (yoe + era * 400) by lia.
    rewrite Hera.
    replace (mp - 9 + 9) with mp by lia. rewrite Hdoy'.
    replace (yoe + era * 400 - era * 400) with yoe by lia.
    split; [|split; [lia | exact Hd]].
    subst doy doe z'. lia.
Qed.

Lemma wrap64_small z : - 2 ^ 63 <= z < 2 ^ 63 -> wrap64 z = z.
Proof. intros H. unfold wrap64. rewrite Z.mod_small; lia. Qed.

Lemma floor_day_ns_nonneg ns :
  0 <= ns < 2 ^ 63 -> floor_day_ns ns = ns / day_ns * day_ns.
Proof.
  intros H. unfold floor_day_ns, day_ns.
  rewrite Z.quot_div_nonneg by lia.
  assert (Hs : 0 <= ns / 1000000000) by (apply Z.div_pos; lia).
  rewrite Z.rem_mod_nonneg by lia.
  assert (E : ns / 1000000000 - (ns / 1000000000) mod 86400
              = ns / 86400000000000 * 86400) by edlia.
  rewrite E.
  assert (B : 0 <= ns / 86400000000000 * 86400 * 1000000000 <= ns) by edlia.
  rewrite wrap64_small by lia. lia.
Qed.

(** On the whole 64-bit range the division truncates toward zero. *)
Lemma floor_day_ns_quot ns :
  - 2 ^ 63 <= ns < 2 ^ 63 ->
  floor_day_ns ns = Z.quot ns day_ns * day_ns.
Proof.
  intros H. unfold floor_day_ns, day_ns.
  set (sec := Z.quot ns 1000000000).
  assert (E : sec - Z.rem sec 86400 = Z.quot ns 86400000000000 * 86400).
  { subst sec. Z.to_euclidean_division_equations. lia. }
  rewrite E.
  assert (B : - 2 ^ 63 <= Z.quot ns 86400000000000 * 86400 * 1000000000
              < 2 ^ 63).
  { Z.to_euclidean_division_equations. lia. }
  rewrite wrap64_small by exact B. lia.
Qed.

(** The civil date of the day number [d]. *)
Definition ymd_of_day (d : Z) : YMD :=
  let '(y, m, dd) := Libc.civil_from_days d in
  {| year := y; month := m; day := dd |}.

Lemma ymd_of_day_start d :
  0 <= d -> ymd_utc_from_ns (d * day_ns) = ymd_of_day d.
Proof.
  intros H. unfold ymd_utc_from_ns, ymd_of_day, Libc.gmtime_r, day_ns.
  rewrite Z.quot_div_nonneg by lia.
  replace (d * 86400000000000) with (d * 86400 * 1000000000) by lia.
  rewrite Z.div_mul by lia. rewrite Z.div_mul by lia. reflexivity.
Qed.

Lemma day_start_of_ymd d :
  0 <= d < 106752 ->
  ymd_utc_start_ns (year (ymd_of_day d)) (month (ymd_of_day d))
    (day (ymd_of_day d))
  = d * day_ns.
Proof.
  intros H. unfold ymd_of_day.
  pose proof (civil_roundtrip d) as Hok.
  destruct (Libc.civil_from_days d) as [[y m] dd]. cbn [year month day].
  destruct Hok as [Hok _].
  unfold ymd_utc_start_ns, Libc.timegm. rewrite Hok.
  destruct (d * 86400 =? -1) eqn:E; [apply Z.eqb_eq in E; lia|].
  unfold day_ns. rewrite wrap64_small by lia. lia.
Qed.

(** The day numbers from [d] on, [k] of them. *)
Fixpoint days_from (d : Z) (k : nat) : list Z :=
  match k with
  | O => []
  | S k' => d :: days_from (d + 1) k'
  end.

(** The UTC days of a window, in order, as day numbers since 1970-01-01:
    from the day of [start_ns] to the day of [end_ns - 1]. *)
Definition window_days (start_ns end_ns : Z) : list Z :=
  days_from (start_ns / day_ns)
    (Z.to_nat ((end_ns - 1) / day_ns - start_ns / day_ns + 1)).

Section DiscoveryFacts.

Variable disk : Disk.
Variables root symb base_type : string.

Definition day_path (mkt : string) (d : Z) : string :=
  strict_path root symb base_type mkt (ymd_of_day d).

Definition day_candidate (mkt : string) (d : Z) : Candidate :=
  {| path := day_path mkt d;
     file_start_ns := d * day_ns;
     file_end_ns := (d + 1) * day_ns |}.

Definition on_disk (mkt : string) (d : Z) : bool :=
  fs_exists disk (day_path mkt d).

Lemma day_loop_spec mkt : forall k d bound out,
  0 <= d -> d + Z.of_nat k <= 106751 -> (k <= bound)%nat ->
  day_loop disk root symb base_type bound mkt
    (d * day_ns) ((d + Z.of_nat k - 1) * day_ns) out
  = Ok (out ++ map (day_candidate mkt)
                 (filter (on_disk mkt) (days_from d k))).
Proof.
  induction k as [|k IH]; intros d bound out Hd Hk Hb.
  - assert (E : (d * day_ns <=? (d + Z.of_nat 0 - 1) * day_ns) = false)
      by (apply Z.leb_gt; unfold day_ns; lia).
    destruct bound; cbn [day_loop]; rewrite E; cbn;
      rewrite app_nil_r; reflexivity.
  - destruct bound as [|bound]; [lia|]. cbn [day_loop].
    assert (E : (d * day_ns <=? (d + Z.of_nat (S k) - 1) * day_ns) = true)
      by (apply Z.leb_le; unfold day_ns; lia).
    rewrite E.
    rewrite ymd_of_day_start by lia.
    rewrite day_start_of_ymd by lia.
    assert (W : wrap64 (d * day_ns + day_ns) = (d + 1) * day_ns).
    { unfold day_ns. rewrite wrap64_small; lia. }
    rewrite W.
    replace (d + Z.of_nat (S k) - 1) with (d + 1 + Z.of_nat k - 1) by lia.
    rewrite IH by lia.
    cbn [days_from filter]. fold (day_path mkt d). unfold on_disk at 2.
    destruct (fs_exists disk (day_path mkt d)).
    + rewrite <- app_assoc. reflexivity.
    + reflexivity.
Qed.

Lemma one_market_spec mkt start_ns end_ns out :
  0 <= start_ns -> start_ns < end_ns -> end_ns <= 2 ^ 63 - day_ns ->
  market_loop disk root symb base_type [mkt] start_ns
    (floor_day_ns (wrap64 (end_ns - 1))) out
  = Ok (out ++ map (day_candidate mkt)
                 (filter (on_disk mkt) (window_days start_ns end_ns))).
Proof.
  intros Hs Hlt He. unfold day_ns in He. cbn [market_loop].
  rewrite wrap64_small by lia.
  rewrite !floor_day_ns_nonneg by lia.
  set (first := start_ns / day_ns).
  set (last := (end_ns - 1) / day_ns).
  assert (Hf : 0 <= first) by (subst first; unfold day_ns; edlia).
  assert (Hfl : first <= last)
    by (subst first last; unfold day_ns; edlia).
  assert (Hl : last <= 106750)
    by (subst last; unfold day_ns; edlia).
  assert (Hb : (last * day_ns - first * day_ns) / day_ns = last - first).
  { rewrite <- Z.mul_sub_distr_r. apply Z.div_mul. unfold day_ns. lia. }
  rewrite Hb. unfold window_days. fold first last.
  set (k := Z.to_nat (last - first + 1)).
  replace last with (first + Z.of_nat k - 1) at 1 by (subst k; lia).
  rewrite day_loop_spec by (subst k; lia).
  reflexivity.
Qed.




End DiscoveryFacts.

Lemma market_loop_spec disk root symb base_type start_ns end_ns :
  0 <= start_ns -> start_ns < end_ns -> end_ns <= 2 ^ 63 - day_ns ->
  forall markets out,
    market_loop disk root symb base_type markets start_ns
      (floor_day_ns (wrap64 (end_ns - 1))) out
    = Ok (out ++ flat_map
                   (fun mkt =>
                      map (day_candidate root symb base_type mkt)
                        (filter (on_disk disk root symb base_type mkt)
                           (window_days start_ns end_ns)))
                   markets).
Proof.
  intros Hs Hlt He. induction markets as [|mkt markets IH]; intros out.
  - cbn. rewrite app_nil_r. reflexivity.
  - pose proof (one_market_spec disk root symb base_type mkt out Hs Hlt He)
      as H1.
    cbn [market_loop] in H1 |- *.
    destruct (day_loop disk root symb base_type _ mkt _ _ out)
      as [out1| |]; cbn [bind] in H1 |- *; try discriminate.
    injection H1 as ->. rewrite IH. cbn [flat_map].
    rewrite <- app_assoc. reflexivity.
Qed.





Section DiscoveryRange.

Variable disk : Disk.
Variables root symb base_type : string.




(** The candidates found so far are kept: the day loop only appends. *)
Lemma day_loop_appends mkt ef : forall bound cur out,
  day_loop disk root symb base_type bound mkt cur ef out
  = (found <- day_loop disk root symb base_type bound mkt cur ef [] ;;
     Ok (out ++ found)).
Proof.
  induction bound as [|bound IH]; intros cur out; cbn [day_loop].
  - destruct (cur <=? ef); cbn [bind]; [reflexivity|].
    rewrite app_nil_r. reflexivity.
  - destruct (cur <=? ef); cbn [bind];
      [|rewrite app_nil_r; reflexivity].
    destruct (fs_exists disk _).
    + rewrite IH. rewrite (IH _ ([] ++ _)).
      destruct (day_loop disk root symb base_type bound mkt _ ef [])
        as [found| |]; cbn [bind]; try reflexivity.
      rewrite <- app_assoc. reflexivity.
    + apply IH.
Qed.

Lemma both_markets start_ns end_ns :
  start_ns < end_ns ->
  candidate_files_strict disk root symb base_type None start_ns end_ns
  = (fut <- candidate_files_strict disk root symb base_type (Some "fut")
              start_ns end_ns ;;
     spot <- candidate_files_strict disk root symb base_type (Some "spot")
               start_ns end_ns ;;
     Ok (fut ++ spot)).
Proof.
  intros Hlt. unfold candidate_files_strict.
  rewrite (proj2 (Z.leb_gt _ _) Hlt).
  change (norm_market (Some "fut")) with (Some "fut").
  change (norm_market (Some "spot")) with (Some "spot").
  cbn [bind market_loop].
  set (b := Z.to_nat _). set (cur := floor_day_ns start_ns).
  set (ef := floor_day_ns _).
  destruct (day_loop disk root symb base_type b "fut" cur ef [])
    as [fut| |]; cbn [bind]; try reflexivity.
  rewrite day_loop_appends.
  destruct (day_loop disk root symb base_type b "spot" cur ef [])
    as [spot| |]; cbn [bind]; reflexivity.
Qed.

End DiscoveryRange.









(** ** The market token *)

Definition market_error : string := "market must be 'fut' or 'spot'".

(** C10, as the claim states it: every call with a token that is no spelling
    of a market raises.  A call with an empty window does not: the window
    is tested first, and the reader comes back with no candidate. *)
Lemma invalid_market_on_empty_window_is_accepted :
  norm_market (Some "bogus") = None
  /\ get_top_cols Fixture.disk Fixture.db 5 5 "BTCUSDT" (Some "bogus")
       Top.Select_default
     = Ok (Impl_new [] 5 5 Top.Select_default Top.Bufs_empty)
  /\ ~ (exists w,
          get_top_cols Fixture.disk Fixture.db 5 5 "BTCUSDT" (Some "bogus")
            Top.Select_default = Throw w).
Proof.
  split; [reflexivity|]. split; [reflexivity|].
  intros (w & H). discriminate.
Qed.

Lemma norm_market_cases m :
  let s := to_lower m in
  norm_market (Some m)
  = if String.eqb s "spot" then Some "spot"
    else if String.eqb s "fut" || String.eqb s "futures"
            || String.eqb s "future"
         then Some "fut" else None.
Proof.
  cbv zeta. unfold norm_market.
  destruct (String.eqb_spec (to_lower m) "futures") as [->|H1];
    [reflexivity|].
  destruct (String.eqb_spec (to_lower m) "future") as [->|H2];
    [reflexivity|].
  destruct (String.eqb_spec (to_lower m) "spot") as [->|H3];
    [reflexivity|].
  destruct (String.eqb_spec (to_lower m) "fut") as [->|H4]; reflexivity.
Qed.

(** C10, amended to windows with [start_ns < end_ns].  The token is read
    through [to_lower]: two tokens with the same lower-case form are the
    same token.  It is accepted exactly when that form is [spot], [fut],
    [futures] or [future], the last three standing for [fut], and the
    reader made with an accepted token is the one made with the market it
    stands for.  Any other token makes [get_top_cols], [get_trade_cols]
    and [get_depth_cols] throw, whatever is on disk.  Without a token the
    candidates are those of [fut] followed by those of [spot], in every
    window with [start_ns < end_ns].  In every window with
    [end_ns <= start_ns] the three calls return a reader without
    candidates, whatever the token. *)
Theorem market_token_is_validated :
  (forall m m', to_lower m = to_lower m' ->
                norm_market (Some m) = norm_market (Some m'))
  /\ (forall m,
         (norm_market (Some m) = Some "spot" <-> to_lower m = "spot")
         /\ (norm_market (Some m) = Some "fut"
             <-> to_lower m = "fut" \/ to_lower m = "futures"
                 \/ to_lower m = "future")
         /\ (norm_market (Some m) = None
             <-> to_lower m <> "spot" /\ to_lower m <> "fut"
                 /\ to_lower m <> "futures" /\ to_lower m <> "future"))
  /\ to_lower "FuTuReS" = "futures"
  /\ (forall disk db s e symb m tsel rsel dsel,
         s < e -> norm_market (Some m) = None ->
         get_top_cols disk db s e symb (Some m) tsel = Throw market_error
         /\ get_trade_cols disk db s e symb (Some m) rsel
            = Throw market_error
         /\ get_depth_cols disk db s e symb (Some m) dsel
            = Throw market_error)
  /\ (forall disk root symb kind s e,
         0 <= s -> s < e -> e <= 2 ^ 63 - day_ns ->
         candidate_files_strict disk root symb kind None s e
         = Ok (map (day_candidate root symb kind "fut")
                 (filter (on_disk disk root symb kind "fut")
                    (window_days s e))
               ++ map (day_candidate root symb kind "spot")
                    (filter (on_disk disk root symb kind "spot")
                       (window_days s e))))
  /\ (forall disk db s e symb tsel rsel dsel,
         s < e ->
         get_top_cols disk db s e symb None tsel
         = (fut <- candidate_files_strict disk (root_ db) symb "top"
                     (Some "fut") s e ;;
            spot <- candidate_files_strict disk (root_ db) symb "top"
                      (Some "spot") s e ;;
            Ok (Impl_new (fut ++ spot) s e tsel Top.Bufs_empty))
         /\ get_trade_cols disk db s e symb None rsel
            = (fut <- candidate_files_strict disk (root_ db) symb "trade"
                        (Some "fut") s e ;;
               spot <- candidate_files_strict disk (root_ db) symb "trade"
                         (Some "spot") s e ;;
               Ok (Impl_new (fut ++ spot) s e rsel Trade.Bufs_empty))
         /\ get_depth_cols disk db s e symb None dsel
            = (fut <- candidate_files_strict disk (root_ db) symb "depth"
                        (Some "fut") s e ;;
               spot <- candidate_files_strict disk (root_ db) symb "depth"
                         (Some "spot") s e ;;
               Ok (Impl_new (fut ++ spot) s e dsel Delta.Bufs_empty)))
  /\ (forall disk db s e symb market tsel rsel dsel,
         e <= s ->
         get_top_cols disk db s e symb market tsel
         = Ok (Impl_new [] s e tsel Top.Bufs_empty)
         /\ get_trade_cols disk db s e symb market rsel
            = Ok (Impl_new [] s e rsel Trade.Bufs_empty)
         /\ get_depth_cols disk db s e symb market dsel
            = Ok (Impl_new [] s e dsel Delta.Bufs_empty))
  /\ (forall disk db s e symb m mk tsel rsel dsel,
         norm_market (Some m) = Some mk ->
         get_top_cols disk db s e symb (Some m) tsel
         = get_top_cols disk db s e symb (Some mk) tsel
         /\ get_trade_cols disk db s e symb (Some m) rsel
            = get_trade_cols disk db s e symb (Some mk) rsel
         /\ get_depth_cols disk db s e symb (Some m) dsel
            = get_depth_cols disk db s e symb (Some mk) dsel).
Proof.
  split; [|split; [|split; [|split; [|split; [|split; [|split]]]]]].
  - intros m m' H. unfold norm_market. rewrite H. reflexivity.
  - intros m. rewrite norm_market_cases. cbv zeta.
    destruct (String.eqb_spec (to_lower m) "spot") as [E1|E1];
      [rewrite E1; cbn; repeat split; intros; try discriminate;
       try reflexivity; intuition discriminate|].
    destruct (String.eqb_spec (to_lower m) "fut") as [E2|E2];
      [rewrite E2; cbn; repeat split; intros; try discriminate;
       try reflexivity; intuition discriminate|].
    destruct (String.eqb_spec (to_lower m) "futures") as [E3|E3];
      [rewrite E3; cbn; repeat split; intros; try discriminate;
       try reflexivity; intuition discriminate|].
    destruct (String.eqb_spec (to_lower m) "future") as [E4|E4];
      [rewrite E4; cbn; repeat split; intros; try discriminate;
       try reflexivity; intuition discriminate|].
    cbn. repeat split; intros; try discriminate; try assumption;
      intuition congruence.
  - reflexivity.
  - intros disk db s e symb m tsel rsel dsel Hlt Hm.
    unfold get_top_cols, get_trade_cols, get_depth_cols,
      candidate_files_strict.
    rewrite (proj2 (Z.leb_gt _ _) Hlt), Hm. cbn. auto.
  - intros disk root symb kind s e Hs Hlt He.
    unfold candidate_files_strict.
    rewrite (proj2 (Z.leb_gt _ _) Hlt). cbn [bind].
    rewrite (@market_loop_spec disk root symb kind s e Hs Hlt He
               ["fut"; "spot"] []).
    cbn [flat_map app]. rewrite app_nil_r. reflexivity.
  - intros disk db s e symb tsel rsel dsel Hlt.
    unfold get_top_cols, get_trade_cols, get_depth_cols.
    rewrite !(@both_markets disk (root_ db) symb _ s e Hlt).
    repeat split;
      match goal with
      | |- context [candidate_files_strict ?d ?r ?y ?k (Some "fut") s e] =>
          destruct (candidate_files_strict d r y k (Some "fut") s e)
            as [fut| |]; cbn [bind]; try reflexivity;
          destruct (candidate_files_strict d r y k (Some "spot") s e)
            as [spot| |]; cbn [bind]; reflexivity
      end.
  - intros disk db s e symb market tsel rsel dsel Hle.
    unfold get_top_cols, get_trade_cols, get_depth_cols,
      candidate_files_strict.
    rewrite (proj2 (Z.leb_le _ _) Hle). cbn [bind]. auto.
  - intros disk db s e symb m mk tsel rsel dsel Hm.
    assert (Hk : norm_market (Some mk) = Some mk).
    { rewrite norm_market_cases in Hm. cbv zeta in Hm.
      destruct (String.eqb (to_lower m) "spot");
        [injection Hm as <-; reflexivity|].
      destruct (String.eqb (to_lower m) "fut" || String.eqb (to_lower m)
                  "futures" || String.eqb (to_lower m) "future");
        [injection Hm as <-; reflexivity | discriminate]. }
    unfold get_top_cols, get_trade_cols, get_depth_cols,
      candidate_files_strict.
    rewrite Hm, Hk. auto.
Qed.

(** ** The theorems on the small dataset *)

Module FixtureRuns.

Import Fixture.

Definition el (rp v : Z) : Entry := entry_of 2 rp (Some v).
Definition hole : Entry := entry_of 1 0 None.

Definition view_of {V S : Type} (m : Res (option V * S * list string))
    (d : V) : V :=
  match m with
  | Ok (Some v, _, _) => v
  | _ => d
  end.

Definition state_of {V S : Type} (m : Res (option V * S * list string))
    (d : S) : S :=
  match m with
  | Ok (_, s, _) => s
  | _ => d
  end.

Definition top_view : Top.ColsView :=
  view_of (TopBatchReader_next disk top_reader [])
    (Top.fill_view Top.Select_default Top.Bufs_empty "").
Definition top_after : TopBatchReader :=
  state_of (TopBatchReader_next disk top_reader []) top_reader.

Definition depth_view : Delta.ColsView :=
  view_of (DeltaBatchReader_next disk depth_reader [])
    (Delta.fill_view Delta.Select_default Delta.Bufs_empty "").
Definition depth_after : DeltaBatchReader :=
  state_of (DeltaBatchReader_next disk depth_reader []) depth_reader.

(** The reader over the two days of [disk_short_then_good]. *)
Definition two_day_reader : DeltaBatchReader :=
  Impl_new [candidate depth_path t0; candidate depth_path_next t1]
    t0 (t1 + day_ns) Delta.Select_default Delta.Bufs_empty.

(** The cursors of [depth_rg], as [next_rg] opens them. *)
Definition depth_cursors : Delta.Cursors :=
  match Delta.open_cursors depth_file depth_rg Delta.Select_default with
  | Ok cs => cs
  | _ =>
      let c := Int64Cursor_init ask_px_reader in
      {| Delta.c_ts := c; Delta.c_fid := None; Delta.c_lid := None;
         Delta.c_evt := None; Delta.c_apx := None; Delta.c_aqty := None;
         Delta.c_bpx := None; Delta.c_bqty := None |}
  end.

Definition first_ts : Entry * Int64Cursor :=
  match take (Delta.c_ts depth_cursors) with
  | Ok ec => ec
  | _ => (Entry0, Delta.c_ts depth_cursors)
  end.

(** The first row of [depth_rg] against the window of the next day. *)
Definition first_row : Res (Delta.Cursors * Delta.Bufs) :=
  Delta.row_step t1 (t1 + day_ns) Delta.Select_default
    depth_cursors (Delta.Bufs_cleared Delta.Select_default).

Definition depth_cursors_next : Delta.Cursors :=
  match first_row with
  | Ok (cs, _) => cs
  | _ => depth_cursors
  end.

Definition depth_bufs_next : Delta.Bufs :=
  match first_row with
  | Ok (_, b) => b
  | _ => Delta.Bufs_empty
  end.

Definition is_ok {A : Type} (m : Res A) : bool :=
  match m with Ok _ => true | _ => false end.

End FixtureRuns.

Lemma single_leaf_row_assembly_witness :
  exists leaf',
    append_list_from_leaf_for_row
      (Int64Cursor_init Fixture.ask_px_reader) (Some [7])
    = Ok (2, leaf', Some [7; 100; 101])
    /\ stream leaf' = ([FixtureRuns.hole; FixtureRuns.el 0 102], Eos).
Proof.
  refine (proj2 (@single_leaf_row_assembly
                   (Int64Cursor_init Fixture.ask_px_reader) (Some [7])
                   (FixtureRuns.el 0 100)
                   [FixtureRuns.el 1 101; FixtureRuns.hole;
                    FixtureRuns.el 0 102]
                   Eos (cursor_wf_init _) _)
            _ [FixtureRuns.el 1 101]
            [FixtureRuns.hole; FixtureRuns.el 0 102] _ _ _ _ _).
  - vm_compute. reflexivity.
  - reflexivity.
  - reflexivity.
  - constructor; [|constructor]. unfold continues. cbn. lia.
  - reflexivity.
  - discriminate.
  - cbn. lia.
Defined.

Lemma paired_row_assembly_witness :
  exists px' qty',
    append_list_pairs_for_row_typed
      (Int64Cursor_init Fixture.ask_px_reader_long)
      (Int64Cursor_init Fixture.ask_qty_reader_off)
      (Some []) (Some [])
    = Ok (2, (px', qty'), (Some [100; 101], Some [10; 11]))
    /\ length [100; 101] = length [10; 11]
    /\ stream px' = ([FixtureRuns.el 1 102; FixtureRuns.el 0 103], Eos)
    /\ stream qty' = ([FixtureRuns.el 0 12; FixtureRuns.el 0 13], Eos).
Proof.
  refine (proj2 (@paired_row_assembly
                   (Int64Cursor_init Fixture.ask_px_reader_long)
                   (Int64Cursor_init Fixture.ask_qty_reader_off)
                   (Some []) (Some [])
                   (FixtureRuns.el 0 100) (FixtureRuns.el 0 10)
                   [FixtureRuns.el 1 101] [FixtureRuns.el 1 11]
                   [FixtureRuns.el 1 102; FixtureRuns.el 0 103]
                   [FixtureRuns.el 0 12; FixtureRuns.el 0 13]
                   Eos Eos (cursor_wf_init _) (cursor_wf_init _) _ _ _ _ _)
            (FixtureRuns.el 1 102) (FixtureRuns.el 0 12)
            [FixtureRuns.el 0 103] [FixtureRuns.el 0 13] _ _ _).
  - vm_compute. reflexivity.
  - vm_compute. reflexivity.
  - reflexivity.
  - constructor; [|constructor]. unfold in_step. cbn. lia.
  - cbn. lia.
  - reflexivity.
  - reflexivity.
  - cbn. lia.
Defined.

Lemma depth_cursors_open :
  Delta.open_cursors Fixture.depth_file Fixture.depth_rg Delta.Select_default
  = Ok FixtureRuns.depth_cursors.
Proof.
  assert (H : FixtureRuns.is_ok
                (Delta.open_cursors Fixture.depth_file Fixture.depth_rg
                   Delta.Select_default) = true) by (vm_compute; reflexivity).
  unfold FixtureRuns.depth_cursors.
  destruct (Delta.open_cursors Fixture.depth_file Fixture.depth_rg
              Delta.Select_default) as [cs| |];
    [reflexivity | discriminate H | discriminate H].
Qed.

Lemma depth_cursors_wf : cursors_wf FixtureRuns.depth_cursors.
Proof.
  pose proof (open_cursors_good Fixture.depth_file Fixture.depth_rg
                Delta.Select_default) as G.
  rewrite depth_cursors_open in G. exact G.
Qed.

Lemma depth_ts_written :
  stream (Delta.c_ts FixtureRuns.depth_cursors)
  = ([entry_of 0 0 (Some (Fixture.t0 + 5));
      entry_of 0 0 (Some (Fixture.t0 + 6));
      entry_of 0 0 (Some (Fixture.t0 + 7))] ++ [], Eos).
Proof. vm_compute. reflexivity. Qed.

Lemma depth_asks_written :
  side_encodes (Delta.c_apx FixtureRuns.depth_cursors)
    (Delta.c_aqty FixtureRuns.depth_cursors) (Fixture.ask_rows ++ []).
Proof.
  destruct depth_cursors_wf as (_ & _ & _ & _ & Wp & Wq & _).
  assert (Sp : option_map stream (Delta.c_apx FixtureRuns.depth_cursors)
               = Some ([FixtureRuns.el 0 100; FixtureRuns.el 1 101;
                        FixtureRuns.hole; FixtureRuns.el 0 102], Eos))
    by (vm_compute; reflexivity).
  assert (Sq : option_map stream (Delta.c_aqty FixtureRuns.depth_cursors)
               = Some ([FixtureRuns.el 0 10; FixtureRuns.el 1 11;
                        FixtureRuns.hole; FixtureRuns.el 0 12], Eos))
    by (vm_compute; reflexivity).
  destruct (Delta.c_apx FixtureRuns.depth_cursors) as [p|]; [|discriminate].
  destruct (Delta.c_aqty FixtureRuns.depth_cursors) as [q|]; [|discriminate].
  cbn [option_map opt_wf] in *. injection Sp as Sp. injection Sq as Sq.
  unfold side_encodes. split; [exact Wp|]. split; [exact Wq|].
  eexists _, _. split; [exact Sp|]. split; [exact Sq|].
  apply (@encodes_pairs_cons _ _
           [FixtureRuns.el 0 100; FixtureRuns.el 1 101]
           [FixtureRuns.el 0 10; FixtureRuns.el 1 11]
           [FixtureRuns.hole; FixtureRuns.el 0 102]
           [FixtureRuns.hole; FixtureRuns.el 0 12]).
  { apply pair_entries_items; try reflexivity.
    constructor; [|constructor]. unfold in_step. cbn. lia. }
  apply (@encodes_pairs_cons _ _ [FixtureRuns.hole] [FixtureRuns.hole]
           [FixtureRuns.el 0 102] [FixtureRuns.el 0 12]).
  { apply pair_entries_empty; reflexivity. }
  apply (@encodes_pairs_cons _ _ [FixtureRuns.el 0 102] [FixtureRuns.el 0 12]
           [] []).
  { apply pair_entries_items; try reflexivity. constructor. }
  constructor.
Qed.

Lemma depth_bids_written :
  side_encodes (Delta.c_bpx FixtureRuns.depth_cursors)
    (Delta.c_bqty FixtureRuns.depth_cursors) (Fixture.bid_rows ++ []).
Proof.
  destruct depth_cursors_wf as (_ & _ & _ & _ & _ & _ & Wp & Wq).
  assert (Sp : option_map stream (Delta.c_bpx FixtureRuns.depth_cursors)
               = Some ([FixtureRuns.el 0 90; FixtureRuns.el 0 91;
                        FixtureRuns.hole], Eos))
    by (vm_compute; reflexivity).
  assert (Sq : option_map stream (Delta.c_bqty FixtureRuns.depth_cursors)
               = Some ([FixtureRuns.el 0 9; FixtureRuns.el 0 8;
                        FixtureRuns.hole], Eos))
    by (vm_compute; reflexivity).
  destruct (Delta.c_bpx FixtureRuns.depth_cursors) as [p|]; [|discriminate].
  destruct (Delta.c_bqty FixtureRuns.depth_cursors) as [q|]; [|discriminate].
  cbn [option_map opt_wf] in *. injection Sp as Sp. injection Sq as Sq.
  unfold side_encodes. split; [exact Wp|]. split; [exact Wq|].
  eexists _, _. split; [exact Sp|]. split; [exact Sq|].
  apply (@encodes_pairs_cons _ _ [FixtureRuns.el 0 90] [FixtureRuns.el 0 9]
           [FixtureRuns.el 0 91; FixtureRuns.hole]
           [FixtureRuns.el 0 8; FixtureRuns.hole]).
  { apply pair_entries_items; try reflexivity. constructor. }
  apply (@encodes_pairs_cons _ _ [FixtureRuns.el 0 91] [FixtureRuns.el 0 8]
           [FixtureRuns.hole] [FixtureRuns.hole]).
  { apply pair_entries_items; try reflexivity. constructor. }
  apply (@encodes_pairs_cons _ _ [FixtureRuns.hole] [FixtureRuns.hole] [] []).
  { apply pair_entries_empty; reflexivity. }
  constructor.
Qed.

Lemma first_ts_taken :
  take (Delta.c_ts FixtureRuns.depth_cursors)
  = Ok (fst FixtureRuns.first_ts, snd FixtureRuns.first_ts).
Proof.
  assert (H : FixtureRuns.is_ok (take (Delta.c_ts FixtureRuns.depth_cursors))
              = true) by (vm_compute; reflexivity).
  unfold FixtureRuns.first_ts.
  destruct (take (Delta.c_ts FixtureRuns.depth_cursors)) as [[e c]| |];
    [reflexivity | discriminate H | discriminate H].
Qed.

Lemma first_row_run :
  Delta.row_step Fixture.t1 (Fixture.t1 + day_ns) Delta.Select_default
    FixtureRuns.depth_cursors (Delta.Bufs_cleared Delta.Select_default)
  = Ok (FixtureRuns.depth_cursors_next, FixtureRuns.depth_bufs_next).
Proof.
  assert (H : FixtureRuns.is_ok FixtureRuns.first_row = true)
    by (vm_compute; reflexivity).
  unfold FixtureRuns.depth_cursors_next, FixtureRuns.depth_bufs_next.
  fold FixtureRuns.first_row.
  destruct FixtureRuns.first_row as [[cs b]| |];
    [reflexivity | discriminate H | discriminate H].
Qed.

Lemma out_of_window_row_is_discarded_witness :
  FixtureRuns.depth_bufs_next = Delta.Bufs_cleared Delta.Select_default
  /\ (forall (s2 e2 : Z) (b2 : Delta.Bufs),
         cursors_after
           (Delta.row_step s2 e2 Delta.Select_default
              FixtureRuns.depth_cursors b2)
         = Ok FixtureRuns.depth_cursors_next)
  /\ side_encodes (Delta.c_apx FixtureRuns.depth_cursors_next)
        (Delta.c_aqty FixtureRuns.depth_cursors_next)
        [[]; [(102, 12)]]
  /\ side_encodes (Delta.c_bpx FixtureRuns.depth_cursors_next)
        (Delta.c_bqty FixtureRuns.depth_cursors_next)
        [[(91, 8)]; []].
Proof.
  assert (Hout : in_window Fixture.t1 (Fixture.t1 + day_ns)
                   (value (fst FixtureRuns.first_ts)) = false)
    by (vm_compute; reflexivity).
  destruct (@out_of_window_row_is_discarded
              Fixture.t1 (Fixture.t1 + day_ns) Delta.Select_default
              FixtureRuns.depth_cursors FixtureRuns.depth_cursors_next
              (Delta.Bufs_cleared Delta.Select_default)
              FixtureRuns.depth_bufs_next
              (fst FixtureRuns.first_ts) (snd FixtureRuns.first_ts)
              first_ts_taken Hout first_row_run)
    as (H1 & H2 & H3 & H4).
  split; [exact H1|]. split; [exact H2|]. split.
  - apply (H3 [(100, 10); (101, 11)]); [unfold short_row; cbn; lia|].
    exact depth_asks_written.
  - apply (H4 [(90, 9)]); [unfold short_row; cbn; lia|].
    exact depth_bids_written.
Defined.

Lemma top_run :
  TopBatchReader_next Fixture.disk Fixture.top_reader []
  = Ok (Some FixtureRuns.top_view, FixtureRuns.top_after, []).
Proof. vm_compute. reflexivity. Defined.

Lemma depth_run :
  DeltaBatchReader_next Fixture.disk Fixture.depth_reader []
  = Ok (Some FixtureRuns.depth_view, FixtureRuns.depth_after, []).
Proof. vm_compute. reflexivity. Defined.

Lemma window_is_half_open_witness :
  Top.n FixtureRuns.top_view = length (top_rows FixtureRuns.top_after)
  /\ Top.view_ts FixtureRuns.top_view
     = ptr (Top.ts (sel_ Fixture.top_reader))
         (top_rows FixtureRuns.top_after)
  /\ (forall t, In t (top_rows FixtureRuns.top_after) ->
                start_ns_ Fixture.top_reader <= t
                < end_ns_ Fixture.top_reader)
  /\ ~ In (end_ns_ Fixture.top_reader) (top_rows FixtureRuns.top_after).
Proof.
  exact (proj1 window_is_half_open Fixture.disk Fixture.top_reader
           FixtureRuns.top_after [] [] FixtureRuns.top_view top_run).
Defined.

Lemma depth_offsets_witness :
  side_offsets (Delta.view_ask_off FixtureRuns.depth_view)
    (Delta.n FixtureRuns.depth_view) true true
    (Delta.ask_px_ (bufs_ FixtureRuns.depth_after))
    (Delta.ask_qty_ (bufs_ FixtureRuns.depth_after))
  /\ exists b',
       Delta.next_rg Fixture.t0 Fixture.t1 Delta.Select_default
         {| file := Fixture.depth_file; rg_idx := 0 |} Delta.Bufs_empty
       = Ok (true, {| file := Fixture.depth_file; rg_idx := 1 |}, b')
       /\ Delta.ts_ b' = [Fixture.t0 + 5; Fixture.t0 + 6; Fixture.t0 + 7]
       /\ Delta.ask_off_ b' = [0; 2; 2; 3]
       /\ Delta.ask_px_ b' = [100; 101; 102]
       /\ Delta.ask_qty_ b' = [10; 11; 12]
       /\ Delta.bid_off_ b' = [0; 1; 2; 2]
       /\ Delta.bid_px_ b' = [90; 91]
       /\ Delta.bid_qty_ b' = [9; 8].
Proof.
  split.
  - exact (proj1 (proj1 depth_offsets Fixture.disk Fixture.depth_reader
                    FixtureRuns.depth_after [] [] FixtureRuns.depth_view
                    depth_run)
             eq_refl).
  - destruct (proj2 (proj2 depth_offsets)
                {| file := Fixture.depth_file; rg_idx := 0 |}
                Fixture.depth_rg [] Fixture.t0 Fixture.t1
                Delta.Select_default Delta.Bufs_empty
                FixtureRuns.depth_cursors
                [entry_of 0 0 (Some (Fixture.t0 + 5));
                 entry_of 0 0 (Some (Fixture.t0 + 6));
                 entry_of 0 0 (Some (Fixture.t0 + 7))] [] Eos
                Fixture.ask_rows Fixture.bid_rows [] []
                eq_refl depth_cursors_open depth_ts_written
                eq_refl eq_refl eq_refl
                depth_asks_written depth_bids_written)
      as (b' & E & Hts & (Ao & Ap & Aq) & (Bo & Bp & Bq)).
    + repeat constructor; unfold short_row; cbn; lia.
    + repeat constructor; unfold short_row; cbn; lia.
    + vm_compute. discriminate.
    + assert (H : FixtureRuns.is_ok
                    (Delta.next_rg Fixture.t0 Fixture.t1 Delta.Select_default
                       {| file := Fixture.depth_file; rg_idx := 0 |}
                       Delta.Bufs_empty) = true) by (vm_compute; reflexivity).
      destruct (Delta.next_rg Fixture.t0 Fixture.t1 Delta.Select_default
                  {| file := Fixture.depth_file; rg_idx := 0 |}
                  Delta.Bufs_empty) as [y| |];
        [exists y; reflexivity | discriminate H | discriminate H].
    + exists b'. split; [exact E|].
      split; [rewrite Hts; vm_compute; reflexivity|].
      split; [rewrite Ao; vm_compute; reflexivity|].
      split; [rewrite Ap; vm_compute; reflexivity|].
      split; [rewrite Aq; vm_compute; reflexivity|].
      split; [rewrite Bo; vm_compute; reflexivity|].
      split; [rewrite Bp; vm_compute; reflexivity|].
      rewrite Bq. vm_compute. reflexivity.
Defined.

Lemma failed_file_is_skipped_witness :
  DeltaBatchReader_next Fixture.disk_short_then_good
    FixtureRuns.two_day_reader []
  = DeltaBatchReader_next Fixture.disk_short_then_good
      (skip_file
         (opened FixtureRuns.two_day_reader
            {| file := Fixture.depth_file_short; rg_idx := 0 |}
            (filename Fixture.depth_path))
         (bufs_ FixtureRuns.two_day_reader))
      ([] ++ [warn "read failed" Fixture.depth_path "value_idx overflow"])
  /\ fails_with Fixture.disk_short_then_good FixtureRuns.two_day_reader
       (warn "read failed" Fixture.depth_path "value_idx overflow")
  /\ exists vs st' cerr',
       DeltaBatchReader_next_many 2 Fixture.disk_short_then_good
         FixtureRuns.two_day_reader [] = Ok (vs, st', cerr')
       /\ (file_idx_ FixtureRuns.two_day_reader < file_idx_ st')%nat
       /\ (exists more,
             cerr' = [] ++ warn "read failed" Fixture.depth_path
                             "value_idx overflow" :: more)
       /\ Forall (fun v =>
                    exists j c,
                      (file_idx_ FixtureRuns.two_day_reader < j)%nat
                      /\ nth_error (files_ FixtureRuns.two_day_reader) j
                         = Some c
                      /\ Delta.view_file v = filename (path c)) vs.
Proof.
  assert (Hf : fails_with Fixture.disk_short_then_good
                 FixtureRuns.two_day_reader
                 (warn "read failed" Fixture.depth_path
                    "value_idx overflow")).
  { unfold fails_with. cbn [fs_ FixtureRuns.two_day_reader Impl_new].
    eexists. split; [reflexivity|]. right. eexists _, _.
    split; [reflexivity|]. split; [vm_compute; reflexivity | reflexivity]. }
  split; [|split; [exact Hf|]].
  - refine (proj1 (proj2 (proj2 (proj2 failed_file_is_skipped)))
              Fixture.disk_short_then_good FixtureRuns.two_day_reader []
              (Fixture.candidate Fixture.depth_path Fixture.t0)
              Fixture.depth_file_short "value_idx overflow" _ _ _ _).
    + reflexivity.
    + reflexivity.
    + reflexivity.
    + vm_compute. reflexivity.
  - destruct (proj1 (proj2 (proj2 (proj2 (proj2 (proj2 (proj2
                failed_file_is_skipped))))))
                2%nat Fixture.disk_short_then_good
                FixtureRuns.two_day_reader []) as ([[vs st'] cerr'] & E).
    exists vs, st', cerr'. split; [exact E|].
    destruct (proj1 (proj2 (proj2 (proj2 (proj2 (proj2 (proj2 (proj2
                failed_file_is_skipped)))))))
                Fixture.disk_short_then_good FixtureRuns.two_day_reader st'
                [] cerr' _ 1%nat vs Hf E) as (Hi & _ & Hc & Hv).
    split; [exact Hi|]. split; [exact Hc | exact Hv].
Defined.



Lemma batches_are_never_empty_witness :
  Top.next_rg_from Fixture.top_file [Fixture.top_rg] 0 0 1
    Top.Select_default Top.Bufs_empty
  = Top.next_rg_from Fixture.top_file [] 1 0 1
      Top.Select_default Top.Bufs_empty.
Proof.
  refine (proj1 (proj2 (proj2 (proj2 batches_are_never_empty)))
            Fixture.top_file Fixture.top_rg [] 0%nat 0 1
            Top.Select_default Top.Bufs_empty
            [Fixture.t0 + 5; Fixture.t0 + 6; Fixture.t1] _ _ _).
  - vm_compute. discriminate.
  - vm_compute. reflexivity.
  - intros t [<- | [<- | [<- | []]]] [_ H]; vm_compute in H; discriminate.
Defined.

Lemma market_token_is_validated_witness :
  get_top_cols Fixture.disk Fixture.db Fixture.t0 Fixture.t1 "BTCUSDT"
    (Some "bogus") Top.Select_default = Throw market_error
  /\ get_trade_cols Fixture.disk Fixture.db Fixture.t0 Fixture.t1 "BTCUSDT"
       (Some "bogus") Trade.Select_default = Throw market_error
  /\ get_depth_cols Fixture.disk Fixture.db Fixture.t0 Fixture.t1 "BTCUSDT"
       (Some "bogus") Delta.Select_default = Throw market_error
  /\ get_depth_cols Fixture.disk Fixture.db Fixture.t1 Fixture.t0 "BTCUSDT"
       (Some "bogus") Delta.Select_default
     = Ok (Impl_new [] Fixture.t1 Fixture.t0 Delta.Select_default
             Delta.Bufs_empty)
  /\ get_depth_cols Fixture.disk Fixture.db Fixture.t0 Fixture.t1 "BTCUSDT"
       (Some "FuTuReS") Delta.Select_default
     = get_depth_cols Fixture.disk Fixture.db Fixture.t0 Fixture.t1
         "BTCUSDT" (Some "fut") Delta.Select_default
  /\ get_depth_cols Fixture.disk Fixture.db Fixture.t0 Fixture.t1 "BTCUSDT"
       None Delta.Select_default
     = (fut <- candidate_files_strict Fixture.disk (root_ Fixture.db)
                 "BTCUSDT" "depth" (Some "fut") Fixture.t0 Fixture.t1 ;;
        spot <- candidate_files_strict Fixture.disk (root_ Fixture.db)
                  "BTCUSDT" "depth" (Some "spot") Fixture.t0 Fixture.t1 ;;
        Ok (Impl_new (fut ++ spot) Fixture.t0 Fixture.t1
              Delta.Select_default Delta.Bufs_empty)).
Proof.
  repeat apply conj.
  1-3: refine ((fun H => _)
                 (proj1 (proj2 (proj2 (proj2 market_token_is_validated)))
                    Fixture.disk Fixture.db Fixture.t0 Fixture.t1 "BTCUSDT"
                    "bogus" Top.Select_default Trade.Select_default
                    Delta.Select_default eq_refl eq_refl));
    apply H.
  - refine (proj2 (proj2
              (proj1 (proj2 (proj2 (proj2 (proj2 (proj2 (proj2
                 market_token_is_validated))))))
                 Fixture.disk Fixture.db Fixture.t1 Fixture.t0 "BTCUSDT"
                 (Some "bogus") Top.Select_default Trade.Select_default
                 Delta.Select_default _))).
    vm_compute. discriminate.
  - refine (proj2 (proj2
              (proj2 (proj2 (proj2 (proj2 (proj2 (proj2 (proj2
                 market_token_is_validated))))))
                 Fixture.disk Fixture.db Fixture.t0 Fixture.t1 "BTCUSDT"
                 "FuTuReS" "fut" Top.Select_default Trade.Select_default
                 Delta.Select_default eq_refl))).
  - refine (proj2 (proj2
              (proj1 (proj2 (proj2 (proj2 (proj2 (proj2
                 market_token_is_validated)))))
                 Fixture.disk Fixture.db Fixture.t0 Fixture.t1 "BTCUSDT"
                 Top.Select_default Trade.Select_default
                 Delta.Select_default eq_refl))).
Defined.

(** * Further properties of the library and of its command-line caller *)

(** ** The cursor: [peek], [take] and the end of the column *)

Lemma ensure_pending_more c c1 :
  ensure_pending c = Ok (true, c1) -> has_pending c1 = true.
Proof.
  rewrite ensure_pending_unfold.
  destruct (eof c && negb (has_pending c)); [discriminate|].
  destruct (has_pending c) eqn:Hp.
  { intros H. injection H as <-. exact Hp. }
  intros H. apply bind_Ok in H. destruct H as ([more c2] & _ & H).
  destruct more; cbn [negb] in H; [|discriminate].
  unfold decode_slot in H.
  destruct (buffered_def c2 (level_idx c2) =? max_def c2).
  - destruct (values_in_buf c2 <=? value_idx c2)%nat; [discriminate|].
    injection H as <-. reflexivity.
  - injection H as <-. reflexivity.
Qed.

Lemma ensure_pending_again c :
  has_pending c = true -> ensure_pending c = Ok (true, c).
Proof.
  intros Hp. rewrite ensure_pending_unfold, Hp.
  rewrite andb_false_r. reflexivity.
Qed.

Lemma refill_no_more c c1 :
  refill c = Ok (false, c1) ->
  eof c1 = true /\ has_pending c1 = has_pending c.
Proof.
  unfold refill. destruct (eof c) eqn:He.
  { intros H. injection H as <-. auto. }
  intros H. apply bind_Ok in H. destruct H as ([[lv vs] r'] & _ & H).
  cbn [levels_in_buf] in H.
  destruct (length lv =? 0)%nat; [|discriminate].
  injection H as <-. auto.
Qed.

Lemma ensure_pending_no_more c c1 :
  ensure_pending c = Ok (false, c1) ->
  eof c1 = true /\ has_pending c1 = false.
Proof.
  rewrite ensure_pending_unfold.
  destruct (eof c && negb (has_pending c)) eqn:E.
  { intros H. injection H as <-. apply andb_true_iff in E.
    destruct E as [E1 E2]. apply negb_true_iff in E2. auto. }
  destruct (has_pending c) eqn:Hp; [discriminate|].
  intros H. apply bind_Ok in H. destruct H as ([more c2] & Hr & H).
  destruct more; cbn [negb] in H.
  - unfold decode_slot in H.
    destruct (buffered_def c2 (level_idx c2) =? max_def c2);
      [destruct (values_in_buf c2 <=? value_idx c2)%nat|]; discriminate.
  - injection H as <-.
    destruct (levels_in_buf c <=? level_idx c)%nat; [|discriminate].
    apply refill_no_more in Hr. destruct Hr as [-> ->]. auto.
Qed.

(** X1.  [peek] does not consume: after a [peek] that showed the entry [e],
    another [peek] shows [e] again and leaves the cursor as it is, and the
    next [take] returns that same [e]; a [take] instead of the [peek]
    returns [e] as well and leaves the cursor in the same state. *)
Theorem peek_does_not_consume :
  forall (c c1 : Int64Cursor) (e : Entry),
    peek c = Ok (Some e, c1) ->
    peek c1 = Ok (Some e, c1)
    /\ take c1 = Ok (e, clear_pending c1)
    /\ take c = Ok (e, clear_pending c1).
Proof.
  intros c c1 e H. unfold peek in H.
  apply bind_Ok in H. destruct H as ([more c2] & He & H).
  destruct more; cbn [negb] in H; [|discriminate].
  injection H as <- <-.
  pose proof (ensure_pending_more _ He) as Hp.
  unfold peek, take. rewrite (ensure_pending_again _ Hp), He. cbn.
  auto.
Qed.

Lemma peek_does_not_consume_witness :
  exists c1,
    peek (Int64Cursor_init Fixture.ask_px_reader)
    = Ok (Some (FixtureRuns.el 0 100), c1)
    /\ peek c1 = Ok (Some (FixtureRuns.el 0 100), c1)
    /\ take (Int64Cursor_init Fixture.ask_px_reader)
       = Ok (FixtureRuns.el 0 100, clear_pending c1).
Proof.
  destruct (@peek_cons (Int64Cursor_init Fixture.ask_px_reader)
              (FixtureRuns.el 0 100)
              [FixtureRuns.el 1 101; FixtureRuns.hole; FixtureRuns.el 0 102]
              Eos (cursor_wf_init _) ltac:(vm_compute; reflexivity))
    as (c1 & E & _ & _).
  exists c1. split; [exact E|].
  destruct (peek_does_not_consume _ E) as (H1 & _ & H3). auto.
Defined.

(** X2.  The end of a column is final and is not an error.  Once [peek]
    has returned [nullptr], the cursor is at [eof] with nothing pending;
    from then on every [peek] returns [nullptr] and every [take] returns
    the default entry [Entry{}], whose [valid] is [false] and whose
    [value] is 0, and neither changes the cursor or throws. *)
Theorem end_of_column_is_final :
  forall (c c1 : Int64Cursor),
    peek c = Ok (None, c1) ->
    eof c1 = true /\ has_pending c1 = false
    /\ peek c1 = Ok (None, c1)
    /\ take c1 = Ok (Entry0, c1)
    /\ take c = Ok (Entry0, c1)
    /\ valid Entry0 = false /\ value Entry0 = 0.
Proof.
  intros c c1 H. unfold peek in H.
  apply bind_Ok in H. destruct H as ([more c2] & He & H).
  destruct more; cbn [negb] in H; [discriminate|].
  injection H as <-.
  destruct (ensure_pending_no_more _ He) as [E1 E2].
  assert (Ha : ensure_pending c2 = Ok (false, c2)).
  { rewrite ensure_pending_unfold, E1, E2. reflexivity. }
  unfold peek, take. rewrite Ha, He. cbn. auto 10.
Qed.

Lemma end_of_column_is_final_witness :
  exists c1,
    peek (Int64Cursor_init
            {| Parquet.rd_descr := Fixture.leaf "ts" 0 0;
               Parquet.rd_slots := []; Parquet.rd_stored := [];
               Parquet.rd_damaged := false |})
    = Ok (None, c1)
    /\ take c1 = Ok (Entry0, c1).
Proof.
  destruct (@peek_eos
              (Int64Cursor_init
                 {| Parquet.rd_descr := Fixture.leaf "ts" 0 0;
                    Parquet.rd_slots := []; Parquet.rd_stored := [];
                    Parquet.rd_damaged := false |})
              (cursor_wf_init _) eq_refl) as (c1 & E & _ & _).
  exists c1. split; [exact E|].
  destruct (end_of_column_is_final _ E) as (_ & _ & _ & H & _). exact H.
Defined.

(** ** The cursor hands out the column in order *)

(** [n] calls of [take], one after the other. *)
Fixpoint take_many (n : nat) (c : Int64Cursor)
  : Res (list Entry * Int64Cursor) :=
  match n with
  | O => Ok ([], c)
  | S n' =>
      '(e, c) <- take c ;;
      '(es, c) <- take_many n' c ;;
      Ok (e :: es, c)
  end.

(** The entry that slot [i] of a column chunk stands for: its levels, and,
    when its definition level is the maximum, the next value of the value
    stream, which is the one after the values of the slots before it. *)
Definition entry_at (md mr : Z) (slots : list (Z * Z)) (stored : list Z)
    (i : nat) : Entry :=
  let s := nth i slots (0, 0) in
  entry_of (Parquet.slot_def md s) (Parquet.slot_rep mr s)
    (if Parquet.present md s
     then Some (nth (Parquet.count_present md (firstn i slots)) stored 0)
     else None).

Lemma take_many_stream : forall es c rest t,
  cursor_wf c -> stream c = (es ++ rest, t) ->
  exists c', take_many (length es) c = Ok (es, c')
             /\ cursor_wf c' /\ stream c' = (rest, t).
Proof.
  induction es as [|e es IH]; intros c rest t W Hs.
  - exists c. auto.
  - cbn [app] in Hs. destruct (take_cons W Hs) as (c1 & E & W1 & Hs1).
    destruct (IH c1 rest t W1 Hs1) as (c' & E' & W' & Hs').
    exists c'. cbn [length take_many]. rewrite E. cbn [bind].
    rewrite E'. cbn [bind]. auto.
Qed.

Lemma count_present_cons md s lv :
  Parquet.count_present md (s :: lv)
  = ((if Parquet.present md s then 1 else 0)
     + Parquet.count_present md lv)%nat.
Proof.
  unfold Parquet.count_present. cbn [filter].
  destruct (Parquet.present md s); reflexivity.
Qed.

Lemma seg_stream_entries md mr k : forall lv vs,
  (Parquet.count_present md lv <= length vs)%nat ->
  exists es,
    seg_stream md mr lv vs k = (es ++ fst k, snd k)
    /\ length es = length lv
    /\ forall i, (i < length lv)%nat ->
                 nth i es Entry0 = entry_at md mr lv vs i.
Proof.
  induction lv as [|s lv IH]; intros vs Hc.
  - exists []. cbn. split; [destruct k; reflexivity|]. split; [reflexivity|].
    intros i Hi. lia.
  - rewrite count_present_cons in Hc. cbn [seg_stream].
    unfold Parquet.present in Hc.
    destruct (Parquet.slot_def md s =? md) eqn:Hp.
    + destruct vs as [|v vs]; [cbn in Hc; lia|].
      cbn [length] in Hc.
      destruct (IH vs ltac:(lia)) as (es & E & L & N).
      exists (entry_of (Parquet.slot_def md s) (Parquet.slot_rep mr s)
                (Some v) :: es).
      rewrite E. cbn [scons fst snd app length].
      split; [reflexivity|]. split; [lia|].
      intros [|i] Hi.
      * unfold entry_at. cbn [nth firstn]. unfold Parquet.present.
        rewrite Hp. reflexivity.
      * cbn [nth]. rewrite N by lia.
        unfold entry_at. cbn [nth firstn].
        rewrite count_present_cons. unfold Parquet.present.
        rewrite !Hp. reflexivity.
    + destruct (IH vs ltac:(lia)) as (es & E & L & N).
      exists (entry_of (Parquet.slot_def md s) (Parquet.slot_rep mr s)
                None :: es).
      rewrite E. cbn [scons fst snd app length].
      split; [reflexivity|]. split; [lia|].
      intros [|i] Hi.
      * unfold entry_at. cbn [nth firstn]. unfold Parquet.present.
        rewrite Hp. reflexivity.
      * cbn [nth]. rewrite N by lia.
        unfold entry_at. cbn [nth firstn].
        rewrite count_present_cons. unfold Parquet.present.
        rewrite !Hp. reflexivity.
Qed.

(** X3.  A cursor over a column chunk that is not damaged and stores a
    value for every slot that carries one hands out, [take] after [take],
    exactly the entries of the slots in column order, however many batches
    of 65536 levels that takes; after the last slot [take] returns the
    default entry. *)
Theorem cursor_reads_the_column_in_order :
  forall (col : Parquet.ColumnReader),
    Parquet.rd_damaged col = false ->
    (Parquet.count_present
       (Parquet.max_definition_level (Parquet.rd_descr col))
       (Parquet.rd_slots col)
     <= length (Parquet.rd_stored col))%nat ->
    exists es c',
      take_many (length (Parquet.rd_slots col)) (Int64Cursor_init col)
      = Ok (es, c')
      /\ length es = length (Parquet.rd_slots col)
      /\ (forall i, (i < length (Parquet.rd_slots col))%nat ->
            nth i es Entry0
            = entry_at (Parquet.max_definition_level (Parquet.rd_descr col))
                (Parquet.max_repetition_level (Parquet.rd_descr col))
                (Parquet.rd_slots col) (Parquet.rd_stored col) i)
      /\ exists c'', take c' = Ok (Entry0, c'').
Proof.
  intros col Hd Hc.
  destruct (@seg_stream_entries
              (Parquet.max_definition_level (Parquet.rd_descr col))
              (Parquet.max_repetition_level (Parquet.rd_descr col))
              (reader_end col) _ _ Hc) as (es & E & L & N).
  unfold reader_end in E. rewrite Hd in E. cbn [fst snd] in E.
  destruct (@take_many_stream es (Int64Cursor_init col) [] Eos
              (cursor_wf_init col)) as (c' & T & W' & S').
  { rewrite stream_init. unfold reader_stream, reader_end.
    rewrite Hd. exact E. }
  exists es, c'. rewrite <- L. split; [exact T|]. split; [reflexivity|].
  split; [rewrite L; exact N|].
  destruct (take_eos W' S') as (c'' & T' & _). exists c''. exact T'.
Qed.

Lemma cursor_reads_the_column_in_order_witness :
  exists c',
    take_many 4 (Int64Cursor_init Fixture.ask_px_reader)
    = Ok ([FixtureRuns.el 0 100; FixtureRuns.el 1 101; FixtureRuns.hole;
           FixtureRuns.el 0 102], c').
Proof.
  destruct (@cursor_reads_the_column_in_order Fixture.ask_px_reader
              eq_refl ltac:(vm_compute; lia))
    as (es & c' & T & L & N & _).
  change (take_many 4 (Int64Cursor_init Fixture.ask_px_reader)
          = Ok (es, c')) in T.
  exists c'. rewrite T. f_equal. f_equal.
  destruct es as [|e0 [|e1 [|e2 [|e3 [|e4 es]]]]]; try discriminate L.
  pose proof (N 0%nat ltac:(cbn; lia)) as N0.
  pose proof (N 1%nat ltac:(cbn; lia)) as N1.
  pose proof (N 2%nat ltac:(cbn; lia)) as N2.
  pose proof (N 3%nat ltac:(cbn; lia)) as N3.
  cbn [nth] in N0, N1, N2, N3. rewrite N0, N1, N2, N3. reflexivity.
Defined.

(** ** Column lookup *)

Lemma find_col_idx_from_spec name : forall cols i,
  0 <= i ->
  let k := find_col_idx_from cols name i in
  (k = -1 /\ Forall (fun d => Parquet.path d <> name) cols)
  \/ (i <= k < i + Z.of_nat (length cols)
      /\ (exists d, nth_error cols (Z.to_nat (k - i)) = Some d
                    /\ Parquet.path d = name)
      /\ forall j d, (j < Z.to_nat (k - i))%nat ->
                     nth_error cols j = Some d ->
                     Parquet.path d <> name).
Proof.
  induction cols as [|d cols IH]; intros i Hi; cbn zeta;
    cbn [find_col_idx_from].
  - left. auto.
  - destruct (String.eqb (Parquet.path d) name) eqn:E.
    + right. apply String.eqb_eq in E.
      rewrite Z.sub_diag. cbn [Z.to_nat nth_error length].
      split; [lia|]. split; [eauto|]. intros j d' Hj. lia.
    + apply String.eqb_neq in E.
      destruct (IH (i + 1) ltac:(lia))
        as [[Hk Hall] | (Hk & (d' & Hn & Hp) & Hfirst)].
      * left. split; [exact Hk|]. constructor; assumption.
      * right. cbn [length]. split; [lia|].
        replace (Z.to_nat (find_col_idx_from cols name (i + 1) - i))
          with (S (Z.to_nat (find_col_idx_from cols name (i + 1) - (i + 1))))
          by lia.
        cbn [nth_error]. split; [eauto|].
        intros [|j] d'' Hj Hnth; cbn [nth_error] in Hnth.
        -- injection Hnth as <-. exact E.
        -- eapply Hfirst; [|exact Hnth]. lia.
Qed.

(** X4.  [find_col_idx] returns [-1] exactly when no leaf of the schema has
    the dotted path [name]; otherwise it returns the index of the first
    leaf with that path: the index is in range, the leaf there has the
    path, and no leaf before it has. *)
Theorem find_col_idx_finds_the_first_match :
  forall (schema : list Parquet.ColumnDescriptor) (name : string),
    let k := find_col_idx schema name in
    (k = -1 <-> Forall (fun d => Parquet.path d <> name) schema)
    /\ (k <> -1 ->
        0 <= k < Z.of_nat (length schema)
        /\ (exists d, nth_error schema (Z.to_nat k) = Some d
                      /\ Parquet.path d = name)
        /\ forall j d, (j < Z.to_nat k)%nat ->
                       nth_error schema j = Some d ->
                       Parquet.path d <> name).
Proof.
  intros schema name. cbn zeta. unfold find_col_idx.
  pose proof (@find_col_idx_from_spec name schema 0 ltac:(lia)) as H.
  cbn zeta in H. rewrite Z.sub_0_r in H.
  destruct H as [[Hk Hall] | (Hk & (d & Hn & Hp) & Hfirst)].
  - split; [tauto|]. intros C. contradiction.
  - split.
    + split; [lia|]. intros Hall. exfalso.
      rewrite Forall_forall in Hall.
      apply (Hall d); [eapply nth_error_In; exact Hn | exact Hp].
    + intros _. split; [lia|]. split; [eauto | exact Hfirst].
Qed.

(** ** Day arithmetic *)

(** X5.  [floor_day_ns] truncates toward zero: for every 64-bit [ns] it is
    [ns] divided by the nanoseconds of a day, rounded toward zero, times
    the nanoseconds of a day.  For [ns >= 0] this is the start of the UTC
    day of [ns]; for a negative [ns] that is not itself a day start it is
    the start of the day after, a value greater than [ns]. *)
Theorem floor_day_ns_truncates_toward_zero :
  forall ns : Z,
    - 2 ^ 63 <= ns < 2 ^ 63 ->
    floor_day_ns ns = Z.quot ns day_ns * day_ns
    /\ (0 <= ns ->
        floor_day_ns ns <= ns < floor_day_ns ns + day_ns
        /\ floor_day_ns ns = ns / day_ns * day_ns)
    /\ (ns < 0 -> ns mod day_ns <> 0 ->
        ns < floor_day_ns ns <= 0
        /\ floor_day_ns ns = (ns / day_ns + 1) * day_ns).
Proof.
  intros ns H. rewrite (floor_day_ns_quot H). unfold day_ns.
  split; [reflexivity|]. split.
  - intros Hn. Z.to_euclidean_division_equations. lia.
  - intros Hn Hm. Z.to_euclidean_division_equations. lia.
Qed.

Lemma floor_day_ns_truncates_toward_zero_witness :
  floor_day_ns (-1) = 0 /\ floor_day_ns (Fixture.t0 + 5) = Fixture.t0.
Proof.
  split.
  - destruct (@floor_day_ns_truncates_toward_zero (-1) ltac:(lia))
      as (_ & _ & H).
    destruct (H ltac:(lia) ltac:(vm_compute; discriminate)) as [_ ->].
    reflexivity.
  - destruct (@floor_day_ns_truncates_toward_zero (Fixture.t0 + 5)
                ltac:(vm_compute; split; [discriminate | reflexivity]))
      as (_ & H & _).
    destruct (H ltac:(vm_compute; discriminate)) as [_ ->].
    reflexivity.
Defined.

(** X6.  For a timestamp from 1970 on, the day start that
    [candidate_files_strict] recomputes from the civil date,
    [ymd_utc_start_ns] of [ymd_utc_from_ns], is the day start
    [floor_day_ns] computes arithmetically; it is a multiple of the day
    length and the timestamp lies in the day that starts there. *)
Theorem day_start_round_trip :
  forall ns : Z,
    0 <= ns < 2 ^ 63 ->
    let ymd := ymd_utc_from_ns ns in
    ymd_utc_start_ns (year ymd) (month ymd) (day ymd) = floor_day_ns ns
    /\ floor_day_ns ns = ns / day_ns * day_ns
    /\ floor_day_ns ns <= ns < floor_day_ns ns + day_ns
    /\ 1 <= month ymd <= 12 /\ 1 <= day ymd <= 31.
Proof.
  intros ns H. cbn zeta.
  assert (Hd : 0 <= ns / day_ns < 106752).
  { unfold day_ns. Z.to_euclidean_division_equations. lia. }
  assert (Ey : ymd_utc_from_ns ns = ymd_of_day (ns / day_ns)).
  { unfold ymd_utc_from_ns, ymd_of_day, Libc.gmtime_r, day_ns.
    rewrite Z.quot_div_nonneg by lia.
    rewrite Z.div_div by lia. reflexivity. }
  rewrite Ey, (day_start_of_ymd Hd), floor_day_ns_nonneg by lia.
  split; [reflexivity|]. split; [reflexivity|].
  split; [unfold day_ns; Z.to_euclidean_division_equations; lia|].
  unfold ymd_of_day. pose proof (civil_roundtrip (ns / day_ns)) as R.
  destruct (Libc.civil_from_days (ns / day_ns)) as [[y m] d].
  cbn [month day]. tauto.
Qed.

Lemma day_start_round_trip_witness :
  ymd_utc_from_ns (Fixture.t0 + 5)
  = {| year := 2025; month := 9; day := 3 |}
  /\ ymd_utc_start_ns 2025 9 3 = floor_day_ns (Fixture.t0 + 5).
Proof.
  pose proof (@day_start_round_trip (Fixture.t0 + 5)
                ltac:(vm_compute; split; [discriminate | reflexivity])) as H.
  cbn zeta in H. destruct H as (H & _).
  assert (E : ymd_utc_from_ns (Fixture.t0 + 5)
              = {| year := 2025; month := 9; day := 3 |})
    by (vm_compute; reflexivity).
  rewrite E in H. split; [exact E | exact H].
Defined.

(** ** Required columns of the top and trade streamers *)

Lemma read_loop_full rows short : forall bound rd out,
  length out = rows -> read_loop bound rows rd out short = Ok out.
Proof.
  intros bound rd out H.
  destruct bound; cbn [read_loop];
    rewrite (proj2 (Nat.ltb_ge _ _)) by lia;
    rewrite (proj2 (Nat.eqb_eq _ _)) by lia; reflexivity.
Qed.

Lemma read_loop_enough rows short bound rd :
  (rows <= length (Parquet.rd_stored rd))%nat ->
  read_loop (S bound) rows rd [] short
  = Ok (firstn rows (Parquet.rd_stored rd)).
Proof.
  intros H. destruct rows as [|rows].
  - apply read_loop_full. reflexivity.
  - cbn [read_loop length]. rewrite (proj2 (Nat.ltb_lt 0 (S rows))) by lia.
    unfold Parquet.ReadBatchFlat.
    destruct (Parquet.rd_stored rd) as [|v vs] eqn:E; [cbn in H; lia|].
    cbn [bind]. rewrite Nat.sub_0_r.
    assert (L : length (firstn (S rows) (v :: vs)) = S rows)
      by (rewrite length_firstn; lia).
    rewrite L. cbn [Nat.eqb app].
    apply read_loop_full. exact L.
Qed.

Lemma read_loop_short rows short bound rd :
  (length (Parquet.rd_stored rd) < rows)%nat ->
  read_loop (S (S bound)) rows rd [] short
  = Throw (if Parquet.rd_damaged rd then "Unexpected end of stream"
           else short).
Proof.
  intros H.
  assert (Hlt : forall n, (n < rows)%nat -> (n <? rows)%nat = true)
    by (intros n Hn; apply Nat.ltb_lt; exact Hn).
  assert (Hne : forall n, (n < rows)%nat -> (n =? rows)%nat = false)
    by (intros n Hn; apply Nat.eqb_neq; lia).
  cbn [read_loop length]. rewrite Hlt by lia.
  unfold Parquet.ReadBatchFlat at 1.
  destruct (Parquet.rd_stored rd) as [|v vs] eqn:E.
  - destruct (Parquet.rd_damaged rd); [reflexivity|].
    cbn [bind]. rewrite Hne by (cbn [length]; lia). reflexivity.
  - cbn [bind]. rewrite Nat.sub_0_r.
    rewrite firstn_all2 by lia.
    rewrite (@skipn_all2 _ rows (v :: vs)) by lia.
    cbn [length Nat.eqb app]. cbn [length] in H. rewrite Hlt by lia.
    unfold Parquet.ReadBatchFlat. cbn [Parquet.rd_stored Parquet.rd_damaged].
    destruct (Parquet.rd_damaged rd); [reflexivity|].
    cbn [bind length Nat.eqb]. destruct rows as [|m]; [lia|].
    rewrite (proj2 (Nat.eqb_neq (length vs) m)) by lia. reflexivity.
Qed.

Lemma read_required_column_length f rg idx short vs :
  read_required_column f rg idx short = Ok vs ->
  length vs = Parquet.num_rows rg.
Proof.
  unfold read_required_column. intros H.
  apply bind_Ok in H. destruct H as (col & _ & H).
  revert H. generalize (@nil Z). generalize (S (Parquet.num_rows rg)).
  intros bound. revert col.
  induction bound as [|bound IH]; intros col out; cbn [read_loop].
  - destruct (length out <? Parquet.num_rows rg)%nat; [discriminate|].
    destruct (length out =? Parquet.num_rows rg)%nat eqn:E; [|discriminate].
    intros H. injection H as <-. apply Nat.eqb_eq. exact E.
  - assert (Fin : (if (length out =? Parquet.num_rows rg)%nat
                   then Ok out else Throw short) = Ok vs ->
                  length vs = Parquet.num_rows rg).
    { destruct (length out =? Parquet.num_rows rg)%nat eqn:E; [|discriminate].
      intros H. injection H as <-. apply Nat.eqb_eq. exact E. }
    destruct (length out <? Parquet.num_rows rg)%nat; [|exact Fin].
    intros H. apply bind_Ok in H. destruct H as ([ws rd'] & _ & H).
    destruct (length ws =? 0)%nat; [exact (Fin H)|].
    eapply IH. exact H.
Qed.

(** X7.  [read_required_i64_column] and [read_required_bool_column] return
    exactly [num_rows] values or throw.  When the chunk stores at least
    [num_rows] values the result is the first [num_rows] of them; when it
    stores fewer, the call throws [Short read in required column] (the
    bool reader: [Short read in required bool column]), or the decoder's
    own exception when the chunk is damaged. *)
Theorem short_read_is_detected :
  forall (f : Parquet.File) (rg : Parquet.RowGroup) (idx : Z)
         (d : Parquet.ColumnDescriptor) (c : Parquet.ColumnChunk),
    nth_error (Parquet.schema f) (Z.to_nat idx) = Some d ->
    nth_error (Parquet.chunks rg) (Z.to_nat idx) = Some c ->
    ((Parquet.num_rows rg <= length (Parquet.stored c))%nat ->
     read_required_i64_column f rg idx
     = Ok (firstn (Parquet.num_rows rg) (Parquet.stored c))
     /\ read_required_bool_column f rg idx
        = Ok (firstn (Parquet.num_rows rg) (Parquet.stored c)))
    /\ ((length (Parquet.stored c) < Parquet.num_rows rg)%nat ->
        read_required_i64_column f rg idx
        = Throw (if Parquet.damaged c then "Unexpected end of stream"
                 else "Short read in required column")
        /\ read_required_bool_column f rg idx
           = Throw (if Parquet.damaged c then "Unexpected end of stream"
                    else "Short read in required bool column"))
    /\ (forall vs,
          read_required_i64_column f rg idx = Ok vs
          \/ read_required_bool_column f rg idx = Ok vs ->
          length vs = Parquet.num_rows rg).
Proof.
  intros f rg idx d c Hd Hc.
  unfold read_required_i64_column, read_required_bool_column.
  split; [|split].
  - intros H. unfold read_required_column, Parquet.Column.
    rewrite Hd, Hc. cbn [bind].
    split; apply read_loop_enough; exact H.
  - intros H. unfold read_required_column, Parquet.Column.
    rewrite Hd, Hc. cbn [bind].
    destruct (Parquet.num_rows rg) as [|rows] eqn:E; [lia|].
    split; apply (@read_loop_short (S rows)); exact H.
  - intros vs [H | H]; eapply read_required_column_length; exact H.
Qed.

Lemma short_read_is_detected_witness :
  read_required_i64_column Fixture.top_file Fixture.top_rg 1
  = Ok [101; 102; 103]
  /\ read_required_i64_column Fixture.top_file
       {| Parquet.num_rows := 4;
          Parquet.chunks := Parquet.chunks Fixture.top_rg |} 1
     = Throw "Short read in required column".
Proof.
  split.
  - exact (proj1 (proj1 (@short_read_is_detected Fixture.top_file
                           Fixture.top_rg 1 _ _ eq_refl eq_refl)
                    ltac:(cbn; lia))).
  - exact (proj1 (proj1 (proj2 (@short_read_is_detected
                                  Fixture.top_file
                                  {| Parquet.num_rows := 4;
                                     Parquet.chunks :=
                                       Parquet.chunks Fixture.top_rg |} 1
                                  _ _ eq_refl eq_refl))
                    ltac:(cbn; lia))).
Defined.

(** ** The columns of a top or trade batch are aligned *)

(** The rows of a row group, as (timestamp, value) pairs of one column,
    that fall into the window. *)
Definition rows_in_window (s e : Z) (ts_all col_all : list Z)
  : list (Z * Z) :=
  filter (fun p => in_window s e (fst p)) (combine ts_all col_all).

Lemma scatter_rows s e : forall ts_all tmp,
  length tmp = length ts_all ->
  combine (filter (in_window s e) ts_all) (scatter s e ts_all tmp)
  = rows_in_window s e ts_all tmp
  /\ length (scatter s e ts_all tmp)
     = length (filter (in_window s e) ts_all).
Proof.
  unfold rows_in_window.
  induction ts_all as [|t ts_all IH]; intros [|x tmp] H; try discriminate H.
  - auto.
  - cbn [scatter filter combine fst]. injection H as H.
    destruct (IH tmp H) as [IH1 IH2].
    destruct (in_window s e t); cbn [combine length]; rewrite ?IH1, ?IH2; auto.
Qed.

(** One column of a batch that was cut out of the row group [rg]: a column
    that is not selected is left empty; a selected one was read whole with
    the required-column reader and holds, row by row, the values that go
    with the timestamps kept. *)
Definition column_of (is_bool : bool) (f : Parquet.File)
    (rg : Parquet.RowGroup) (s e : Z) (ts_all : list Z)
    (selected : bool) (name : string) (v : list Z) : Prop :=
  if selected then
    exists tmp,
      (if is_bool
       then read_required_bool_column f rg
              (find_col_idx (Parquet.schema f) name)
       else read_required_i64_column f rg
              (find_col_idx (Parquet.schema f) name)) = Ok tmp
      /\ combine (filter (in_window s e) ts_all) v
         = rows_in_window s e ts_all tmp
      /\ length v = length (filter (in_window s e) ts_all)
  else v = [].

Lemma read_and_scatter_column kind is_bool f rg s e ts_all selected name v :
  length ts_all = Parquet.num_rows rg ->
  read_and_scatter kind is_bool f rg s e ts_all selected name = Ok v ->
  column_of is_bool f rg s e ts_all selected name v.
Proof.
  intros L. unfold read_and_scatter, column_of.
  destruct selected; [|intros H; injection H as <-; reflexivity].
  destruct (find_col_idx (Parquet.schema f) name <? 0); [discriminate|].
  intros H. apply bind_Ok in H. destruct H as (tmp & E & H).
  injection H as <-. exists tmp. split; [exact E|].
  apply scatter_rows. rewrite L.
  destruct is_bool; eapply read_required_column_length; exact E.
Qed.

(** The length a column vector of a batch of [n] rows has. *)
Definition column_length (selected : bool) (n : nat) (v : list Z) : Prop :=
  length v = if selected then n else 0%nat.

Lemma column_of_length is_bool f rg s e ts_all selected name v :
  column_of is_bool f rg s e ts_all selected name v ->
  column_length selected (length (filter (in_window s e) ts_all)) v.
Proof.
  unfold column_of, column_length. destruct selected.
  - intros (tmp & _ & _ & L). exact L.
  - intros ->. reflexivity.
Qed.

(** What the caller sees of a column: a null pointer when the column is
    not selected, else a vector with one value per row of the batch. *)
Definition column_view (selected : bool) (n : nat) (p : option (list Z))
  : Prop :=
  match p with
  | Some l => selected = true /\ length l = n
  | None => selected = false
  end.

Lemma ptr_column_view selected n v :
  column_length selected n v -> column_view selected n (ptr selected v).
Proof.
  unfold column_length, column_view, ptr. destruct selected; auto.
Qed.

Lemma skipn_cons_nth {A : Type} (l : list A) : forall i x rest,
  skipn i l = x :: rest ->
  nth_error l i = Some x /\ skipn (S i) l = rest.
Proof.
  induction l as [|y l IH]; intros [|i] x rest H; cbn in H; try discriminate.
  - injection H as -> ->. auto.
  - apply IH in H. exact H.
Qed.

(** The batch [b] holds the rows of [rg] that are in the window. *)
Definition top_cut (f : Parquet.File) (rg : Parquet.RowGroup) (s e : Z)
    (sel : Top.Select) (b : Top.Bufs) : Prop :=
  exists ts_all,
    read_required_i64_column f rg (find_col_idx (Parquet.schema f) "ts")
    = Ok ts_all
    /\ Top.ts_ b = filter (in_window s e) ts_all
    /\ Top.ts_ b <> []
    /\ let col := column_of false f rg s e ts_all in
       col (Top.ask_px sel) "ask_px" (Top.apx_ b)
       /\ col (Top.ask_qty sel) "ask_qty" (Top.aq_ b)
       /\ col (Top.bid_px sel) "bid_px" (Top.bpx_ b)
       /\ col (Top.bid_qty sel) "bid_qty" (Top.bq_ b)
       /\ col (Top.valu sel) "valu" (Top.val_ b)
       /\ col (Top.min_bid_px sel) "min_bid_px" (Top.min_bpx_ b)
       /\ col (Top.max_bid_px sel) "max_bid_px" (Top.max_bpx_ b)
       /\ col (Top.min_ask_px sel) "min_ask_px" (Top.min_apx_ b)
       /\ col (Top.max_ask_px sel) "max_ask_px" (Top.max_apx_ b)
       /\ col (Top.min_bid_ts sel) "min_bid_ts" (Top.min_bts_ b)
       /\ col (Top.max_bid_ts sel) "max_bid_ts" (Top.max_bts_ b)
       /\ col (Top.min_ask_ts sel) "min_ask_ts" (Top.min_ats_ b)
       /\ col (Top.max_ask_ts sel) "max_ask_ts" (Top.max_ats_ b).

Definition top_aligned (sel : Top.Select) (b : Top.Bufs) : Prop :=
  let n := length (Top.ts_ b) in
  column_length (Top.ask_px sel) n (Top.apx_ b)
  /\ column_length (Top.ask_qty sel) n (Top.aq_ b)
  /\ column_length (Top.bid_px sel) n (Top.bpx_ b)
  /\ column_length (Top.bid_qty sel) n (Top.bq_ b)
  /\ column_length (Top.valu sel) n (Top.val_ b)
  /\ column_length (Top.min_bid_px sel) n (Top.min_bpx_ b)
  /\ column_length (Top.max_bid_px sel) n (Top.max_bpx_ b)
  /\ column_length (Top.min_ask_px sel) n (Top.min_apx_ b)
  /\ column_length (Top.max_ask_px sel) n (Top.max_apx_ b)
  /\ column_length (Top.min_bid_ts sel) n (Top.min_bts_ b)
  /\ column_length (Top.max_bid_ts sel) n (Top.max_bts_ b)
  /\ column_length (Top.min_ask_ts sel) n (Top.min_ats_ b)
  /\ column_length (Top.max_ask_ts sel) n (Top.max_ats_ b).

Lemma top_cut_aligned f rg s e sel b :
  top_cut f rg s e sel b -> top_aligned sel b.
Proof.
  intros (ts_all & _ & Ets & _ & C). cbn zeta in C. unfold top_aligned.
  cbn zeta. rewrite Ets.
  repeat match goal with
         | H : _ /\ _ |- _ => destruct H
         end.
  repeat split; eapply column_of_length; eassumption.
Qed.

Lemma top_next_rg_from_cut f s e sel : forall rgs i b i' b',
  skipn i (Parquet.row_groups f) = rgs ->
  Top.next_rg_from f rgs i s e sel b = Ok (true, i', b') ->
  (i < i')%nat
  /\ exists rg, nth_error (Parquet.row_groups f) (pred i') = Some rg
                /\ top_cut f rg s e sel b'.
Proof.
  induction rgs as [|rg rgs IH]; intros i b i' b' Hsk H;
    cbn [Top.next_rg_from] in H; [discriminate|].
  destruct (skipn_cons_nth _ _ Hsk) as [Hn Hsk'].
  destruct (find_col_idx (Parquet.schema f) "ts" <? 0); [discriminate|].
  apply bind_Ok in H. destruct H as (ts_all & Ets & H).
  pose proof (read_required_column_length _ _ _ _ Ets) as L.
  destruct (length (filter (in_window s e) ts_all) =? 0)%nat eqn:Hc.
  - destruct (@IH _ _ _ _ Hsk' H) as (Hi & rg' & Hn' & Hcut).
    split; [lia|]. eauto.
  - apply bind_Ok in H. destruct H as (v1 & E1 & H).
    apply bind_Ok in H. destruct H as (v2 & E2 & H).
    apply bind_Ok in H. destruct H as (v3 & E3 & H).
    apply bind_Ok in H. destruct H as (v4 & E4 & H).
    apply bind_Ok in H. destruct H as (v5 & E5 & H).
    apply bind_Ok in H. destruct H as (v6 & E6 & H).
    apply bind_Ok in H. destruct H as (v7 & E7 & H).
    apply bind_Ok in H. destruct H as (v8 & E8 & H).
    apply bind_Ok in H. destruct H as (v9 & E9 & H).
    apply bind_Ok in H. destruct H as (v10 & E10 & H).
    apply bind_Ok in H. destruct H as (v11 & E11 & H).
    apply bind_Ok in H. destruct H as (v12 & E12 & H).
    apply bind_Ok in H. destruct H as (v13 & E13 & H).
    injection H as <- <-. split; [lia|].
    exists rg. cbn [pred]. split; [exact Hn|].
    exists ts_all. cbn [Top.ts_ Top.apx_ Top.aq_ Top.bpx_ Top.bq_ Top.val_
                          Top.min_bpx_ Top.max_bpx_ Top.min_apx_
                          Top.max_apx_ Top.min_bts_ Top.max_bts_
                          Top.min_ats_ Top.max_ats_].
    split; [exact Ets|]. split; [reflexivity|].
    split; [apply filter_nonempty; exact Hc|].
    cbn zeta.
    repeat split; eapply read_and_scatter_column; eassumption.
Qed.

Lemma top_next_rg_aligned s e sel fs b fs' b' :
  Top.next_rg s e sel fs b = Ok (true, fs', b') ->
  Top.ts_ b' <> [] /\ (windowed s e (Top.ts_ b') /\ top_aligned sel b').
Proof.
  intros H. pose proof (top_next_rg_true _ _ _ _ _ H) as [Hne Hw].
  split; [exact Hne|]. split; [exact Hw|].
  unfold Top.next_rg in H.
  apply bind_Ok in H. destruct H as ([[ok i] b1] & E & H).
  injection H as -> <- <-.
  destruct (@top_next_rg_from_cut _ _ _ _ _ _ _ _ _ eq_refl E) as (_ & rg & _ & Hcut).
  eapply top_cut_aligned. exact Hcut.
Qed.

(** X8.  A top batch is cut out of one row group and its columns are
    aligned.  When [next_rg] returns [true] it has advanced to the row
    group just before the new [rg_idx]; the timestamps of the batch are
    the timestamps of that row group that lie in the window, in row order
    and at least one; every selected column holds, row by row, the values
    of that row group that go with those timestamps, and every column not
    selected is empty.  Hence in every batch that [next] delivers a
    selected column has exactly [n] values and the pointer of any other
    column is null. *)
Theorem top_columns_are_aligned :
  (forall s e sel (fs fs' : FileStreamer) b b',
      Top.next_rg s e sel fs b = Ok (true, fs', b') ->
      file fs' = file fs /\ (rg_idx fs < rg_idx fs')%nat
      /\ exists rg,
           nth_error (Parquet.row_groups (file fs)) (pred (rg_idx fs'))
           = Some rg
           /\ top_cut (file fs) rg s e sel b')
  /\ (forall disk (st st' : TopBatchReader) cerr cerr' v,
         TopBatchReader_next disk st cerr = Ok (Some v, st', cerr') ->
         let sel := sel_ st in
         let n := Top.n v in
         column_view (Top.ts sel) n (Top.view_ts v)
         /\ column_view (Top.ask_px sel) n (Top.view_ask_px v)
         /\ column_view (Top.ask_qty sel) n (Top.view_ask_qty v)
         /\ column_view (Top.bid_px sel) n (Top.view_bid_px v)
         /\ column_view (Top.bid_qty sel) n (Top.view_bid_qty v)
         /\ column_view (Top.valu sel) n (Top.view_valu v)
         /\ column_view (Top.min_bid_px sel) n (Top.view_min_bid_px v)
         /\ column_view (Top.max_bid_px sel) n (Top.view_max_bid_px v)
         /\ column_view (Top.min_ask_px sel) n (Top.view_min_ask_px v)
         /\ column_view (Top.max_ask_px sel) n (Top.view_max_ask_px v)
         /\ column_view (Top.min_bid_ts sel) n (Top.view_min_bid_ts v)
         /\ column_view (Top.max_bid_ts sel) n (Top.view_max_bid_ts v)
         /\ column_view (Top.min_ask_ts sel) n (Top.view_min_ask_ts v)
         /\ column_view (Top.max_ask_ts sel) n (Top.view_max_ask_ts v)).
Proof.
  split.
  - intros s e sel fs fs' b b' H. unfold Top.next_rg in H.
    apply bind_Ok in H. destruct H as ([[ok i] b1] & E & H).
    injection H as -> <- <-. cbn [file rg_idx].
    destruct (@top_next_rg_from_cut _ _ _ _ _ _ _ _ _ eq_refl E) as (Hi & rg & Hn & Hcut).
    split; [reflexivity|]. split; [exact Hi|]. eauto.
  - intros disk st st' cerr cerr' v E sel n.
    destruct (@next_spec _ _ _ Top.next_rg Top.ts_ Top.fill_view
                (fun s e sel b => windowed s e (Top.ts_ b)
                                  /\ top_aligned sel b)
                top_next_rg_halts top_next_rg_aligned disk st cerr)
      as (r & s1 & c1 & E' & _ & D).
    unfold TopBatchReader_next in E. rewrite E in E'.
    injection E' as <- <- <-.
    destruct D as (Hv & _ & _ & A).
    subst n. rewrite Hv. fold sel in A |- *. unfold top_aligned in A.
    cbn zeta in A.
    cbn [Top.fill_view Top.n Top.view_ts Top.view_ask_px Top.view_ask_qty
         Top.view_bid_px Top.view_bid_qty Top.view_valu
         Top.view_min_bid_px Top.view_max_bid_px Top.view_min_ask_px
         Top.view_max_ask_px Top.view_min_bid_ts Top.view_max_bid_ts
         Top.view_min_ask_ts Top.view_max_ask_ts].
    repeat match goal with
           | H : _ /\ _ |- _ => destruct H
           end.
    split.
    { unfold column_view, ptr. destruct (Top.ts sel); auto. }
    repeat split; apply ptr_column_view; assumption.
Qed.

Lemma top_columns_are_aligned_witness :
  column_view true (Top.n FixtureRuns.top_view)
    (Top.view_ask_px FixtureRuns.top_view)
  /\ column_view false (Top.n FixtureRuns.top_view)
       (Top.view_min_bid_px FixtureRuns.top_view).
Proof.
  pose proof (proj2 top_columns_are_aligned Fixture.disk Fixture.top_reader
                FixtureRuns.top_after [] [] FixtureRuns.top_view top_run)
    as H.
  cbn zeta in H.
  destruct H as (_ & H1 & _ & _ & _ & _ & H6 & _).
  split; [exact H1 | exact H6].
Defined.

Definition trade_cut (f : Parquet.File) (rg : Parquet.RowGroup) (s e : Z)
    (sel : Trade.Select) (b : Trade.Bufs) : Prop :=
  exists ts_all,
    read_required_i64_column f rg (find_col_idx (Parquet.schema f) "ts")
    = Ok ts_all
    /\ Trade.ts_ b = filter (in_window s e) ts_all
    /\ Trade.ts_ b <> []
    /\ let i64 := column_of false f rg s e ts_all in
       let bool_ := column_of true f rg s e ts_all in
       i64 (Trade.px sel) "px" (Trade.px_ b)
       /\ i64 (Trade.qty sel) "qty" (Trade.qty_ b)
       /\ i64 (Trade.tradeId sel) "tradeId" (Trade.tid_ b)
       /\ i64 (Trade.buyerOrderId sel) "buyerOrderId" (Trade.boid_ b)
       /\ i64 (Trade.sellerOrderId sel) "sellerOrderId" (Trade.soid_ b)
       /\ i64 (Trade.tradeTime sel) "tradeTime" (Trade.ttime_ b)
       /\ bool_ (Trade.isMarket sel) "isMarket" (Trade.isMkt_ b)
       /\ i64 (Trade.eventTime sel) "eventTime" (Trade.evt_ b).

Definition trade_aligned (sel : Trade.Select) (b : Trade.Bufs) : Prop :=
  let n := length (Trade.ts_ b) in
  column_length (Trade.px sel) n (Trade.px_ b)
  /\ column_length (Trade.qty sel) n (Trade.qty_ b)
  /\ column_length (Trade.tradeId sel) n (Trade.tid_ b)
  /\ column_length (Trade.buyerOrderId sel) n (Trade.boid_ b)
  /\ column_length (Trade.sellerOrderId sel) n (Trade.soid_ b)
  /\ column_length (Trade.tradeTime sel) n (Trade.ttime_ b)
  /\ column_length (Trade.isMarket sel) n (Trade.isMkt_ b)
  /\ column_length (Trade.eventTime sel) n (Trade.evt_ b).

Lemma trade_cut_aligned f rg s e sel b :
  trade_cut f rg s e sel b -> trade_aligned sel b.
Proof.
  intros (ts_all & _ & Ets & _ & C). cbn zeta in C. unfold trade_aligned.
  cbn zeta. rewrite Ets.
  repeat match goal with
         | H : _ /\ _ |- _ => destruct H
         end.
  repeat split; eapply column_of_length; eassumption.
Qed.

Lemma trade_next_rg_from_cut f s e sel : forall rgs i b i' b',
  skipn i (Parquet.row_groups f) = rgs ->
  Trade.next_rg_from f rgs i s e sel b = Ok (true, i', b') ->
  (i < i')%nat
  /\ exists rg, nth_error (Parquet.row_groups f) (pred i') = Some rg
                /\ trade_cut f rg s e sel b'.
Proof.
  induction rgs as [|rg rgs IH]; intros i b i' b' Hsk H;
    cbn [Trade.next_rg_from] in H; [discriminate|].
  destruct (skipn_cons_nth _ _ Hsk) as [Hn Hsk'].
  destruct (find_col_idx (Parquet.schema f) "ts" <? 0); [discriminate|].
  apply bind_Ok in H. destruct H as (ts_all & Ets & H).
  pose proof (read_required_column_length _ _ _ _ Ets) as L.
  destruct (length (filter (in_window s e) ts_all) =? 0)%nat eqn:Hc.
  - destruct (@IH _ _ _ _ Hsk' H) as (Hi & rg' & Hn' & Hcut).
    split; [lia|]. eauto.
  - apply bind_Ok in H. destruct H as (v1 & E1 & H).
    apply bind_Ok in H. destruct H as (v2 & E2 & H).
    apply bind_Ok in H. destruct H as (v3 & E3 & H).
    apply bind_Ok in H. destruct H as (v4 & E4 & H).
    apply bind_Ok in H. destruct H as (v5 & E5 & H).
    apply bind_Ok in H. destruct H as (v6 & E6 & H).
    apply bind_Ok in H. destruct H as (v7 & E7 & H).
    apply bind_Ok in H. destruct H as (v8 & E8 & H).
    injection H as <- <-. split; [lia|].
    exists rg. cbn [pred]. split; [exact Hn|].
    exists ts_all. cbn [Trade.ts_ Trade.px_ Trade.qty_ Trade.tid_
                          Trade.boid_ Trade.soid_ Trade.ttime_
                          Trade.isMkt_ Trade.evt_].
    split; [exact Ets|]. split; [reflexivity|].
    split; [apply filter_nonempty; exact Hc|].
    cbn zeta.
    repeat split; eapply read_and_scatter_column; eassumption.
Qed.

Lemma trade_next_rg_aligned s e sel fs b fs' b' :
  Trade.next_rg s e sel fs b = Ok (true, fs', b') ->
  Trade.ts_ b' <> [] /\ (windowed s e (Trade.ts_ b') /\ trade_aligned sel b').
Proof.
  intros H. pose proof (trade_next_rg_true _ _ _ _ _ H) as [Hne Hw].
  split; [exact Hne|]. split; [exact Hw|].
  unfold Trade.next_rg in H.
  apply bind_Ok in H. destruct H as ([[ok i] b1] & E & H).
  injection H as -> <- <-.
  destruct (@trade_next_rg_from_cut _ _ _ _ _ _ _ _ _ eq_refl E)
    as (_ & rg & _ & Hcut).
  eapply trade_cut_aligned. exact Hcut.
Qed.

(** X9.  A trade batch is cut out of one row group and its columns are
    aligned, the [isMarket] flags read with the bool reader included: the
    timestamps are those of the row group that lie in the window, every
    selected column holds row by row the values that go with them, a
    column not selected is empty; in every batch that [next] delivers a
    selected column has exactly [n] values and the pointer of any other
    column is null. *)
Theorem trade_columns_are_aligned :
  (forall s e sel (fs fs' : FileStreamer) b b',
      Trade.next_rg s e sel fs b = Ok (true, fs', b') ->
      file fs' = file fs /\ (rg_idx fs < rg_idx fs')%nat
      /\ exists rg,
           nth_error (Parquet.row_groups (file fs)) (pred (rg_idx fs'))
           = Some rg
           /\ trade_cut (file fs) rg s e sel b')
  /\ (forall disk (st st' : TradeBatchReader) cerr cerr' v,
         TradeBatchReader_next disk st cerr = Ok (Some v, st', cerr') ->
         let sel := sel_ st in
         let n := Trade.n v in
         column_view (Trade.ts sel) n (Trade.view_ts v)
         /\ column_view (Trade.px sel) n (Trade.view_px v)
         /\ column_view (Trade.qty sel) n (Trade.view_qty v)
         /\ column_view (Trade.tradeId sel) n (Trade.view_tradeId v)
         /\ column_view (Trade.buyerOrderId sel) n
              (Trade.view_buyerOrderId v)
         /\ column_view (Trade.sellerOrderId sel) n
              (Trade.view_sellerOrderId v)
         /\ column_view (Trade.tradeTime sel) n (Trade.view_tradeTime v)
         /\ column_view (Trade.isMarket sel) n (Trade.view_isMarket v)
         /\ column_view (Trade.eventTime sel) n (Trade.view_eventTime v)).
Proof.
  split.
  - intros s e sel fs fs' b b' H. unfold Trade.next_rg in H.
    apply bind_Ok in H. destruct H as ([[ok i] b1] & E & H).
    injection H as -> <- <-. cbn [file rg_idx].
    destruct (@trade_next_rg_from_cut _ _ _ _ _ _ _ _ _ eq_refl E)
      as (Hi & rg & Hn & Hcut).
    split; [reflexivity|]. split; [exact Hi|]. eauto.
  - intros disk st st' cerr cerr' v E sel n.
    destruct (@next_spec _ _ _ Trade.next_rg Trade.ts_ Trade.fill_view
                (fun s e sel b => windowed s e (Trade.ts_ b)
                                  /\ trade_aligned sel b)
                trade_next_rg_halts trade_next_rg_aligned disk st cerr)
      as (r & s1 & c1 & E' & _ & D).
    unfold TradeBatchReader_next in E. rewrite E in E'.
    injection E' as <- <- <-.
    destruct D as (Hv & _ & _ & A).
    subst n. rewrite Hv. fold sel in A |- *. unfold trade_aligned in A.
    cbn zeta in A.
    cbn [Trade.fill_view Trade.n Trade.view_ts Trade.view_px
         Trade.view_qty Trade.view_tradeId Trade.view_buyerOrderId
         Trade.view_sellerOrderId Trade.view_tradeTime
         Trade.view_isMarket Trade.view_eventTime].
    repeat match goal with
           | H : _ /\ _ |- _ => destruct H
           end.
    split.
    { unfold column_view, ptr. destruct (Trade.ts sel); auto. }
    repeat split; apply ptr_column_view; assumption.
Qed.

Lemma trade_columns_are_aligned_witness :
  exists v st',
    TradeBatchReader_next Fixture.disk Fixture.trade_reader []
    = Ok (Some v, st', [])
    /\ column_view true (Trade.n v) (Trade.view_isMarket v).
Proof.
  assert (G : match TradeBatchReader_next Fixture.disk
                      Fixture.trade_reader [] with
              | Ok (Some _, _, []) => True
              | _ => False
              end) by (vm_compute; exact I).
  destruct (TradeBatchReader_next Fixture.disk Fixture.trade_reader [])
    as [[[[v|] st'] [|w ws]]| |] eqn:E; try contradiction.
  exists v, st'. split; [reflexivity|].
  pose proof (proj2 trade_columns_are_aligned Fixture.disk
                Fixture.trade_reader st' [] [] v E) as A.
  cbn zeta in A. destruct A as (_ & _ & _ & _ & _ & _ & _ & A & _).
  exact A.
Defined.

(** ** The scalar columns of a depth batch *)

(** The values of the first [n] cells of a column whose entries are [es];
    a cell past the end of the column reads as the default entry, whose
    value is 0. *)
Fixpoint cells (n : nat) (es : list Entry) : list Z :=
  match n with
  | O => []
  | S n' =>
      match es with
      | [] => 0 :: cells n' []
      | e :: es' => value e :: cells n' es'
      end
  end.

(** The cursor [c] stands before the entries [es], which end the column. *)
Definition holds (c : Int64Cursor) (es : list Entry) : Prop :=
  cursor_wf c /\ stream c = (es, Eos).

Definition opt_holds (c : option Int64Cursor) (es : list Entry) : Prop :=
  match c with
  | Some c => holds c es
  | None => True
  end.

Lemma take_cell c es e c' :
  holds c es -> take c = Ok (e, c') ->
  holds c' (tl es) /\ cells 1 es = [value e].
Proof.
  intros [W Hs] H. destruct es as [|x es].
  - destruct (take_eos W Hs) as (c1 & E & W1 & Hs1).
    rewrite E in H. injection H as <- <-. split; [split; assumption|].
    reflexivity.
  - destruct (take_cons W Hs) as (c1 & E & W1 & Hs1).
    rewrite E in H. injection H as <- <-. split; [split; assumption|].
    reflexivity.
Qed.

Lemma take_opt_cell c es e c' :
  opt_holds c es -> Delta.take_opt c = Ok (e, c') ->
  opt_holds c' (tl es) /\ engaged c' = engaged c
  /\ (engaged c = true -> cells 1 es = [value e]).
Proof.
  destruct c as [c|]; cbn [opt_holds Delta.take_opt engaged].
  - intros Hh H. apply bind_Ok in H. destruct H as ([e1 c1] & E & H).
    injection H as <- <-. destruct (@take_cell _ _ _ _ Hh E) as [Hh' Hc].
    cbn [opt_holds engaged]. auto.
  - intros _ H. injection H as <- <-. cbn. split; [exact I|].
    split; [reflexivity | discriminate].
Qed.

Lemma cells_S n es : cells (S n) es = cells 1 es ++ cells n (tl es).
Proof. destruct es; reflexivity. Qed.

Definition scalars_match (sel : Delta.Select) (cs : Delta.Cursors) : Prop :=
  engaged (Delta.c_fid cs) = Delta.firstId sel
  /\ engaged (Delta.c_lid cs) = Delta.lastId sel
  /\ engaged (Delta.c_evt cs) = Delta.eventTime sel.

(** The vector a scalar column adds to over the rows whose timestamps are
    [ts]: nothing when it is not selected, else its cells at the rows in
    the window. *)
Definition scalar_cut (selected : bool) (s e : Z) (ts col : list Z)
  : list Z :=
  if selected then kept s e ts col else [].

Lemma scalar_cut_app selected s e t ts x col :
  scalar_cut selected s e (t :: ts) (x :: col)
  = (if in_window s e t then Delta.push_if selected [] x else [])
    ++ scalar_cut selected s e ts col.
Proof.
  unfold scalar_cut, Delta.push_if. destruct selected; cbn [kept].
  - destruct (in_window s e t); reflexivity.
  - destruct (in_window s e t); reflexivity.
Qed.

Lemma push_if_app selected v x :
  Delta.push_if selected v x = v ++ Delta.push_if selected [] x.
Proof.
  unfold Delta.push_if. destruct selected; [reflexivity|].
  rewrite app_nil_r. reflexivity.
Qed.

Lemma length_cells n : forall es, length (cells n es) = n.
Proof.
  induction n as [|n IH]; intros es; [reflexivity|].
  destruct es; cbn [cells length]; rewrite IH; reflexivity.
Qed.

Lemma rows_loop_scalars s e sel : forall n cs b cs' b' tsl fl ll el,
  holds (Delta.c_ts cs) tsl ->
  opt_holds (Delta.c_fid cs) fl -> opt_holds (Delta.c_lid cs) ll ->
  opt_holds (Delta.c_evt cs) el ->
  scalars_match sel cs ->
  Delta.rows_loop n s e sel cs b = Ok (cs', b') ->
  Delta.ts_ b' = Delta.ts_ b ++ filter (in_window s e) (cells n tsl)
  /\ Delta.fid_ b'
     = Delta.fid_ b
       ++ scalar_cut (Delta.firstId sel) s e (cells n tsl) (cells n fl)
  /\ Delta.lid_ b'
     = Delta.lid_ b
       ++ scalar_cut (Delta.lastId sel) s e (cells n tsl) (cells n ll)
  /\ Delta.evt_ b'
     = Delta.evt_ b
       ++ scalar_cut (Delta.eventTime sel) s e (cells n tsl) (cells n el).
Proof.
  induction n as [|n IH]; intros cs b cs' b' tsl fl ll el Ht Hf Hl He M H.
  - cbn [Delta.rows_loop] in H. injection H as <- <-.
    unfold scalar_cut. cbn [cells filter kept].
    destruct (Delta.firstId sel), (Delta.lastId sel), (Delta.eventTime sel);
      rewrite ?app_nil_r; auto.
  - cbn [Delta.rows_loop] in H.
    apply bind_Ok in H. destruct H as ([cs1 b1] & Estep & H).
    destruct (row_step_inv _ _ _ _ _ Estep)
      as (e_ts & ts & e_fid & fid & e_lid & lid & e_evt & evt
          & na & apx & aqty & v_apx & v_aqty & nb & bpx & bqty
          & v_bpx & v_bqty & E1 & E2 & E3 & E4 & _ & _ & Ecs & Eb).
    destruct M as (Mf & Ml & Me).
    destruct (@take_cell _ _ _ _ Ht E1) as [Ht' Ct].
    destruct (@take_opt_cell _ _ _ _ Hf E2) as (Hf' & Ef & Cf).
    destruct (@take_opt_cell _ _ _ _ Hl E3) as (Hl' & El & Cl).
    destruct (@take_opt_cell _ _ _ _ He E4) as (He' & Ee & Ce).
    subst cs1.
    assert (G := IH {| Delta.c_ts := ts; Delta.c_fid := fid;
                       Delta.c_lid := lid; Delta.c_evt := evt;
                       Delta.c_apx := apx; Delta.c_aqty := aqty;
                       Delta.c_bpx := bpx; Delta.c_bqty := bqty |}
                   b1 cs' b' (tl tsl) (tl fl) (tl ll) (tl el)
                   Ht' Hf' Hl' He').
    assert (M1 : scalars_match sel
                   {| Delta.c_ts := ts; Delta.c_fid := fid;
                      Delta.c_lid := lid; Delta.c_evt := evt;
                      Delta.c_apx := apx; Delta.c_aqty := aqty;
                      Delta.c_bpx := bpx; Delta.c_bqty := bqty |}).
    { unfold scalars_match. cbn. repeat split; congruence. }
    specialize (G M1 H).
    destruct G as (G1 & G2 & G3 & G4).
    assert (Step : forall selected (c : option Int64Cursor) col x,
               engaged c = selected ->
               (engaged c = true -> cells 1 col = [x]) ->
               scalar_cut selected s e (cells (S n) tsl) (cells (S n) col)
               = (if in_window s e (value e_ts)
                  then Delta.push_if selected [] x else [])
                 ++ scalar_cut selected s e (cells n (tl tsl))
                      (cells n (tl col))).
    { intros selected c col x Hen Hc.
      rewrite (cells_S n tsl), Ct. cbn [app].
      destruct selected.
      - rewrite (cells_S n col), (Hc Hen). cbn [app].
        apply scalar_cut_app.
      - unfold scalar_cut, Delta.push_if.
        destruct (in_window s e (value e_ts)); reflexivity. }
    rewrite (Step _ _ fl (value e_fid) Mf Cf).
    rewrite (Step _ _ ll (value e_lid) Ml Cl).
    rewrite (Step _ _ el (value e_evt) Me Ce).
    rewrite (cells_S n tsl), Ct. cbn [app filter].
    rewrite G1, G2, G3, G4, Eb. unfold in_range_of.
    destruct (in_window s e (value e_ts));
      cbn [Delta.ts_ Delta.fid_ Delta.lid_ Delta.evt_ app];
      rewrite <- ?app_assoc; cbn [app];
      rewrite ?(push_if_app _ (Delta.fid_ b)),
              ?(push_if_app _ (Delta.lid_ b)),
              ?(push_if_app _ (Delta.evt_ b)), <- ?app_assoc; auto.
Qed.

Definition scalars_aligned (sel : Delta.Select) (b : Delta.Bufs) : Prop :=
  let n := length (Delta.ts_ b) in
  column_length (Delta.firstId sel) n (Delta.fid_ b)
  /\ column_length (Delta.lastId sel) n (Delta.lid_ b)
  /\ column_length (Delta.eventTime sel) n (Delta.evt_ b).

Lemma column_length_push selected n v x :
  column_length selected n v ->
  column_length selected (S n) (Delta.push_if selected v x).
Proof.
  unfold column_length, Delta.push_if. destruct selected; [|auto].
  intros H. rewrite length_app, H. cbn. lia.
Qed.

Lemma row_step_scalars s e sel cs b cs' b' :
  scalars_aligned sel b ->
  Delta.row_step s e sel cs b = Ok (cs', b') ->
  scalars_aligned sel b'.
Proof.
  intros (A1 & A2 & A3) H.
  destruct (row_step_inv _ _ _ _ _ H)
    as (e_ts & ts & e_fid & fid & e_lid & lid & e_evt & evt
        & na & apx & aqty & v_apx & v_aqty & nb & bpx & bqty
        & v_bpx & v_bqty & _ & _ & _ & _ & _ & _ & _ & ->).
  unfold scalars_aligned.
  destruct (in_range_of s e e_ts);
    cbn [Delta.ts_ Delta.fid_ Delta.lid_ Delta.evt_]; [|auto].
  rewrite length_app. cbn [length]. rewrite Nat.add_1_r.
  repeat split; apply column_length_push; assumption.
Qed.

Lemma rows_loop_scalars_aligned s e sel : forall n cs b cs' b',
  scalars_aligned sel b ->
  Delta.rows_loop n s e sel cs b = Ok (cs', b') ->
  scalars_aligned sel b'.
Proof.
  induction n as [|n IH]; intros cs b cs' b' A H; cbn [Delta.rows_loop] in H.
  - injection H as <- <-. exact A.
  - apply bind_Ok in H. destruct H as ([cs1 b1] & E & H).
    eapply IH; [|exact H]. eapply row_step_scalars; eassumption.
Qed.

Lemma scalars_aligned_cleared sel :
  scalars_aligned sel (Delta.Bufs_cleared sel).
Proof.
  unfold scalars_aligned, column_length. cbn.
  destruct (Delta.firstId sel), (Delta.lastId sel), (Delta.eventTime sel);
    auto.
Qed.

Lemma delta_next_rg_from_scalars f s e sel : forall rgs i b i' b',
  Delta.next_rg_from f rgs i s e sel b = Ok (true, i', b') ->
  scalars_aligned sel b'.
Proof.
  induction rgs as [|rg rgs IH]; intros i b i' b' H;
    cbn [Delta.next_rg_from] in H; [discriminate|].
  apply bind_Ok in H. destruct H as (cs & Eo & H).
  apply bind_Ok in H. destruct H as ([cs1 b1] & Er & H).
  pose proof (@rows_loop_scalars_aligned _ _ _ _ _ _ _ _
                (scalars_aligned_cleared sel) Er) as A.
  destruct (Delta.ts_ b1) as [|t l] eqn:Ets.
  - eapply IH. exact H.
  - injection H as <- <-. exact A.
Qed.

Lemma delta_next_rg_scalars s e sel fs b fs' b' :
  Delta.next_rg s e sel fs b = Ok (true, fs', b') ->
  Delta.ts_ b' <> [] /\ (depth_batch s e sel b' /\ scalars_aligned sel b').
Proof.
  intros H. pose proof (delta_next_rg_true _ _ _ _ _ H) as [Hne Hd].
  split; [exact Hne|]. split; [exact Hd|].
  unfold Delta.next_rg in H.
  apply bind_Ok in H. destruct H as ([[ok i] b1] & E & H).
  injection H as -> <- <-.
  eapply delta_next_rg_from_scalars. exact E.
Qed.

Lemma open_cursors_scalars f rg sel cs :
  Delta.open_cursors f rg sel = Ok cs -> scalars_match sel cs.
Proof.
  unfold Delta.open_cursors. intros H.
  apply bind_Ok in H. destruct H as (ts & _ & H).
  apply bind_Ok in H. destruct H as (fid & E1 & H).
  apply bind_Ok in H. destruct H as (lid & E2 & H).
  apply bind_Ok in H. destruct H as (evt & E3 & H).
  apply bind_Ok in H. destruct H as (apx & _ & H).
  apply bind_Ok in H. destruct H as (aqty & _ & H).
  apply bind_Ok in H. destruct H as (bpx & _ & H).
  apply bind_Ok in H. destruct H as (bqty & _ & H).
  injection H as <-. unfold scalars_match. cbn.
  apply open_if_engaged in E1, E2, E3. auto.
Qed.

(** The entries an optional cursor stands before, when it is engaged. *)
Definition opt_stream_is (c : option Int64Cursor) (es : list Entry) : Prop :=
  match c with
  | Some c => stream c = (es, Eos)
  | None => True
  end.

(** X10.  The scalar columns of a depth batch go with its timestamps row
    by row.  For a row group of [num_rows] rows whose timestamp, firstId,
    lastId and eventTime columns hold the entries [tsl], [fl], [ll] and
    [el] to their end, [next_rg] delivers the timestamps of the first
    [num_rows] cells that lie in the window and, for every selected
    scalar, its cells at those rows; a scalar that is not selected stays
    empty.  The row loop does not check the length of a column: a cell
    past the end of a column, the timestamp column included, reads as 0
    and raises nothing.  In every batch that [next] delivers, [ts] and
    each selected scalar have exactly [n] values and the pointer of a
    scalar that is not selected is null. *)
Theorem depth_scalars_go_with_their_rows :
  (forall (fs : FileStreamer) rg rgs s e sel b cs tsl fl ll el,
      skipn (rg_idx fs) (Parquet.row_groups (file fs)) = rg :: rgs ->
      Delta.open_cursors (file fs) rg sel = Ok cs ->
      stream (Delta.c_ts cs) = (tsl, Eos) ->
      opt_stream_is (Delta.c_fid cs) fl ->
      opt_stream_is (Delta.c_lid cs) ll ->
      opt_stream_is (Delta.c_evt cs) el ->
      let n := Parquet.num_rows rg in
      filter (in_window s e) (cells n tsl) <> [] ->
      returns (Delta.next_rg s e sel fs b) ->
      exists b',
        Delta.next_rg s e sel fs b
        = Ok (true, {| file := file fs; rg_idx := S (rg_idx fs) |}, b')
        /\ Delta.ts_ b' = filter (in_window s e) (cells n tsl)
        /\ Delta.fid_ b'
           = scalar_cut (Delta.firstId sel) s e (cells n tsl) (cells n fl)
        /\ Delta.lid_ b'
           = scalar_cut (Delta.lastId sel) s e (cells n tsl) (cells n ll)
        /\ Delta.evt_ b'
           = scalar_cut (Delta.eventTime sel) s e (cells n tsl)
               (cells n el))
  /\ (forall disk (st st' : DeltaBatchReader) cerr cerr' v,
         DeltaBatchReader_next disk st cerr = Ok (Some v, st', cerr') ->
         let sel := sel_ st in
         let n := Delta.n v in
         column_view (Delta.ts sel) n (Delta.view_ts v)
         /\ column_view (Delta.firstId sel) n (Delta.view_firstId v)
         /\ column_view (Delta.lastId sel) n (Delta.view_lastId v)
         /\ column_view (Delta.eventTime sel) n (Delta.view_eventTime v)).
Proof.
  split.
  - intros fs rg rgs s e sel b cs tsl fl ll el Hsk Ho Ht Hf Hl He n Hne
           [x Hx].
    pose proof (open_cursors_good (file fs) rg sel) as G.
    rewrite Ho in G. destruct G as (W1 & W2 & W3 & W4 & _).
    assert (Hf' : opt_holds (Delta.c_fid cs) fl)
      by (destruct (Delta.c_fid cs); [split; assumption | exact I]).
    assert (Hl' : opt_holds (Delta.c_lid cs) ll)
      by (destruct (Delta.c_lid cs); [split; assumption | exact I]).
    assert (He' : opt_holds (Delta.c_evt cs) el)
      by (destruct (Delta.c_evt cs); [split; assumption | exact I]).
    unfold Delta.next_rg in *. rewrite Hsk in *.
    cbn [Delta.next_rg_from] in *. rewrite Ho in *. cbn [bind] in *.
    fold n in Hx |- *.
    destruct (Delta.rows_loop n s e sel cs (Delta.Bufs_cleared sel))
      as [[cs1 b1]| |] eqn:Er; cbn [bind] in *; try discriminate.
    destruct (@rows_loop_scalars s e sel n cs _ cs1 b1 tsl fl ll el
                (conj W1 Ht) Hf' Hl' He' (open_cursors_scalars _ _ _ Ho) Er)
      as (G1 & G2 & G3 & G4).
    cbn [Delta.Bufs_cleared Delta.ts_ Delta.fid_ Delta.lid_ Delta.evt_ app]
      in G1, G2, G3, G4.
    exists b1. rewrite G1 in *.
    destruct (filter (in_window s e) (cells n tsl)); [congruence|].
    cbn [bind]. auto.
  - intros disk st st' cerr cerr' v E sel n.
    destruct (@next_spec _ _ _ Delta.next_rg Delta.ts_ Delta.fill_view
                (fun s e sel b => depth_batch s e sel b
                                  /\ scalars_aligned sel b)
                delta_next_rg_halts delta_next_rg_scalars disk st cerr)
      as (r & s1 & c1 & E' & _ & D).
    unfold DeltaBatchReader_next in E. rewrite E in E'.
    injection E' as <- <- <-.
    destruct D as (Hv & _ & _ & A).
    subst n. rewrite Hv. fold sel in A |- *.
    destruct A as (A1 & A2 & A3).
    cbn [Delta.fill_view Delta.n Delta.view_ts Delta.view_firstId
         Delta.view_lastId Delta.view_eventTime].
    split.
    { unfold column_view, ptr. destruct (Delta.ts sel); auto. }
    repeat split; apply ptr_column_view; assumption.
Qed.

(** The row group of [Fixture.depth_rg] declared with one row more than
    its columns hold. *)
Definition depth_rg_long : Parquet.RowGroup :=
  {| Parquet.num_rows := 4;
     Parquet.chunks := Parquet.chunks Fixture.depth_rg |}.

Definition depth_file_long : Parquet.File :=
  {| Parquet.schema := Fixture.depth_schema;
     Parquet.row_groups := [depth_rg_long] |}.

Lemma depth_cursors_open_long :
  Delta.open_cursors depth_file_long depth_rg_long Delta.Select_default
  = Ok FixtureRuns.depth_cursors.
Proof. exact depth_cursors_open. Qed.

Lemma depth_scalar_written (c : option Int64Cursor) (vs : list Z) :
  opt_wf c ->
  option_map stream c
  = Some (map (fun v => entry_of 0 0 (Some v)) vs, Eos) ->
  opt_stream_is c (map (fun v => entry_of 0 0 (Some v)) vs).
Proof.
  destruct c as [c|]; [|discriminate].
  cbn [option_map opt_stream_is]. intros _ H. injection H as H. exact H.
Qed.

Lemma depth_scalars_go_with_their_rows_witness :
  exists b',
    Delta.next_rg 0 Fixture.t1 Delta.Select_default
      {| file := depth_file_long; rg_idx := 0 |} Delta.Bufs_empty
    = Ok (true, {| file := depth_file_long; rg_idx := 1 |}, b')
    /\ Delta.ts_ b' = [Fixture.t0 + 5; Fixture.t0 + 6; Fixture.t0 + 7; 0]
    /\ Delta.fid_ b' = [1; 2; 3; 0]
    /\ Delta.evt_ b' = [15; 16; 17; 0].
Proof.
  destruct depth_cursors_wf as (_ & W2 & W3 & W4 & _).
  destruct (proj1 depth_scalars_go_with_their_rows
              {| file := depth_file_long; rg_idx := 0 |}
              depth_rg_long [] 0 Fixture.t1 Delta.Select_default
              Delta.Bufs_empty FixtureRuns.depth_cursors
              (map (fun v => entry_of 0 0 (Some v))
                 [Fixture.t0 + 5; Fixture.t0 + 6; Fixture.t0 + 7])
              (map (fun v => entry_of 0 0 (Some v)) [1; 2; 3])
              (map (fun v => entry_of 0 0 (Some v)) [1; 2; 3])
              (map (fun v => entry_of 0 0 (Some v)) [15; 16; 17])
              eq_refl depth_cursors_open_long depth_ts_written
              (depth_scalar_written _ [1; 2; 3] W2
                 ltac:(vm_compute; reflexivity))
              (depth_scalar_written _ [1; 2; 3] W3
                 ltac:(vm_compute; reflexivity))
              (depth_scalar_written _ [15; 16; 17] W4
                 ltac:(vm_compute; reflexivity)))
    as (b' & E & Hts & Hf & _ & He).
  - vm_compute. discriminate.
  - assert (H : FixtureRuns.is_ok
                  (Delta.next_rg 0 Fixture.t1 Delta.Select_default
                     {| file := depth_file_long; rg_idx := 0 |}
                     Delta.Bufs_empty) = true) by (vm_compute; reflexivity).
    destruct (Delta.next_rg 0 Fixture.t1 Delta.Select_default
                {| file := depth_file_long; rg_idx := 0 |}
                Delta.Bufs_empty) as [y| |];
      [exists y; reflexivity | discriminate H | discriminate H].
  - exists b'. split; [exact E|].
    split; [rewrite Hts; vm_compute; reflexivity|].
    split; [rewrite Hf; vm_compute; reflexivity|].
    rewrite He. vm_compute. reflexivity.
Defined.

(** ** The tokens of the command line *)

Lemma tolower_fixed c :
  Cli.is_lower c || Cli.isdigit c = true -> tolower c = c.
Proof.
  unfold Cli.is_lower, Cli.isdigit, tolower. intros H.
  destruct ((65 <=? nat_of_ascii c) && (nat_of_ascii c <=? 90))%nat eqn:E;
    [|reflexivity].
  exfalso.
  apply andb_true_iff in E. destruct E as [E1 E2].
  apply Nat.leb_le in E1, E2.
  apply orb_true_iff in H. destruct H as [H | H];
    apply andb_true_iff in H; destruct H as [H1 H2];
    apply Nat.leb_le in H1, H2; lia.
Qed.

Lemma tolower_idem c : tolower (tolower c) = tolower c.
Proof.
  destruct ((65 <=? nat_of_ascii c) && (nat_of_ascii c <=? 90))%nat eqn:E.
  - assert (Ht : tolower c = ascii_of_nat (nat_of_ascii c + 32))
      by (unfold tolower; rewrite E; reflexivity).
    rewrite Ht.
    apply andb_true_iff in E. destruct E as [E1 E2].
    apply Nat.leb_le in E1, E2.
    apply tolower_fixed. unfold Cli.is_lower.
    rewrite nat_ascii_embedding by lia.
    apply orb_true_iff. left. apply andb_true_iff.
    split; apply Nat.leb_le; lia.
  - assert (Ht : tolower c = c)
      by (unfold tolower; rewrite E; reflexivity).
    rewrite Ht. exact Ht.
Qed.

Lemma to_lower_idem s : to_lower (to_lower s) = to_lower s.
Proof.
  induction s as [|c s IH]; [reflexivity|].
  cbn [to_lower]. rewrite tolower_idem, IH. reflexivity.
Qed.

Lemma to_lower_app s1 s2 :
  to_lower (s1 ++ s2) = (to_lower s1 ++ to_lower s2)%string.
Proof.
  induction s1 as [|c s1 IH]; [reflexivity|].
  cbn [to_lower String.append]. rewrite IH. reflexivity.
Qed.

Lemma keep_alnum_app s1 s2 :
  Cli.keep_alnum (s1 ++ s2)
  = (Cli.keep_alnum s1 ++ Cli.keep_alnum s2)%string.
Proof.
  induction s1 as [|c s1 IH]; [reflexivity|].
  cbn [Cli.keep_alnum String.append].
  destruct (Cli.is_lower c || Cli.isdigit c); rewrite IH; reflexivity.
Qed.

(** Every character of [s] is a lower-case letter or a digit. *)
Fixpoint all_alnum (s : string) : bool :=
  match s with
  | EmptyString => true
  | String c s' => (Cli.is_lower c || Cli.isdigit c) && all_alnum s'
  end.

Lemma keep_alnum_all s : all_alnum (Cli.keep_alnum s) = true.
Proof.
  induction s as [|c s IH]; [reflexivity|]. cbn [Cli.keep_alnum].
  destruct (Cli.is_lower c || Cli.isdigit c) eqn:E; [|exact IH].
  cbn [all_alnum]. rewrite E, IH. reflexivity.
Qed.

Lemma norm_token_fixed s : all_alnum s = true -> Cli.norm_token s = s.
Proof.
  unfold Cli.norm_token. induction s as [|c s IH]; [reflexivity|].
  cbn [all_alnum]. intros H. apply andb_true_iff in H. destruct H as [Hc Hs].
  cbn [to_lower Cli.keep_alnum]. rewrite (tolower_fixed _ Hc), Hc, (IH Hs).
  reflexivity.
Qed.

(** X11.  [norm_token] yields lower-case letters and digits only and is
    idempotent; it does not see the case of a letter, nor any character
    that is neither a letter nor a digit, wherever it stands: [Ask_Px],
    [ask-px] and [ASKPX] are the same token [askpx]. *)
Theorem norm_token_ignores_case_and_punctuation :
  (forall s, all_alnum (Cli.norm_token s) = true)
  /\ (forall s, Cli.norm_token (Cli.norm_token s) = Cli.norm_token s)
  /\ (forall s s', to_lower s = to_lower s' ->
                   Cli.norm_token s = Cli.norm_token s')
  /\ (forall s1 c s2,
         Cli.is_lower (tolower c) || Cli.isdigit (tolower c) = false ->
         Cli.norm_token (s1 ++ String c s2) = Cli.norm_token (s1 ++ s2))
  /\ Cli.norm_token "Ask_Px" = "askpx"
  /\ Cli.norm_token "ask-px" = "askpx"
  /\ Cli.norm_token "ASKPX" = "askpx".
Proof.
  split; [intros s; apply keep_alnum_all|].
  split; [intros s; apply norm_token_fixed; apply keep_alnum_all|].
  split; [intros s s' H; unfold Cli.norm_token; rewrite H; reflexivity|].
  split; [|repeat split; reflexivity].
  intros s1 c s2 H. unfold Cli.norm_token.
  rewrite !to_lower_app, !keep_alnum_app. cbn [to_lower Cli.keep_alnum].
  rewrite H. reflexivity.
Qed.

Lemma norm_token_ignores_case_and_punctuation_witness :
  Cli.norm_token ("ask" ++ String "_" "px") = Cli.norm_token ("ask" ++ "px").
Proof.
  exact (proj1 (proj2 (proj2 (proj2
           norm_token_ignores_case_and_punctuation)))
           "ask" "_"%char "px" eq_refl).
Defined.

(** ** Splitting the column list *)

Fixpoint comma_free (s : string) : bool :=
  match s with
  | EmptyString => true
  | String c s' => negb (Ascii.eqb c ",") && comma_free s'
  end.

Definition nonempty (s : string) : bool := negb (Cli.is_empty s).

Lemma append_empty_r s : (s ++ "")%string = s.
Proof. induction s as [|c s IH]; [reflexivity|]. cbn. rewrite IH. reflexivity. Qed.

Lemma append_assoc s1 s2 s3 :
  ((s1 ++ s2) ++ s3)%string = (s1 ++ (s2 ++ s3))%string.
Proof.
  induction s1 as [|c s1 IH]; [reflexivity|]. cbn. rewrite IH. reflexivity.
Qed.

Lemma split_csv_loop_piece : forall p rest cur v,
  comma_free p = true ->
  Cli.split_csv_loop (p ++ rest) cur v
  = Cli.split_csv_loop rest (cur ++ p) v.
Proof.
  induction p as [|c p IH]; intros rest cur v H.
  - rewrite append_empty_r. reflexivity.
  - cbn [comma_free] in H. apply andb_true_iff in H. destruct H as [Hc Hp].
    apply negb_true_iff in Hc.
    cbn [String.append Cli.split_csv_loop]. rewrite Hc.
    rewrite (IH _ _ _ Hp), append_assoc. reflexivity.
Qed.

Lemma split_csv_loop_join : forall ps cur v,
  forallb comma_free ps = true ->
  Cli.split_csv_loop (String.concat "," ps) cur v
  = v ++ filter nonempty
           (match ps with
            | [] => [cur]
            | p :: ps' => (cur ++ p)%string :: ps'
            end).
Proof.
  induction ps as [|p ps IH]; intros cur v H.
  - cbn. unfold nonempty. destruct (Cli.is_empty cur); cbn;
      rewrite ?app_nil_r; reflexivity.
  - cbn [forallb] in H. apply andb_true_iff in H. destruct H as [Hp Hps].
    destruct ps as [|q ps].
    + cbn [String.concat].
      rewrite <- (append_empty_r p) at 1.
      rewrite (split_csv_loop_piece _ _ _ _ Hp).
      cbn. unfold nonempty. destruct (Cli.is_empty (cur ++ p)); cbn;
        rewrite ?app_nil_r; reflexivity.
    + change (String.concat "," (p :: q :: ps))
        with (p ++ String "," (String.concat "," (q :: ps)))%string.
      rewrite (split_csv_loop_piece _ _ _ _ Hp).
      cbn [Cli.split_csv_loop]. change (Ascii.eqb "," ",") with true.
      cbn iota. cbn [filter]. unfold nonempty at 1.
      destruct (Cli.is_empty (cur ++ p)) eqn:E; cbn [negb].
      * rewrite (IH _ _ Hps). cbn [filter String.append].
        destruct (cur ++ p)%string; [reflexivity | discriminate].
      * rewrite (IH _ _ Hps). cbn [String.append].
        rewrite <- app_assoc. reflexivity.
Qed.

Lemma split_csv_loop_tokens : forall s cur v,
  comma_free cur = true ->
  Forall (fun t => nonempty t = true /\ comma_free t = true) v ->
  Forall (fun t => nonempty t = true /\ comma_free t = true)
    (Cli.split_csv_loop s cur v).
Proof.
  assert (Snoc : forall cur v,
             comma_free cur = true -> Cli.is_empty cur = false ->
             Forall (fun t => nonempty t = true /\ comma_free t = true) v ->
             Forall (fun t => nonempty t = true /\ comma_free t = true)
               (v ++ [cur])).
  { intros cur v Hc He Hv. apply Forall_app. split; [exact Hv|].
    constructor; [|constructor]. unfold nonempty. rewrite He. auto. }
  assert (App : forall cur c,
             comma_free cur = true -> Ascii.eqb c "," = false ->
             comma_free (cur ++ String c "") = true).
  { induction cur as [|a cur IH]; intros c Hc Hn; cbn.
    - rewrite Hn. reflexivity.
    - cbn in Hc. apply andb_true_iff in Hc. destruct Hc as [Ha Hc].
      rewrite Ha, (IH _ Hc Hn). reflexivity. }
  induction s as [|c s IH]; intros cur v Hc Hv; cbn [Cli.split_csv_loop].
  - destruct (Cli.is_empty cur) eqn:E; [exact Hv | apply Snoc; assumption].
  - destruct (Ascii.eqb c ",") eqn:Ec.
    + destruct (Cli.is_empty cur) eqn:E.
      * apply IH; assumption.
      * apply IH; [reflexivity | apply Snoc; assumption].
    + apply IH; [apply App; assumption | exact Hv].
Qed.

(** X12.  [split_csv] splits at the commas and drops the empty fields: on
    the fields [ps] joined by commas it returns the fields that are not
    empty, in order.  Whatever the input, no token it returns is empty or
    holds a comma; an input without a non-empty field gives no token. *)
Theorem split_csv_drops_empty_fields :
  (forall ps,
      forallb comma_free ps = true ->
      Cli.split_csv (String.concat "," ps) = filter nonempty ps)
  /\ (forall s,
         Forall (fun t => nonempty t = true /\ comma_free t = true)
           (Cli.split_csv s))
  /\ Cli.split_csv "" = []
  /\ Cli.split_csv ",," = []
  /\ Cli.split_csv "ts,,ask_px," = ["ts"; "ask_px"].
Proof.
  split.
  { intros ps H. unfold Cli.split_csv.
    rewrite (split_csv_loop_join _ _ _ H). cbn [app].
    destruct ps as [|p ps]; reflexivity. }
  split.
  { intros s. apply split_csv_loop_tokens; [reflexivity | constructor]. }
  repeat split; reflexivity.
Qed.

Lemma split_csv_drops_empty_fields_witness :
  Cli.split_csv (String.concat "," [""; "ts"; ""; "bid px"])
  = ["ts"; "bid px"].
Proof.
  exact (proj1 split_csv_drops_empty_fields [""; "ts"; ""; "bid px"] eq_refl).
Defined.

(** ** Numbers on the command line *)

Fixpoint all_digits (s : string) : bool :=
  match s with
  | EmptyString => true
  | String c s' => Cli.isdigit c && all_digits s'
  end.

Fixpoint has_digit (s : string) : bool :=
  match s with
  | EmptyString => false
  | String c s' => Cli.isdigit c || has_digit s'
  end.

Definition is_sign (c : ascii) : bool := Ascii.eqb c "+" || Ascii.eqb c "-".

Lemma digit_is_not_punct c :
  Cli.isdigit c = true ->
  is_sign c = false /\ Ascii.eqb c "." = false
  /\ (Ascii.eqb c "e" || Ascii.eqb c "E") = false.
Proof.
  unfold Cli.isdigit, is_sign. intros H.
  apply andb_true_iff in H. destruct H as [H1 H2].
  apply Nat.leb_le in H1, H2.
  assert (N : forall d : ascii, (nat_of_ascii d < 48 \/ 57 < nat_of_ascii d)%nat ->
                        Ascii.eqb c d = false).
  { intros d Hd. apply Ascii.eqb_neq. intros ->. lia. }
  rewrite (N "+"%char), (N "-"%char), (N "."%char), (N "e"%char),
    (N "E"%char) by (cbn; lia).
  auto.
Qed.

Lemma number_loop_needs_digit : forall s i dot digit exp,
  Cli.is_number_like_loop s i dot digit exp = true ->
  digit = true \/ has_digit s = true.
Proof.
  induction s as [|c s IH]; intros i dot digit exp H;
    cbn [Cli.is_number_like_loop has_digit] in *.
  - left. exact H.
  - destruct (Ascii.eqb c "+" || Ascii.eqb c "-").
    { destruct (negb (i =? 0)%nat); [discriminate|].
      destruct (IH _ _ _ _ H) as [G | G]; [left; exact G|].
      right. rewrite G. apply orb_true_r. }
    destruct (Cli.isdigit c); [right; reflexivity|]. cbn [orb].
    destruct (Ascii.eqb c ".").
    { destruct dot; [discriminate|].
      destruct (IH _ _ _ _ H) as [G | G]; auto. }
    destruct (Ascii.eqb c "e" || Ascii.eqb c "E"); [|discriminate].
    destruct (exp || negb digit); [discriminate|].
    destruct (IH _ _ _ _ H) as [G | G]; [discriminate | auto].
Qed.

Lemma number_loop_late_sign : forall s1 c s2 i dot digit exp,
  is_sign c = true -> (0 < i + String.length s1)%nat ->
  Cli.is_number_like_loop (s1 ++ String c s2) i dot digit exp = false.
Proof.
  induction s1 as [|a s1 IH]; intros c s2 i dot digit exp Hc Hi.
  - cbn [String.append Cli.is_number_like_loop]. unfold is_sign in Hc.
    rewrite Hc. cbn [String.length] in Hi.
    destruct i; [lia | reflexivity].
  - cbn [String.append Cli.is_number_like_loop].
    assert (R : forall d g x,
               Cli.is_number_like_loop (s1 ++ String c s2) (S i) d g x
               = false)
      by (intros d g x; apply IH; [exact Hc | lia]).
    destruct (Ascii.eqb a "+" || Ascii.eqb a "-").
    { destruct (negb (i =? 0)%nat); [reflexivity | apply R]. }
    destruct (Cli.isdigit a); [apply R|].
    destruct (Ascii.eqb a ".").
    { destruct dot; [reflexivity | apply R]. }
    destruct (Ascii.eqb a "e" || Ascii.eqb a "E"); [|reflexivity].
    destruct (exp || negb digit); [reflexivity | apply R].
Qed.

Lemma number_loop_digits : forall ds rest i dot digit exp,
  all_digits ds = true ->
  Cli.is_number_like_loop (ds ++ rest) i dot digit exp
  = Cli.is_number_like_loop rest (i + String.length ds) dot
      (digit || nonempty ds) exp.
Proof.
  induction ds as [|c ds IH]; intros rest i dot digit exp H.
  - cbn. rewrite Nat.add_0_r, orb_false_r. reflexivity.
  - cbn [all_digits] in H. apply andb_true_iff in H. destruct H as [Hc Hd].
    destruct (digit_is_not_punct _ Hc) as (S1 & _ & _).
    unfold is_sign in S1.
    cbn [String.append Cli.is_number_like_loop String.length].
    rewrite S1, Hc, (IH _ _ _ _ _ Hd).
    rewrite Nat.add_succ_r, orb_true_r. reflexivity.
Qed.

(** X13.  What [is_number_like] takes for a number.  It accepts a string
    of decimal digits, with a sign in front, a decimal point, or an
    exponent made of digits; it accepts nothing without a digit, the empty
    string included, and nothing with a [+] or [-] after the first
    character: a signed exponent such as [1e-5] is not number-like, and
    [main] reads such an argument as the column list. *)
Theorem is_number_like_rejects_late_signs :
  (forall s, Cli.is_number_like s = true -> has_digit s = true)
  /\ (forall s1 c s2,
         is_sign c = true -> s1 <> "" ->
         Cli.is_number_like (s1 ++ String c s2) = false)
  /\ (forall c ds ds' ds'',
         is_sign c = true ->
         all_digits ds = true -> all_digits ds' = true ->
         all_digits ds'' = true -> ds <> "" -> ds'' <> "" ->
         Cli.is_number_like ds = true
         /\ Cli.is_number_like (String c ds) = true
         /\ Cli.is_number_like (ds ++ String "." ds') = true
         /\ Cli.is_number_like (ds ++ String "e" ds'') = true
         /\ Cli.is_number_like (ds ++ String "e" "") = false)
  /\ Cli.is_number_like "" = false
  /\ Cli.is_number_like "1e-5" = false
  /\ Cli.is_number_like "-1.5e5" = true.
Proof.
  split.
  { intros s H. unfold Cli.is_number_like in H.
    destruct (number_loop_needs_digit _ _ _ _ _ H); [discriminate | auto]. }
  split.
  { intros s1 c s2 Hc Hs. unfold Cli.is_number_like.
    apply number_loop_late_sign; [exact Hc|].
    destruct s1; [contradiction | cbn; lia]. }
  split; [|repeat split; reflexivity].
  intros c ds ds' ds'' Hc Hd Hd' Hd'' Hn Hn''.
  assert (Ne : forall x, x <> "" -> nonempty x = true)
    by (intros [|a x] Hx; [contradiction | reflexivity]).
  unfold Cli.is_number_like.
  split.
  { rewrite <- (append_empty_r ds), (number_loop_digits _ _ _ _ _ _ Hd).
    cbn. apply Ne. exact Hn. }
  split.
  { cbn [Cli.is_number_like_loop]. unfold is_sign in Hc. rewrite Hc.
    cbn [Nat.eqb negb].
    rewrite <- (append_empty_r ds), (number_loop_digits _ _ _ _ _ _ Hd).
    cbn. apply Ne. exact Hn. }
  split.
  { rewrite (number_loop_digits _ _ _ _ _ _ Hd).
    cbn [Cli.is_number_like_loop].
    change (Ascii.eqb "." "+" || Ascii.eqb "." "-") with false.
    change (Cli.isdigit ".") with false. change (Ascii.eqb "." ".") with true.
    cbn iota.
    rewrite <- (append_empty_r ds'), (number_loop_digits _ _ _ _ _ _ Hd').
    cbn. rewrite (Ne _ Hn). reflexivity. }
  split.
  { rewrite (number_loop_digits _ _ _ _ _ _ Hd).
    cbn [Cli.is_number_like_loop].
    change (Ascii.eqb "e" "+" || Ascii.eqb "e" "-") with false.
    change (Cli.isdigit "e") with false. change (Ascii.eqb "e" ".") with false.
    change (Ascii.eqb "e" "e" || Ascii.eqb "e" "E") with true.
    cbn iota. rewrite (Ne _ Hn). cbn [orb negb].
    rewrite <- (append_empty_r ds''), (number_loop_digits _ _ _ _ _ _ Hd'').
    cbn. apply Ne. exact Hn''. }
  rewrite (number_loop_digits _ _ _ _ _ _ Hd).
  cbn [Cli.is_number_like_loop].
  change (Ascii.eqb "e" "+" || Ascii.eqb "e" "-") with false.
  change (Cli.isdigit "e") with false. change (Ascii.eqb "e" ".") with false.
  change (Ascii.eqb "e" "e" || Ascii.eqb "e" "E") with true.
  cbn iota. rewrite (Ne _ Hn). reflexivity.
Qed.

Lemma is_number_like_rejects_late_signs_witness :
  Cli.is_number_like ("1672531200" ++ String "-" "5") = false
  /\ Cli.is_number_like ("1672531200" ++ String "." "25") = true.
Proof.
  split.
  - exact (proj1 (proj2 is_number_like_rejects_late_signs)
             "1672531200" "-"%char "5" eq_refl ltac:(discriminate)).
  - exact (proj1 (proj2 (proj2 (proj1 (proj2 (proj2
             is_number_like_rejects_late_signs))
             "-"%char "1672531200" "25" "1" eq_refl eq_refl eq_refl eq_refl
             ltac:(discriminate) ltac:(discriminate))))).
Defined.

(** ** The TYPE argument and the market it names *)

Lemma day_loop_never_throws disk root symb kind mkt ef :
  forall bound cur out w,
    day_loop disk root symb kind bound mkt cur ef out <> Throw w.
Proof.
  induction bound as [|bound IH]; intros cur out w; cbn [day_loop];
    destruct (cur <=? ef); try discriminate.
  apply IH.
Qed.

Lemma market_loop_never_throws disk root symb kind s ef :
  forall markets out w,
    market_loop disk root symb kind markets s ef out <> Throw w.
Proof.
  induction markets as [|mkt markets IH]; intros out w;
    cbn [market_loop]; [discriminate|].
  destruct (day_loop disk root symb kind
              (Z.to_nat ((ef - floor_day_ns s) / day_ns + 1)) mkt
              (floor_day_ns s) ef out) as [out'| |] eqn:E; cbn [bind].
  - apply IH.
  - exfalso. exact (day_loop_never_throws _ _ _ _ _ _ _ _ _ E).
  - discriminate.
Qed.

Lemma candidate_files_accepted disk root symb kind market s e w :
  (forall m, market = Some m -> norm_market (Some m) = Some m) ->
  candidate_files_strict disk root symb kind market s e <> Throw w.
Proof.
  intros Hm. unfold candidate_files_strict.
  destruct (e <=? s); [discriminate|].
  destruct market as [m|]; cbn [bind].
  - rewrite (Hm m eq_refl). cbn [bind]. apply market_loop_never_throws.
  - apply market_loop_never_throws.
Qed.

Definition type_names : list string :=
  ["top"; "trade"; "depth"; "top_fut"; "top_spot"; "trade_fut";
   "trade_spot"; "depth_fut"; "depth_spot"].

(** X14.  [parse_type] reads the TYPE argument without regard to case.  It
    returns one of the kinds [top], [trade], [depth] and either no market
    or one of [fut] and [spot], tokens that [norm_market] accepts
    unchanged: the readers that [main] then asks the library for are
    never refused for their market.  Any other TYPE is refused with a
    message that quotes it in lower case. *)
Theorem parse_type_names_an_accepted_market :
  (forall t base market,
      Cli.parse_type t = Ok (base, market) ->
      In (to_lower t) type_names
      /\ (base = "top" \/ base = "trade" \/ base = "depth")
      /\ (market = None \/ market = Some "fut" \/ market = Some "spot")
      /\ (forall m, market = Some m -> norm_market (Some m) = Some m)
      /\ forall disk db s e symb tsel rsel dsel w,
           get_top_cols disk db s e symb market tsel <> Throw w
           /\ get_trade_cols disk db s e symb market rsel <> Throw w
           /\ get_depth_cols disk db s e symb market dsel <> Throw w)
  /\ (forall t t', to_lower t = to_lower t' ->
                   Cli.parse_type t = Cli.parse_type t')
  /\ (forall t,
         ~ In (to_lower t) type_names ->
         Cli.parse_type t
         = Throw ("Unsupported TYPE: " ++ to_lower t
                  ++ " (use top|trade|depth or *_fut|*_spot)")%string)
  /\ Cli.parse_type "Depth_SPOT" = Ok ("depth", Some "spot")
  /\ Cli.parse_type "top" = Ok ("top", None).
Proof.
  assert (Shape : forall t base market,
             Cli.parse_type t = Ok (base, market) ->
             In (to_lower t) type_names
             /\ (base = "top" \/ base = "trade" \/ base = "depth")
             /\ (market = None \/ market = Some "fut"
                 \/ market = Some "spot")).
  { intros t base market. unfold Cli.parse_type, type_names.
    destruct (String.eqb_spec (to_lower t) "top") as [E|_].
    { cbn [orb]. intros H. injection H as <- <-. rewrite E. cbn. auto 10. }
    destruct (String.eqb_spec (to_lower t) "trade") as [E|_].
    { cbn [orb]. intros H. injection H as <- <-. rewrite E. cbn. auto 10. }
    destruct (String.eqb_spec (to_lower t) "depth") as [E|_].
    { cbn [orb]. intros H. injection H as <- <-. rewrite E. cbn. auto 10. }
    cbn [orb].
    repeat (match goal with
            | |- context [String.eqb (to_lower t) ?c] =>
                destruct (String.eqb_spec (to_lower t) c) as [E|_];
                [intros H; injection H as <- <-; rewrite E; cbn; auto 15|]
            end).
    discriminate. }
  split.
  { intros t base market H.
    destruct (Shape _ _ _ H) as (Hin & Hb & Hm).
    split; [exact Hin|]. split; [exact Hb|]. split; [exact Hm|].
    assert (Acc : forall m, market = Some m -> norm_market (Some m) = Some m).
    { intros m ->. destruct Hm as [Hm | [Hm | Hm]]; try discriminate;
        injection Hm as ->; reflexivity. }
    split; [exact Acc|].
    intros disk db s e symb tsel rsel dsel w.
    unfold get_top_cols, get_trade_cols, get_depth_cols.
    repeat split.
    - destruct (candidate_files_strict disk (root_ db) symb "top" market s e)
        as [files| |] eqn:E; cbn [bind]; try discriminate.
      exfalso. exact (candidate_files_accepted _ _ _ _ _ _ Acc E).
    - destruct (candidate_files_strict disk (root_ db) symb "trade" market
                  s e) as [files| |] eqn:E; cbn [bind]; try discriminate.
      exfalso. exact (candidate_files_accepted _ _ _ _ _ _ Acc E).
    - destruct (candidate_files_strict disk (root_ db) symb "depth" market
                  s e) as [files| |] eqn:E; cbn [bind]; try discriminate.
      exfalso. exact (candidate_files_accepted _ _ _ _ _ _ Acc E). }
  split.
  { intros t t' H. unfold Cli.parse_type. rewrite H. reflexivity. }
  split; [|split; reflexivity].
  intros t Hn. unfold Cli.parse_type, type_names in *.
  repeat (match goal with
          | |- context [String.eqb (to_lower t) ?c] =>
              destruct (String.eqb_spec (to_lower t) c) as [E|_];
              [exfalso; apply Hn; rewrite E; cbn; auto 15|]
          end).
  reflexivity.
Qed.

Lemma parse_type_names_an_accepted_market_witness :
  norm_market (Some "spot") = Some "spot"
  /\ get_depth_cols Fixture.disk Fixture.db Fixture.t0 Fixture.t1 "BTCUSDT"
       (Some "spot") Delta.Select_default
     <> Throw market_error.
Proof.
  destruct (proj1 parse_type_names_an_accepted_market "Depth_SPOT"
              "depth" (Some "spot") eq_refl)
    as (_ & _ & _ & Acc & Get).
  split; [exact (Acc "spot" eq_refl)|].
  exact (proj2 (proj2 (Get Fixture.disk Fixture.db Fixture.t0 Fixture.t1
                         "BTCUSDT" Top.Select_default Trade.Select_default
                         Delta.Select_default market_error))).
Defined.

(** ** Choosing columns by name *)

Lemma split_csv_loop_acc : forall s cur v,
  Cli.split_csv_loop s cur v = v ++ Cli.split_csv_loop s cur [].
Proof.
  induction s as [|c s IH]; intros cur v; cbn [Cli.split_csv_loop].
  - destruct (Cli.is_empty cur); [rewrite app_nil_r|]; reflexivity.
  - destruct (Ascii.eqb c ",").
    + destruct (Cli.is_empty cur); [apply IH|].
      rewrite IH, (IH _ ([] ++ [cur])), app_assoc. reflexivity.
    + apply IH.
Qed.

Lemma split_csv_loop_comma b : forall a cur v,
  Cli.split_csv_loop (a ++ String "," b) cur v
  = Cli.split_csv_loop b "" (Cli.split_csv_loop a cur v).
Proof.
  induction a as [|c a IH]; intros cur v;
    cbn [String.append Cli.split_csv_loop].
  - change (Ascii.eqb "," ",") with true. cbn iota.
    destruct cur; reflexivity.
  - destruct (Ascii.eqb c ",").
    + destruct (Cli.is_empty cur); apply IH.
    + apply IH.
Qed.

(** The tokens on both sides of a comma. *)
Lemma split_csv_comma a b :
  Cli.split_csv (a ++ String "," b) = Cli.split_csv a ++ Cli.split_csv b.
Proof.
  unfold Cli.split_csv. rewrite split_csv_loop_comma.
  apply split_csv_loop_acc.
Qed.

(** The normalized token [k] is one of [names]. *)
Definition named (names : list string) (k : string) : bool :=
  existsb (String.eqb k) names.

(** Some token of [toks] is, once normalized, one of [names]. *)
Definition chosen (names toks : list string) : bool :=
  existsb (fun t => named names (Cli.norm_token t)) toks.

Lemma chosen_comm names toks1 toks2 :
  chosen names (toks1 ++ toks2) = chosen names (toks2 ++ toks1).
Proof. unfold chosen. rewrite !existsb_app. apply orb_comm. Qed.

(** The names a token may have for each column of a depth selection. *)
Definition depth_names_ts : list string :=
  ["ts"; "time"].
Definition depth_names_firstId : list string :=
  ["firstid"; "fid"].
Definition depth_names_lastId : list string :=
  ["lastid"; "lid"].
Definition depth_names_eventTime : list string :=
  ["eventtime"; "evt"; "event"].
Definition depth_names_ask_px : list string :=
  ["askpx"; "px"; "ask"; "askprice"].
Definition depth_names_ask_qty : list string :=
  ["askqty"; "qty"; "asksize"].
Definition depth_names_bid_px : list string :=
  ["bidpx"; "bid"; "bidprice"].
Definition depth_names_bid_qty : list string :=
  ["bidqty"; "bidsize"].

Lemma depth_select_token_spec sel t :
  Cli.depth_select_token sel t =
  {|
     Delta.ts :=
       Delta.ts sel || named depth_names_ts (Cli.norm_token t);
     Delta.firstId :=
       Delta.firstId sel || named depth_names_firstId (Cli.norm_token t);
     Delta.lastId :=
       Delta.lastId sel || named depth_names_lastId (Cli.norm_token t);
     Delta.eventTime :=
       Delta.eventTime sel || named depth_names_eventTime (Cli.norm_token t);
     Delta.ask_px :=
       Delta.ask_px sel || named depth_names_ask_px (Cli.norm_token t);
     Delta.ask_qty :=
       Delta.ask_qty sel || named depth_names_ask_qty (Cli.norm_token t);
     Delta.bid_px :=
       Delta.bid_px sel || named depth_names_bid_px (Cli.norm_token t);
     Delta.bid_qty :=
       Delta.bid_qty sel || named depth_names_bid_qty (Cli.norm_token t) |}.
Proof.
  unfold Cli.depth_select_token, named,
    depth_names_ts, depth_names_firstId, depth_names_lastId,
    depth_names_eventTime, depth_names_ask_px, depth_names_ask_qty,
    depth_names_bid_px, depth_names_bid_qty.
  cbn [existsb]. cbv zeta.
  generalize (Cli.norm_token t). intros k. destruct sel.
  repeat (match goal with
          | |- context [String.eqb k ?c] =>
              destruct (String.eqb_spec k c) as [->|?];
              [cbn; rewrite ?orb_true_r, ?orb_false_r; reflexivity|]
          end).
  cbn. rewrite ?orb_false_r. reflexivity.
Qed.

Lemma depth_select_fold : forall toks sel,
  fold_left Cli.depth_select_token toks sel =
  {|
     Delta.ts := Delta.ts sel || chosen depth_names_ts toks;
     Delta.firstId := Delta.firstId sel || chosen depth_names_firstId toks;
     Delta.lastId := Delta.lastId sel || chosen depth_names_lastId toks;
     Delta.eventTime := Delta.eventTime sel || chosen depth_names_eventTime toks;
     Delta.ask_px := Delta.ask_px sel || chosen depth_names_ask_px toks;
     Delta.ask_qty := Delta.ask_qty sel || chosen depth_names_ask_qty toks;
     Delta.bid_px := Delta.bid_px sel || chosen depth_names_bid_px toks;
     Delta.bid_qty := Delta.bid_qty sel || chosen depth_names_bid_qty toks |}.
Proof.
  induction toks as [|t toks IH]; intros sel; cbn [fold_left].
  - unfold chosen. cbn [existsb]. destruct sel. cbn.
    rewrite ?orb_false_r. reflexivity.
  - rewrite IH, depth_select_token_spec. unfold chosen.
    cbn [existsb
         Delta.ts Delta.firstId Delta.lastId Delta.eventTime Delta.ask_px
         Delta.ask_qty Delta.bid_px Delta.bid_qty].
    rewrite <- ?orb_assoc. reflexivity.
Qed.

(** X15.  [make_depth_select_from_csv] selects a column exactly when some
    token of the comma-separated list is, once normalized by
    [norm_token], one of the names of that column; tokens that name no
    column are ignored, a list without a known name selects nothing, and
    the order of the tokens does not matter. *)
Theorem depth_columns_are_chosen_by_name :
  (forall csv,
      let toks := Cli.split_csv csv in
      Cli.make_depth_select_from_csv csv =
      {|
         Delta.ts := chosen depth_names_ts toks;
         Delta.firstId := chosen depth_names_firstId toks;
         Delta.lastId := chosen depth_names_lastId toks;
         Delta.eventTime := chosen depth_names_eventTime toks;
         Delta.ask_px := chosen depth_names_ask_px toks;
         Delta.ask_qty := chosen depth_names_ask_qty toks;
         Delta.bid_px := chosen depth_names_bid_px toks;
         Delta.bid_qty := chosen depth_names_bid_qty toks |})
  /\ (forall a b,
         Cli.make_depth_select_from_csv (a ++ String "," b)
         = Cli.make_depth_select_from_csv (b ++ String "," a))
  /\ Cli.make_depth_select_from_csv "ts,Ask_Px,bogus"
     = Cli.depth_set_ask_px (Cli.depth_set_ts Cli.depth_none)
  /\ Cli.make_depth_select_from_csv "bogus,," = Cli.depth_none.
Proof.
  assert (Closed : forall csv,
             Cli.make_depth_select_from_csv csv =
             {|
                Delta.ts := chosen depth_names_ts (Cli.split_csv csv);
                Delta.firstId := chosen depth_names_firstId (Cli.split_csv csv);
                Delta.lastId := chosen depth_names_lastId (Cli.split_csv csv);
                Delta.eventTime := chosen depth_names_eventTime (Cli.split_csv csv);
                Delta.ask_px := chosen depth_names_ask_px (Cli.split_csv csv);
                Delta.ask_qty := chosen depth_names_ask_qty (Cli.split_csv csv);
                Delta.bid_px := chosen depth_names_bid_px (Cli.split_csv csv);
                Delta.bid_qty := chosen depth_names_bid_qty (Cli.split_csv csv) |}).
  { intros csv. unfold Cli.make_depth_select_from_csv.
    rewrite depth_select_fold. reflexivity. }
  split; [intros csv; cbv zeta; apply Closed|].
  split; [|repeat split; reflexivity].
  intros a b. rewrite !Closed, !split_csv_comma.
  rewrite !(chosen_comm _ (Cli.split_csv a) (Cli.split_csv b)).
  reflexivity.
Qed.

(** The names a token may have for each column of a top selection. *)
Definition top_names_ts : list string :=
  ["ts"; "time"].
Definition top_names_ask_px : list string :=
  ["askpx"; "px"; "ask"; "askprice"].
Definition top_names_ask_qty : list string :=
  ["askqty"; "qty"; "asksize"].
Definition top_names_bid_px : list string :=
  ["bidpx"; "bid"; "bidprice"].
Definition top_names_bid_qty : list string :=
  ["bidqty"; "bidsize"].
Definition top_names_valu : list string :=
  ["valu"; "value"; "vol"; "volume"].
Definition top_names_min_bid_px : list string :=
  ["minbidpx"].
Definition top_names_max_bid_px : list string :=
  ["maxbidpx"].
Definition top_names_min_ask_px : list string :=
  ["minaskpx"].
Definition top_names_max_ask_px : list string :=
  ["maxaskpx"].
Definition top_names_min_bid_ts : list string :=
  ["minbidts"].
Definition top_names_max_bid_ts : list string :=
  ["maxbidts"].
Definition top_names_min_ask_ts : list string :=
  ["minaskts"].
Definition top_names_max_ask_ts : list string :=
  ["maxaskts"].

Lemma top_select_token_spec sel t :
  Cli.top_select_token sel t =
  {|
     Top.ts :=
       Top.ts sel || named top_names_ts (Cli.norm_token t);
     Top.ask_px :=
       Top.ask_px sel || named top_names_ask_px (Cli.norm_token t);
     Top.ask_qty :=
       Top.ask_qty sel || named top_names_ask_qty (Cli.norm_token t);
     Top.bid_px :=
       Top.bid_px sel || named top_names_bid_px (Cli.norm_token t);
     Top.bid_qty :=
       Top.bid_qty sel || named top_names_bid_qty (Cli.norm_token t);
     Top.valu :=
       Top.valu sel || named top_names_valu (Cli.norm_token t);
     Top.min_bid_px :=
       Top.min_bid_px sel || named top_names_min_bid_px (Cli.norm_token t);
     Top.max_bid_px :=
       Top.max_bid_px sel || named top_names_max_bid_px (Cli.norm_token t);
     Top.min_ask_px :=
       Top.min_ask_px sel || named top_names_min_ask_px (Cli.norm_token t);
     Top.max_ask_px :=
       Top.max_ask_px sel || named top_names_max_ask_px (Cli.norm_token t);
     Top.min_bid_ts :=
       Top.min_bid_ts sel || named top_names_min_bid_ts (Cli.norm_token t);
     Top.max_bid_ts :=
       Top.max_bid_ts sel || named top_names_max_bid_ts (Cli.norm_token t);
     Top.min_ask_ts :=
       Top.min_ask_ts sel || named top_names_min_ask_ts (Cli.norm_token t);
     Top.max_ask_ts :=
       Top.max_ask_ts sel || named top_names_max_ask_ts (Cli.norm_token t) |}.
Proof.
  unfold Cli.top_select_token, named,
    top_names_ts, top_names_ask_px, top_names_ask_qty, top_names_bid_px,
    top_names_bid_qty, top_names_valu, top_names_min_bid_px,
    top_names_max_bid_px, top_names_min_ask_px, top_names_max_ask_px,
    top_names_min_bid_ts, top_names_max_bid_ts, top_names_min_ask_ts,
    top_names_max_ask_ts.
  cbn [existsb]. cbv zeta.
  generalize (Cli.norm_token t). intros k. destruct sel.
  repeat (match goal with
          | |- context [String.eqb k ?c] =>
              destruct (String.eqb_spec k c) as [->|?];
              [cbn; rewrite ?orb_true_r, ?orb_false_r; reflexivity|]
          end).
  cbn. rewrite ?orb_false_r. reflexivity.
Qed.

Lemma top_select_fold : forall toks sel,
  fold_left Cli.top_select_token toks sel =
  {|
     Top.ts := Top.ts sel || chosen top_names_ts toks;
     Top.ask_px := Top.ask_px sel || chosen top_names_ask_px toks;
     Top.ask_qty := Top.ask_qty sel || chosen top_names_ask_qty toks;
     Top.bid_px := Top.bid_px sel || chosen top_names_bid_px toks;
     Top.bid_qty := Top.bid_qty sel || chosen top_names_bid_qty toks;
     Top.valu := Top.valu sel || chosen top_names_valu toks;
     Top.min_bid_px := Top.min_bid_px sel || chosen top_names_min_bid_px toks;
     Top.max_bid_px := Top.max_bid_px sel || chosen top_names_max_bid_px toks;
     Top.min_ask_px := Top.min_ask_px sel || chosen top_names_min_ask_px toks;
     Top.max_ask_px := Top.max_ask_px sel || chosen top_names_max_ask_px toks;
     Top.min_bid_ts := Top.min_bid_ts sel || chosen top_names_min_bid_ts toks;
     Top.max_bid_ts := Top.max_bid_ts sel || chosen top_names_max_bid_ts toks;
     Top.min_ask_ts := Top.min_ask_ts sel || chosen top_names_min_ask_ts toks;
     Top.max_ask_ts := Top.max_ask_ts sel || chosen top_names_max_ask_ts toks |}.
Proof.
  induction toks as [|t toks IH]; intros sel; cbn [fold_left].
  - unfold chosen. cbn [existsb]. destruct sel. cbn.
    rewrite ?orb_false_r. reflexivity.
  - rewrite IH, top_select_token_spec. unfold chosen.
    cbn [existsb
         Top.ts Top.ask_px Top.ask_qty Top.bid_px Top.bid_qty Top.valu
         Top.min_bid_px Top.max_bid_px Top.min_ask_px Top.max_ask_px
         Top.min_bid_ts Top.max_bid_ts Top.min_ask_ts Top.max_ask_ts].
    rewrite <- ?orb_assoc. reflexivity.
Qed.

(** X16.  [make_top_select_from_csv] selects a column, the sampled
    extremes included, exactly when some token of the comma-separated
    list is, once normalized by [norm_token], one of the names of that
    column; the bare names [px] and [qty] stand for the ask side; tokens
    that name no column are ignored and the order of the tokens does not
    matter. *)
Theorem top_columns_are_chosen_by_name :
  (forall csv,
      let toks := Cli.split_csv csv in
      Cli.make_top_select_from_csv csv =
      {|
         Top.ts := chosen top_names_ts toks;
         Top.ask_px := chosen top_names_ask_px toks;
         Top.ask_qty := chosen top_names_ask_qty toks;
         Top.bid_px := chosen top_names_bid_px toks;
         Top.bid_qty := chosen top_names_bid_qty toks;
         Top.valu := chosen top_names_valu toks;
         Top.min_bid_px := chosen top_names_min_bid_px toks;
         Top.max_bid_px := chosen top_names_max_bid_px toks;
         Top.min_ask_px := chosen top_names_min_ask_px toks;
         Top.max_ask_px := chosen top_names_max_ask_px toks;
         Top.min_bid_ts := chosen top_names_min_bid_ts toks;
         Top.max_bid_ts := chosen top_names_max_bid_ts toks;
         Top.min_ask_ts := chosen top_names_min_ask_ts toks;
         Top.max_ask_ts := chosen top_names_max_ask_ts toks |})
  /\ (forall a b,
         Cli.make_top_select_from_csv (a ++ String "," b)
         = Cli.make_top_select_from_csv (b ++ String "," a))
  /\ Cli.make_top_select_from_csv "px,QTY"
     = Cli.top_set_ask_qty (Cli.top_set_ask_px Cli.top_none)
  /\ Cli.make_top_select_from_csv "max_bid_ts,???"
     = Cli.top_set_max_bid_ts Cli.top_none.
Proof.
  assert (Closed : forall csv,
             Cli.make_top_select_from_csv csv =
             {|
                Top.ts := chosen top_names_ts (Cli.split_csv csv);
                Top.ask_px := chosen top_names_ask_px (Cli.split_csv csv);
                Top.ask_qty := chosen top_names_ask_qty (Cli.split_csv csv);
                Top.bid_px := chosen top_names_bid_px (Cli.split_csv csv);
                Top.bid_qty := chosen top_names_bid_qty (Cli.split_csv csv);
                Top.valu := chosen top_names_valu (Cli.split_csv csv);
                Top.min_bid_px := chosen top_names_min_bid_px (Cli.split_csv csv);
                Top.max_bid_px := chosen top_names_max_bid_px (Cli.split_csv csv);
                Top.min_ask_px := chosen top_names_min_ask_px (Cli.split_csv csv);
                Top.max_ask_px := chosen top_names_max_ask_px (Cli.split_csv csv);
                Top.min_bid_ts := chosen top_names_min_bid_ts (Cli.split_csv csv);
                Top.max_bid_ts := chosen top_names_max_bid_ts (Cli.split_csv csv);
                Top.min_ask_ts := chosen top_names_min_ask_ts (Cli.split_csv csv);
                Top.max_ask_ts := chosen top_names_max_ask_ts (Cli.split_csv csv) |}).
  { intros csv. unfold Cli.make_top_select_from_csv.
    rewrite top_select_fold. reflexivity. }
  split; [intros csv; cbv zeta; apply Closed|].
  split; [|repeat split; reflexivity].
  intros a b. rewrite !Closed, !split_csv_comma.
  rewrite !(chosen_comm _ (Cli.split_csv a) (Cli.split_csv b)).
  reflexivity.
Qed.

(** The names a token may have for each column of a trade selection. *)
Definition trade_names_ts : list string :=
  ["ts"; "time"].
Definition trade_names_px : list string :=
  ["px"; "price"].
Definition trade_names_qty : list string :=
  ["qty"; "size"; "quantity"].
Definition trade_names_tradeId : list string :=
  ["tradeid"; "tid"].
Definition trade_names_buyerOrderId : list string :=
  ["buyerorderid"; "boid"].
Definition trade_names_sellerOrderId : list string :=
  ["sellerorderid"; "soid"].
Definition trade_names_tradeTime : list string :=
  ["tradetime"; "ttime"].
Definition trade_names_isMarket : list string :=
  ["ismarket"; "market"].
Definition trade_names_eventTime : list string :=
  ["eventtime"; "evt"; "event"].

Lemma trade_select_token_spec sel t :
  Cli.trade_select_token sel t =
  {|
     Trade.ts :=
       Trade.ts sel || named trade_names_ts (Cli.norm_token t);
     Trade.px :=
       Trade.px sel || named trade_names_px (Cli.norm_token t);
     Trade.qty :=
       Trade.qty sel || named trade_names_qty (Cli.norm_token t);
     Trade.tradeId :=
       Trade.tradeId sel || named trade_names_tradeId (Cli.norm_token t);
     Trade.buyerOrderId :=
       Trade.buyerOrderId sel || named trade_names_buyerOrderId (Cli.norm_token t);
     Trade.sellerOrderId :=
       Trade.sellerOrderId sel || named trade_names_sellerOrderId (Cli.norm_token t);
     Trade.tradeTime :=
       Trade.tradeTime sel || named trade_names_tradeTime (Cli.norm_token t);
     Trade.isMarket :=
       Trade.isMarket sel || named trade_names_isMarket (Cli.norm_token t);
     Trade.eventTime :=
       Trade.eventTime sel || named trade_names_eventTime (Cli.norm_token t) |}.
Proof.
  unfold Cli.trade_select_token, named,
    trade_names_ts, trade_names_px, trade_names_qty, trade_names_tradeId,
    trade_names_buyerOrderId, trade_names_sellerOrderId,
    trade_names_tradeTime, trade_names_isMarket, trade_names_eventTime.
  cbn [existsb]. cbv zeta.
  generalize (Cli.norm_token t). intros k. destruct sel.
  repeat (match goal with
          | |- context [String.eqb k ?c] =>
              destruct (String.eqb_spec k c) as [->|?];
              [cbn; rewrite ?orb_true_r, ?orb_false_r; reflexivity|]
          end).
  cbn. rewrite ?orb_false_r. reflexivity.
Qed.

Lemma trade_select_fold : forall toks sel,
  fold_left Cli.trade_select_token toks sel =
  {|
     Trade.ts := Trade.ts sel || chosen trade_names_ts toks;
     Trade.px := Trade.px sel || chosen trade_names_px toks;
     Trade.qty := Trade.qty sel || chosen trade_names_qty toks;
     Trade.tradeId := Trade.tradeId sel || chosen trade_names_tradeId toks;
     Trade.buyerOrderId := Trade.buyerOrderId sel || chosen trade_names_buyerOrderId toks;
     Trade.sellerOrderId := Trade.sellerOrderId sel || chosen trade_names_sellerOrderId toks;
     Trade.tradeTime := Trade.tradeTime sel || chosen trade_names_tradeTime toks;
     Trade.isMarket := Trade.isMarket sel || chosen trade_names_isMarket toks;
     Trade.eventTime := Trade.eventTime sel || chosen trade_names_eventTime toks |}.
Proof.
  induction toks as [|t toks IH]; intros sel; cbn [fold_left].
  - unfold chosen. cbn [existsb]. destruct sel. cbn.
    rewrite ?orb_false_r. reflexivity.
  - rewrite IH, trade_select_token_spec. unfold chosen.
    cbn [existsb
         Trade.ts Trade.px Trade.qty Trade.tradeId Trade.buyerOrderId
         Trade.sellerOrderId Trade.tradeTime Trade.isMarket Trade.eventTime].
    rewrite <- ?orb_assoc. reflexivity.
Qed.

(** X17.  [make_trade_select_from_csv] selects a column exactly when some
    token of the comma-separated list is, once normalized by
    [norm_token], one of the names of that column; tokens that name no
    column are ignored and the order of the tokens does not matter. *)
Theorem trade_columns_are_chosen_by_name :
  (forall csv,
      let toks := Cli.split_csv csv in
      Cli.make_trade_select_from_csv csv =
      {|
         Trade.ts := chosen trade_names_ts toks;
         Trade.px := chosen trade_names_px toks;
         Trade.qty := chosen trade_names_qty toks;
         Trade.tradeId := chosen trade_names_tradeId toks;
         Trade.buyerOrderId := chosen trade_names_buyerOrderId toks;
         Trade.sellerOrderId := chosen trade_names_sellerOrderId toks;
         Trade.tradeTime := chosen trade_names_tradeTime toks;
         Trade.isMarket := chosen trade_names_isMarket toks;
         Trade.eventTime := chosen trade_names_eventTime toks |})
  /\ (forall a b,
         Cli.make_trade_select_from_csv (a ++ String "," b)
         = Cli.make_trade_select_from_csv (b ++ String "," a))
  /\ Cli.make_trade_select_from_csv "Trade-Id,market"
     = Cli.trade_set_isMarket (Cli.trade_set_tradeId Cli.trade_none)
  /\ Cli.make_trade_select_from_csv "" = Cli.trade_none.
Proof.
  assert (Closed : forall csv,
             Cli.make_trade_select_from_csv csv =
             {|
                Trade.ts := chosen trade_names_ts (Cli.split_csv csv);
                Trade.px := chosen trade_names_px (Cli.split_csv csv);
                Trade.qty := chosen trade_names_qty (Cli.split_csv csv);
                Trade.tradeId := chosen trade_names_tradeId (Cli.split_csv csv);
                Trade.buyerOrderId := chosen trade_names_buyerOrderId (Cli.split_csv csv);
                Trade.sellerOrderId := chosen trade_names_sellerOrderId (Cli.split_csv csv);
                Trade.tradeTime := chosen trade_names_tradeTime (Cli.split_csv csv);
                Trade.isMarket := chosen trade_names_isMarket (Cli.split_csv csv);
                Trade.eventTime := chosen trade_names_eventTime (Cli.split_csv csv) |}).
  { intros csv. unfold Cli.make_trade_select_from_csv.
    rewrite trade_select_fold. reflexivity. }
  split; [intros csv; cbv zeta; apply Closed|].
  split; [|repeat split; reflexivity].
  intros a b. rewrite !Closed, !split_csv_comma.
  rewrite !(chosen_comm _ (Cli.split_csv a) (Cli.split_csv b)).
  reflexivity.
Qed.


(** ** What the depth printer reads from a batch *)

(** The cells of one (price, quantity) pair as the printer sees them: a
    leg that is not selected is not read. *)
Definition pair_cells (px_sel qty_sel : bool) (pq : Z * Z)
  : option Z * option Z :=
  (if px_sel then Some (fst pq) else None,
   if qty_sel then Some (snd pq) else None).

Lemma cells_from_pairs px_sel qty_sel post : forall row pre,
  Cli.cells_from
    (ptr px_sel (if px_sel then map fst (pre ++ row ++ post) else []))
    (ptr qty_sel (if qty_sel then map snd (pre ++ row ++ post) else []))
    (length pre) (length row)
  = Some (map (pair_cells px_sel qty_sel) row).
Proof.
  induction row as [|x row IH]; intros pre; [reflexivity|].
  cbn [length Cli.cells_from map].
  assert (Hp : Cli.cell
                 (ptr px_sel
                    (if px_sel then map fst (pre ++ (x :: row) ++ post)
                     else [])) (length pre)
               = Some (fst (pair_cells px_sel qty_sel x))).
  { unfold Cli.cell, ptr, pair_cells. destruct px_sel; [|reflexivity].
    rewrite map_app, nth_error_app2 by (rewrite length_map; lia).
    rewrite length_map, Nat.sub_diag. reflexivity. }
  assert (Hq : Cli.cell
                 (ptr qty_sel
                    (if qty_sel then map snd (pre ++ (x :: row) ++ post)
                     else [])) (length pre)
               = Some (snd (pair_cells px_sel qty_sel x))).
  { unfold Cli.cell, ptr, pair_cells. destruct qty_sel; [|reflexivity].
    rewrite map_app, nth_error_app2 by (rewrite length_map; lia).
    rewrite length_map, Nat.sub_diag. reflexivity. }
  rewrite Hp, Hq.
  specialize (IH (pre ++ [x])).
  rewrite length_app, Nat.add_1_r in IH.
  replace ((pre ++ [x]) ++ row ++ post) with (pre ++ (x :: row) ++ post) in IH
    by (rewrite <- app_assoc; reflexivity).
  rewrite IH. destruct (pair_cells px_sel qty_sel x). reflexivity.
Qed.

Lemma concat_split {A : Type} : forall (ls : list (list A)) i,
  (i < length ls)%nat ->
  concat ls
  = concat (firstn i ls) ++ nth i ls [] ++ concat (skipn (S i) ls).
Proof.
  induction ls as [|l ls IH]; intros i Hi; [cbn in Hi; lia|].
  destruct i as [|i]; [reflexivity|].
  cbn [firstn nth skipn concat]. cbn [length] in Hi.
  rewrite (IH i) at 1 by lia. rewrite <- app_assoc. reflexivity.
Qed.

Lemma length_concat_firstn {A : Type} : forall (ls : list (list A)) i,
  length (concat (firstn i ls))
  = total (firstn i (map (@length A) ls)).
Proof.
  induction ls as [|l ls IH]; intros [|i]; try reflexivity.
  cbn [firstn map concat]. rewrite length_app, IH. reflexivity.
Qed.

Lemma side_cells_row need px_sel qty_sel off pxs qtys acc i :
  side_holds need px_sel qty_sel off pxs qtys acc ->
  need = true -> px_sel || qty_sel = true ->
  Z.of_nat (total (map (@length (Z * Z)) acc)) < 2 ^ 32 ->
  (i < length acc)%nat ->
  Cli.side_cells (ptr need off) (ptr px_sel pxs) (ptr qty_sel qtys) i
  = Some (map (pair_cells px_sel qty_sel) (nth i acc [])).
Proof.
  intros (Hoff & Hpx & Hqty) -> Hsel Hlt Hi.
  cbn [ptr] in *. subst off.
  set (counts := map (@length (Z * Z)) acc) in *.
  assert (Lc : length counts = length acc) by apply length_map.
  assert (Hn : forall j, (j <= length acc)%nat ->
               nth_error (offsets_for counts) j
               = Some (Z.of_nat (total (firstn j counts)))).
  { intros j Hj. unfold offsets_for.
    rewrite (nth_error_nth' _ 0)
      by (rewrite length_offsets_from; lia).
    rewrite nth_offsets_from_exact by lia. reflexivity. }
  assert (Cells :
            Cli.cells_from (ptr px_sel pxs) (ptr qty_sel qtys)
              (Z.to_nat (Z.of_nat (total (firstn i counts))))
              (Z.to_nat (Z.of_nat (total (firstn (S i) counts)))
               - Z.to_nat (Z.of_nat (total (firstn i counts))))
            = Some (map (pair_cells px_sel qty_sel) (nth i acc []))).
  { rewrite !Nat2Z.id, total_firstn_S by lia.
    replace (total (firstn i counts) + nth i counts 0
             - total (firstn i counts))%nat
      with (nth i counts 0%nat) by lia.
    subst counts.
    change 0%nat with (length (@nil (Z * Z))) at 1.
    rewrite map_nth, <- length_concat_firstn.
    rewrite Hpx, Hqty, <- !concat_map.
    rewrite (concat_split acc Hi) at 1 2.
    apply cells_from_pairs. }
  unfold Cli.side_cells.
  rewrite (Hn i) by lia. rewrite (Hn (S i)) by lia.
  destruct px_sel, qty_sel; try discriminate; exact Cells.
Qed.

(** X18.  The cells the depth printer of the CLI reads are the rows that
    were written.  On a batch whose sides hold the rows [asks] and [bids]
    (what [next_rg] delivers for a row group written with those rows),
    [render_line] reads for row [i] of a selected side, through the
    offsets, exactly the (price, quantity) pairs of the [i]-th row, the
    selected legs of them, and no cell outside the vectors.  The offsets
    are 32-bit: this holds while a side of the batch has fewer than 2^32
    elements. *)
Theorem depth_printer_reads_the_rows_written :
  forall (sel : Delta.Select) (b : Delta.Bufs)
         (asks bids : list (list (Z * Z))) (base : string),
    book_holds sel b asks bids ->
    let v := Delta.fill_view sel b base in
    (Delta.ask_px sel || Delta.ask_qty sel = true ->
     Z.of_nat (total (map (@length (Z * Z)) asks)) < 2 ^ 32 ->
     forall i, (i < length asks)%nat ->
       Cli.side_cells (Delta.view_ask_off v) (Delta.view_ask_px v)
         (Delta.view_ask_qty v) i
       = Some (map (pair_cells (Delta.ask_px sel) (Delta.ask_qty sel))
                 (nth i asks [])))
    /\ (Delta.bid_px sel || Delta.bid_qty sel = true ->
        Z.of_nat (total (map (@length (Z * Z)) bids)) < 2 ^ 32 ->
        forall i, (i < length bids)%nat ->
          Cli.side_cells (Delta.view_bid_off v) (Delta.view_bid_px v)
            (Delta.view_bid_qty v) i
          = Some (map (pair_cells (Delta.bid_px sel) (Delta.bid_qty sel))
                    (nth i bids []))).
Proof.
  intros sel b asks bids base (HA & HB). cbn zeta.
  cbn [Delta.fill_view Delta.view_ask_off Delta.view_ask_px
       Delta.view_ask_qty Delta.view_bid_off Delta.view_bid_px
       Delta.view_bid_qty].
  split; intros Hsel Hlt i Hi.
  - rewrite Hsel in *.
    exact (@side_cells_row _ _ _ _ _ _ _ i HA eq_refl Hsel Hlt Hi).
  - rewrite Hsel in *.
    exact (@side_cells_row _ _ _ _ _ _ _ i HB eq_refl Hsel Hlt Hi).
Qed.

Lemma depth_printer_reads_the_rows_written_witness :
  exists b',
    Delta.next_rg_from Fixture.depth_file [Fixture.depth_rg] 0
      Fixture.t0 Fixture.t1 Delta.Select_default Delta.Bufs_empty
    = Ok (true, 1%nat, b')
    /\ let v := Delta.fill_view Delta.Select_default b' "" in
       Cli.side_cells (Delta.view_ask_off v) (Delta.view_ask_px v)
         (Delta.view_ask_qty v) 0
       = Some [(Some 100, Some 10); (Some 101, Some 11)]
       /\ Cli.side_cells (Delta.view_ask_off v) (Delta.view_ask_px v)
            (Delta.view_ask_qty v) 1
          = Some []
       /\ Cli.side_cells (Delta.view_bid_off v) (Delta.view_bid_px v)
            (Delta.view_bid_qty v) 1
          = Some [(Some 91, Some 8)].
Proof.
  destruct (@delta_rg_written Fixture.depth_file Fixture.depth_rg [] 0%nat
              Fixture.t0 Fixture.t1 Delta.Select_default Delta.Bufs_empty
              FixtureRuns.depth_cursors
              [entry_of 0 0 (Some (Fixture.t0 + 5));
               entry_of 0 0 (Some (Fixture.t0 + 6));
               entry_of 0 0 (Some (Fixture.t0 + 7))] [] Eos
              Fixture.ask_rows Fixture.bid_rows [] []
              depth_cursors_open depth_ts_written eq_refl eq_refl eq_refl
              depth_asks_written depth_bids_written)
    as (b' & E & _ & Hb).
  - repeat constructor; unfold short_row; cbn; lia.
  - repeat constructor; unfold short_row; cbn; lia.
  - vm_compute. discriminate.
  - assert (H : FixtureRuns.is_ok
                  (Delta.next_rg_from Fixture.depth_file [Fixture.depth_rg]
                     0 Fixture.t0 Fixture.t1 Delta.Select_default
                     Delta.Bufs_empty) = true) by (vm_compute; reflexivity).
    destruct (Delta.next_rg_from Fixture.depth_file [Fixture.depth_rg]
                0 Fixture.t0 Fixture.t1 Delta.Select_default
                Delta.Bufs_empty) as [y| |];
      [exists y; reflexivity | discriminate H | discriminate H].
  - exists b'. split; [exact E|]. cbn zeta.
    destruct (@depth_printer_reads_the_rows_written Delta.Select_default b'
                _ _ "" Hb) as [HA HB].
    split; [|split].
    + exact (HA eq_refl ltac:(vm_compute; reflexivity) 0%nat
               ltac:(vm_compute; lia)).
    + exact (HA eq_refl ltac:(vm_compute; reflexivity) 1%nat
               ltac:(vm_compute; lia)).
    + exact (HB eq_refl ltac:(vm_compute; reflexivity) 1%nat
               ltac:(vm_compute; lia)).
Defined.

(** ** Batches carry the name of their file *)

(** X19.  Batches come out in candidate order and carry the name of their
    file.  For a reader as [get_top_cols], [get_trade_cols] or
    [get_depth_cols] makes it, and after any number of calls of [next]:
    a call never moves the file index back and appends at most one [WARN]
    line for each candidate it leaves behind; the [file] field of a
    delivered batch is the base name of the path of the candidate the
    index then stands at; and the state the call leaves is again one from
    which all this holds. *)
Theorem batches_name_their_file :
  (forall files s e (sel : Top.Select),
         labelled (Impl_new files s e sel Top.Bufs_empty))
  /\ (forall files s e (sel : Trade.Select),
         labelled (Impl_new files s e sel Trade.Bufs_empty))
  /\ (forall files s e (sel : Delta.Select),
         labelled (Impl_new files s e sel Delta.Bufs_empty))
  /\ (forall disk (st st' : TopBatchReader) cerr cerr' r,
         labelled st ->
         TopBatchReader_next disk st cerr = Ok (r, st', cerr') ->
         labelled st' /\ advances st cerr st' cerr'
         /\ forall v, r = Some v ->
              exists c, nth_error (files_ st) (file_idx_ st') = Some c
                        /\ Top.view_file v = filename (path c))
  /\ (forall disk (st st' : TradeBatchReader) cerr cerr' r,
         labelled st ->
         TradeBatchReader_next disk st cerr = Ok (r, st', cerr') ->
         labelled st' /\ advances st cerr st' cerr'
         /\ forall v, r = Some v ->
              exists c, nth_error (files_ st) (file_idx_ st') = Some c
                        /\ Trade.view_file v = filename (path c))
  /\ (forall disk (st st' : DeltaBatchReader) cerr cerr' r,
         labelled st ->
         DeltaBatchReader_next disk st cerr = Ok (r, st', cerr') ->
         labelled st' /\ advances st cerr st' cerr'
         /\ forall v, r = Some v ->
              exists c, nth_error (files_ st) (file_idx_ st') = Some c
                        /\ Delta.view_file v = filename (path c)).
Proof.
  split; [intros; exact I|]. split; [intros; exact I|].
  split; [intros; exact I|].
  split; [|split].
  - intros disk st st' cerr cerr' r Hl H.
    destruct (@next_labelled _ _ _ _ _ _ disk st cerr r st' cerr' Hl H)
      as (L & A & V).
    split; [exact L|]. split; [exact A|].
    intros v Hv. destruct (V v Hv) as (c & Hn & ->).
    destruct A as (F & _). rewrite <- F. exists c. auto.
  - intros disk st st' cerr cerr' r Hl H.
    destruct (@next_labelled _ _ _ _ _ _ disk st cerr r st' cerr' Hl H)
      as (L & A & V).
    split; [exact L|]. split; [exact A|].
    intros v Hv. destruct (V v Hv) as (c & Hn & ->).
    destruct A as (F & _). rewrite <- F. exists c. auto.
  - intros disk st st' cerr cerr' r Hl H.
    destruct (@next_labelled _ _ _ _ _ _ disk st cerr r st' cerr' Hl H)
      as (L & A & V).
    split; [exact L|]. split; [exact A|].
    intros v Hv. destruct (V v Hv) as (c & Hn & ->).
    destruct A as (F & _). rewrite <- F. exists c. auto.
Qed.

Lemma batches_name_their_file_witness :
  Top.view_file FixtureRuns.top_view = "bn_top_spot_BTCUSDT_2025_9_3.parquet"
  /\ advances Fixture.top_reader [] FixtureRuns.top_after [].
Proof.
  destruct (proj1 (proj2 (proj2 (proj2 batches_name_their_file)))
              Fixture.disk Fixture.top_reader FixtureRuns.top_after [] []
              (Some FixtureRuns.top_view) I top_run) as (_ & A & V).
  split; [|exact A].
  destruct (V _ eq_refl) as (c & Hn & ->).
  assert (E : file_idx_ FixtureRuns.top_after = 0%nat)
    by (vm_compute; reflexivity).
  rewrite E in Hn. cbn in Hn. injection Hn as <-. reflexivity.
Defined.

(** ** The assemblers at the end of a column *)

Lemma peek_any c :
  cursor_wf c -> fault_of (stream c) = None ->
  exists c', peek c = Ok (hd_error (fst (stream c)), c')
             /\ cursor_wf c' /\ stream c' = stream c.
Proof.
  intros W F. pose proof (peek_spec W) as H. rewrite F in H. exact H.
Qed.

(** X20.  A list column that has ended yields empty lists and no error.
    When the leaf is at its end, the single-leaf assembler returns 0 and
    appends nothing; when either leg is at its end, the paired assembler
    returns 0, appends nothing and takes nothing from the other leg,
    whatever that leg still holds.  So the rows of a depth row group
    beyond the end of a list column come out as empty lists: the row
    count is not checked against the list columns. *)
Theorem ended_list_column_gives_empty_rows :
  (forall leaf out,
      cursor_wf leaf -> stream leaf = ([], Eos) ->
      exists leaf',
        append_list_from_leaf_for_row leaf out = Ok (0, leaf', out)
        /\ cursor_wf leaf' /\ stream leaf' = ([], Eos))
  /\ (forall px qty opx oqty,
         cursor_wf px -> cursor_wf qty ->
         fault_of (stream px) = None -> fault_of (stream qty) = None ->
         fst (stream px) = [] \/ fst (stream qty) = [] ->
         exists px' qty',
           append_list_pairs_for_row_typed px qty opx oqty
           = Ok (0, (px', qty'), (opx, oqty))
           /\ cursor_wf px' /\ cursor_wf qty'
           /\ stream px' = stream px /\ stream qty' = stream qty)
  /\ (forall px qty rng v w,
         opt_wf px -> opt_wf qty ->
         opt_stream_is px [] -> opt_stream_is qty [] ->
         exists px' qty',
           Delta.side_step px qty rng v w = Ok (0, (px', qty'), (v, w))
           /\ opt_wf px' /\ opt_wf qty'
           /\ opt_stream_is px' [] /\ opt_stream_is qty' []).
Proof.
  assert (Leaf : forall leaf out,
             cursor_wf leaf -> stream leaf = ([], Eos) ->
             exists leaf',
               append_list_from_leaf_for_row leaf out = Ok (0, leaf', out)
               /\ cursor_wf leaf' /\ stream leaf' = ([], Eos)).
  { intros leaf out W Hs. unfold append_list_from_leaf_for_row.
    destruct (peek_eos W Hs) as (c1 & -> & W1 & Hs1). cbn [bind].
    exists c1. auto. }
  assert (Pairs : forall px qty opx oqty,
             cursor_wf px -> cursor_wf qty ->
             fault_of (stream px) = None -> fault_of (stream qty) = None ->
             fst (stream px) = [] \/ fst (stream qty) = [] ->
             exists px' qty',
               append_list_pairs_for_row_typed px qty opx oqty
               = Ok (0, (px', qty'), (opx, oqty))
               /\ cursor_wf px' /\ cursor_wf qty'
               /\ stream px' = stream px /\ stream qty' = stream qty).
  { intros px qty opx oqty Wp Wq Fp Fq He.
    unfold append_list_pairs_for_row_typed.
    destruct (peek_any Wp Fp) as (p1 & -> & Wp1 & Sp1). cbn [bind].
    destruct (peek_any Wq Fq) as (q1 & -> & Wq1 & Sq1). cbn [bind].
    exists p1, q1.
    destruct He as [He | He]; rewrite He; cbn [hd_error].
    - auto.
    - destruct (hd_error (fst (stream px))); auto. }
  split; [exact Leaf|]. split; [exact Pairs|].
  intros px qty rng v w Wp Wq Sp Sq. unfold Delta.side_step.
  destruct px as [p|], qty as [q|];
    cbn [opt_wf opt_stream_is] in *.
  - destruct (@Pairs p q (if rng then Some v else None)
                (if rng then Some w else None) Wp Wq
                ltac:(rewrite Sp; reflexivity)
                ltac:(rewrite Sq; reflexivity)
                ltac:(left; rewrite Sp; reflexivity))
      as (p' & q' & -> & Wp' & Wq' & Sp' & Sq').
    cbn [bind]. exists (Some p'), (Some q').
    cbn [opt_wf opt_stream_is]. rewrite Sp', Sq'.
    destruct rng; cbn [Delta.or_keep]; auto 10.
  - destruct (Leaf p (if rng then Some v else None) Wp Sp)
      as (p' & -> & Wp' & Sp').
    cbn [bind]. exists (Some p'), None. cbn [opt_wf opt_stream_is].
    destruct rng; cbn [Delta.or_keep]; auto 10.
  - destruct (Leaf q (if rng then Some w else None) Wq Sq)
      as (q' & -> & Wq' & Sq').
    cbn [bind]. exists None, (Some q'). cbn [opt_wf opt_stream_is].
    destruct rng; cbn [Delta.or_keep]; auto 10.
  - exists None, None. cbn. auto 10.
Qed.

Lemma ended_list_column_gives_empty_rows_witness :
  exists px' qty',
    append_list_pairs_for_row_typed
      (Int64Cursor_init
         {| Parquet.rd_descr := Fixture.leaf "ask.list.element.px" 2 1;
            Parquet.rd_slots := []; Parquet.rd_stored := [];
            Parquet.rd_damaged := false |})
      (Int64Cursor_init Fixture.ask_qty_reader) (Some [7]) (Some [8])
    = Ok (0, (px', qty'), (Some [7], Some [8]))
    /\ stream qty' = stream (Int64Cursor_init Fixture.ask_qty_reader).
Proof.
  destruct (proj1 (proj2 ended_list_column_gives_empty_rows)
              (Int64Cursor_init
                 {| Parquet.rd_descr := Fixture.leaf "ask.list.element.px" 2 1;
                    Parquet.rd_slots := []; Parquet.rd_stored := [];
                    Parquet.rd_damaged := false |})
              (Int64Cursor_init Fixture.ask_qty_reader) (Some [7]) (Some [8])
              (cursor_wf_init _) (cursor_wf_init _)
              eq_refl ltac:(vm_compute; reflexivity) (or_introl eq_refl))
    as (px' & qty' & E & _ & _ & _ & S).
  exists px', qty'. split; [exact E | exact S].
Defined.
